(** * Review collection and summarisation core of datepalmbay-api

    A shallow embedding of the hashtag-driven collection path
    (services/youtube.js, services/instagram.js,
    services/snsReviewCollector.js), of the keyword summariser and of the
    AI-assisted resolution chain, followed by the properties proved about
    them.

    Conventions of the embedding.
    - A JavaScript string is the list of its UTF-16 code units.
    - A JavaScript number that the code only uses as an integer is a [Z],
      [N] or [nat]; the weights and ratios of the scorers are exact
      rationals ([Q]), so IEEE rounding error is not part of the model.
    - Mutable module state is passed explicitly; collaborators outside the
      repository (search adapters, the AI client, the clock) are arguments
      whose answers are universally quantified in the theorems. *)

From Stdlib Require Import QArith Qround.
From stdpp Require Import base decidable option list numbers sorting gmap strings pretty.

Local Open Scope Z_scope.

(** ** JavaScript primitives used by the services *)

Module JS.

Abbreviation jsstring := (list N).

(** A string literal made of ASCII characters. *)
Definition js (s : string) : jsstring :=
  (λ a, Ascii.N_of_ascii a) <$> String.list_ascii_of_string s.

Definition between (lo hi c : N) : bool := ((lo <=? c) && (c <=? hi))%N.

Definition is_upper (c : N) : bool := between 65 90 c.   (* A-Z *)
Definition is_lower (c : N) : bool := between 97 122 c.  (* a-z *)
Definition is_digit (c : N) : bool := between 48 57 c.   (* 0-9 *)
(** Hangul syllables, the range written 가-힣 in the regular expressions. *)
Definition is_hangul (c : N) : bool := between 0xAC00 0xD7A3 c.

(** [String.prototype.toLowerCase] on the code units the services meet:
    ASCII letters are folded; digits, punctuation and Hangul have no case
    and stay as they are. Cased letters outside ASCII are outside the
    model and are left unchanged too. *)
Definition lower_unit (c : N) : N := if is_upper c then (c + 32)%N else c.
Definition toLowerCase (s : jsstring) : jsstring := lower_unit <$> s.

Fixpoint startsWith (s p : jsstring) : bool :=
  match p, s with
  | [], _ => true
  | _ :: _, [] => false
  | a :: p', b :: s' => (a =? b)%N && startsWith s' p'
  end.

(** [s.includes(sub)] *)
Fixpoint includes (s sub : jsstring) : bool :=
  startsWith s sub ||
  match s with
  | [] => false
  | _ :: s' => includes s' sub
  end.

(** [arr.join(sep)] on an array of strings. *)
Fixpoint join (sep : jsstring) (arr : list jsstring) : jsstring :=
  match arr with
  | [] => []
  | [x] => x
  | x :: rest => x ++ sep ++ join sep rest
  end.

(** [s.replace(c, '')] for a one-unit pattern: the first occurrence goes. *)
Fixpoint replace_first (c : N) (s : jsstring) : jsstring :=
  match s with
  | [] => []
  | x :: s' => if (x =? c)%N then s' else x :: replace_first c s'
  end.

(** White space and line terminators stripped by [String.prototype.trim]. *)
Definition is_space (c : N) : bool :=
  between 9 13 c || (c =? 32)%N || (c =? 0xA0)%N || (c =? 0x1680)%N ||
  between 0x2000 0x200A c || (c =? 0x2028)%N || (c =? 0x2029)%N ||
  (c =? 0x202F)%N || (c =? 0x205F)%N || (c =? 0x3000)%N || (c =? 0xFEFF)%N.

Fixpoint take_while {A} (p : A → bool) (l : list A) : list A :=
  match l with
  | x :: l' => if p x then x :: take_while p l' else []
  | [] => []
  end.

Fixpoint drop_while {A} (p : A → bool) (l : list A) : list A :=
  match l with
  | x :: l' => if p x then drop_while p l' else l
  | [] => []
  end.

Definition trim (s : jsstring) : jsstring :=
  reverse (drop_while is_space (reverse (drop_while is_space s))).

(** [s.replace(/\s+/g, '')] *)
Definition remove_spaces (s : jsstring) : jsstring :=
  filter (λ c, is_space c = false) s.

(** [[...new Set(xs)]]: values in order of first insertion. *)
Definition Set_values `{EqDecision A} (xs : list A) : list A :=
  fold_left (λ seen x, if decide (x ∈ seen) then seen else seen ++ [x]) xs [].

(** [Math.round]: nearest integer, halves towards +infinity. *)
Definition Math_round (x : Q) : Z := Qfloor (x + (1 # 2)).

(** [Math.min] on integers. *)
Definition Math_min (a b : Z) : Z := Z.min a b.

(** [Array.prototype.sort] with a comparator, given as the test "a may
    stay before b" (the comparator does not return a positive number).
    The sort is stable, so insertion from the right computes its result. *)
Fixpoint sort_insert {A} (le : A → A → bool) (x : A) (l : list A) : list A :=
  match l with
  | [] => [x]
  | y :: l' => if le x y then x :: y :: l' else y :: sort_insert le x l'
  end.

Definition Array_sort {A} (le : A → A → bool) (l : list A) : list A :=
  foldr (sort_insert le) [] l.

(** Order of strings by code units, the order of [<] on strings and of
    the default [sort()]. *)
Fixpoint str_le (a b : jsstring) : bool :=
  match a, b with
  | [], _ => true
  | _ :: _, [] => false
  | x :: a', y :: b' => (x <? y)%N || ((x =? y)%N && str_le a' b')
  end.

(** [String(n)] for a non-negative integer. *)
Definition Number_toString (n : N) : jsstring := js (pretty n).

(** [Buffer.from(s, 'base64')]: characters outside the alphabet are
    skipped, decoding stops at the first padding character, and the URL
    alphabet is accepted as well. *)
Definition unbase64 (c : N) : option N :=
  if is_upper c then Some (c - 65)%N
  else if is_lower c then Some (c - 97 + 26)%N
  else if is_digit c then Some (c - 48 + 52)%N
  else if (c =? 43)%N || (c =? 45)%N then Some 62%N   (* + - *)
  else if (c =? 47)%N || (c =? 95)%N then Some 63%N   (* / _ *)
  else None.

Fixpoint sextets (s : jsstring) : list N :=
  match s with
  | [] => []
  | c :: s' =>
      if (c =? 61)%N then []                          (* = *)
      else match unbase64 c with
           | Some v => v :: sextets s'
           | None => sextets s'
           end
  end.

Fixpoint bytes_of_sextets (l : list N) : list N :=
  match l with
  | a :: b :: c :: d :: rest =>
      ((a * 4 + b / 16) :: ((b mod 16) * 16 + c / 4) :: ((c mod 4) * 64 + d)
        :: bytes_of_sextets rest)%N
  | [a; b; c] => [a * 4 + b / 16; (b mod 16) * 16 + c / 4]%N
  | [a; b] => [a * 4 + b / 16]%N
  | _ => []
  end.

Definition Buffer_from_base64 (s : jsstring) : list N :=
  bytes_of_sextets (sextets s).

(** [buf.toString('utf-8')]: UTF-8 to UTF-16, every maximal ill-formed
    prefix replaced by U+FFFD. [skip] counts the bytes already consumed by
    the sequence decoded at an earlier position. *)
Definition is_cont (b : N) : bool := between 0x80 0xBF b.

Definition utf16_of_code_point (cp : N) : jsstring :=
  if (cp <? 0x10000)%N then [cp]
  else [0xD800 + (cp - 0x10000) / 0x400; 0xDC00 + (cp - 0x10000) mod 0x400]%N.

(** The code units decoded at the head of [bs] and the number of bytes
    they take. *)
Definition utf8_step (b0 : N) (rest : list N) : jsstring * nat :=
  let bad n := ([0xFFFD%N], n) in
  if (b0 <? 0x80)%N then ([b0], 1%nat)
  else if between 0xC2 0xDF b0 then
    match rest with
    | b1 :: _ => if is_cont b1 then ([(b0 - 0xC0) * 64 + (b1 - 0x80)]%N, 2%nat)
                 else bad 1%nat
    | [] => bad 1%nat
    end
  else if between 0xE0 0xEF b0 then
    let lo := if (b0 =? 0xE0)%N then 0xA0%N else 0x80%N in
    let hi := if (b0 =? 0xED)%N then 0x9F%N else 0xBF%N in
    match rest with
    | b1 :: rest1 =>
        if between lo hi b1 then
          match rest1 with
          | b2 :: _ =>
              if is_cont b2
              then ([(b0 - 0xE0) * 4096 + (b1 - 0x80) * 64 + (b2 - 0x80)]%N, 3%nat)
              else bad 2%nat
          | [] => bad 2%nat
          end
        else bad 1%nat
    | [] => bad 1%nat
    end
  else if between 0xF0 0xF4 b0 then
    let lo := if (b0 =? 0xF0)%N then 0x90%N else 0x80%N in
    let hi := if (b0 =? 0xF4)%N then 0x8F%N else 0xBF%N in
    match rest with
    | b1 :: rest1 =>
        if between lo hi b1 then
          match rest1 with
          | b2 :: rest2 =>
              if is_cont b2 then
                match rest2 with
                | b3 :: _ =>
                    if is_cont b3
                    then (utf16_of_code_point
                            ((b0 - 0xF0) * 262144 + (b1 - 0x80) * 4096
                             + (b2 - 0x80) * 64 + (b3 - 0x80))%N, 4%nat)
                    else bad 3%nat
                | [] => bad 3%nat
                end
              else bad 2%nat
          | [] => bad 2%nat
          end
        else bad 1%nat
    | [] => bad 1%nat
    end
  else bad 1%nat.

Fixpoint utf8_decode (bs : list N) (skip : nat) : jsstring :=
  match bs with
  | [] => []
  | b0 :: rest =>
      match skip with
      | S k => utf8_decode rest k
      | O => let '(units, n) := utf8_step b0 rest in
             units ++ utf8_decode rest (Nat.pred n)
      end
  end.

Definition Buffer_toString_utf8 (bs : list N) : jsstring := utf8_decode bs 0.

End JS.

Import JS.

(** ** Records shared by the services *)

(** What [product.detailInfo] can hold. *)
Inductive DetailInfo :=
  | DetailMissing                 (* undefined or null *)
  | DetailText (s : jsstring)     (* a string, normally base64 of HTML *)
  | DetailOther.                  (* any truthy value [Buffer.from] rejects *)

Record Product := {
  productCode : jsstring;
  productName : jsstring;
  productSaleStatus : bool;
  detailInfo : DetailInfo;
}.

(** ** services/youtube.js *)

Module Youtube.

(** The character class [[a-zA-Z0-9가-힣_]] of [hashtagRegex]. *)
Definition hashtag_char (c : N) : bool :=
  is_lower c || is_upper c || is_digit c || is_hangul c || (c =? 95)%N.

Definition hash : N := 35.  (* # *)

(** [decodedHtml.match(/#([a-zA-Z0-9가-힣_]+)/g) || []]: at every position
    that no earlier match covers, a [#] followed by the longest non-empty
    run of class characters is a match; [skip] counts the units of the
    last match still to pass. *)
Fixpoint match_hashtagRegex (s : jsstring) (skip : nat) : list jsstring :=
  match s with
  | [] => []
  | c :: rest =>
      match skip with
      | S k => match_hashtagRegex rest k
      | O =>
          if (c =? hash)%N then
            match take_while hashtag_char rest with
            | [] => match_hashtagRegex rest 0
            | run => (c :: run) :: match_hashtagRegex rest (length run)
            end
          else match_hashtagRegex rest 0
      end
  end.

(** [!product.detailInfo] *)
Definition detailInfo_falsy (d : DetailInfo) : bool :=
  match d with
  | DetailMissing => true
  | DetailText [] => true
  | DetailText (_ :: _) => false
  | DetailOther => false
  end.

(** [Buffer.from(product.detailInfo, 'base64').toString('utf-8')];
    [None] is the TypeError thrown for an argument that is not a string. *)
Definition decode_detailInfo (d : DetailInfo) : option jsstring :=
  match d with
  | DetailText s => Some (Buffer_toString_utf8 (Buffer_from_base64 s))
  | _ => None
  end.

Definition extractHashtagsFromProduct (product : Product) : list jsstring :=
  if detailInfo_falsy (detailInfo product) then []
  else
    match decode_detailInfo (detailInfo product) with
    | Some decodedHtml =>
        let matches := match_hashtagRegex decodedHtml 0 in
        Set_values ((λ tag, trim (replace_first hash tag)) <$> matches)
    | None => []   (* catch *)
    end.

(** [getCombinations(arr, size)] for [size >= 1]. The loop runs [i] from
    0 to [arr.length - size] and is empty when that bound is negative.
    No caller passes 0, for which the JavaScript recursion only ends on
    the empty array. *)
Fixpoint getCombinations {A} (arr : list A) (size : nat) : list (list A) :=
  match size with
  | O => match arr with [] => [[]] | _ => [] end
  | S size' =>
      if (size =? 1)%nat then (λ item, [item]) <$> arr
      else if (size =? length arr)%nat then [arr]
      else
        if (length arr <? size)%nat then []
        else
          flat_map
            (λ i, match arr !! i with
                  | Some head =>
                      (λ tail, head :: tail) <$> getCombinations (drop (i + 1) arr) size'
                  | None => []
                  end)
            (seq 0 (length arr - size + 1))
  end.

Definition review_suffix : jsstring := js " review".
Definition review_suffix_ko : jsstring := 32%N :: [0xB9AC; 0xBDF0]%N.  (* " 리뷰" *)

(** Sizes [hashtags.length], ..., 1 of the outer loop. *)
Definition sizes_down (n : nat) : list nat := reverse (seq 1 n).

Definition generateHashtagSearchQueries
    (hashtags : list jsstring) (productName : jsstring) : list jsstring :=
  let queries :=
    if (0 <? length hashtags)%nat then
      flat_map
        (λ size, (λ combo, join (js " ") combo ++ review_suffix)
                   <$> getCombinations hashtags size)
        (sizes_down (length hashtags))
    else [] in
  let queries :=
    if (length queries =? 0)%nat
    then [productName ++ review_suffix; productName ++ review_suffix_ko]
    else queries in
  Set_values queries.

(** A search hit, as [getVideoDetails] returns it. *)
Record Video := {
  videoId : jsstring;
  v_title : jsstring;
  v_description : jsstring;
  channelTitle : jsstring;
  channelId : jsstring;
  v_publishedAt : jsstring;
  v_thumbnailUrl : jsstring;
  v_viewCount : Z;
  v_likeCount : Z;
}.

End Youtube.

(** ** services/instagram.js *)

Module Instagram.

(** A post as [searchProductPosts] returns it; a missing caption or URL is
    the empty string. *)
Record Post := {
  postId : jsstring;
  caption : jsstring;
  mediaType : jsstring;
  mediaUrl : jsstring;
  permalink : jsstring;
  p_thumbnailUrl : jsstring;
  p_timestamp : jsstring;
  username : jsstring;
  p_likeCount : Z;
  commentsCount : Z;
}.

Definition reviewKeywords : list jsstring :=
  [ [0xB9AC; 0xBDF0]%N;            (* 리뷰 *)
    js "review";
    [0xD6C4; 0xAE30]%N;            (* 후기 *)
    [0xCD94; 0xCC9C]%N;            (* 추천 *)
    js "recommend";
    [0xC88B; 0xC544; 0xC694]%N;    (* 좋아요 *)
    js "love"; js "amazing"; js "best" ].

Definition calculateMatchScore
    (post : Post) (product : Product) (hashtags : list jsstring) : Z :=
  let score := 0 in
  let caption := toLowerCase (caption post) in
  let matchedHashtags :=
    filter (λ tag, includes caption (Youtube.hash :: toLowerCase tag)
                   || includes caption (toLowerCase tag) = true) hashtags in
  let score := score + Math_min (Z.of_nat (length matchedHashtags) * 20) 60 in
  let productNameLower := remove_spaces (toLowerCase (productName product)) in
  let score := if includes caption productNameLower then score + 30 else score in
  let score :=
    if existsb (λ kw, includes caption (toLowerCase kw)) reviewKeywords
    then score + 10 else score in
  score.

End Instagram.

(** ** services/snsReviewCollector.js *)

Module Collector.

Inductive Platform := YOUTUBE | INSTAGRAM | TIKTOK.
Inductive Status := PENDING | APPROVED | REJECTED.

Global Instance Platform_eq_dec : EqDecision Platform.
Proof. solve_decision. Defined.

Record MatchedProduct := {
  mp_productCode : jsstring;
  matchScore : Z;
}.

Record SocialReview := {
  id : N;
  platform : Platform;
  externalId : jsstring;
  contentUrl : jsstring;
  thumbnailUrl : jsstring;
  title : jsstring;
  description : jsstring;
  authorName : jsstring;
  authorId : jsstring;
  publishedAt : jsstring;
  viewCount : Z;
  likeCount : Z;
  commentCount : option Z;
  r_mediaType : option jsstring;
  status : Status;
  matchedProducts : list MatchedProduct;
  createdAt : jsstring;
}.

Definition MAX_REVIEWS_PER_PRODUCT : nat := 50.

(** The module variables. [saved] counts the calls of [saveCallback]. *)
Record State := {
  snsReviewsRef : option (list SocialReview);
  productsRef : option (list Product);
  saveCallback : bool;
  nextReviewId : N;
  saved : nat;
}.

Record Outcome := {
  success : bool;
  collected : nat;
  setupRequired : bool;
}.

(** The collaborators of one run: the search adapters ([None] when the
    call throws), the Instagram connection check and the value of
    [new Date().toISOString()]. *)
Record World := {
  searchProductReviews : Product → option (list Youtube.Video);
  instagram_connected : bool;
  searchProductPosts : Product → list jsstring → option (list Instagram.Post);
  now_iso : jsstring;
}.

(** [snsReviewsRef.some(r => r.platform === p && r.externalId === ext)] *)
Definition already_collected
    (store : list SocialReview) (p : Platform) (ext : jsstring) : bool :=
  existsb (λ r, bool_decide (platform r = p) && bool_decide (externalId r = ext)) store.

(** The matching step of the YouTube loop: the values of [isMatched] and
    [matchScore] when it is over. *)
Definition youtube_match
    (product : Product) (hashtags : list jsstring) (video : Youtube.Video) : bool * Z :=
  let searchText :=
    toLowerCase (Youtube.v_title video ++ js " " ++ Youtube.v_description video) in
  let productNameLower := toLowerCase (trim (productName product)) in
  let '(isMatched, matchScore) := (false, 0) in
  let '(isMatched, matchScore) :=
    if (0 <? length hashtags)%nat then
      let matchedHashtags :=
        filter (λ tag, includes searchText (toLowerCase tag) = true) hashtags in
      if (0 <? length matchedHashtags)%nat then
        (true,
         Math_round
           ((inject_Z (Z.of_nat (length matchedHashtags))
             / inject_Z (Z.of_nat (length hashtags))) * 100)%Q)
      else (isMatched, matchScore)
    else (isMatched, matchScore) in
  if negb isMatched && includes searchText productNameLower
  then (true, 80)
  else (isMatched, matchScore).

Definition youtube_review
    (w : World) (rid : N) (product : Product) (video : Youtube.Video) (score : Z)
    : SocialReview :=
  {| id := rid;
     platform := YOUTUBE;
     externalId := Youtube.videoId video;
     contentUrl := js "https://www.youtube.com/watch?v=" ++ Youtube.videoId video;
     thumbnailUrl := Youtube.v_thumbnailUrl video;
     title := Youtube.v_title video;
     description := Youtube.v_description video;
     authorName := Youtube.channelTitle video;
     authorId := Youtube.channelId video;
     publishedAt := Youtube.v_publishedAt video;
     viewCount := Youtube.v_viewCount video;
     likeCount := Youtube.v_likeCount video;
     commentCount := None;
     r_mediaType := None;
     status := PENDING;
     matchedProducts := [ {| mp_productCode := productCode product; matchScore := score |} ];
     createdAt := now_iso w |}.

(** The state of the loops: the live review array, the id counter and
    [totalCollectedCount]. *)
Record Loop := {
  store : list SocialReview;
  next : N;
  total : nat;
}.

(** [for (const video of videos)]; [count] is [productCollectedCount]. *)
Fixpoint youtube_videos
    (w : World) (product : Product) (hashtags : list jsstring)
    (videos : list Youtube.Video) (count : nat) (l : Loop) : Loop :=
  match videos with
  | [] => l
  | video :: rest =>
      if (MAX_REVIEWS_PER_PRODUCT <=? count)%nat then l                    (* break *)
      else if already_collected (store l) YOUTUBE (Youtube.videoId video)
      then youtube_videos w product hashtags rest count l                  (* continue *)
      else
        let '(isMatched, matchScore) := youtube_match product hashtags video in
        if isMatched then
          youtube_videos w product hashtags rest (S count)
            {| store := store l ++ [youtube_review w (next l) product video matchScore];
               next := (next l + 1)%N;
               total := S (total l) |}
        else youtube_videos w product hashtags rest count l
  end.

(** One turn of [for (const product of activeProducts)]. *)
Definition youtube_product (w : World) (l : Loop) (product : Product) : Loop :=
  let hashtags := Youtube.extractHashtagsFromProduct product in
  match searchProductReviews w product with
  | Some videos => youtube_videos w product hashtags videos 0 l
  | None => l    (* catch *)
  end.

Definition failure (setup : bool) : Outcome :=
  {| success := false; collected := 0; setupRequired := setup |}.

Definition finish (st : State) (l : Loop) : Outcome * State :=
  ({| success := true; collected := total l; setupRequired := false |},
   {| snsReviewsRef := Some (store l);
      productsRef := productsRef st;
      saveCallback := saveCallback st;
      nextReviewId := next l;
      saved := if (0 <? total l)%nat && saveCallback st then S (saved st) else saved st |}).

Definition collectYouTubeReviews (w : World) (st : State) : Outcome * State :=
  match productsRef st, snsReviewsRef st with
  | Some products, Some reviews =>
      let activeProducts := filter (λ p, productSaleStatus p = true) products in
      finish st
        (fold_left (youtube_product w) activeProducts
           {| store := reviews; next := nextReviewId st; total := 0 |})
  | _, _ => (failure false, st)
  end.

Definition instagram_review
    (w : World) (rid : N) (product : Product) (post : Instagram.Post) (score : Z)
    : SocialReview :=
  {| id := rid;
     platform := INSTAGRAM;
     externalId := Instagram.postId post;
     contentUrl := Instagram.permalink post;
     thumbnailUrl := match Instagram.p_thumbnailUrl post with
                     | [] => Instagram.mediaUrl post
                     | url => url
                     end;
     title := js "@" ++ Instagram.username post
              ++ [0xC758; 32; 73; 110; 115; 116; 97; 103; 114; 97; 109; 32;
                  0xAC8C; 0xC2DC; 0xBB3C]%N;   (* 의 Instagram 게시물 *)
     description := Instagram.caption post;
     authorName := Instagram.username post;
     authorId := Instagram.username post;
     publishedAt := Instagram.p_timestamp post;
     viewCount := 0;
     likeCount := Instagram.p_likeCount post;
     commentCount := Some (Instagram.commentsCount post);
     r_mediaType := Some (Instagram.mediaType post);
     status := PENDING;
     matchedProducts := [ {| mp_productCode := productCode product; matchScore := score |} ];
     createdAt := now_iso w |}.

(** [for (const post of posts)] *)
Fixpoint instagram_posts
    (w : World) (product : Product) (hashtags : list jsstring)
    (posts : list Instagram.Post) (count : nat) (l : Loop) : Loop :=
  match posts with
  | [] => l
  | post :: rest =>
      if (MAX_REVIEWS_PER_PRODUCT <=? count)%nat then l                    (* break *)
      else if already_collected (store l) INSTAGRAM (Instagram.postId post)
      then instagram_posts w product hashtags rest count l                 (* continue *)
      else
        let matchScore := Instagram.calculateMatchScore post product hashtags in
        if 20 <=? matchScore then
          instagram_posts w product hashtags rest (S count)
            {| store := store l ++ [instagram_review w (next l) product post matchScore];
               next := (next l + 1)%N;
               total := S (total l) |}
        else instagram_posts w product hashtags rest count l
  end.

Definition instagram_product (w : World) (l : Loop) (product : Product) : Loop :=
  let hashtags := Youtube.extractHashtagsFromProduct product in
  match searchProductPosts w product hashtags with
  | Some posts => instagram_posts w product hashtags posts 0 l
  | None => l    (* catch *)
  end.

Definition collectInstagramReviews (w : World) (st : State) : Outcome * State :=
  match productsRef st, snsReviewsRef st with
  | Some products, Some reviews =>
      if instagram_connected w then
        let activeProducts := filter (λ p, productSaleStatus p = true) products in
        finish st
          (fold_left (instagram_product w) activeProducts
             {| store := reviews; next := nextReviewId st; total := 0 |})
      else (failure true, st)
  | _, _ => (failure false, st)
  end.

(** The key that must stay unique in the store. *)
Definition review_key (r : SocialReview) : Platform * jsstring :=
  (platform r, externalId r).

End Collector.

(** ** The keyword summariser (Review Summarizer Service) *)

Module ReviewSummarizer.

Inductive Polarity := positive | negative | neutral.

Global Instance Polarity_eq_dec : EqDecision Polarity.
Proof. solve_decision. Defined.

(** One entry of a category of [KEYWORD_DICTIONARY]. *)
Record KeywordInfo := kw {
  weight : Q;
  k_sentiment : option Polarity;
  k_en : option jsstring;
}.

Inductive Category :=
  texture | ingredients | effects | scent | usageFeel | target | sentiment.

Global Instance Category_eq_dec : EqDecision Category.
Proof. solve_decision. Defined.

Definition texture_keywords : list (jsstring * KeywordInfo) :=
  [
    ([0xD06C; 0xB9BC]%N (* 크림 *), kw 1 (None) (Some (js "cream")));
    ([0xC824]%N (* 젤 *), kw 1 (None) (Some (js "gel")));
    ([0xB85C; 0xC158]%N (* 로션 *), kw 1 (None) (Some (js "lotion")));
    ([0xC138; 0xB7FC]%N (* 세럼 *), kw 1 (None) (Some (js "serum")));
    ([0xC5D0; 0xC13C; 0xC2A4]%N (* 에센스 *), kw 1 (None) (Some (js "essence")));
    ([0xC624; 0xC77C]%N (* 오일 *), kw 1 (None) (Some (js "oil")));
    ([0xC6CC; 0xD130]%N (* 워터 *), kw 1 (None) (Some (js "water")));
    ([0xD3FC]%N (* 폼 *), kw 1 (None) (Some (js "foam")));
    ([0xBC24]%N (* 밤 *), kw 1 (None) (Some (js "balm")));
    ([0xD30C; 0xC6B0; 0xB354]%N (* 파우더 *), kw 1 (None) (Some (js "powder")));
    ([0xBB3D; 0xC740]%N (* 묽은 *), kw (8 # 10) (None) (Some (js "light")));
    ([0xC9C4; 0xD55C]%N (* 진한 *), kw (8 # 10) (None) (Some (js "thick")));
    ([0xAC00; 0xBCBC; 0xC6B4]%N (* 가벼운 *), kw (8 # 10) (None) (Some (js "lightweight")));
    ([0xBB34; 0xAC70; 0xC6B4]%N (* 무거운 *), kw (8 # 10) (None) (Some (js "heavy")));
    ([0xBD80; 0xB4DC; 0xB7EC; 0xC6B4]%N (* 부드러운 *), kw (8 # 10) (None) (Some (js "smooth")));
    ([0xCAC0; 0xCAC0; 0xD55C]%N (* 쫀쫀한 *), kw (8 # 10) (None) (Some (js "bouncy")));
    ([0xCD09; 0xCD09; 0xD55C]%N (* 촉촉한 *), kw (8 # 10) (None) (Some (js "hydrating")));
    ([0xC138; 0xCEE8; 0xB4DC; 0xC2A4; 0xD0A8]%N (* 세컨드스킨 *), kw (12 # 10) (None) (Some (js "second-skin")));
    ([0xBE14; 0xB7EC; 0xB9C1]%N (* 블러링 *), kw (12 # 10) (None) (Some (js "blurring")));
    ([0xB9BD; 0xC624; 0xC77C]%N (* 립오일 *), kw (11 # 10) (None) (Some (js "lip oil")));
    ([0xB9BD; 0xAE00; 0xB85C; 0xC2A4]%N (* 립글로스 *), kw 1 (None) (Some (js "lip gloss")));
    ([0xD558; 0xC774; 0xBE0C; 0xB9AC; 0xB4DC]%N (* 하이브리드 *), kw (11 # 10) (None) (Some (js "hybrid")));
    ([0xCFE0; 0xC158]%N (* 쿠션 *), kw 1 (None) (Some (js "cushion")));
    (js "cream", kw 1 (None) (None));
    (js "gel", kw 1 (None) (None));
    (js "lotion", kw 1 (None) (None));
    (js "serum", kw 1 (None) (None));
    (js "essence", kw 1 (None) (None));
    (js "oil", kw 1 (None) (None));
    (js "water", kw 1 (None) (None));
    (js "foam", kw 1 (None) (None));
    (js "balm", kw 1 (None) (None));
    (js "lightweight", kw (8 # 10) (None) (None));
    (js "thick", kw (8 # 10) (None) (None));
    (js "smooth", kw (8 # 10) (None) (None));
    (js "bouncy", kw (8 # 10) (None) (None));
    (js "second-skin", kw (12 # 10) (None) (None));
    (js "second skin", kw (12 # 10) (None) (None));
    (js "skin-like", kw (11 # 10) (None) (None));
    (js "blurring", kw (12 # 10) (None) (None));
    (js "blur", kw (11 # 10) (None) (None));
    (js "soft-focus", kw (11 # 10) (None) (None));
    (js "soft focus", kw (11 # 10) (None) (None));
    (js "lip oil", kw (11 # 10) (None) (None));
    (js "lip gloss", kw 1 (None) (None));
    (js "lip tint", kw 1 (None) (None));
    (js "hybrid makeup", kw (11 # 10) (None) (None));
    (js "hybrid", kw 1 (None) (None));
    (js "skincare-makeup", kw (11 # 10) (None) (None));
    (js "cushion", kw 1 (None) (None));
    (js "cushion compact", kw 1 (None) (None));
    (js "bb cream", kw 1 (None) (None));
    (js "cc cream", kw 1 (None) (None));
    (js "tinted moisturizer", kw 1 (None) (None));
    (js "skin tint", kw 1 (None) (None));
    (js "no-makeup makeup", kw (11 # 10) (None) (None));
    (js "natural finish", kw 1 (None) (None));
    (js "matte", kw 1 (None) (None));
    (js "dewy finish", kw (11 # 10) (None) (None));
    (js "satin", kw 1 (None) (None));
    (js "velvet", kw 1 (None) (None));
    (js "glossy", kw 1 (None) (None));
    (js "sheer", kw 1 (None) (None));
    (js "buildable", kw 1 (None) (None));
    (js "full coverage", kw 1 (None) (None));
    (js "light coverage", kw 1 (None) (None));
    (js "medium coverage", kw 1 (None) (None));
    (js "transfer-proof", kw 1 (None) (None));
    (js "long-wear", kw 1 (None) (None));
    (js "long-lasting", kw 1 (None) (None));
    (js "waterproof", kw 1 (None) (None));
    (js "water-resistant", kw 1 (None) (None));
    (js "smudge-proof", kw 1 (None) (None));
    (js "mask-proof", kw (11 # 10) (None) (None)) ].

Definition ingredients_keywords : list (jsstring * KeywordInfo) :=
  [
    ([0xD788; 0xC54C; 0xB8E8; 0xB860; 0xC0B0]%N (* 히알루론산 *), kw 1 (None) (Some (js "hyaluronic acid")));
    ([0xBE44; 0xD0C0; 0xBBFC; 0x0043]%N (* 비타민C *), kw 1 (None) (Some (js "vitamin C")));
    ([0xBE44; 0xD0C0; 0xBBFC]%N (* 비타민 *), kw (8 # 10) (None) (Some (js "vitamin")));
    ([0xB098; 0xC774; 0xC544; 0xC2E0; 0xC544; 0xB9C8; 0xC774; 0xB4DC]%N (* 나이아신아마이드 *), kw 1 (None) (Some (js "niacinamide")));
    ([0xB808; 0xD2F0; 0xB180]%N (* 레티놀 *), kw 1 (None) (Some (js "retinol")));
    ([0xC138; 0xB77C; 0xB9C8; 0xC774; 0xB4DC]%N (* 세라마이드 *), kw 1 (None) (Some (js "ceramide")));
    ([0xCF5C; 0xB77C; 0xAC90]%N (* 콜라겐 *), kw 1 (None) (Some (js "collagen")));
    ([0xD3A9; 0xD0C0; 0xC774; 0xB4DC]%N (* 펩타이드 *), kw 1 (None) (Some (js "peptide")));
    (js "AHA", kw 1 (None) (Some (js "AHA")));
    (js "BHA", kw 1 (None) (Some (js "BHA")));
    ([0xC0B4; 0xB9AC; 0xC2E4; 0xC0B0]%N (* 살리실산 *), kw 1 (None) (Some (js "salicylic acid")));
    ([0xAE00; 0xB9AC; 0xCF5C; 0xC0B0]%N (* 글리콜산 *), kw 1 (None) (Some (js "glycolic acid")));
    ([0xD2F0; 0xD2B8; 0xB9AC]%N (* 티트리 *), kw 1 (None) (Some (js "tea tree")));
    ([0xC54C; 0xB85C; 0xC5D0]%N (* 알로에 *), kw 1 (None) (Some (js "aloe")));
    ([0xB179; 0xCC28]%N (* 녹차 *), kw 1 (None) (Some (js "green tea")));
    ([0xC13C; 0xD154; 0xB77C]%N (* 센텔라 *), kw 1 (None) (Some (js "centella")));
    ([0xBCD1; 0xD480]%N (* 병풀 *), kw 1 (None) (Some (js "centella")));
    ([0xB9C8; 0xB370; 0xCE74]%N (* 마데카 *), kw 1 (None) (Some (js "madeca")));
    ([0xC2A4; 0xCFE0; 0xC54C; 0xB780]%N (* 스쿠알란 *), kw 1 (None) (Some (js "squalane")));
    ([0xD504; 0xB85C; 0xD3F4; 0xB9AC; 0xC2A4]%N (* 프로폴리스 *), kw 1 (None) (Some (js "propolis")));
    ([0xB2EC; 0xD33D; 0xC774]%N (* 달팽이 *), kw 1 (None) (Some (js "snail mucin")));
    ([0xD53C; 0xB514; 0xC54C; 0xC5D4]%N (* 피디알엔 *), kw (12 # 10) (None) (Some (js "PDRN")));
    ([0xC5D1; 0xC18C; 0xC880]%N (* 엑소좀 *), kw (12 # 10) (None) (Some (js "exosomes")));
    ([0xD3F4; 0xB9AC; 0xB274; 0xD074; 0xB808; 0xC624; 0xD0C0; 0xC774; 0xB4DC]%N (* 폴리뉴클레오타이드 *), kw (12 # 10) (None) (Some (js "polynucleotides")));
    ([0xBC14; 0xCFE0; 0xCE58; 0xC62C]%N (* 바쿠치올 *), kw (12 # 10) (None) (Some (js "bakuchiol")));
    ([0xAE00; 0xB8E8; 0xD0C0; 0xCE58; 0xC628]%N (* 글루타치온 *), kw (12 # 10) (None) (Some (js "glutathione")));
    ([0xD2B8; 0xB77C; 0xB125; 0xC0BC; 0xC0B0]%N (* 트라넥삼산 *), kw (12 # 10) (None) (Some (js "tranexamic acid")));
    ([0xC544; 0xC824; 0xB77C; 0xC0B0]%N (* 아젤라산 *), kw (12 # 10) (None) (Some (js "azelaic acid")));
    ([0xD3EC; 0xC2A4; 0xD2B8; 0xBC14; 0xC774; 0xC624; 0xD2F1; 0xC2A4]%N (* 포스트바이오틱스 *), kw (12 # 10) (None) (Some (js "postbiotics")));
    ([0xB808; 0xC2A4; 0xBCA0; 0xB77C; 0xD2B8; 0xB864]%N (* 레스베라트롤 *), kw (12 # 10) (None) (Some (js "resveratrol")));
    (js "hyaluronic", kw 1 (None) (None));
    (js "vitamin", kw (8 # 10) (None) (None));
    (js "niacinamide", kw 1 (None) (None));
    (js "retinol", kw 1 (None) (None));
    (js "ceramide", kw 1 (None) (None));
    (js "collagen", kw 1 (None) (None));
    (js "peptide", kw 1 (None) (None));
    (js "centella", kw 1 (None) (None));
    (js "squalane", kw 1 (None) (None));
    (js "propolis", kw 1 (None) (None));
    (js "snail", kw 1 (None) (None));
    (js "pdrn", kw (12 # 10) (None) (None));
    (js "phyto-pdrn", kw (12 # 10) (None) (None));
    (js "exosomes", kw (12 # 10) (None) (None));
    (js "exosome", kw (12 # 10) (None) (None));
    (js "polynucleotides", kw (12 # 10) (None) (None));
    (js "polynucleotide", kw (12 # 10) (None) (None));
    (js "pn", kw 1 (None) (None));
    (js "nmn", kw (12 # 10) (None) (None));
    (js "nhn", kw (12 # 10) (None) (None));
    (js "ectoin", kw (12 # 10) (None) (None));
    (js "bakuchiol", kw (12 # 10) (None) (None));
    (js "egf", kw (12 # 10) (None) (None));
    (js "fgf", kw (12 # 10) (None) (None));
    (js "postbiotics", kw (12 # 10) (None) (None));
    (js "postbiotic", kw (12 # 10) (None) (None));
    (js "probiotics", kw (11 # 10) (None) (None));
    (js "prebiotics", kw (11 # 10) (None) (None));
    (js "glutathione", kw (12 # 10) (None) (None));
    (js "copper tripeptide", kw (12 # 10) (None) (None));
    (js "copper peptide", kw (12 # 10) (None) (None));
    (js "ghk-cu", kw (12 # 10) (None) (None));
    (js "tranexamic", kw (12 # 10) (None) (None));
    (js "tranexamic acid", kw (12 # 10) (None) (None));
    (js "azelaic", kw (12 # 10) (None) (None));
    (js "azelaic acid", kw (12 # 10) (None) (None));
    (js "pha", kw (11 # 10) (None) (None));
    (js "lha", kw (11 # 10) (None) (None));
    (js "resveratrol", kw (12 # 10) (None) (None));
    (js "astaxanthin", kw (12 # 10) (None) (None));
    (js "fullerene", kw (12 # 10) (None) (None));
    (js "salmon", kw (11 # 10) (None) (None));
    (js "salmon dna", kw (12 # 10) (None) (None));
    (js "bifida", kw (11 # 10) (None) (None));
    (js "galactomyces", kw (11 # 10) (None) (None));
    (js "saccharomyces", kw (11 # 10) (None) (None));
    (js "ferment", kw 1 (None) (None));
    (js "fermented", kw 1 (None) (None));
    (js "adenosine", kw (11 # 10) (None) (None));
    (js "allantoin", kw 1 (None) (None));
    (js "panthenol", kw 1 (None) (None));
    (js "mugwort", kw (11 # 10) (None) (None));
    (js "artemisia", kw (11 # 10) (None) (None));
    (js "cica", kw (11 # 10) (None) (None));
    (js "madecassoside", kw (11 # 10) (None) (None));
    (js "beta glucan", kw (11 # 10) (None) (None));
    (js "licorice", kw 1 (None) (None));
    (js "arbutin", kw (11 # 10) (None) (None));
    (js "kojic acid", kw (11 # 10) (None) (None));
    (js "alpha arbutin", kw (11 # 10) (None) (None)) ].

Definition effects_keywords : list (jsstring * KeywordInfo) :=
  [
    ([0xBCF4; 0xC2B5]%N (* 보습 *), kw 1 (None) (Some (js "hydrating")));
    ([0xC218; 0xBD84]%N (* 수분 *), kw 1 (None) (Some (js "moisturizing")));
    ([0xBBF8; 0xBC31]%N (* 미백 *), kw 1 (None) (Some (js "brightening")));
    ([0xBE0C; 0xB77C; 0xC774; 0xD2B8; 0xB2DD]%N (* 브라이트닝 *), kw 1 (None) (Some (js "brightening")));
    ([0xD1A4; 0xC5C5]%N (* 톤업 *), kw 1 (None) (Some (js "tone-up")));
    ([0xD654; 0xC774; 0xD2B8; 0xB2DD]%N (* 화이트닝 *), kw 1 (None) (Some (js "whitening")));
    ([0xC8FC; 0xB984]%N (* 주름 *), kw 1 (None) (Some (js "anti-wrinkle")));
    ([0xD0C4; 0xB825]%N (* 탄력 *), kw 1 (None) (Some (js "firming")));
    ([0xB9AC; 0xD504; 0xD305]%N (* 리프팅 *), kw 1 (None) (Some (js "lifting")));
    ([0xC9C4; 0xC815]%N (* 진정 *), kw 1 (None) (Some (js "soothing")));
    ([0xD2B8; 0xB7EC; 0xBE14]%N (* 트러블 *), kw 1 (None) (Some (js "acne")));
    ([0xC5EC; 0xB4DC; 0xB984]%N (* 여드름 *), kw 1 (None) (Some (js "acne")));
    ([0xBAA8; 0xACF5]%N (* 모공 *), kw 1 (None) (Some (js "pore")));
    ([0xAC01; 0xC9C8]%N (* 각질 *), kw 1 (None) (Some (js "exfoliating")));
    ([0xD074; 0xB80C; 0xC9D5]%N (* 클렌징 *), kw 1 (None) (Some (js "cleansing")));
    ([0xB178; 0xD654; 0xBC29; 0xC9C0]%N (* 노화방지 *), kw 1 (None) (Some (js "anti-aging")));
    ([0xC548; 0xD2F0; 0xC5D0; 0xC774; 0xC9D5]%N (* 안티에이징 *), kw 1 (None) (Some (js "anti-aging")));
    ([0xC7AC; 0xC0DD]%N (* 재생 *), kw 1 (None) (Some (js "regenerating")));
    ([0xC601; 0xC591]%N (* 영양 *), kw (8 # 10) (None) (Some (js "nourishing")));
    ([0xC724; 0xAE30]%N (* 윤기 *), kw (8 # 10) (None) (Some (js "glow")));
    ([0xAD11; 0xCC44]%N (* 광채 *), kw (8 # 10) (None) (Some (js "radiance")));
    ([0xC2AC; 0xB85C; 0xC5D0; 0xC774; 0xC9D5]%N (* 슬로에이징 *), kw (12 # 10) (None) (Some (js "slow-aging")));
    ([0xC2A4; 0xD0A4; 0xB2C8; 0xBA40; 0xB9AC; 0xC998]%N (* 스키니멀리즘 *), kw (12 # 10) (None) (Some (js "skinimalism")));
    ([0xC720; 0xB9AC; 0xD53C; 0xBD80]%N (* 유리피부 *), kw (12 # 10) (None) (Some (js "glass skin")));
    ([0xAE00; 0xB798; 0xC2A4; 0xC2A4; 0xD0A8]%N (* 글래스스킨 *), kw (12 # 10) (None) (Some (js "glass skin")));
    ([0xBB3C; 0xAD11]%N (* 물광 *), kw (12 # 10) (None) (Some (js "dewy")));
    ([0xAD6C; 0xB984; 0xD53C; 0xBD80]%N (* 구름피부 *), kw (12 # 10) (None) (Some (js "cloud skin")));
    ([0xC7A5; 0xBCBD; 0xCF00; 0xC5B4]%N (* 장벽케어 *), kw (12 # 10) (None) (Some (js "barrier care")));
    ([0xD53C; 0xBD80; 0xC7A5; 0xBCBD]%N (* 피부장벽 *), kw (12 # 10) (None) (Some (js "skin barrier")));
    ([0xB9C8; 0xC774; 0xD06C; 0xB85C; 0xBC14; 0xC774; 0xC634]%N (* 마이크로바이옴 *), kw (12 # 10) (None) (Some (js "microbiome")));
    (js "hydrating", kw 1 (None) (None));
    (js "moisturizing", kw 1 (None) (None));
    (js "brightening", kw 1 (None) (None));
    (js "whitening", kw 1 (None) (None));
    (js "anti-aging", kw 1 (None) (None));
    (js "firming", kw 1 (None) (None));
    (js "soothing", kw 1 (None) (None));
    (js "acne", kw 1 (None) (None));
    (js "pore", kw 1 (None) (None));
    (js "exfoliating", kw 1 (None) (None));
    (js "glow", kw (8 # 10) (None) (None));
    (js "radiance", kw (8 # 10) (None) (None));
    (js "slow-aging", kw (12 # 10) (None) (None));
    (js "slow aging", kw (12 # 10) (None) (None));
    (js "skinimalism", kw (12 # 10) (None) (None));
    (js "glass skin", kw (12 # 10) (None) (None));
    (js "glass-skin", kw (12 # 10) (None) (None));
    (js "cloud skin", kw (12 # 10) (None) (None));
    (js "dewy", kw (11 # 10) (None) (None));
    (js "dewy skin", kw (11 # 10) (None) (None));
    (js "barrier", kw (11 # 10) (None) (None));
    (js "barrier care", kw (12 # 10) (None) (None));
    (js "skin barrier", kw (12 # 10) (None) (None));
    (js "microbiome", kw (12 # 10) (None) (None));
    (js "skin cycling", kw (12 # 10) (None) (None));
    (js "slugging", kw (11 # 10) (None) (None));
    (js "skin fasting", kw (11 # 10) (None) (None));
    (js "skip care", kw (11 # 10) (None) (None));
    (js "clean beauty", kw (11 # 10) (None) (None));
    (js "waterless beauty", kw (11 # 10) (None) (None));
    (js "plumping", kw 1 (None) (None));
    (js "plump", kw 1 (None) (None));
    (js "bouncy", kw 1 (None) (None));
    (js "glassy", kw 1 (None) (None));
    (js "translucent", kw 1 (None) (None));
    (js "poreless", kw 1 (None) (None));
    (js "lit from within", kw (11 # 10) (None) (None));
    (js "healthy glow", kw 1 (None) (None));
    (js "natural glow", kw 1 (None) (None));
    (js "luminous", kw 1 (None) (None));
    (js "radiant", kw 1 (None) (None));
    (js "regenerating", kw 1 (None) (None));
    (js "nourishing", kw 1 (None) (None));
    (js "rejuvenating", kw 1 (None) (None));
    (js "revitalizing", kw 1 (None) (None)) ].

Definition scent_keywords : list (jsstring * KeywordInfo) :=
  [
    ([0xBB34; 0xD5A5]%N (* 무향 *), kw 1 (None) (Some (js "fragrance-free")));
    ([0xC740; 0xC740; 0xD55C]%N (* 은은한 *), kw (8 # 10) (None) (Some (js "subtle")));
    ([0xD5A5; 0xAE0B; 0xD55C]%N (* 향긋한 *), kw (8 # 10) (None) (Some (js "pleasant")));
    ([0xD50C; 0xB85C; 0xB7F4]%N (* 플로럴 *), kw 1 (None) (Some (js "floral")));
    ([0xC2DC; 0xD2B8; 0xB7EC; 0xC2A4]%N (* 시트러스 *), kw 1 (None) (Some (js "citrus")));
    ([0xD5C8; 0xBE0C]%N (* 허브 *), kw 1 (None) (Some (js "herbal")));
    ([0xBBFC; 0xD2B8]%N (* 민트 *), kw 1 (None) (Some (js "mint")));
    ([0xB77C; 0xBCA4; 0xB354]%N (* 라벤더 *), kw 1 (None) (Some (js "lavender")));
    ([0xC7A5; 0xBBF8]%N (* 장미 *), kw 1 (None) (Some (js "rose")));
    ([0xC790; 0xC2A4; 0xBBFC]%N (* 자스민 *), kw 1 (None) (Some (js "jasmine")));
    ([0xC778; 0xACF5; 0xD5A5]%N (* 인공향 *), kw (8 # 10) (None) (Some (js "artificial scent")));
    (js "fragrance-free", kw 1 (None) (None));
    (js "unscented", kw 1 (None) (None));
    (js "floral", kw 1 (None) (None));
    (js "citrus", kw 1 (None) (None));
    (js "herbal", kw 1 (None) (None));
    (js "lavender", kw 1 (None) (None));
    (js "rose", kw 1 (None) (None)) ].

Definition usageFeel_keywords : list (jsstring * KeywordInfo) :=
  [
    ([0xD761; 0xC218]%N (* 흡수 *), kw 1 (None) (Some (js "absorbs well")));
    ([0xBE60; 0xB978; 0xD761; 0xC218]%N (* 빠른흡수 *), kw 1 (None) (Some (js "fast absorption")));
    ([0xB048; 0xC801; 0xC784]%N (* 끈적임 *), kw (8 # 10) (None) (Some (js "sticky")));
    ([0xB048; 0xC801; 0xC774; 0xC9C0; 0x0020; 0xC54A; 0xB294]%N (* 끈적이지 않는 *), kw 1 (None) (Some (js "non-sticky")));
    ([0xC0B0; 0xB73B; 0xD55C]%N (* 산뜻한 *), kw 1 (None) (Some (js "refreshing")));
    ([0xCAC0; 0xCAC0; 0xD55C]%N (* 쫀쫀한 *), kw (8 # 10) (None) (Some (js "bouncy")));
    ([0xCD09; 0xCD09; 0xD55C]%N (* 촉촉한 *), kw 1 (None) (Some (js "moist")));
    ([0xAC74; 0xC870; 0xD568]%N (* 건조함 *), kw (8 # 10) (None) (Some (js "dry")));
    ([0xC790; 0xADF9]%N (* 자극 *), kw (8 # 10) (None) (Some (js "irritating")));
    ([0xC21C; 0xD55C]%N (* 순한 *), kw 1 (None) (Some (js "gentle")));
    ([0xC800; 0xC790; 0xADF9]%N (* 저자극 *), kw 1 (None) (Some (js "low-irritation")));
    ([0xBBFC; 0xAC10; 0xC131]%N (* 민감성 *), kw (8 # 10) (None) (Some (js "sensitive skin")));
    ([0xC9C0; 0xC131]%N (* 지성 *), kw (8 # 10) (None) (Some (js "oily skin")));
    ([0xAC74; 0xC131]%N (* 건성 *), kw (8 # 10) (None) (Some (js "dry skin")));
    ([0xBCF5; 0xD569; 0xC131]%N (* 복합성 *), kw (8 # 10) (None) (Some (js "combination skin")));
    (js "absorbs", kw 1 (None) (None));
    (js "sticky", kw (8 # 10) (None) (None));
    (js "non-sticky", kw 1 (None) (None));
    (js "refreshing", kw 1 (None) (None));
    (js "gentle", kw 1 (None) (None));
    (js "sensitive", kw (8 # 10) (None) (None));
    (js "oily", kw (8 # 10) (None) (None));
    (js "dry", kw (8 # 10) (None) (None)) ].

Definition target_keywords : list (jsstring * KeywordInfo) :=
  [
    ([0xBBFC; 0xAC10; 0xC131]%N (* 민감성 *), kw 1 (None) (Some (js "sensitive skin")));
    ([0xC9C0; 0xC131]%N (* 지성 *), kw 1 (None) (Some (js "oily skin")));
    ([0xAC74; 0xC131]%N (* 건성 *), kw 1 (None) (Some (js "dry skin")));
    ([0xBCF5; 0xD569; 0xC131]%N (* 복합성 *), kw 1 (None) (Some (js "combination skin")));
    ([0xD2B8; 0xB7EC; 0xBE14]%N (* 트러블 *), kw 1 (None) (Some (js "acne-prone")));
    ([0xBAA8; 0xB4E0; 0x0020; 0xD53C; 0xBD80]%N (* 모든 피부 *), kw 1 (None) (Some (js "all skin types")));
    ([0xB0A8; 0xC131]%N (* 남성 *), kw (8 # 10) (None) (Some (js "men")));
    ([0xC5EC; 0xC131]%N (* 여성 *), kw (8 # 10) (None) (Some (js "women")));
    ([0x0032; 0x0030; 0xB300]%N (* 20대 *), kw (8 # 10) (None) (Some (js "20s")));
    ([0x0033; 0x0030; 0xB300]%N (* 30대 *), kw (8 # 10) (None) (Some (js "30s")));
    ([0x0034; 0x0030; 0xB300]%N (* 40대 *), kw (8 # 10) (None) (Some (js "40s")));
    ([0x0035; 0x0030; 0xB300]%N (* 50대 *), kw (8 # 10) (None) (Some (js "50s")));
    (js "sensitive", kw 1 (None) (None));
    (js "oily", kw 1 (None) (None));
    (js "dry", kw 1 (None) (None));
    (js "combination", kw 1 (None) (None));
    (js "acne-prone", kw 1 (None) (None));
    (js "all skin", kw 1 (None) (None)) ].

Definition sentiment_keywords : list (jsstring * KeywordInfo) :=
  [
    ([0xC88B; 0xC544; 0xC694]%N (* 좋아요 *), kw 1 (Some positive) (Some (js "love it")));
    ([0xCD5C; 0xACE0]%N (* 최고 *), kw 1 (Some positive) (Some (js "best")));
    ([0xAC15; 0xCD94]%N (* 강추 *), kw 1 (Some positive) (Some (js "highly recommend")));
    ([0xCD94; 0xCC9C]%N (* 추천 *), kw (8 # 10) (Some positive) (Some (js "recommend")));
    ([0xB9CC; 0xC871]%N (* 만족 *), kw 1 (Some positive) (Some (js "satisfied")));
    ([0xB300; 0xBC15]%N (* 대박 *), kw 1 (Some positive) (Some (js "amazing")));
    ([0xC9F1]%N (* 짱 *), kw 1 (Some positive) (Some (js "awesome")));
    ([0xC778; 0xC0DD; 0xD15C]%N (* 인생템 *), kw 1 (Some positive) (Some (js "holy grail")));
    ([0xC7AC; 0xAD6C; 0xB9E4]%N (* 재구매 *), kw 1 (Some positive) (Some (js "repurchase")));
    ([0xAC13; 0xC131; 0xBE44]%N (* 갓성비 *), kw (12 # 10) (Some positive) (Some (js "best value")));
    ([0xAC00; 0xC131; 0xBE44]%N (* 가성비 *), kw (11 # 10) (Some positive) (Some (js "good value")));
    ([0xB4C0; 0xD504]%N (* 듀프 *), kw (11 # 10) (Some positive) (Some (js "dupe")));
    ([0xBC14; 0xC774; 0xB7F4]%N (* 바이럴 *), kw (11 # 10) (Some positive) (Some (js "viral")));
    ([0xD56B; 0xD15C]%N (* 핫템 *), kw (11 # 10) (Some positive) (Some (js "trending")));
    (js "amazing", kw 1 (Some positive) (None));
    (js "love", kw 1 (Some positive) (None));
    (js "best", kw 1 (Some positive) (None));
    (js "recommend", kw (8 # 10) (Some positive) (None));
    (js "great", kw (8 # 10) (Some positive) (None));
    (js "holy grail", kw (12 # 10) (Some positive) (None));
    (js "hg", kw (12 # 10) (Some positive) (None));
    (js "dupe", kw (12 # 10) (Some positive) (None));
    (js "worth the hype", kw (12 # 10) (Some positive) (None));
    (js "game-changer", kw (12 # 10) (Some positive) (None));
    (js "game changer", kw (12 # 10) (Some positive) (None));
    (js "must-have", kw (11 # 10) (Some positive) (None));
    (js "must have", kw (11 # 10) (Some positive) (None));
    (js "staple", kw 1 (Some positive) (None));
    (js "cult favorite", kw (12 # 10) (Some positive) (None));
    (js "cult-favorite", kw (12 # 10) (Some positive) (None));
    (js "viral", kw (11 # 10) (Some positive) (None));
    (js "trending", kw 1 (Some positive) (None));
    (js "hype", kw 1 (Some positive) (None));
    (js "hyped", kw 1 (Some positive) (None));
    (js "obsessed", kw (11 # 10) (Some positive) (None));
    (js "in love", kw 1 (Some positive) (None));
    (js "favorite", kw 1 (Some positive) (None));
    (js "fave", kw 1 (Some positive) (None));
    (js "repurchase", kw (11 # 10) (Some positive) (None));
    (js "will repurchase", kw (12 # 10) (Some positive) (None));
    (js "worth it", kw (11 # 10) (Some positive) (None));
    (js "game over", kw (11 # 10) (Some positive) (None));
    (js "chef kiss", kw 1 (Some positive) (None));
    (js "no skip", kw 1 (Some positive) (None));
    (js "slaps", kw 1 (Some positive) (None));
    (js "fire", kw (9 # 10) (Some positive) (None));
    (js "bomb", kw (9 # 10) (Some positive) (None));
    (js "slay", kw (9 # 10) (Some positive) (None));
    (js "grwm", kw 1 (Some neutral) (None));
    (js "get ready with me", kw 1 (Some neutral) (None));
    (js "ugc", kw 1 (Some neutral) (None));
    (js "haul", kw 1 (Some neutral) (None));
    (js "unboxing", kw 1 (Some neutral) (None));
    (js "first impressions", kw 1 (Some neutral) (None));
    (js "empties", kw 1 (Some neutral) (None));
    (js "favorites", kw 1 (Some positive) (None));
    (js "best of", kw 1 (Some positive) (None));
    (js "top picks", kw 1 (Some positive) (None));
    (js "honest review", kw 1 (Some neutral) (None));
    ([0xBCC4; 0xB85C]%N (* 별로 *), kw (8 # 10) (Some negative) (Some (js "not great")));
    ([0xC2E4; 0xB9DD]%N (* 실망 *), kw 1 (Some negative) (Some (js "disappointed")));
    ([0xD6A8; 0xACFC; 0xC5C6; 0xC74C]%N (* 효과없음 *), kw 1 (Some negative) (Some (js "no effect")));
    (js "disappointed", kw 1 (Some negative) (None));
    (js "not worth", kw 1 (Some negative) (None));
    (js "not worth it", kw (11 # 10) (Some negative) (None));
    (js "overhyped", kw (11 # 10) (Some negative) (None));
    (js "overrated", kw 1 (Some negative) (None));
    (js "meh", kw (8 # 10) (Some negative) (None));
    (js "pass", kw (8 # 10) (Some negative) (None));
    (js "skip", kw (8 # 10) (Some negative) (None));
    (js "waste", kw 1 (Some negative) (None));
    (js "broke me out", kw (12 # 10) (Some negative) (None));
    (js "breakout", kw 1 (Some negative) (None));
    (js "irritation", kw 1 (Some negative) (None));
    (js "allergic", kw (11 # 10) (Some negative) (None)) ].

(** The categories in the order of the object literal. *)
Definition KEYWORD_DICTIONARY : list (Category * list (jsstring * KeywordInfo)) :=
  [ (texture, texture_keywords); (ingredients, ingredients_keywords);
    (effects, effects_keywords); (scent, scent_keywords);
    (usageFeel, usageFeel_keywords); (target, target_keywords);
    (sentiment, sentiment_keywords) ].

(** The members of [STOP_WORDS], in source order. *)
Definition STOP_WORDS : list jsstring :=
  [ js "the"; js "a"; js "an"; js "is"; js "are"; js "was"; js "were";
    js "be"; js "been"; js "being"; js "have"; js "has"; js "had"; js "do";
    js "does"; js "did"; js "will"; js "would"; js "could"; js "should";
    js "may"; js "might"; js "must"; js "shall"; js "can"; js "need";
    js "dare"; js "ought"; js "used"; js "to"; js "of"; js "in"; js "for";
    js "on"; js "with"; js "at"; js "by"; js "from"; js "as"; js "into";
    js "about"; js "like"; js "through"; js "after"; js "over"; js "between";
    js "out"; js "against"; js "and"; js "but"; js "or"; js "nor"; js "so";
    js "yet"; js "both"; js "either"; js "neither"; js "not"; js "only";
    js "own"; js "same"; js "than"; js "too"; js "very"; js "just";
    js "also"; js "this"; js "that"; js "these"; js "those"; js "it";
    js "its"; js "my"; js "your"; js "his"; js "her"; js "i"; js "you";
    js "he"; js "she"; js "we"; js "they"; js "me"; js "him"; js "us";
    js "them"; js "what"; js "which"; js "who"; js "whom"; js "whose";
    js "where"; js "when"; js "why"; js "how"; js "all"; js "each";
    js "every"; js "any"; js "some"; js "no"; js "none"; js "more";
    js "most"; js "other"; js "up"; js "down"; js "here"; js "there";
    js "now"; js "then"; js "if"; js "because"; js "while"; js "video";
    js "videos"; js "subscribe"; js "channel"; js "watch"; js "review";
    js "reviews"; js "tutorial"; js "routine"; js "routines"; js "using";
    js "trying"; js "tried"; js "try"; js "test"; js "testing"; js "tested";
    js "get"; js "got"; js "getting"; js "use"; js "used"; js "make";
    js "made"; js "making"; js "see"; js "look"; js "looking"; js "looks";
    js "new"; js "one"; js "first"; js "day"; js "days"; js "time"; js "way";
    js "back"; js "really"; js "actually"; js "literally"; js "honestly";
    js "think"; js "know"; js "want"; js "need"; js "going"; js "come";
    js "coming"; js "take"; js "taking"; js "put"; js "give"; js "work";
    js "works"; js "link"; js "below"; js "check"; js "comment";
    js "comments"; js "share"; js "follow"; js "like"; js "likes";
    [0xC774]%N (* 이 *); [0xADF8]%N (* 그 *); [0xC800]%N (* 저 *);
    [0xAC83]%N (* 것 *); [0xC218]%N (* 수 *); [0xB4F1]%N (* 등 *);
    [0xBC0F]%N (* 및 *); [0xB354]%N (* 더 *); [0xB610]%N (* 또 *);
    [0xC548]%N (* 안 *); [0xC880]%N (* 좀 *); [0xC798]%N (* 잘 *);
    [0xBABB]%N (* 못 *); [0xB108; 0xBB34]%N (* 너무 *);
    [0xB9CE; 0xC774]%N (* 많이 *); [0xC815; 0xB9D0]%N (* 정말 *);
    [0xC9C4; 0xC9DC]%N (* 진짜 *); [0xC644; 0xC804]%N (* 완전 *);
    [0xB418; 0xAC8C]%N (* 되게 *); [0xC5C4; 0xCCAD]%N (* 엄청 *); js "https";
    js "http"; js "www"; js "com"; js "org"; js "net"; js "youtube";
    js "youtu"; js "bit"; js "linktr"; js "instagram"; js "tiktok";
    js "facebook"; js "twitter"; js "products"; js "product"; js "skin";
    js "face"; js "here"; js "best"; js "good"; js "bad"; js "right";
    js "wrong"; js "full"; js "free"; js "shop"; js "buy"; js "sale";
    js "off"; js "code"; js "affiliate"; js "sponsored"; js "gifted";
    js "discount"; js "coupon" ].

(** The members of [BEAUTY_BOOST_WORDS], in source order. *)
Definition BEAUTY_BOOST_WORDS : list jsstring :=
  [ js "pdrn"; js "phyto-pdrn"; js "exosomes"; js "exosome";
    js "polynucleotides"; js "polynucleotide"; js "nmn"; js "nhn";
    js "ectoin"; js "bakuchiol"; js "egf"; js "fgf"; js "postbiotics";
    js "postbiotic"; js "probiotics"; js "prebiotics"; js "glutathione";
    js "ghk-cu"; js "copper"; js "tranexamic"; js "azelaic"; js "pha";
    js "lha"; js "resveratrol"; js "astaxanthin"; js "fullerene";
    js "salmon"; js "collagen"; js "peptide"; js "niacinamide"; js "retinol";
    js "hyaluronic"; js "vitamin"; js "ceramide"; js "cica"; js "centella";
    js "snail"; js "propolis"; js "aha"; js "bha"; js "adenosine";
    js "bifida"; js "galactomyces"; js "saccharomyces"; js "ferment";
    js "fermented"; js "mugwort"; js "artemisia"; js "madecassoside";
    js "allantoin"; js "panthenol"; js "arbutin"; js "kojic"; js "licorice";
    js "glucan"; js "slow-aging"; js "skinimalism"; js "glass"; js "glassy";
    js "cloud"; js "barrier"; js "microbiome"; js "skin-cycling";
    js "slugging"; js "skip-care"; js "clean"; js "waterless"; js "dewy";
    js "plump"; js "plumping"; js "bouncy"; js "translucent"; js "poreless";
    js "luminous"; js "radiant"; js "radiance"; js "glow"; js "glowy";
    js "regenerating"; js "rejuvenating"; js "revitalizing";
    js "second-skin"; js "blurring"; js "blur"; js "soft-focus";
    js "lip-oil"; js "hybrid"; js "cushion"; js "tinted"; js "skin-tint";
    js "bb"; js "cc"; js "matte"; js "satin"; js "velvet"; js "glossy";
    js "sheer"; js "buildable"; js "coverage"; js "transfer-proof";
    js "long-wear"; js "waterproof"; js "smudge-proof"; js "mask-proof";
    js "holy-grail"; js "hg"; js "dupe"; js "viral"; js "hype"; js "hyped";
    js "trending"; js "game-changer"; js "must-have"; js "staple";
    js "cult-favorite"; js "obsessed"; js "favorite"; js "fave";
    js "repurchase"; js "worth"; js "slaps"; js "slay"; js "grwm"; js "ugc";
    js "haul"; js "unboxing"; js "empties"; js "serum"; js "cream"; js "gel";
    js "lotion"; js "essence"; js "toner"; js "ampoule"; js "mask";
    js "moisturizer"; js "cleanser"; js "sunscreen"; js "spf"; js "oil";
    js "balm"; js "hydrating"; js "brightening"; js "moisturizing";
    js "soothing"; js "firming"; js "anti-aging"; js "acne"; js "pore";
    js "pores"; js "wrinkle"; js "lifting"; js "exfoliating";
    js "nourishing"; js "lightweight"; js "smooth"; js "absorbs";
    js "sticky"; js "refreshing"; js "silky"; js "medicube"; js "anua";
    js "cosrx"; js "beauty"; js "korean"; js "kbeauty"; js "skincare";
    js "innisfree"; js "laneige"; js "sulwhasoo"; js "amorepacific";
    js "missha"; js "etude"; js "klairs"; js "isntree"; js "goodal";
    js "round-lab"; js "torriden"; js "skin1004" ].

(** [text.match(/[a-z]{3,}|[가-힣]{2,}/g) || []]: at a position that no
    earlier match covers, the longest run of [a-z] is a match when it has
    3 units or more; failing that, the longest run of Hangul syllables
    when it has 2 or more. *)
Fixpoint match_wordRegex (s : jsstring) (skip : nat) : list jsstring :=
  match s with
  | [] => []
  | _ :: rest =>
      match skip with
      | S k => match_wordRegex rest k
      | O =>
          let latin := take_while is_lower s in
          if (3 <=? length latin)%nat
          then latin :: match_wordRegex rest (length latin - 1)
          else
            let hangul := take_while is_hangul s in
            if (2 <=? length hangul)%nat
            then hangul :: match_wordRegex rest (length hangul - 1)
            else match_wordRegex rest 0
      end
  end.

(** [set.has(word)] *)
Definition has (set : list jsstring) (word : jsstring) : bool :=
  bool_decide (word ∈ set).

(** An own entry of the [wordFrequency] object. *)
Record Frequency := {
  f_count : Z;
  boost : Z;
}.

(** [wordFrequency[word].count++] on the entries in insertion order. *)
Fixpoint increment (word : jsstring) (entries : list (jsstring * Frequency))
    : list (jsstring * Frequency) :=
  match entries with
  | [] =>
      [ (word, {| f_count := 0 + 1;
                  boost := if has BEAUTY_BOOST_WORDS word then 2 else 1 |}) ]
  | (w, data) :: rest =>
      if bool_decide (w = word)
      then (w, {| f_count := f_count data + 1; boost := boost data |}) :: rest
      else (w, data) :: increment word rest
  end.

(** The body of [for (const word of words)]. [wordFrequency] is a plain
    object, so [wordFrequency['constructor']] is the inherited function and
    never undefined: that word gets no own entry and its count lands on the
    function. *)
Definition count_word (wordFrequency : list (jsstring * Frequency)) (word : jsstring)
    : list (jsstring * Frequency) :=
  if has STOP_WORDS word then wordFrequency
  else if (length word <? 3)%nat then wordFrequency
  else if bool_decide (word = js "constructor") then wordFrequency
  else increment word wordFrequency.

Definition review_text (r : Collector.SocialReview) : jsstring :=
  Collector.title r ++ js " " ++ Collector.description r.

Definition count_review (wordFrequency : list (jsstring * Frequency))
    (review : Collector.SocialReview) : list (jsstring * Frequency) :=
  let text := toLowerCase (review_text review) in
  let words := match_wordRegex text 0 in
  fold_left count_word words wordFrequency.

Record DynamicKeyword := {
  keyword : jsstring;
  count : Z;
  score : Z;
  isBoosted : bool;
}.

Definition extractDynamicKeywords (reviews : list Collector.SocialReview)
    : list DynamicKeyword :=
  let wordFrequency := fold_left count_review reviews [] in
  let sortedKeywords :=
    take 30
      (Array_sort (λ a b, score b <=? score a)
         (filter (λ k, 2 <= count k)
            (List.map
               (λ entry : jsstring * Frequency,
                  let '(word, data) := entry in
                  {| keyword := word;
                     count := f_count data;
                     score := f_count data * boost data;
                     isBoosted := 1 <? boost data |})
               wordFrequency))) in
  sortedKeywords.

(** An element of [result[category].found]. *)
Record Found := {
  fd_keyword : jsstring;
  fd_weight : Q;
  fd_sentiment : option Polarity;
  fd_en : option jsstring;
}.

Definition find_keyword (normalizedText : jsstring) (entry : jsstring * KeywordInfo)
    : option Found :=
  let '(keyword, info) := entry in
  if includes normalizedText (toLowerCase keyword)
  then Some {| fd_keyword := keyword;
               fd_weight := weight info;
               fd_sentiment := k_sentiment info;
               fd_en := k_en info |}
  else None.

Definition extractKeywords (text : jsstring) : list (Category * list Found) :=
  match text with
  | [] => []
  | _ =>
      let normalizedText := toLowerCase text in
      List.map
        (λ entry : Category * list (jsstring * KeywordInfo),
           (fst entry, omap (find_keyword normalizedText) (snd entry)))
        KEYWORD_DICTIONARY
  end.

(** A value of [aggregated[category].keywords]. *)
Record Aggregate := {
  a_keyword : jsstring;
  a_count : Z;
  totalWeight : Q;
  a_sentiment : option Polarity;
  a_en : option jsstring;
}.

Record AggregatedCategory := {
  keywords : list (jsstring * Aggregate);   (* own keys in insertion order *)
  topKeywords : list Aggregate;
}.

(** [keywords[key].count++; keywords[key].totalWeight += found.weight],
    after the entry is created when it is missing. *)
Fixpoint add_found (key : jsstring) (found : Found) (entries : list (jsstring * Aggregate))
    : list (jsstring * Aggregate) :=
  match entries with
  | [] =>
      [ (key, {| a_keyword := fd_keyword found;
                 a_count := 0 + 1;
                 totalWeight := 0 + fd_weight found;
                 a_sentiment := fd_sentiment found;
                 a_en := fd_en found |}) ]
  | (k, a) :: rest =>
      if bool_decide (k = key)
      then (k, {| a_keyword := a_keyword a;
                  a_count := a_count a + 1;
                  totalWeight := totalWeight a + fd_weight found;
                  a_sentiment := a_sentiment a;
                  a_en := a_en a |}) :: rest
      else (k, a) :: add_found key found rest
  end.

Definition add_all (entries : list (jsstring * Aggregate)) (found : list Found)
    : list (jsstring * Aggregate) :=
  fold_left (λ acc fd, add_found (toLowerCase (fd_keyword fd)) fd acc) found entries.

(** [aggregated[category].keywords] updated by [f]. *)
Fixpoint update_category (category : Category)
    (f : list (jsstring * Aggregate) → list (jsstring * Aggregate))
    (aggregated : list (Category * list (jsstring * Aggregate)))
    : list (Category * list (jsstring * Aggregate)) :=
  match aggregated with
  | [] => []
  | (c, entries) :: rest =>
      if bool_decide (c = category) then (c, f entries) :: rest
      else (c, entries) :: update_category category f rest
  end.

(** The body of [for (const review of reviews)]. *)
Definition add_review
    (aggregated : list (Category * list (jsstring * Aggregate)))
    (review : Collector.SocialReview)
    : list (Category * list (jsstring * Aggregate)) :=
  let extracted := extractKeywords (review_text review) in
  fold_left
    (λ acc (entry : Category * list Found),
       update_category (fst entry) (λ entries, add_all entries (snd entry)) acc)
    extracted aggregated.

Definition aggregateKeywords (reviews : list Collector.SocialReview)
    : list (Category * AggregatedCategory) :=
  let initial :=
    List.map (λ entry : Category * list (jsstring * KeywordInfo), (fst entry, []))
      KEYWORD_DICTIONARY in
  let aggregated := fold_left add_review reviews initial in
  List.map
    (λ entry : Category * list (jsstring * Aggregate),
       (fst entry,
        {| keywords := snd entry;
           topKeywords :=
             take 5 (Array_sort (λ a b, Qle_bool (totalWeight b) (totalWeight a))
                       (List.map snd (snd entry))) |}))
    aggregated.

Record SentimentScore := {
  positiveRatio : Z;
  negativeRatio : Z;
  positiveCount : Z;
  negativeCount : Z;
  totalMentions : Z;
}.

(** The three accumulators of the loop of [calculateSentiment]. *)
Record Tally := {
  positiveScore : Q;
  negativeScore : Q;
  totalCount : Z;
}.

Definition tally_keyword (t : Tally) (k : Aggregate) : Tally :=
  let t :=
    match a_sentiment k with
    | Some positive =>
        {| positiveScore := positiveScore t + inject_Z (a_count k) * totalWeight k;
           negativeScore := negativeScore t;
           totalCount := totalCount t |}
    | Some negative =>
        {| positiveScore := positiveScore t;
           negativeScore := negativeScore t + inject_Z (a_count k) * totalWeight k;
           totalCount := totalCount t |}
    | _ => t
    end in
  {| positiveScore := positiveScore t;
     negativeScore := negativeScore t;
     totalCount := totalCount t + a_count k |}.

(** [x > 0] on numbers. *)
Definition Qpositive (x : Q) : bool := 0 <? Qnum x.

(** [calculateSentiment] on the [keywords] of [aggregated.sentiment]. *)
Definition calculateSentiment_of (sentimentData : list (jsstring * Aggregate))
    : SentimentScore :=
  let t := fold_left tally_keyword (List.map snd sentimentData)
             {| positiveScore := 0; negativeScore := 0; totalCount := 0 |} in
  let total := (positiveScore t + negativeScore t)%Q in
  let positiveRatio :=
    if Qpositive total then ((positiveScore t / total) * 100)%Q else 50%Q in
  {| positiveRatio := Math_round positiveRatio;
     negativeRatio := Math_round (100 - positiveRatio);
     positiveCount := Math_round (positiveScore t);
     negativeCount := Math_round (negativeScore t);
     totalMentions := totalCount t |}.

Definition category_keywords
    (aggregated : list (Category * AggregatedCategory)) (c : Category)
    : list (jsstring * Aggregate) :=
  match List.find (λ e, bool_decide (fst e = c)) aggregated with
  | Some (_, data) => keywords data
  | None => []
  end.

Definition calculateSentiment (aggregated : list (Category * AggregatedCategory))
    : SentimentScore :=
  calculateSentiment_of (category_keywords aggregated sentiment).

End ReviewSummarizer.

(** ** The AI-assisted summariser (Claude AI Review Summarizer Service) *)

Module ClaudeSummarizer.

Record Sentiment := {
  positiveRatio : Z;
  negativeRatio : Z;
}.

(** The literal [{ positiveRatio: 0, negativeRatio: 0 }]. *)
Definition no_sentiment : Sentiment := {| positiveRatio := 0; negativeRatio := 0 |}.

Record Override := {
  o_productCode : jsstring;
  o_summary : option jsstring;
  o_hashtags : option (list jsstring);
  o_sentiment : option Sentiment;
  direction : option jsstring;
  updatedAt : option jsstring;
}.

(** An element of [productInsightsRef]. [i_summary] is [None] when the
    field is missing and [Some en] for the object [{ en }] that
    [analyzeWithClaude] stores. Times are milliseconds since the epoch;
    their ISO rendering is left out. *)
Record ProductInsight := {
  i_productCode : jsstring;
  insights : jsstring;
  i_summary : option (option jsstring);
  i_hashtags : option (list jsstring);
  i_sentiment : option Sentiment;
  reviewIds : list N;
  lastAnalyzedAt : Z;
  version : Z;
}.

Record FeedbackRecord := {
  f_productCode : jsstring;
  originalSummary : jsstring;
  correctedSummary : jsstring;
  f_createdAt : Z;
}.

(** What [JSON.parse] of the model's answer gives; absent fields read as
    undefined. [r_hashtags], when present, is an array of strings, as the
    prompt asks for; an answer with other hashtags, on which
    [h.replace] throws once the cache is written, is not among these. *)
Record AiResult := {
  r_summary : option jsstring;
  r_hashtags : option (list jsstring);
  r_sentiment : option Sentiment;
  r_updatedInsights : option jsstring;
}.

(** A parsed answer is either falsy ([false], [0], the empty string), on
    which every field reads as undefined, or any other value. *)
Inductive AiParsed :=
  | Falsy
  | Object (r : AiResult).

(** The collaborator's answer to one request: the API call rejects, the
    text is not JSON or parses to [null] ([Throws]), or a value comes
    back. [latency] is the time the request takes. *)
Inductive AiOutcome :=
  | Throws
  | Parsed (v : AiParsed).

Record AiReply := {
  outcome : AiOutcome;
  latency : Z;
}.

Definition fields (v : AiParsed) : AiResult :=
  match v with
  | Object r => r
  | Falsy => {| r_summary := None; r_hashtags := None;
                r_sentiment := None; r_updatedInsights := None |}
  end.

Record CacheEntry := {
  c_summary : AiParsed;
  analyzedReviewIds : jsstring;
  timestamp : Z;
}.

Definition CACHE_TTL : Z := 30 * 60 * 1000.

(** The module variables, the clock read by [Date.now()] and the number of
    requests sent to the model so far. [saved] counts the calls of
    [saveCallback]. *)
Record State := {
  anthropicClient : bool;
  AI_PROVIDER : jsstring;
  productInsightsRef : option (list ProductInsight);
  aiFeedbackHistoryRef : option (list FeedbackRecord);
  snsReviewOverridesRef : option (list Override);
  saveCallback : bool;
  saved : nat;
  analysisCache : gmap jsstring CacheEntry;
  clock : Z;
  ai_requests : nat;
}.

(** The [summary] field of a returned payload. *)
Inductive SummaryValue :=
  | Undefined
  | Text (s : jsstring)
  | EnObject (en : option jsstring).

Record Summary := {
  summary : SummaryValue;
  hashtags : option (list jsstring);
  sentiment : option Sentiment;
  reviewCount : nat;
  aiProvider : jsstring;
  analyzedAt : option Z;
  overriddenAt : option jsstring;
  updatedInsights : option jsstring;
}.

Definition text_or_undefined (o : option jsstring) : SummaryValue :=
  match o with
  | Some s => Text s
  | None => Undefined
  end.

(** Truthiness of an optional string. *)
Definition truthy (o : option jsstring) : bool :=
  match o with
  | Some (_ :: _) => true
  | _ => false
  end.

Definition isClaudeAvailable (st : State) : bool :=
  bool_decide (AI_PROVIDER st = js "claude") && anthropicClient st.

Definition getProductInsights (st : State) (productCode : jsstring)
    : option ProductInsight :=
  match productInsightsRef st with
  | None => None
  | Some l => List.find (λ i, bool_decide (i_productCode i = productCode)) l
  end.

(** [snsReviewOverridesRef.find(o => o.productCode === productCode)] *)
Definition find_override (st : State) (productCode : jsstring) : option Override :=
  match snsReviewOverridesRef st with
  | None => None
  | Some l => List.find (λ o, bool_decide (o_productCode o = productCode)) l
  end.

(** [ids.sort().join(',')]: the default sort compares the decimal
    renderings by code units. *)
Definition fingerprint (ids : list N) : jsstring :=
  join (js ",")
    (Number_toString <$>
       Array_sort (λ a b, str_le (Number_toString a) (Number_toString b)) ids).

Definition review_ids (reviews : list Collector.SocialReview) : list N :=
  Collector.id <$> reviews.

(** [h.replace(/^#/, '')] *)
Definition strip_hash (h : jsstring) : jsstring :=
  match h with
  | c :: h' => if (c =? Youtube.hash)%N then h' else h
  | [] => []
  end.

Definition set_clock (t : Z) (st : State) : State :=
  {| anthropicClient := anthropicClient st; AI_PROVIDER := AI_PROVIDER st;
     productInsightsRef := productInsightsRef st;
     aiFeedbackHistoryRef := aiFeedbackHistoryRef st;
     snsReviewOverridesRef := snsReviewOverridesRef st;
     saveCallback := saveCallback st; saved := saved st;
     analysisCache := analysisCache st; clock := t;
     ai_requests := ai_requests st |}.

Definition set_cache (c : gmap jsstring CacheEntry) (st : State) : State :=
  {| anthropicClient := anthropicClient st; AI_PROVIDER := AI_PROVIDER st;
     productInsightsRef := productInsightsRef st;
     aiFeedbackHistoryRef := aiFeedbackHistoryRef st;
     snsReviewOverridesRef := snsReviewOverridesRef st;
     saveCallback := saveCallback st; saved := saved st;
     analysisCache := c; clock := clock st;
     ai_requests := ai_requests st |}.

(** [await anthropicClient.messages.create(...)]: one more request, and
    the clock moves on by the latency of the call. *)
Definition request (reply : AiReply) (st : State) : State :=
  {| anthropicClient := anthropicClient st; AI_PROVIDER := AI_PROVIDER st;
     productInsightsRef := productInsightsRef st;
     aiFeedbackHistoryRef := aiFeedbackHistoryRef st;
     snsReviewOverridesRef := snsReviewOverridesRef st;
     saveCallback := saveCallback st; saved := saved st;
     analysisCache := analysisCache st; clock := clock st + latency reply;
     ai_requests := S (ai_requests st) |}.

Definition save (st : State) : State :=
  {| anthropicClient := anthropicClient st; AI_PROVIDER := AI_PROVIDER st;
     productInsightsRef := productInsightsRef st;
     aiFeedbackHistoryRef := aiFeedbackHistoryRef st;
     snsReviewOverridesRef := snsReviewOverridesRef st;
     saveCallback := saveCallback st;
     saved := if saveCallback st then S (saved st) else saved st;
     analysisCache := analysisCache st; clock := clock st;
     ai_requests := ai_requests st |}.

Definition set_insights (l : list ProductInsight) (st : State) : State :=
  {| anthropicClient := anthropicClient st; AI_PROVIDER := AI_PROVIDER st;
     productInsightsRef := Some l;
     aiFeedbackHistoryRef := aiFeedbackHistoryRef st;
     snsReviewOverridesRef := snsReviewOverridesRef st;
     saveCallback := saveCallback st; saved := saved st;
     analysisCache := analysisCache st; clock := clock st;
     ai_requests := ai_requests st |}.

Definition set_feedback (l : list FeedbackRecord) (st : State) : State :=
  {| anthropicClient := anthropicClient st; AI_PROVIDER := AI_PROVIDER st;
     productInsightsRef := productInsightsRef st;
     aiFeedbackHistoryRef := Some l;
     snsReviewOverridesRef := snsReviewOverridesRef st;
     saveCallback := saveCallback st; saved := saved st;
     analysisCache := analysisCache st; clock := clock st;
     ai_requests := ai_requests st |}.

(** [productInsightsRef[existingIdx] = insightData], or [push] when the
    product has no entry; [fresh] builds the entry from the one replaced. *)
Fixpoint put_insight (productCode : jsstring)
    (fresh : option ProductInsight → ProductInsight) (l : list ProductInsight)
    : list ProductInsight :=
  match l with
  | [] => [fresh None]
  | i :: rest =>
      if bool_decide (i_productCode i = productCode) then fresh (Some i) :: rest
      else i :: put_insight productCode fresh rest
  end.

(** The part of [analyzeWithClaude] after [JSON.parse]: the insight of
    the product is replaced when [result.updatedInsights] is truthy. *)
Definition update_insights (result : AiResult)
    (reviews : list Collector.SocialReview) (productCode : jsstring) (st : State)
    : State :=
  match productInsightsRef st with
  | Some l =>
      if truthy (r_updatedInsights result) then
        save
          (set_insights
             (put_insight productCode
                (λ existing,
                   {| i_productCode := productCode;
                      insights := default [] (r_updatedInsights result);
                      i_summary := Some (r_summary result);
                      i_hashtags := Some (default [] (r_hashtags result));
                      i_sentiment := Some (default no_sentiment (r_sentiment result));
                      reviewIds := review_ids reviews;
                      lastAnalyzedAt := clock st;
                      version := match existing with
                                 | Some i => version i + 1
                                 | None => 1
                                 end |})
                l)
             st)
      else st
  | None => st
  end.

(** [analyzeWithClaude(reviews, productCode)]; [None] when it throws. The
    prompt is assembled from the insight, the feedback and the override
    of the product without changing them; its text is not modelled, the
    answer being an argument. *)
Definition analyzeWithClaude (reply : AiReply)
    (reviews : list Collector.SocialReview) (productCode : jsstring) (st : State)
    : option Summary * State :=
  if negb (anthropicClient st) then (None, st)
  else
    let st := request reply st in
    match outcome reply with
    | Throws => (None, st)
    | Parsed v =>
        let result := fields v in
        let st := update_insights result reviews productCode st in
        let st :=
          set_cache
            (<[ productCode :=
                  {| c_summary := v;
                     analyzedReviewIds := fingerprint (review_ids reviews);
                     timestamp := clock st |} ]> (analysisCache st))
            st in
        (Some {| summary := text_or_undefined (r_summary result);
                 hashtags := Some (strip_hash <$> default [] (r_hashtags result));
                 sentiment := r_sentiment result;
                 reviewCount := length reviews;
                 aiProvider := js "claude";
                 analyzedAt := Some (clock st);
                 overriddenAt := None;
                 updatedInsights := None |},
         st)
    end.

Definition getCachedAnalysis (productCode : jsstring) (currentReviewIds : list N)
    (st : State) : option AiParsed * State :=
  match analysisCache st !! productCode with
  | None => (None, st)
  | Some cached =>
      if CACHE_TTL <? clock st - timestamp cached
      then (None, set_cache (delete productCode (analysisCache st)) st)
      else if bool_decide (analyzedReviewIds cached ≠ fingerprint currentReviewIds)
      then (None, st)
      else (Some (c_summary cached), st)
  end.

(** What [keywordFallback(approvedReviews)] returns, as far as
    [getSummary] reads it. *)
Inductive KwSummary :=
  | KwObject (en ko : option jsstring)
  | KwString (s : option jsstring).

Inductive KwTag :=
  | TagObject (displayTag tag : option jsstring)
  | TagString (s : jsstring).

Record KwResult := {
  kw_summary : KwSummary;
  kw_hashtags : option (list KwTag);
  kw_sentiment : option Sentiment;
  kw_reviewCount : nat;
}.

(** [a || b || ''] on optional strings. *)
Definition first_truthy (a b : option jsstring) : jsstring :=
  if truthy a then default [] a else if truthy b then default [] b else [].

Definition normalize_summary (s : KwSummary) : jsstring :=
  match s with
  | KwObject en ko => first_truthy en ko
  | KwString s => first_truthy s None
  end.

Definition normalize_hashtags (l : option (list KwTag)) : list jsstring :=
  filter (λ h, h ≠ [])
    ((λ h, match h with
           | TagObject displayTag tag => first_truthy displayTag tag
           | TagString s => s
           end) <$> default [] l).

(** Steps 3 to 5 of [getSummary]. *)
Definition fallback_chain
    (keywordFallback : option (list Collector.SocialReview → KwResult))
    (productCode : jsstring) (approvedReviews : list Collector.SocialReview)
    (st : State) : Summary :=
  let stored :=
    match getProductInsights st productCode with
    | Some existingInsights =>
        match i_summary existingInsights with
        | Some en => Some (existingInsights, en)
        | None => None
        end
    | None => None
    end in
  match stored with
  | Some (existingInsights, en) =>
      {| summary := if truthy en then Text (default [] en) else EnObject en;
         hashtags := Some (default [] (i_hashtags existingInsights));
         sentiment := Some (default no_sentiment (i_sentiment existingInsights));
         reviewCount := length approvedReviews;
         aiProvider := js "insights-cached";
         analyzedAt := Some (lastAnalyzedAt existingInsights);
         overriddenAt := None;
         updatedInsights := None |}
  | None =>
      match keywordFallback, approvedReviews with
      | Some fallback, _ :: _ =>
          let kwResult := fallback approvedReviews in
          {| summary := Text (normalize_summary (kw_summary kwResult));
             hashtags := Some (normalize_hashtags (kw_hashtags kwResult));
             sentiment := kw_sentiment kwResult;
             reviewCount := kw_reviewCount kwResult;
             aiProvider := js "keyword";
             analyzedAt := None;
             overriddenAt := None;
             updatedInsights := None |}
      | _, _ =>
          {| summary := Text [];
             hashtags := Some [];
             sentiment := Some no_sentiment;
             reviewCount := 0;
             aiProvider := js "none";
             analyzedAt := None;
             overriddenAt := None;
             updatedInsights := None |}
      end
  end.

(** [getSummary(productCode, approvedReviews, keywordFallback)]; [reply]
    is the answer the model gives if this call sends it a request. *)
Definition getSummary (reply : AiReply)
    (keywordFallback : option (list Collector.SocialReview → KwResult))
    (productCode : jsstring) (approvedReviews : list Collector.SocialReview)
    (st : State) : Summary * State :=
  match find_override st productCode with
  | Some override =>
      ({| summary := text_or_undefined (o_summary override);
          hashtags := Some (default [] (o_hashtags override));
          sentiment := Some (default no_sentiment (o_sentiment override));
          reviewCount := length approvedReviews;
          aiProvider := js "override";
          analyzedAt := None;
          overriddenAt := updatedAt override;
          updatedInsights := None |},
       st)
  | None =>
      if isClaudeAvailable st && (0 <? length approvedReviews)%nat then
        match getCachedAnalysis productCode (review_ids approvedReviews) st with
        | (Some (Object cached), st) =>
            ({| summary := text_or_undefined (r_summary cached);
                hashtags := r_hashtags cached;
                sentiment := r_sentiment cached;
                reviewCount := length approvedReviews;
                aiProvider := js "claude-cached";
                analyzedAt := None;
                overriddenAt := None;
                updatedInsights := r_updatedInsights cached |},
             st)
        | (_, st) =>
            match analyzeWithClaude reply approvedReviews productCode st with
            | (Some result, st) => (result, st)
            | (None, st) =>     (* catch *)
                (fallback_chain keywordFallback productCode approvedReviews st, st)
            end
        end
      else (fallback_chain keywordFallback productCode approvedReviews st, st)
  end.

(** [aiFeedbackHistoryRef.splice(idx, 1)] at the index of [oldest], the
    first record of the product: [indexOf] finds an object at its first
    position, and no earlier element passes the filter. *)
Fixpoint remove_oldest (productCode : jsstring) (l : list FeedbackRecord)
    : list FeedbackRecord :=
  match l with
  | [] => []
  | f :: rest =>
      if bool_decide (f_productCode f = productCode) then rest
      else f :: remove_oldest productCode rest
  end.

Definition recordFeedback (productCode originalSummary correctedSummary : jsstring)
    (st : State) : State :=
  match aiFeedbackHistoryRef st with
  | None => st
  | Some history =>
      let history :=
        history ++ [ {| f_productCode := productCode;
                        originalSummary := originalSummary;
                        correctedSummary := correctedSummary;
                        f_createdAt := clock st |} ] in
      let productFeedbacks :=
        filter (λ f, f_productCode f = productCode) history in
      let history :=
        if (10 <? length productFeedbacks)%nat
        then remove_oldest productCode history
        else history in
      save (set_feedback history st)
  end.

End ClaudeSummarizer.

(** ** Encoders of Node's [Buffer], and the payment credential

    [Buffer.from(text)] and [buf.toString('base64')], the inverse
    directions of the decoders above; the services use them to build the
    Basic credential of the payment gateways. *)

Module Encoding.

Definition is_high_surrogate (c : N) : bool := between 0xD800 0xDBFF c.
Definition is_low_surrogate (c : N) : bool := between 0xDC00 0xDFFF c.

(** U+FFFD in UTF-8, written for a surrogate that has no partner. *)
Definition replacement : list N := [0xEF; 0xBF; 0xBD]%N.

(** [Buffer.from(s)], the UTF-8 bytes of a string. *)
Fixpoint Buffer_from_utf8 (s : jsstring) : list N :=
  match s with
  | [] => []
  | c :: rest =>
      if (c <? 0x80)%N then c :: Buffer_from_utf8 rest
      else if (c <? 0x800)%N then
        (0xC0 + c / 64)%N :: (0x80 + c mod 64)%N :: Buffer_from_utf8 rest
      else if is_high_surrogate c then
        match rest with
        | d :: rest' =>
            if is_low_surrogate d then
              let cp := (0x10000 + (c - 0xD800) * 0x400 + (d - 0xDC00))%N in
              (0xF0 + cp / 262144)%N :: (0x80 + (cp / 4096) mod 64)%N
              :: (0x80 + (cp / 64) mod 64)%N :: (0x80 + cp mod 64)%N
              :: Buffer_from_utf8 rest'
            else replacement ++ Buffer_from_utf8 rest
        | [] => replacement
        end
      else if is_low_surrogate c then replacement ++ Buffer_from_utf8 rest
      else
        (0xE0 + c / 4096)%N :: (0x80 + (c / 64) mod 64)%N :: (0x80 + c mod 64)%N
        :: Buffer_from_utf8 rest
  end.

(** The character of a six-bit value in the base64 alphabet. *)
Definition base64_char (v : N) : N :=
  if (v <? 26)%N then (65 + v)%N
  else if (v <? 52)%N then (97 + (v - 26))%N
  else if (v <? 62)%N then (48 + (v - 52))%N
  else if (v =? 62)%N then 43%N
  else 47%N.

Definition pad : N := 61.  (* = *)

(** [buf.toString('base64')] *)
Fixpoint Buffer_toString_base64 (bs : list N) : jsstring :=
  match bs with
  | a :: b :: c :: rest =>
      base64_char (a / 4) :: base64_char ((a mod 4) * 16 + b / 16)
      :: base64_char ((b mod 16) * 4 + c / 64) :: base64_char (c mod 64)
      :: Buffer_toString_base64 rest
  | [a; b] =>
      [ base64_char (a / 4); base64_char ((a mod 4) * 16 + b / 16);
        base64_char ((b mod 16) * 4); pad ]%N
  | [a] => [ base64_char (a / 4); base64_char ((a mod 4) * 16); pad; pad ]%N
  | [] => []
  end.

(** A string as JavaScript holds it, every unit below 2^16, in which every
    surrogate has its partner. *)
Fixpoint well_formed (s : jsstring) : bool :=
  match s with
  | [] => true
  | c :: rest =>
      (c <? 0x10000)%N &&
      if is_high_surrogate c then
        match rest with
        | d :: rest' => is_low_surrogate d && well_formed rest'
        | [] => false
        end
      else negb (is_low_surrogate c) && well_formed rest
  end.

End Encoding.

(** ** The payment gateway client (Eximbay Payment API Service) *)

Module Eximbay.

(** [getAuthHeader()]: [None] is the Error thrown when [EXIMBAY_API_KEY]
    is not set, or set to the empty string. *)
Definition getAuthHeader (EXIMBAY_API_KEY : option jsstring) : option jsstring :=
  match EXIMBAY_API_KEY with
  | None | Some [] => None
  | Some apiKey =>
      let auth :=
        Encoding.Buffer_toString_base64 (Encoding.Buffer_from_utf8 (apiKey ++ js ":")) in
      Some (js "Basic " ++ auth)
  end.

End Eximbay.

(** ** services/youtube.js: the search adapter and its score *)

Module YoutubeSearch.

(** [a || b] on optional strings. *)
Definition or_else (a b : option jsstring) : option jsstring :=
  match a with
  | Some (_ :: _) => a
  | _ => b
  end.

(** One element of [response.items] of a search, as far as [searchVideos]
    reads it; [thumb_high] and [thumb_default] are
    [thumbnails.high?.url] and [thumbnails.default?.url]. *)
Record SearchItem := {
  si_videoId : option jsstring;
  si_title : jsstring;
  si_description : jsstring;
  si_channelId : jsstring;
  si_channelTitle : jsstring;
  si_publishedAt : jsstring;
  si_thumb_high : option jsstring;
  si_thumb_default : option jsstring;
}.

(** One element of [response.items] of a detail request; a statistic is
    the value of [parseInt], [None] for NaN. *)
Record VideoItem := {
  vi_id : option jsstring;
  vi_title : jsstring;
  vi_description : jsstring;
  vi_channelId : jsstring;
  vi_channelTitle : jsstring;
  vi_publishedAt : jsstring;
  vi_thumb_high : option jsstring;
  vi_thumb_default : option jsstring;
  vi_viewCount : option Z;
  vi_likeCount : option Z;
  vi_commentCount : option Z;
}.

(** [callYouTubeAPI] for the two endpoints in use. [None] stands for
    whatever makes the caller's [try] block fail: the key is not set, the
    request or the parse fails, the reply carries an error, or its items
    cannot be read. *)
Record Api := {
  search : jsstring → Z → option (list SearchItem);
  videos : jsstring → option (list VideoItem);
}.

(** A video as [searchVideos] returns it. *)
Record Hit := {
  h_videoId : option jsstring;
  h_title : jsstring;
  h_description : jsstring;
  h_channelId : jsstring;
  h_channelTitle : jsstring;
  h_publishedAt : jsstring;
  h_thumbnailUrl : option jsstring;
}.

(** A video with its counters, as [getVideoDetails] returns it. *)
Record Detail := {
  hit : Hit;
  viewCount : Z;
  likeCount : Z;
  commentCount : Z;
}.

Record MatchedVideo := {
  detail : Detail;
  matchedProductCode : jsstring;
}.

Definition searchVideos (api : Api) (query : jsstring) (maxResults : Z) : list Hit :=
  match search api query maxResults with
  | Some items =>
      (λ item,
         {| h_videoId := si_videoId item;
            h_title := si_title item;
            h_description := si_description item;
            h_channelId := si_channelId item;
            h_channelTitle := si_channelTitle item;
            h_publishedAt := si_publishedAt item;
            h_thumbnailUrl := or_else (si_thumb_high item) (si_thumb_default item) |})
      <$> items
  | None => []   (* catch *)
  end.

Definition BATCH_SIZE : nat := 50.

(** [id && typeof id === 'string' && id.length > 0] *)
Definition valid_id (id : option jsstring) : option jsstring :=
  match id with
  | Some (c :: s) => Some (c :: s)
  | _ => None
  end.

(** [{ ...v, viewCount: 0, likeCount: 0, commentCount: 0 }] *)
Definition without_counts (v : Hit) : Detail :=
  {| hit := v; viewCount := 0; likeCount := 0; commentCount := 0 |}.

(** [parseInt(x) || 0] *)
Definition count_or_zero (n : option Z) : Z :=
  match n with
  | Some n => if n =? 0 then 0 else n
  | None => 0
  end.

Definition detail_of (item : VideoItem) : Detail :=
  {| hit := {| h_videoId := vi_id item;
               h_title := vi_title item;
               h_description := vi_description item;
               h_channelId := vi_channelId item;
               h_channelTitle := vi_channelTitle item;
               h_publishedAt := vi_publishedAt item;
               h_thumbnailUrl := or_else (vi_thumb_high item) (vi_thumb_default item) |};
     viewCount := count_or_zero (vi_viewCount item);
     likeCount := count_or_zero (vi_likeCount item);
     commentCount := count_or_zero (vi_commentCount item) |}.

(** [for (let i = 0; i < validVideoIds.length; i += BATCH_SIZE)], with
    the requests sent so far; [None] when a request throws. [fuel] bounds
    the number of turns. *)
Fixpoint details_loop (api : Api) (fuel : nat) (i : nat) (validVideoIds : list jsstring)
    (allDetails : list Detail) (sent : list jsstring)
    : option (list Detail) * list jsstring :=
  match fuel with
  | O => (Some allDetails, sent)
  | S fuel' =>
      if (i <? length validVideoIds)%nat then
        let batchIds := take BATCH_SIZE (drop i validVideoIds) in
        let request := join (js ",") batchIds in
        match videos api request with
        | Some items =>
            details_loop api fuel' (i + BATCH_SIZE) validVideoIds
              (allDetails ++ (detail_of <$> items)) (sent ++ [request])
        | None => (None, sent ++ [request])
        end
      else (Some allDetails, sent)
  end.

(** [getVideoDetails(videoIds, fallbackVideos)] and the [id] parameters
    of the requests it sends, in order. The loop takes at most one turn
    per valid id. *)
Definition getVideoDetails (api : Api)
    (videoIds : list (option jsstring)) (fallbackVideos : list Hit)
    : list Detail * list jsstring :=
  if (length videoIds =? 0)%nat then ([], [])
  else
    let validVideoIds := omap valid_id videoIds in
    if (length validVideoIds =? 0)%nat then (without_counts <$> fallbackVideos, [])
    else
      match details_loop api (length validVideoIds) 0 validVideoIds [] [] with
      | (Some allDetails, sent) => (allDetails, sent)
      | (None, sent) => (without_counts <$> fallbackVideos, sent)   (* catch *)
      end.

(** The state of the query loop of [searchProductReviews], and the
    queries searched so far. *)
Record SearchLoop := {
  allVideos : list Hit;
  seenIds : list (option jsstring);
  searched : list jsstring;
}.

Definition add_video (l : SearchLoop) (video : Hit) : SearchLoop :=
  if bool_decide (h_videoId video ∈ seenIds l) then l
  else {| allVideos := allVideos l ++ [video];
          seenIds := seenIds l ++ [h_videoId video];
          searched := searched l |}.

Definition run_query (api : Api) (l : SearchLoop) (query : jsstring) : SearchLoop :=
  let videos := searchVideos api query 20 in
  fold_left add_video videos
    {| allVideos := allVideos l; seenIds := seenIds l; searched := searched l ++ [query] |}.

(** What one call of [searchProductReviews] does: the videos it returns,
    the queries it searches and the detail requests it sends. *)
Record Search := {
  found : list MatchedVideo;
  queries : list jsstring;
  requests : list jsstring;
}.

(** The loop over the queries: at most five are searched. *)
Definition collect_hits (api : Api) (product : Product) : SearchLoop :=
  let hashtags := Youtube.extractHashtagsFromProduct product in
  let searchQueries := Youtube.generateHashtagSearchQueries hashtags (productName product) in
  fold_left (run_query api) (take 5 searchQueries)
    {| allVideos := []; seenIds := []; searched := [] |}.

Definition searchProductReviews (api : Api) (product : Product) : Search :=
  let l := collect_hits api product in
  if (0 <? length (allVideos l))%nat then
    let videoIds := h_videoId <$> allVideos l in
    let '(details, sent) := getVideoDetails api videoIds (allVideos l) in
    {| found := (λ d, {| detail := d; matchedProductCode := productCode product |})
                <$> details;
       queries := searched l;
       requests := sent |}
  else {| found := []; queries := searched l; requests := [] |}.

(** The object literal [categoryKeywords]. *)
Definition categoryKeywords : list (jsstring * list jsstring) :=
  [ (js "BEAUTY",
     [ [0xC138; 0xB7FC]%N;                      (* 세럼 *)
       js "serum";
       [0xD654; 0xC7A5; 0xD488]%N;              (* 화장품 *)
       js "skincare";
       [0xC2A4; 0xD0A8; 0xCF00; 0xC5B4]%N;      (* 스킨케어 *)
       [0xBDF0; 0xD2F0]%N;                      (* 뷰티 *)
       js "beauty" ]);
    (js "SUPPLEMENT",
     [ [0xC601; 0xC591; 0xC81C]%N;              (* 영양제 *)
       js "supplement";
       [0xBE44; 0xD0C0; 0xBBFC]%N;              (* 비타민 *)
       js "vitamin";
       [0xAC74; 0xAC15]%N ]);                   (* 건강 *)
    (js "LIFESTYLE",
     [ [0xB77C; 0xC774; 0xD504; 0xC2A4; 0xD0C0; 0xC77C]%N;   (* 라이프스타일 *)
       js "lifestyle" ]) ].

(** The property names a plain object inherits from [Object.prototype]:
    reading one of them gives a function (the prototype itself for
    [__proto__]), never undefined. *)
Definition Object_prototype_names : list jsstring :=
  [ js "constructor"; js "__defineGetter__"; js "__defineSetter__";
    js "hasOwnProperty"; js "__lookupGetter__"; js "__lookupSetter__";
    js "isPrototypeOf"; js "propertyIsEnumerable"; js "toString"; js "valueOf";
    js "__proto__"; js "toLocaleString" ].

(** [categoryKeywords[product.productCategory] || []]; [None] is a value
    that is not an array. A missing category reads the key "undefined". *)
Definition keywords_of (productCategory : option jsstring) : option (list jsstring) :=
  match productCategory with
  | None => Some []
  | Some name =>
      match List.find (λ e, bool_decide (fst e = name)) categoryKeywords with
      | Some (_, keywords) => Some keywords
      | None =>
          if bool_decide (name ∈ Object_prototype_names) then None else Some []
      end
  end.

Definition brand_ko : jsstring :=
  [0xB370; 0xC774; 0xD2B8; 0xD31C; 0xBCA0; 0xC774]%N.   (* 데이트팜베이 *)

(** [calculateMatchScore(video, product)]; [productCategory] is
    [product.productCategory]. [None] is the TypeError of
    [keywords.some] on a value that is not an array. *)
Definition calculateMatchScore
    (video : Youtube.Video) (product : Product) (productCategory : option jsstring)
    : option Z :=
  let score := 0 in
  let searchText :=
    toLowerCase (Youtube.v_title video ++ js " " ++ Youtube.v_description video) in
  let score :=
    if includes searchText (toLowerCase (productName product)) then score + 40
    else score in
  let score :=
    if includes searchText (js "datepalmbay") || includes searchText brand_ko
    then score + 30 else score in
  match keywords_of productCategory with
  | None => None
  | Some keywords =>
      let score :=
        if existsb (λ kw, includes searchText (toLowerCase kw)) keywords
        then score + 20 else score in
      let score :=
        if includes searchText [0xB9AC; 0xBDF0]%N        (* 리뷰 *)
           || includes searchText [0xD6C4; 0xAE30]%N     (* 후기 *)
           || includes searchText (js "review")
        then score + 10 else score in
      Some score
  end.

End YoutubeSearch.

(** ** services/instagram.js: the search adapter *)

Module InstagramSearch.

(** The two environment variables; an unset variable is [None]. *)
Record Env := {
  INSTAGRAM_ACCESS_TOKEN : option jsstring;
  INSTAGRAM_BUSINESS_ACCOUNT_ID : option jsstring;
}.

(** Truthiness of an environment variable. *)
Definition is_set (v : option jsstring) : bool :=
  match v with
  | Some (_ :: _) => true
  | _ => false
  end.

(** A media object of the Graph API, with the fields requested. *)
Record Media := {
  m_id : jsstring;
  m_caption : option jsstring;
  media_type : jsstring;
  media_url : option jsstring;
  m_permalink : jsstring;
  thumbnail_url : option jsstring;
  m_timestamp : jsstring;
  like_count : option Z;
  comments_count : option Z;
  m_username : jsstring;
}.

(** What a request resolves to: the promise rejects, the reply has no
    [data], or it has. *)
Inductive Reply (A : Type) :=
  | Rejects
  | NoData
  | Data (d : A).
Arguments Rejects {A}.
Arguments NoData {A}.
Arguments Data {A} d.

(** The Graph API, for the requests that reach it: the ids of
    [ig_hashtag_search], the media of [recent_media] and [top_media] for
    a hashtag id and a limit, and the account lookup of
    [checkConnection] ([None] when it fails). *)
Record Graph := {
  ig_hashtag_search : jsstring → Reply (list jsstring);
  recent_media : jsstring → Z → Reply (list Media);
  top_media : jsstring → Z → Reply (list Media);
  account : jsstring → option jsstring;
}.

(** The requests sent over the network. *)
Inductive Call :=
  | HashtagSearch (q : jsstring)
  | RecentMedia (hashtagId : jsstring) (limit : Z)
  | TopMedia (hashtagId : jsstring) (limit : Z)
  | Account (id : jsstring).

(** [callInstagramAPI]: without a token the promise rejects before any
    request is sent. The result comes with the requests sent. *)
Definition callInstagramAPI {A} (env : Env) (call : Call) (answer : Reply A)
    : Reply A * list Call :=
  if is_set (INSTAGRAM_ACCESS_TOKEN env) then (answer, [call]) else (Rejects, []).

(** [searchHashtagId(hashtag)]: [None] is the Error thrown when the
    business account id is not set, [Some None] the result [null]. *)
Definition searchHashtagId (env : Env) (graph : Graph) (hashtag : jsstring)
    : option (option jsstring) * list Call :=
  if negb (is_set (INSTAGRAM_BUSINESS_ACCOUNT_ID env)) then (None, [])
  else
    let '(response, sent) :=
      callInstagramAPI env (HashtagSearch hashtag) (ig_hashtag_search graph hashtag) in
    match response with
    | Data (hashtagId :: _) => (Some (Some hashtagId), sent)
    | _ => (Some None, sent)
    end.

(** [getRecentHashtagMedia(hashtagId, limit)]; [None] when it throws. *)
Definition getRecentHashtagMedia (env : Env) (graph : Graph)
    (hashtagId : jsstring) (limit : Z) : option (list Media) * list Call :=
  if negb (is_set (INSTAGRAM_BUSINESS_ACCOUNT_ID env)) then (None, [])
  else
    let '(response, sent) :=
      callInstagramAPI env (RecentMedia hashtagId limit)
        (recent_media graph hashtagId limit) in
    match response with
    | Data data => (Some data, sent)
    | _ => (Some [], sent)
    end.

(** [getTopHashtagMedia(hashtagId, limit)]; [None] when it throws. *)
Definition getTopHashtagMedia (env : Env) (graph : Graph)
    (hashtagId : jsstring) (limit : Z) : option (list Media) * list Call :=
  if negb (is_set (INSTAGRAM_BUSINESS_ACCOUNT_ID env)) then (None, [])
  else
    let '(response, sent) :=
      callInstagramAPI env (TopMedia hashtagId limit)
        (top_media graph hashtagId limit) in
    match response with
    | Data data => (Some data, sent)
    | _ => (Some [], sent)
    end.

(** The state of the loop over the hashtags: the posts kept, each with
    the hashtag that found it, the ids seen and the requests sent. *)
Record PostLoop := {
  allPosts : list (Media * jsstring);
  seenIds : list jsstring;
  calls : list Call;
}.

Definition add_post (hashtag : jsstring) (l : PostLoop) (post : Media) : PostLoop :=
  if bool_decide (m_id post ∈ seenIds l) then l
  else {| allPosts := allPosts l ++ [(post, hashtag)];
          seenIds := seenIds l ++ [m_id post];
          calls := calls l |}.

Definition sent_more (l : PostLoop) (sent : list Call) : PostLoop :=
  {| allPosts := allPosts l; seenIds := seenIds l; calls := calls l ++ sent |}.

(** One turn of [for (const hashtag of searchHashtags.slice(0, 3))]. *)
Definition search_hashtag (env : Env) (graph : Graph) (l : PostLoop) (hashtag : jsstring)
    : PostLoop :=
  let '(hashtagId, sent) := searchHashtagId env graph hashtag in
  let l := sent_more l sent in
  match hashtagId with
  | None => l                       (* catch *)
  | Some None | Some (Some []) => l (* continue *)
  | Some (Some hashtagId) =>
      let '(recentMedia, sent) := getRecentHashtagMedia env graph hashtagId 20 in
      let l := sent_more l sent in
      match recentMedia with
      | None => l                   (* catch *)
      | Some recentMedia =>
          let '(topMedia, sent) := getTopHashtagMedia env graph hashtagId 10 in
          let l := sent_more l sent in
          match topMedia with
          | None => l               (* catch *)
          | Some topMedia => fold_left (add_post hashtag) (topMedia ++ recentMedia) l
          end
      end
  end.

(** [a || b] on optional strings, the empty string for a missing result. *)
Definition first_url (a b : option jsstring) : jsstring :=
  match a with
  | Some (c :: s) => c :: s
  | _ => default [] b
  end.

(** [n || 0] *)
Definition count_or_zero (n : option Z) : Z := default 0 n.

(** A post in the format of the collector, with the hashtag that found
    it and the product it was searched for. *)
Record Found := {
  post : Instagram.Post;
  searchedHashtag : jsstring;
  matchedProductCode : jsstring;
}.

Definition found_of (product : Product) (entry : Media * jsstring) : Found :=
  let '(post, hashtag) := entry in
  {| post := {| Instagram.postId := m_id post;
                Instagram.caption := default [] (m_caption post);
                Instagram.mediaType := media_type post;
                Instagram.mediaUrl := first_url (media_url post) (thumbnail_url post);
                Instagram.permalink := m_permalink post;
                Instagram.p_thumbnailUrl := first_url (thumbnail_url post) (media_url post);
                Instagram.p_timestamp := m_timestamp post;
                Instagram.username := m_username post;
                Instagram.p_likeCount := count_or_zero (like_count post);
                Instagram.commentsCount := count_or_zero (comments_count post) |};
     searchedHashtag := hashtag;
     matchedProductCode := productCode product |}.

(** [searchProductPosts(product, hashtags)] and the requests it sends. *)
Definition searchProductPosts (env : Env) (graph : Graph)
    (product : Product) (hashtags : list jsstring) : list Found * list Call :=
  let searchHashtags :=
    if (0 <? length hashtags)%nat then hashtags
    else [toLowerCase (remove_spaces (productName product))] in
  let l :=
    fold_left (search_hashtag env graph) (take 3 searchHashtags)
      {| allPosts := []; seenIds := []; calls := [] |} in
  (found_of product <$> allPosts l, calls l).

(** What [checkConnection] reports. *)
Inductive Connection :=
  | NotConfigured (hasAccessToken hasBusinessAccountId : bool)
  | Connected (username : jsstring)
  | Failed.

Definition connected (c : Connection) : bool :=
  match c with
  | Connected _ => true
  | _ => false
  end.

Definition checkConnection (env : Env) (graph : Graph) : Connection * list Call :=
  if negb (is_set (INSTAGRAM_ACCESS_TOKEN env))
     || negb (is_set (INSTAGRAM_BUSINESS_ACCOUNT_ID env))
  then (NotConfigured (is_set (INSTAGRAM_ACCESS_TOKEN env))
                      (is_set (INSTAGRAM_BUSINESS_ACCOUNT_ID env)), [])
  else
    let businessAccountId := default [] (INSTAGRAM_BUSINESS_ACCOUNT_ID env) in
    match account graph businessAccountId with
    | Some username => (Connected username, [Account businessAccountId])
    | None => (Failed, [Account businessAccountId])
    end.

End InstagramSearch.

(** ** services/snsReviewCollector.js: set-up, trigger and statistics *)

Module CollectorApi.

Import Collector.

(** [Math.max(...ids, 0)] *)
Definition Math_max_ids (ids : list N) : N := foldr N.max 0%N ids.

(** [setReferences(snsReviews, products, onSave)]; [onSave] tells whether
    a callback is given. *)
Definition setReferences
    (snsReviews : list SocialReview) (products : list Product) (onSave : bool)
    (st : State) : State :=
  {| snsReviewsRef := Some snsReviews;
     productsRef := Some products;
     saveCallback := onSave;
     nextReviewId := (Math_max_ids (id <$> snsReviews) + 1)%N;
     saved := saved st |}.





Record PlatformStats := {
  p_total : nat;
  pending : nat;
  approved : nat;
  rejected : nat;
}.

Record Stats := {
  s_total : nat;
  s_youtube : PlatformStats;
  s_tiktok : PlatformStats;
  s_instagram : PlatformStats;
}.

Global Instance Status_eq_dec : EqDecision Status.
Proof. solve_decision. Defined.

Definition platform_stats (reviews : list SocialReview) (p : Platform) : PlatformStats :=
  let platformReviews := filter (λ r, platform r = p) reviews in
  {| p_total := length platformReviews;
     pending := length (filter (λ r, status r = PENDING) platformReviews);
     approved := length (filter (λ r, status r = APPROVED) platformReviews);
     rejected := length (filter (λ r, status r = REJECTED) platformReviews) |}.

(** [getCollectionStats()]; [None] is the object [{ error }]. *)
Definition getCollectionStats (st : State) : option Stats :=
  match snsReviewsRef st with
  | None => None
  | Some reviews =>
      Some {| s_total := length reviews;
              s_youtube := platform_stats reviews YOUTUBE;
              s_tiktok := platform_stats reviews TIKTOK;
              s_instagram := platform_stats reviews INSTAGRAM |}
  end.

(** The collaborators of a run when the Instagram adapter above is the
    one in use: [searchProductPosts] catches every failure of its own, so
    the call in the collector always returns. *)
Definition instagram_world (env : InstagramSearch.Env) (graph : InstagramSearch.Graph)
    (searchProductReviews : Product → option (list Youtube.Video)) (now_iso : jsstring)
    : World :=
  {| Collector.searchProductReviews := searchProductReviews;
     instagram_connected :=
       InstagramSearch.connected (InstagramSearch.checkConnection env graph).1;
     searchProductPosts :=
       λ product hashtags,
         Some (InstagramSearch.post
                 <$> (InstagramSearch.searchProductPosts env graph product hashtags).1);
     Collector.now_iso := now_iso |}.

End CollectorApi.

(** ** server.js: the endpoints over the review store *)

Module Server.

Import Collector.

(** [r.matchedProducts.some(m => m.productCode === productCode)] *)
Definition matches (productCode : jsstring) (r : SocialReview) : bool :=
  existsb (λ m, bool_decide (mp_productCode m = productCode)) (matchedProducts r).

(** The reviews a summary is made of:
    [snsReviews.filter(r => r.status === 'APPROVED' && ...)]. *)
Definition approvedReviews (snsReviews : list SocialReview) (productCode : jsstring)
    : list SocialReview :=
  filter (λ r, bool_decide (status r = APPROVED) && matches productCode r = true)
    snsReviews.

(** [review.status = s] *)
Definition set_status (s : Status) (r : SocialReview) : SocialReview :=
  {| id := id r; platform := platform r; externalId := externalId r;
     contentUrl := contentUrl r; thumbnailUrl := thumbnailUrl r;
     title := title r; description := description r;
     authorName := authorName r; authorId := authorId r;
     publishedAt := publishedAt r; viewCount := viewCount r;
     likeCount := likeCount r; commentCount := commentCount r;
     r_mediaType := r_mediaType r; status := s;
     matchedProducts := matchedProducts r; createdAt := createdAt r |}.

(** The reviews the bulk approval targets: the pending ones, of the
    product when a product code is given. *)
Definition targeted (productCode : option jsstring) (r : SocialReview) : bool :=
  bool_decide (status r = PENDING)
  && match productCode with
     | Some (c :: code) => matches (c :: code) r
     | _ => true
     end.

(** The handler of [PUT .../sns-reviews/approve-all]: the store after
    it, [approvedCount] and whether [saveData] is called. The targets are
    elements of the store, changed in place. *)
Definition approve_all (productCode : option jsstring) (snsReviews : list SocialReview)
    : list SocialReview * nat * bool :=
  let targetReviews := filter (λ r, targeted productCode r = true) snsReviews in
  let approvedCount := length targetReviews in
  ((λ r, if targeted productCode r then set_status APPROVED r else r) <$> snsReviews,
   approvedCount,
   (0 <? approvedCount)%nat).

(** The object [reviewData] that the handler of
    [POST .../sns-reviews/manual] builds from the URL, as far as a stored
    review keeps it. It has no [id]; the title is a string, as it is for
    a YouTube or a TikTok URL. *)
Record ReviewData := {
  d_platform : Platform;
  d_externalId : jsstring;
  d_contentUrl : jsstring;
  d_thumbnailUrl : jsstring;
  d_title : jsstring;
  d_description : jsstring;
  d_authorName : jsstring;
  d_authorId : jsstring;
  d_publishedAt : jsstring;
  d_viewCount : Z;
  d_likeCount : Z;
  d_commentCount : option Z;
}.

(** The handler of [POST .../sns-reviews/manual] from its duplicate check
    on: the review it answers with and the store after it. [None] is the
    answer 400 'This review already exists'. [now_iso] is
    [new Date().toISOString()]. *)
Definition add_manual (reviewData : ReviewData) (productCode now_iso : jsstring)
    (snsReviews : list SocialReview) : option SocialReview * list SocialReview :=
  let exists_ :=
    existsb (λ r, bool_decide (platform r = d_platform reviewData)
                  && bool_decide (externalId r = d_externalId reviewData))
      snsReviews in
  if exists_ then (None, snsReviews)
  else
    let newReview :=
      {| id := (CollectorApi.Math_max_ids (id <$> snsReviews) + 1)%N;
         platform := d_platform reviewData;
         externalId := d_externalId reviewData;
         contentUrl := d_contentUrl reviewData;
         thumbnailUrl := d_thumbnailUrl reviewData;
         title := d_title reviewData;
         description := d_description reviewData;
         authorName := d_authorName reviewData;
         authorId := d_authorId reviewData;
         publishedAt := d_publishedAt reviewData;
         viewCount := d_viewCount reviewData;
         likeCount := d_likeCount reviewData;
         commentCount := d_commentCount reviewData;
         r_mediaType := None;
         status := APPROVED;
         matchedProducts := [ {| mp_productCode := productCode; matchScore := 100 |} ];
         createdAt := now_iso |} in
    (Some newReview, snsReviews ++ [newReview]).

(** The collector after the server has changed the array both of them
    hold: [snsReviewsRef] is that array, the counter is not touched. *)
Definition shared_store (snsReviews : list SocialReview) (st : State) : State :=
  {| snsReviewsRef := Some snsReviews;
     productsRef := productsRef st;
     saveCallback := saveCallback st;
     nextReviewId := nextReviewId st;
     saved := saved st |}.

End Server.

(** ** The keyword summariser: hashtags, summary text and the main entry *)

Module ReviewSummary.

Import ReviewSummarizer.

(** [s.replace(/\s+/g, '_')]: every maximal run of white space becomes
    one underscore. [in_run] tells whether the unit before was a space. *)
Fixpoint underscore_spaces (s : jsstring) (in_run : bool) : jsstring :=
  match s with
  | [] => []
  | c :: rest =>
      if is_space c then
        if in_run then underscore_spaces rest true
        else 95%N :: underscore_spaces rest true
      else c :: underscore_spaces rest false
  end.

(** [s.replace(pattern, replacement)] for a string pattern and a
    replacement without [$]: the first occurrence is replaced. *)
Fixpoint replace_first_sub (pattern replacement s : jsstring) : jsstring :=
  if startsWith s pattern then replacement ++ drop (length pattern) s
  else match s with
       | [] => []
       | c :: rest => c :: replace_first_sub pattern replacement rest
       end.

(** [s.endsWith(suffix)] *)
Definition endsWith (s suffix : jsstring) : bool :=
  startsWith (reverse s) (reverse suffix).

(** [aggregated[category]] *)
Definition lookup (category : Category) (aggregated : list (Category * AggregatedCategory))
    : option AggregatedCategory :=
  snd <$> List.find (λ e, bool_decide (fst e = category)) aggregated.

(** [kw.en || kw.keyword] *)
Definition english (kw : Aggregate) : jsstring :=
  match a_en kw with
  | Some (c :: s) => c :: s
  | _ => a_keyword kw
  end.

(** The [category] field of a hashtag: ['dynamic'] or a category name. *)
Inductive TagCategory :=
  | dynamic
  | dictionary (c : Category).

(** An element of the result of [extractAllHashtags]; [h_isBoosted] is
    [None] where the literal has no such field. *)
Record Hashtag := {
  tag : jsstring;
  displayTag : jsstring;
  h_count : Z;
  h_category : TagCategory;
  h_isBoosted : option bool;
}.

(** Truthiness of [isBoosted]. *)
Definition boosted (h : Hashtag) : bool := default false (h_isBoosted h).

(** The array [hashtags] and the set [seenKeywords]. *)
Record Tags := {
  hashtags_of : list Hashtag;
  seenKeywords : list jsstring;
}.

Definition add_dynamic (t : Tags) (kw : DynamicKeyword) : Tags :=
  let normalizedKey := toLowerCase (keyword kw) in
  if bool_decide (normalizedKey ∈ seenKeywords t) then t
  else
    {| hashtags_of :=
         hashtags_of t ++ [ {| tag := toLowerCase (keyword kw);
                               displayTag := keyword kw;
                               h_count := count kw;
                               h_category := dynamic;
                               h_isBoosted := Some (isBoosted kw) |} ];
       seenKeywords := seenKeywords t ++ [normalizedKey] |}.

Definition add_dictionary (category : Category) (t : Tags) (kw : Aggregate) : Tags :=
  let englishKeyword := english kw in
  let normalizedKey := underscore_spaces (toLowerCase englishKeyword) false in
  if bool_decide (normalizedKey ∈ seenKeywords t) then t
  else
    {| hashtags_of :=
         hashtags_of t ++ [ {| tag := remove_spaces (toLowerCase englishKeyword);
                               displayTag := englishKeyword;
                               h_count := a_count kw;
                               h_category := dictionary category;
                               h_isBoosted := None |} ];
       seenKeywords := seenKeywords t ++ [normalizedKey] |}.

(** The array [categories] of [extractAllHashtags]. *)
Definition hashtag_categories : list Category :=
  [effects; texture; ingredients; usageFeel; scent; target].

Definition add_category (aggregated : list (Category * AggregatedCategory))
    (t : Tags) (category : Category) : Tags :=
  match lookup category aggregated with
  | Some data => fold_left (add_dictionary category) (topKeywords data) t
  | None => t
  end.

(** The comparator of the final sort does not put [b] before [a]. *)
Definition hashtag_le (a b : Hashtag) : bool :=
  if boosted a && negb (boosted b) then true
  else if negb (boosted a) && boosted b then false
  else h_count b - h_count a <=? 0.

Definition extractAllHashtags (aggregated : list (Category * AggregatedCategory))
    (dynamicKeywords : list DynamicKeyword) : list Hashtag :=
  let t := {| hashtags_of := []; seenKeywords := [] |} in
  let t := fold_left add_dynamic dynamicKeywords t in
  let t := fold_left (add_category aggregated) hashtag_categories t in
  take 20 (Array_sort hashtag_le (hashtags_of t)).

(** [Math.random()]: the generator is a sequence of 53-bit draws, the
    n-th call returning the n-th draw divided by 2^53. *)
Record Rng := {
  seeds : nat → N;
  drawn : nat;
}.

Definition Math_random (rng : Rng) : Q * Rng :=
  (Z.of_N (seeds rng (drawn rng) mod 2 ^ 53) # 9007199254740992,
   {| seeds := seeds rng; drawn := S (drawn rng) |}).

(** [pickRandom(arr)]; nothing is drawn for a missing or empty array. *)
Definition pickRandom (arr : option (list jsstring)) (rng : Rng) : jsstring * Rng :=
  match arr with
  | None | Some [] => ([], rng)
  | Some arr =>
      let '(r, rng) := Math_random rng in
      let index := Z.to_nat (Qfloor (r * inject_Z (Z.of_nat (length arr)))) in
      (default [] (arr !! index), rng)
  end.

Definition top_keyword (data : AggregatedCategory) : option jsstring :=
  (λ kw, toLowerCase (english kw)) <$> head (topKeywords data).

Definition getTopEffect (effectsData : option AggregatedCategory) : jsstring :=
  match effectsData ≫= top_keyword with
  | None => js "hydrating"
  | Some topKeyword =>
      if includes topKeyword (js "hydrat") || includes topKeyword (js "moistur")
      then js "hydrating"
      else if includes topKeyword (js "bright") || includes topKeyword (js "glow")
              || includes topKeyword (js "radianc")
      then js "brightening"
      else if includes topKeyword (js "sooth") || includes topKeyword (js "calm")
      then js "soothing"
      else if includes topKeyword (js "firm") || includes topKeyword (js "lift")
      then js "firming"
      else if includes topKeyword (js "anti") || includes topKeyword (js "wrinkle")
      then js "antiAging"
      else if includes topKeyword (js "acne") || includes topKeyword (js "trouble")
              || includes topKeyword (js "pore")
      then js "acne"
      else if includes topKeyword (js "nourish") then js "nourishing"
      else js "hydrating"
  end.

Definition getTextureType (textureData : option AggregatedCategory) : jsstring :=
  match textureData ≫= top_keyword with
  | None => js "serum"
  | Some topKeyword =>
      if includes topKeyword (js "cream") || includes topKeyword [0xD06C; 0xB9BC]%N
      then js "creamy"                                              (* 크림 *)
      else if includes topKeyword (js "gel") || includes topKeyword [0xC824]%N
      then js "gel"                                                 (* 젤 *)
      else if includes topKeyword (js "oil") || includes topKeyword [0xC624; 0xC77C]%N
      then js "oil"                                                 (* 오일 *)
      else if includes topKeyword (js "balm") || includes topKeyword [0xBC24]%N
      then js "balm"                                                (* 밤 *)
      else if includes topKeyword (js "light") || includes topKeyword [0xAC00; 0xBCBC]%N
      then js "lightweight"                                         (* 가벼 *)
      else js "serum"
  end.

(** The expression templates: the content of beautyExpressions.json, or
    [DEFAULT_EXPRESSIONS]. A field is [None] when the object lacks it. *)
Record Expressions := {
  hypeIntros : option (list jsstring);
  effectClaims : option (list (jsstring * list jsstring));
  casualFillers : option (list jsstring);
  textureFeel : option (list (jsstring * list jsstring));
  verdicts : option (list (jsstring * list jsstring));
  usageNotes : option (list jsstring);
}.

Definition default_hypeIntros : list jsstring :=
  [ js "This {product} has been getting major hype lately " ++ [0x2014]%N;
    js "Everyone's been talking about this {product}, and I finally tried it.";
    js "The buzz around this {product} is real." ].

Definition default_effectClaims : list (jsstring * list jsstring) :=
  [ (js "hydrating",
     [ js "it delivers serious hydration without feeling heavy.";
       js "my skin has never felt this plump and bouncy.";
       js "the hydration lasts all day, no joke." ]);
    (js "brightening",
     [ js "it genuinely brightens up my complexion.";
       js "it gives that lit-from-within glow.";
       js "the brightening effect is *chef's kiss*." ]);
    (js "soothing",
     [ js "it calms my redness like magic.";
       js "my irritated skin finally feels at peace.";
       js "it soothes everything almost instantly." ]);
    (js "antiAging",
     [ js "my fine lines are definitely less visible.";
       js "the firming effect is actually noticeable.";
       js "it makes my skin look younger, period." ]);
    (js "acne",
     [ js "my breakouts have calmed down significantly.";
       js "it keeps my pores clear without drying me out.";
       js "my skin has been so much clearer." ]);
    (js "firming",
     [ js "my skin feels noticeably tighter.";
       js "it gives an instant lifting effect.";
       js "my jawline looks more defined now." ]);
    (js "nourishing",
     [ js "it deeply nourishes without clogging pores.";
       js "my skin barrier has never been stronger.";
       js "my skin feels so healthy and balanced now." ]) ].

Definition default_textureFeel : list (jsstring * list jsstring) :=
  [ (js "lightweight",
     [ js "The texture is super lightweight " ++ [0x2014]%N ++ js " like water, almost.";
       js "It sinks in instantly, no residue at all.";
       js "Perfect for layering without feeling heavy." ]);
    (js "creamy",
     [ js "The texture is rich but not greasy at all.";
       js "It melts into the skin beautifully.";
       js "Rich texture that doesn't clog pores " ++ [0x2014]%N ++ js " love that." ]);
    (js "gel",
     [ js "The gel texture is so refreshing.";
       js "It has that bouncy, jelly-like consistency I love.";
       js "Cooling and lightweight " ++ [0x2014]%N ++ js " perfect for any skin type." ]);
    (js "serum",
     [ js "The serum texture is silky smooth.";
       js "A few drops go a long way.";
       js "Glides on like a dream." ]);
    (js "oil",
     [ js "The oil sinks in surprisingly fast.";
       js "It's not greasy at all, just pure glow.";
       js "A little goes such a long way." ]);
    (js "balm",
     [ js "The balm melts on contact with skin.";
       js "It transforms from solid to silky in seconds.";
       js "Perfect for overnight treatments." ]) ].

Definition default_verdicts : list (jsstring * list jsstring) :=
  [ (js "highlyRecommend",
     [ js "Honestly? This is a must-try. Highly recommend!";
       js "If you're on the fence, just get it. You won't regret it.";
       js "10/10 would repurchase. No questions asked.";
       js "Worth every penny. This one's a keeper." ]);
    (js "recommendWithNote",
     [ js "Great product overall " ++ [0x2014]%N
       ++ js " just patch test first if you have sensitive skin.";
       js "Solid choice if you're looking for something effective yet gentle.";
       js "Works well for me " ++ [0x2014]%N
       ++ js " results may vary depending on skin type." ]);
    (js "mixed",
     [ js "It's decent, but not life-changing for me personally.";
       js "It works, but I expected a bit more for the price.";
       js "Try it if you're curious, but manage your expectations." ]) ].

Definition default_usageNotes : list jsstring :=
  [ js "Works great under makeup.";
    js "Perfect for both AM and PM routines.";
    js "Layers beautifully with other products.";
    js "No pilling whatsoever." ].

Definition DEFAULT_EXPRESSIONS : Expressions :=
  {| hypeIntros := Some default_hypeIntros;
     effectClaims := Some default_effectClaims;
     casualFillers := None;
     textureFeel := Some default_textureFeel;
     verdicts := Some default_verdicts;
     usageNotes := Some default_usageNotes |}.

(** [table[key]] on an object of arrays. *)
Definition entry (key : jsstring) (table : list (jsstring * list jsstring))
    : option (list jsstring) :=
  snd <$> List.find (λ e, bool_decide (fst e = key)) table.

(** [table[key] || table[fallback] || defaults[fallback]] *)
Definition entry_or (key fallback : jsstring)
    (table defaults : list (jsstring * list jsstring)) : option (list jsstring) :=
  match entry key table with
  | Some l => Some l
  | None =>
      match entry fallback table with
      | Some l => Some l
      | None => entry fallback defaults
      end
  end.

Definition default_fillers : list jsstring :=
  [ js "and honestly?"; [0x2014]%N ++ js " and I get it now."; js "so yeah," ].

Definition em_dash : jsstring := [0x2014]%N.

(** The product type read off the top texture keyword. *)
Definition product_type (textureData : AggregatedCategory) : jsstring :=
  match top_keyword textureData with
  | None => js "serum"
  | Some textureKw =>
      if includes textureKw (js "cream") then js "cream"
      else if includes textureKw (js "oil") then js "oil"
      else if includes textureKw (js "gel") then js "gel"
      else if includes textureKw (js "essence") then js "essence"
      else if includes textureKw (js "toner") then js "toner"
      else if includes textureKw (js "mask") then js "mask"
      else if includes textureKw (js "balm") then js "balm"
      else js "serum"
  end.

Definition verdict_category (sentiment : SentimentScore) : jsstring :=
  if 70 <=? positiveRatio sentiment then js "highlyRecommend"
  else if 50 <=? positiveRatio sentiment then js "recommendWithNote"
  else js "mixed".

Record SummaryText := {
  ko : jsstring;
  en : jsstring;
}.

(** The Korean backup summary. *)
Definition summary_ko (effectsData textureData : AggregatedCategory)
    (reviewCount : nat) (sentiment : SentimentScore) : jsstring :=
  let summaryParts :=
    (if (0 <? length (topKeywords effectsData))%nat
     then [ join (js ", ") (a_keyword <$> take 2 (topKeywords effectsData))
            ++ js " " ++ [0xD6A8; 0xACFC]%N ]                       (* 효과 *)
     else [])
    ++ match topKeywords textureData with
       | top :: _ => [ a_keyword top ++ js " " ++ [0xC81C; 0xD615]%N ]  (* 제형 *)
       | [] => []
       end in
  let sentimentKo :=
    if 60 <=? positiveRatio sentiment
    then [0xAE0D; 0xC815; 0xC801]%N ++ js " " ++ [0xD3C9; 0xAC00; 0xAC00]%N ++ js " "
         ++ [0xB9CE; 0xC2B5; 0xB2C8; 0xB2E4]%N ++ js "."   (* 긍정적 평가가 많습니다. *)
    else [0xB2E4; 0xC591; 0xD55C]%N ++ js " " ++ [0xD3C9; 0xAC00; 0xAC00]%N ++ js " "
         ++ [0xC788; 0xC2B5; 0xB2C8; 0xB2E4]%N ++ js "."   (* 다양한 평가가 있습니다. *)
  in
  Number_toString (N.of_nat reviewCount)
  ++ [0xAC1C; 0xC758]%N ++ js " SNS " ++ [0xB9AC; 0xBDF0]%N ++ js " "
  ++ [0xBD84; 0xC11D]%N ++ js ": "                         (* 개의 SNS 리뷰 분석: *)
  ++ join (js ", ") summaryParts ++ js ". " ++ sentimentKo.

(** [generateSummaryText(aggregated, reviewCount, sentiment)] with the
    generator after it. The text is [None] when the function throws a
    TypeError: a category or a template table it reads is missing. *)
Definition generateSummaryText (beautyExpressions : option Expressions)
    (aggregated : list (Category * AggregatedCategory))
    (reviewCount : nat) (sentiment : SentimentScore) (rng : Rng)
    : option SummaryText * Rng :=
  let expressions := default DEFAULT_EXPRESSIONS beautyExpressions in
  match lookup texture aggregated with
  | None => (None, rng)
  | Some textureData =>
      let productType := product_type textureData in
      let '(template, rng) := pickRandom (hypeIntros expressions) rng in
      let intro := replace_first_sub (js "{product}") productType template in
      let topEffect := getTopEffect (lookup effects aggregated) in
      match effectClaims expressions with
      | None => (None, rng)
      | Some claims =>
          let '(effectClaim, rng) :=
            pickRandom (entry_or topEffect (js "hydrating") claims default_effectClaims)
              rng in
          let fillers := default default_fillers (casualFillers expressions) in
          let '(r, rng) := Math_random rng in
          let shouldAddFiller := negb (Qle_bool r (6 # 10)) in
          let '(line1, rng) :=
            if shouldAddFiller && endsWith intro em_dash then
              let '(filler, rng) := pickRandom (Some fillers) rng in
              (intro ++ js " " ++ filler ++ js " " ++ effectClaim, rng)
            else (intro ++ js " " ++ effectClaim, rng) in
          let textureType := getTextureType (Some textureData) in
          match textureFeel expressions with
          | None => (None, rng)
          | Some feels =>
              let '(textureLine, rng) :=
                pickRandom (entry_or textureType (js "serum") feels default_textureFeel)
                  rng in
              let '(r, rng) := Math_random rng in
              let '(line2, rng) :=
                if negb (Qle_bool r (5 # 10)) then
                  let usageNotes :=
                    match usageNotes expressions with
                    | Some notes => Some notes
                    | None => Some default_usageNotes
                    end in
                  let '(usageNote, rng) := pickRandom usageNotes rng in
                  (textureLine ++ js " " ++ usageNote, rng)
                else (textureLine, rng) in
              match verdicts expressions with
              | None => (None, rng)
              | Some table =>
                  let '(line3, rng) :=
                    pickRandom
                      (entry_or (verdict_category sentiment) (js "highlyRecommend")
                         table default_verdicts)
                      rng in
                  let summaryEn := join [10; 10]%N [line1; line2; line3] in
                  match lookup effects aggregated with
                  | None => (None, rng)
                  | Some effectsData =>
                      (Some {| ko := summary_ko effectsData textureData reviewCount
                                       sentiment;
                               en := summaryEn |},
                       rng)
                  end
              end
          end
      end
  end.

(** The labels of the categories in [KEYWORD_DICTIONARY], which
    [aggregateKeywords] copies into its result. *)
Record Label := {
  l_ko : jsstring;
  l_en : jsstring;
}.

Definition label_of (c : Category) : Label :=
  match c with
  | texture => {| l_ko := [0xC81C; 0xD615]%N; l_en := js "Texture" |}            (* 제형 *)
  | ingredients => {| l_ko := [0xC131; 0xBD84]%N; l_en := js "Ingredients" |}    (* 성분 *)
  | effects => {| l_ko := [0xD6A8; 0xACFC]%N; l_en := js "Effects" |}            (* 효과 *)
  | scent => {| l_ko := [0xD5A5]%N; l_en := js "Scent" |}                        (* 향 *)
  | usageFeel => {| l_ko := [0xC0AC; 0xC6A9; 0xAC10]%N; l_en := js "Usage Feel" |}
                                                                                 (* 사용감 *)
  | target => {| l_ko := [0xCD94; 0xCC9C]%N ++ js " " ++ [0xB300; 0xC0C1]%N;
                 l_en := js "Recommended For" |}                                 (* 추천 대상 *)
  | sentiment => {| l_ko := [0xD3C9; 0xAC00]%N; l_en := js "Reviews" |}          (* 평가 *)
  end.

Record HighlightKeyword := {
  hk_text : jsstring;
  hk_count : Z;
  hk_en : option jsstring;
}.

Record Highlight := {
  hl_category : Category;
  hl_label : Label;
  hl_keywords : list HighlightKeyword;
}.

Record CategorySummary := {
  cs_label : Label;
  cs_keywords : list Aggregate;
}.

(** The object [summarizeReviews] returns. [categories] is empty for the
    literal without keys, [dynamicKeywords] is [None] where the
    field is missing. *)
Record Summary := {
  hasData : bool;
  reviewCount : nat;
  summary : SummaryText;
  hashtags : list Hashtag;
  categories : list (Category * CategorySummary);
  sentiment_of : SentimentScore;
  highlights : list Highlight;
  dynamicKeywords : option (list DynamicKeyword);
}.

Definition no_reviews : Summary :=
  {| hasData := false;
     reviewCount := 0;
     summary :=
       {| ko := js "SNS " ++ [0xB9AC; 0xBDF0; 0xAC00]%N ++ js " " ++ [0xC544; 0xC9C1]%N
                ++ js " " ++ [0xC5C6; 0xC2B5; 0xB2C8; 0xB2E4]%N ++ js ".";
                                                        (* SNS 리뷰가 아직 없습니다. *)
          en := js "No SNS reviews yet." |};
     hashtags := [];
     categories := [];
     sentiment_of :=
       {| positiveRatio := 50; negativeRatio := 50;
          positiveCount := 0; negativeCount := 0; totalMentions := 0 |};
     highlights := [];
     dynamicKeywords := None |}.

(** The sum of the counts of the keywords of a highlight. *)
Definition highlight_total (h : Highlight) : Z :=
  fold_left (λ sum k, sum + hk_count k) (hl_keywords h) 0.

(** The highlights before they are sorted: one for every category but
    [sentiment] that has a top keyword, in the order of the keys. *)
Definition collect_highlights (aggregated : list (Category * AggregatedCategory))
    : list Highlight :=
  omap
    (λ e : Category * AggregatedCategory,
       let '(category, data) := e in
       if bool_decide (category ≠ sentiment) && (0 <? length (topKeywords data))%nat
       then Some {| hl_category := category;
                    hl_label := label_of category;
                    hl_keywords :=
                      (λ k, {| hk_text := a_keyword k;
                               hk_count := a_count k;
                               hk_en := a_en k |})
                      <$> take 3 (topKeywords data) |}
       else None)
    aggregated.

(** The keys of [categories] in the order of the literal. *)
Definition summary_categories : list Category :=
  [texture; ingredients; effects; scent; usageFeel; target].

(** The object [categories]; [None] when a category is missing from
    [aggregated]. *)
Definition categories_of (aggregated : list (Category * AggregatedCategory))
    : option (list (Category * CategorySummary)) :=
  mapM
    (λ c, (λ data, (c, {| cs_label := label_of c;
                          cs_keywords := take 3 (topKeywords data) |}))
          <$> lookup c aggregated)
    summary_categories.

(** [summarizeReviews(reviews)] with the generator after it; [None] when
    it throws. *)
Definition summarizeReviews (beautyExpressions : option Expressions)
    (reviews : list Collector.SocialReview) (rng : Rng) : option Summary * Rng :=
  match reviews with
  | [] => (Some no_reviews, rng)
  | _ =>
      let aggregated := aggregateKeywords reviews in
      let dynamicKeywords := extractDynamicKeywords reviews in
      let sentiment := calculateSentiment aggregated in
      match generateSummaryText beautyExpressions aggregated (length reviews) sentiment
              rng with
      | (None, rng) => (None, rng)
      | (Some summaryText, rng) =>
          let hashtags := extractAllHashtags aggregated dynamicKeywords in
          let highlights :=
            Array_sort (λ a b, highlight_total b - highlight_total a <=? 0)
              (collect_highlights aggregated) in
          match categories_of aggregated with
          | None => (None, rng)
          | Some categories =>
              (Some {| hasData := true;
                       reviewCount := length reviews;
                       summary := summaryText;
                       hashtags := hashtags;
                       categories := categories;
                       sentiment_of := sentiment;
                       highlights := take 4 highlights;
                       dynamicKeywords := Some (take 10 dynamicKeywords) |},
               rng)
          end
      end
  end.

(** The handler of [GET .../product/:productCode/sns-reviews/summary]:
    the summary of the approved reviews of the product. *)
Definition summary_endpoint (beautyExpressions : option Expressions)
    (snsReviews : list Collector.SocialReview) (productCode : jsstring) (rng : Rng)
    : option Summary * Rng :=
  summarizeReviews beautyExpressions (Server.approvedReviews snsReviews productCode) rng.

End ReviewSummary.

(** ** The AI-assisted summariser: set-up, feedback lookup, reanalysis *)

Module ClaudeAdmin.

Import ClaudeSummarizer.

(** The argument of [initialize]; [r_onSave] tells whether a callback is
    given. *)
Record Refs := {
  r_productInsights : option (list ProductInsight);
  r_aiFeedbackHistory : option (list FeedbackRecord);
  r_snsReviewOverrides : option (list Override);
  r_onSave : bool;
}.

(** [initialize(refs)]. [ANTHROPIC_API_KEY] is the environment variable
    and [constructed] tells whether [new Anthropic] returns; the client is
    left as it was when the key does not pass the test. *)
Definition initialize (refs : Refs) (ANTHROPIC_API_KEY : option jsstring)
    (constructed : bool) (st : State) : State :=
  let apiKey := trim (default [] ANTHROPIC_API_KEY) in
  {| anthropicClient :=
       if (0 <? length apiKey)%nat && startsWith apiKey (js "sk-ant-")
       then constructed
       else anthropicClient st;
     AI_PROVIDER := AI_PROVIDER st;
     productInsightsRef := r_productInsights refs;
     aiFeedbackHistoryRef := r_aiFeedbackHistory refs;
     snsReviewOverridesRef := r_snsReviewOverrides refs;
     saveCallback := r_onSave refs;
     saved := saved st;
     analysisCache := analysisCache st;
     clock := clock st;
     ai_requests := ai_requests st |}.

(** [getRecentFeedback(productCode)]: the comparator subtracts the
    creation times. *)
Definition getRecentFeedback (st : State) (productCode : jsstring)
    : list FeedbackRecord :=
  match aiFeedbackHistoryRef st with
  | None => []
  | Some history =>
      take 5
        (Array_sort (λ a b, f_createdAt b - f_createdAt a <=? 0)
           (filter (λ f, f_productCode f = productCode) history))
  end.

(** What [triggerReanalysis] returns. *)
Inductive Reanalysis :=
  | NotAvailable                (* message 'Claude AI not available' *)
  | NoReviews                   (* message 'No approved reviews to analyze' *)
  | Analysed (data : Summary)
  | Failed.                     (* the message of the error caught *)

Definition succeeded (r : Reanalysis) : bool :=
  match r with
  | Analysed _ => true
  | _ => false
  end.

(** [triggerReanalysis(productCode, approvedReviews, productName)]; the
    product name only enters the prompt. *)
Definition triggerReanalysis (reply : AiReply) (productCode : jsstring)
    (approvedReviews : list Collector.SocialReview) (st : State)
    : Reanalysis * State :=
  if negb (isClaudeAvailable st) then (NotAvailable, st)
  else if (length approvedReviews =? 0)%nat then (NoReviews, st)
  else
    let st := set_cache (delete productCode (analysisCache st)) st in
    match analyzeWithClaude reply approvedReviews productCode st with
    | (Some result, st) => (Analysed result, st)
    | (None, st) => (Failed, st)
    end.

End ClaudeAdmin.

(** ** Vocabulary of the statements *)

Module Spec.

Import ClaudeSummarizer.

(** *** Hashtags and queries *)

(** A hashtag as the extractor produces it: a non-empty word over the
    character class of the pattern. *)
Definition hashtag_token (t : jsstring) : Prop :=
  t ≠ [] ∧ Forall (λ c, Youtube.hashtag_char c = true) t.

(** The matches of the hashtag pattern in a text, without their [#]. *)
Definition hashtag_tokens (decodedHtml : jsstring) : list jsstring :=
  drop 1 <$> Youtube.match_hashtagRegex decodedHtml 0.

(** Products whose detail blob is the base64 of the given HTML. *)
Definition product_with_detail (blob : jsstring) : Product :=
  {| productCode := js "P1";
     productName := js "Cica Serum";
     productSaleStatus := true;
     detailInfo := DetailText blob |}.

(** base64 of [<p>#Cica and #cica</p>] *)
Definition blob_two_cases : jsstring := js "PHA+I0NpY2EgYW5kICNjaWNhPC9wPg==".

(** [<p>#수분 #Cica #수분 #cica #Cica</p>] and its base64 *)
Definition html_repeated : jsstring :=
  js "<p>#" ++ [0xC218; 0xBD84]%N ++ js " #Cica #" ++ [0xC218; 0xBD84]%N
  ++ js " #cica #Cica</p>".

Definition blob_repeated : jsstring :=
  js "PHA+I+yImOu2hCAjQ2ljYSAj7IiY67aEICNjaWNhICNDaWNhPC9wPg==".

(** The combinations of [k] elements of a list: its sub-lists of length
    [k], those that keep an earlier element first. *)
Fixpoint combinations {A} (k : nat) (l : list A) : list (list A) :=
  match k, l with
  | O, _ => [[]]
  | S _, [] => []
  | S k', x :: l' => ((λ c, x :: c) <$> combinations k' l') ++ combinations k l'
  end.

(** The query made of one combination. *)
Definition query_of (combo : list jsstring) : jsstring :=
  join (js " ") combo ++ js " review".

(** A string without the space that separates the terms of a query. *)
Definition space_free (s : jsstring) : Prop := 32%N ∉ s.

(** The words of a string between its spaces. *)
Fixpoint words (s : jsstring) : list jsstring :=
  match s with
  | [] => [[]]
  | c :: s' =>
      if (c =? 32)%N then [] :: words s'
      else match words s' with
           | w :: ws => (c :: w) :: ws
           | [] => [[c]]
           end
  end.

(** *** The review store *)

(** The review store of the collector and its invariant: no two reviews
    share platform and external id. *)
Definition reviews_of (st : Collector.State) : list Collector.SocialReview :=
  default [] (Collector.snsReviewsRef st).

Definition unique_keys (reviews : list Collector.SocialReview) : Prop :=
  NoDup (Collector.review_key <$> reviews).

(** Reviews that may be appended to a store: their keys are new to it
    and differ from one another. *)
Definition fresh (reviews added : list Collector.SocialReview) : Prop :=
  NoDup (Collector.review_key <$> added)
  ∧ ∀ r, r ∈ added → Collector.review_key r ∉ Collector.review_key <$> reviews.

(** What one pass over the hits of a product may do to the loop state. *)
Definition grows (l l' : Collector.Loop) : Prop :=
  ∃ added, Collector.store l' = Collector.store l ++ added
           ∧ Collector.total l' = (Collector.total l + length added)%nat
           ∧ fresh (Collector.store l) added.

(** A product is settled in a store when a pass over its hits would
    change nothing. *)
Definition settled (step : Collector.Loop → Product → Collector.Loop)
    (reviews : list Collector.SocialReview) (product : Product) : Prop :=
  ∀ l, (∃ added, Collector.store l = reviews ++ added) → step l product = l.

(** A product on sale whose detail blob, the base64 of
    [<p>#cica #serum</p>], carries two hashtags, and a search that finds
    [n] videos and [n] posts about it. Two hashtags make three queries of
    up to 20 videos each, and two hashtag searches of up to 30 posts. *)
Definition serum_product : Product :=
  {| productCode := js "P1";
     productName := js "Cica Serum";
     productSaleStatus := true;
     detailInfo := DetailText (js "PHA+I2NpY2EgI3NlcnVtPC9wPg==") |}.

Definition serum_video (n : nat) : Youtube.Video :=
  {| Youtube.videoId := js "vid" ++ Number_toString (N.of_nat n);
     Youtube.v_title := js "Cica Serum review #" ++ Number_toString (N.of_nat n);
     Youtube.v_description := [];
     Youtube.channelTitle := js "channel";
     Youtube.channelId := js "UC1";
     Youtube.v_publishedAt := js "2025-01-01T00:00:00Z";
     Youtube.v_thumbnailUrl := [];
     Youtube.v_viewCount := 0;
     Youtube.v_likeCount := 0 |}.

Definition serum_post (n : nat) : Instagram.Post :=
  {| Instagram.postId := js "post" ++ Number_toString (N.of_nat n);
     Instagram.caption := js "my cicaserum review";
     Instagram.mediaType := js "IMAGE";
     Instagram.mediaUrl := [];
     Instagram.permalink := [];
     Instagram.p_thumbnailUrl := [];
     Instagram.p_timestamp := js "2025-01-01T00:00:00Z";
     Instagram.username := js "user";
     Instagram.p_likeCount := 0;
     Instagram.commentsCount := 0 |}.

Definition world_with (n : nat) : Collector.World :=
  {| Collector.searchProductReviews := λ _, Some (serum_video <$> seq 0 n);
     Collector.instagram_connected := true;
     Collector.searchProductPosts := λ _ _, Some (serum_post <$> seq 0 n);
     Collector.now_iso := js "2025-02-01T00:00:00.000Z" |}.

Definition collector_start : Collector.State :=
  {| Collector.snsReviewsRef := Some [];
     Collector.productsRef := Some [serum_product];
     Collector.saveCallback := true;
     Collector.nextReviewId := 1;
     Collector.saved := 0 |}.

(** *** Approved reviews and their keywords *)

(** An approved review with the given id and text. *)
Definition approved (i : N) (t d : jsstring) : Collector.SocialReview :=
  {| Collector.id := i;
     Collector.platform := Collector.YOUTUBE;
     Collector.externalId := Number_toString i;
     Collector.contentUrl := [];
     Collector.thumbnailUrl := [];
     Collector.title := t;
     Collector.description := d;
     Collector.authorName := [];
     Collector.authorId := [];
     Collector.publishedAt := [];
     Collector.viewCount := 0;
     Collector.likeCount := 0;
     Collector.commentCount := None;
     Collector.r_mediaType := None;
     Collector.status := Collector.APPROVED;
     Collector.matchedProducts := [];
     Collector.createdAt := [] |}.

(** What holds of every own entry of [wordFrequency]. *)
Definition counted (entry : jsstring * ReviewSummarizer.Frequency) : Prop :=
  ReviewSummarizer.has ReviewSummarizer.STOP_WORDS entry.1 = false
  ∧ (3 ≤ length entry.1)%nat
  ∧ ReviewSummarizer.boost entry.2
    = if ReviewSummarizer.has ReviewSummarizer.BEAUTY_BOOST_WORDS entry.1
      then 2 else 1.

(** The title [수분 수분]: a two-syllable Korean word, twice. *)
Definition korean_twice : jsstring :=
  [0xC218; 0xBD84; 32; 0xC218; 0xBD84]%N.

(** The total of one polarity: over the sentiment keywords tagged with
    it, the sum of count × totalWeight. *)
Definition weighted_total (p : ReviewSummarizer.Polarity)
    (entries : list ReviewSummarizer.Aggregate) : Q :=
  foldr (λ k acc,
           if bool_decide (ReviewSummarizer.a_sentiment k = Some p)
           then (inject_Z (ReviewSummarizer.a_count k) * ReviewSummarizer.totalWeight k
                 + acc)%Q
           else acc)
        0%Q entries.

(** Three reviews that say "amazing", the last also "disappointed". *)
Definition batch_same_keyword : list Collector.SocialReview :=
  [ approved 1 (js "Amazing serum") [];
    approved 2 (js "Truly amazing") [];
    approved 3 (js "amazing at first") (js "then disappointed") ].

(** One review with three different positive keywords and a negative
    one, all of weight 1. *)
Definition batch_four_keywords : list Collector.SocialReview :=
  [ approved 1 (js "Amazing staple, a fave") (js "but disappointed by the cap") ].

(** Three positive and five negative keywords of weight 1, once each. *)
Definition batch_three_to_five : list Collector.SocialReview :=
  [ approved 1 (js "amazing staple fave")
      (js "disappointed waste overrated breakout irritation") ].

(** *** Summaries *)


(** The payload returned when nothing is known about a product. *)
Definition empty_payload : Summary :=
  {| summary := Text [];
     hashtags := Some [];
     sentiment := Some {| positiveRatio := 0; negativeRatio := 0 |};
     reviewCount := 0;
     aiProvider := js "none";
     analyzedAt := None;
     overriddenAt := None;
     updatedInsights := None |}.

(** A module state with every store injected and empty. *)
Definition fresh_state (provider : jsstring) (client : bool) : State :=
  {| anthropicClient := client;
     AI_PROVIDER := provider;
     productInsightsRef := Some [];
     aiFeedbackHistoryRef := Some [];
     snsReviewOverridesRef := Some [];
     saveCallback := true;
     saved := 0;
     analysisCache := ∅;
     clock := 0;
     ai_requests := 0 |}.



Definition some_reply : AiReply :=
  {| outcome := Parsed (Object {| r_summary := Some (js "From the model");
                                  r_hashtags := Some [js "#glow"];
                                  r_sentiment := Some {| positiveRatio := 60;
                                                         negativeRatio := 40 |};
                                  r_updatedInsights := Some (js "notes") |});
     latency := 1200 |}.

(** The model answers with the text [0]. *)
Definition falsy_reply : AiReply := {| outcome := Parsed Falsy; latency := 1200 |}.

(** The value a reply carries, a falsy one when the call failed. *)
Definition outcome_value (reply : AiReply) : AiParsed :=
  match outcome reply with
  | Parsed v => v
  | Throws => Falsy
  end.

(** *** Feedback *)

(** The feedback records stored for a product. *)
Definition feedback_of (productCode : jsstring) (st : State) : list FeedbackRecord :=
  filter (λ f, f_productCode f = productCode) (default [] (aiFeedbackHistoryRef st)).

(** One call [recordFeedback(productCode, original, corrected)] made when
    the clock shows [at_time]. *)
Record Call := {
  at_time : Z;
  c_productCode : jsstring;
  c_original : jsstring;
  c_corrected : jsstring;
}.

Definition record_of (c : Call) : FeedbackRecord :=
  {| f_productCode := c_productCode c;
     originalSummary := c_original c;
     correctedSummary := c_corrected c;
     f_createdAt := at_time c |}.

Definition run_call (st : State) (c : Call) : State :=
  recordFeedback (c_productCode c) (c_original c) (c_corrected c)
    (set_clock (at_time c) st).

Definition run_calls (calls : list Call) (st : State) : State :=
  fold_left run_call calls st.

(** Eleven corrections of the summary of product P1, one per second. *)
Definition eleven_calls : list Call :=
  (λ n, {| at_time := 1000 * Z.of_nat n;
           c_productCode := js "P1";
           c_original := js "draft " ++ Number_toString (N.of_nat n);
           c_corrected := js "final " ++ Number_toString (N.of_nat n) |})
  <$> seq 1 11.

(** The [n] most recent elements of a list kept in order of arrival. *)
Definition most_recent {A} (n : nat) (l : list A) : list A :=
  drop (length l - n) l.

End Spec.

(** ** Vocabulary of the further statements *)

Module Terms.

(** *** Detail requests *)

(** The [k]-th slice of [BATCH_SIZE] ids, the request made of it and what
    the reply to that request contributes to the result. *)
Definition batch (ids : list jsstring) (k : nat) : list jsstring :=
  take YoutubeSearch.BATCH_SIZE (drop (k * YoutubeSearch.BATCH_SIZE) ids).

Definition request_of (ids : list jsstring) (k : nat) : jsstring :=
  join (js ",") (batch ids k).

Definition reply_of (api : YoutubeSearch.Api) (ids : list jsstring) (k : nat)
    : list YoutubeSearch.Detail :=
  YoutubeSearch.detail_of <$> default [] (YoutubeSearch.videos api (request_of ids k)).

Definition answered (api : YoutubeSearch.Api) (ids : list jsstring) (k : nat) : Prop :=
  YoutubeSearch.videos api (request_of ids k) ≠ None.

(** An API that answers a detail request with one video, named after the
    request, and an API that answers nothing. *)
Definition echo_item (request : jsstring) : YoutubeSearch.VideoItem :=
  {| YoutubeSearch.vi_id := Some request;
     YoutubeSearch.vi_title := js "Video " ++ request;
     YoutubeSearch.vi_description := [];
     YoutubeSearch.vi_channelId := js "UC1";
     YoutubeSearch.vi_channelTitle := js "channel";
     YoutubeSearch.vi_publishedAt := js "2025-01-01T00:00:00Z";
     YoutubeSearch.vi_thumb_high := None;
     YoutubeSearch.vi_thumb_default := Some (js "https://i.ytimg.com/vi/default.jpg");
     YoutubeSearch.vi_viewCount := Some 1200;
     YoutubeSearch.vi_likeCount := None;
     YoutubeSearch.vi_commentCount := Some 0 |}.

Definition echo_api : YoutubeSearch.Api :=
  {| YoutubeSearch.search := λ _ _, None;
     YoutubeSearch.videos := λ request, Some [echo_item request] |}.

Definition silent_api : YoutubeSearch.Api :=
  {| YoutubeSearch.search := λ _ _, None;
     YoutubeSearch.videos := λ _, None |}.

(** A search hit with the given id. *)
Definition hit_of (id : option jsstring) : YoutubeSearch.Hit :=
  {| YoutubeSearch.h_videoId := id;
     YoutubeSearch.h_title := js "Cica Serum review";
     YoutubeSearch.h_description := [];
     YoutubeSearch.h_channelId := js "UC1";
     YoutubeSearch.h_channelTitle := js "channel";
     YoutubeSearch.h_publishedAt := js "2025-01-01T00:00:00Z";
     YoutubeSearch.h_thumbnailUrl := None |}.

(** Four ids, two of them valid. *)
Definition mixed_ids : list (option jsstring) :=
  [Some (js "a"); None; Some []; Some (js "b")].

(** *** Product searches *)

(** What the passes over the hits of the queries keep true: the ids seen
    are those of the videos kept, each once. *)
Definition tidy (l : YoutubeSearch.SearchLoop) : Prop :=
  NoDup (YoutubeSearch.seenIds l)
  ∧ YoutubeSearch.seenIds l = YoutubeSearch.h_videoId <$> YoutubeSearch.allVideos l.

(** A product with the three hashtags meebak, cica and cream (the blob
    is the base64 form of [#meebak #cica #cream]) and one without detail
    blob. *)
Definition three_tag_product : Product :=
  {| productCode := js "P3";
     productName := js "Meebak Cica Cream";
     productSaleStatus := true;
     detailInfo := DetailText (js "I21lZWJhayAjY2ljYSAjY3JlYW0=") |}.

Definition plain_product : Product :=
  {| productCode := js "P2";
     productName := js "Cica Serum";
     productSaleStatus := true;
     detailInfo := DetailMissing |}.

(** A search item with the given id. *)
Definition item_of (id : jsstring) : YoutubeSearch.SearchItem :=
  {| YoutubeSearch.si_videoId := Some id;
     YoutubeSearch.si_title := js "Cica Serum review";
     YoutubeSearch.si_description := [];
     YoutubeSearch.si_channelId := js "UC1";
     YoutubeSearch.si_channelTitle := js "channel";
     YoutubeSearch.si_publishedAt := js "2025-01-01T00:00:00Z";
     YoutubeSearch.si_thumb_high := Some (js "https://i.ytimg.com/vi/high.jpg");
     YoutubeSearch.si_thumb_default := None |}.

(** An API whose every search finds the videos v1, v2 and v1 again, and
    whose detail endpoint is down. *)
Definition twin_api : YoutubeSearch.Api :=
  {| YoutubeSearch.search := λ _ _, Some [item_of (js "v1"); item_of (js "v2");
                                           item_of (js "v1")];
     YoutubeSearch.videos := λ _, None |}.

(** *** Post searches *)

(** The hashtags [searchProductPosts] works with: the given ones, or the
    product name without white space, in lower case. *)
Definition searchHashtags (product : Product) (hashtags : list jsstring) : list jsstring :=
  if (0 <? length hashtags)%nat then hashtags
  else [toLowerCase (remove_spaces (productName product))].

(** The ids seen are those of the posts kept, each once. *)
Definition post_tidy (l : InstagramSearch.PostLoop) : Prop :=
  NoDup (InstagramSearch.seenIds l)
  ∧ InstagramSearch.seenIds l
    = (λ e, InstagramSearch.m_id e.1) <$> InstagramSearch.allPosts l.

(** The hashtags looked up by a sequence of requests. *)
Definition lookups (calls : list InstagramSearch.Call) : list jsstring :=
  omap (λ c, match c with
             | InstagramSearch.HashtagSearch q => Some q
             | _ => None
             end) calls.

(** A request that [searchProductPosts] may send: a hashtag lookup, the
    20 most recent media of a hashtag or its 10 top media. *)
Definition post_request (c : InstagramSearch.Call) : Prop :=
  match c with
  | InstagramSearch.HashtagSearch _ => True
  | InstagramSearch.RecentMedia _ limit => limit = 20
  | InstagramSearch.TopMedia _ limit => limit = 10
  | InstagramSearch.Account _ => False
  end.

(** Both credentials are set. *)
Definition configured (env : InstagramSearch.Env) : bool :=
  InstagramSearch.is_set (InstagramSearch.INSTAGRAM_ACCESS_TOKEN env)
  && InstagramSearch.is_set (InstagramSearch.INSTAGRAM_BUSINESS_ACCOUNT_ID env).

(** A media object with the given id and caption. *)
Definition media_of (id caption : jsstring) : InstagramSearch.Media :=
  {| InstagramSearch.m_id := id;
     InstagramSearch.m_caption := Some caption;
     InstagramSearch.media_type := js "IMAGE";
     InstagramSearch.media_url := Some (js "https://cdn.example/" ++ id ++ js ".jpg");
     InstagramSearch.m_permalink := js "https://www.instagram.com/p/" ++ id;
     InstagramSearch.thumbnail_url := None;
     InstagramSearch.m_timestamp := js "2025-01-01T00:00:00+0000";
     InstagramSearch.like_count := Some 12;
     InstagramSearch.comments_count := None;
     InstagramSearch.m_username := js "user" |}.

(** A Graph API on which every hashtag has the id of its name, the top
    media m1 and the recent media m1 and m2. *)
Definition small_graph : InstagramSearch.Graph :=
  {| InstagramSearch.ig_hashtag_search := λ q, InstagramSearch.Data [js "id-" ++ q];
     InstagramSearch.recent_media :=
       λ _ _, InstagramSearch.Data [ media_of (js "m1") (js "my #cica serum review");
                                     media_of (js "m2") (js "love this cicaserum") ];
     InstagramSearch.top_media :=
       λ _ _, InstagramSearch.Data [ media_of (js "m1") (js "my #cica serum review") ];
     InstagramSearch.account := λ _, Some (js "datepalmbay") |}.

Definition full_env : InstagramSearch.Env :=
  {| InstagramSearch.INSTAGRAM_ACCESS_TOKEN := Some (js "token");
     InstagramSearch.INSTAGRAM_BUSINESS_ACCOUNT_ID := Some (js "1784") |}.

Definition no_token_env : InstagramSearch.Env :=
  {| InstagramSearch.INSTAGRAM_ACCESS_TOKEN := None;
     InstagramSearch.INSTAGRAM_BUSINESS_ACCOUNT_ID := Some (js "1784") |}.

(** *** Collection runs *)

(** Every stored id is below the counter, and no two reviews share one. *)
Definition ids_below (st : Collector.State) : Prop :=
  Forall (λ r, (Collector.id r < Collector.nextReviewId st)%N) (Spec.reviews_of st).

Definition unique_ids (reviews : list Collector.SocialReview) : Prop :=
  NoDup (Collector.id <$> reviews).

(** The ids [first], [first + 1], ... *)
Definition ids_from (first : N) (n : nat) : list N :=
  (λ k, first + N.of_nat k)%N <$> seq 0 n.

(** A pass of a loop appends reviews, numbered from the counter on, that
    all satisfy [P]. *)
Definition appends (P : Collector.SocialReview → Prop) (l l' : Collector.Loop) : Prop :=
  ∃ added,
    Collector.store l' = Collector.store l ++ added
    ∧ Collector.next l' = (Collector.next l + N.of_nat (length added))%N
    ∧ Collector.total l' = (Collector.total l + length added)%nat
    ∧ Collector.id <$> added = ids_from (Collector.next l) (length added)
    ∧ Forall P added.

(** A review as a run stores it for a product: pending, on the given
    platform, matched to that product alone with a score from [lowest] to
    100. *)
Definition collected_for (p : Collector.Platform) (lowest : Z) (product : Product)
    (r : Collector.SocialReview) : Prop :=
  Collector.platform r = p
  ∧ Collector.status r = Collector.PENDING
  ∧ ∃ score,
      Collector.matchedProducts r
      = [ {| Collector.mp_productCode := productCode product;
             Collector.matchScore := score |} ]
      ∧ lowest ≤ score ≤ 100.

(** Stored by a run over [products]: collected for one of them that is on
    sale. *)
Definition collected_from (p : Collector.Platform) (lowest : Z) (products : list Product)
    (r : Collector.SocialReview) : Prop :=
  ∃ product, product ∈ products ∧ productSaleStatus product = true
             ∧ collected_for p lowest product r.

(** The statistics of a platform after [n] more pending reviews. *)
Definition more_pending (n : nat) (s : CollectorApi.PlatformStats)
    : CollectorApi.PlatformStats :=
  {| CollectorApi.p_total := CollectorApi.p_total s + n;
     CollectorApi.pending := CollectorApi.pending s + n;
     CollectorApi.approved := CollectorApi.approved s;
     CollectorApi.rejected := CollectorApi.rejected s |}.

(** A store of two reviews with the ids 7 and 3. *)
Definition two_reviews : list Collector.SocialReview :=
  [Spec.approved 7 (js "Great serum") []; Spec.approved 3 (js "Cica cream") []].

Import ReviewSummarizer ReviewSummary.

(** *** The keyword summariser *)

(** The keywords of a category in [KEYWORD_DICTIONARY]. *)
Definition dictionary_of (c : Category) : list (jsstring * KeywordInfo) :=
  match List.find (λ e, bool_decide (fst e = c)) KEYWORD_DICTIONARY with
  | Some (_, entries) => entries
  | None => []
  end.

(** The number of reviews whose title and description contain a keyword,
    letter case apart. *)
Definition mentions (keyword : jsstring) (reviews : list Collector.SocialReview) : nat :=
  length (filter (λ r, includes (toLowerCase (review_text r)) (toLowerCase keyword) = true)
            reviews).

(** [keywords[key]] *)
Definition entry_of (key : jsstring) (entries : list (jsstring * Aggregate))
    : option Aggregate :=
  snd <$> List.find (λ e, bool_decide (fst e = key)) entries.

(** The key under which a keyword found in a text is aggregated. *)
Definition key_of (fd : Found) : jsstring := toLowerCase (fd_keyword fd).

(** The aggregate of a keyword of the dictionary after [n] mentions. *)
Definition tallied (k : jsstring) (info : KeywordInfo) (n : nat) (a : Aggregate) : Prop :=
  a_keyword a = k
  ∧ a_count a = Z.of_nat n
  ∧ (totalWeight a == inject_Z (Z.of_nat n) * weight info)%Q
  ∧ a_sentiment a = k_sentiment info
  ∧ a_en a = k_en info.

(** The entries of a category are in step with the reviews read: the
    keys are pairwise different, every entry is the tally of a keyword of
    the dictionary that some review mentions, and a keyword without an
    entry is mentioned by none. *)
Definition aggregate_of (dc : list (jsstring * KeywordInfo))
    (reviews : list Collector.SocialReview) (entries : list (jsstring * Aggregate)) : Prop :=
  NoDup entries.*1
  ∧ ∀ key,
      match entry_of key entries with
      | Some a =>
          ∃ k info, (k, info) ∈ dc ∧ key = toLowerCase k
                    ∧ (0 < mentions k reviews)%nat
                    ∧ tallied k info (mentions k reviews) a
      | None =>
          ∀ k info, (k, info) ∈ dc → key = toLowerCase k → mentions k reviews = 0%nat
      end.

(** The body of the loop over the categories of a review's keywords. *)
Definition add_extracted (acc : list (Category * list (jsstring * Aggregate)))
    (entry : Category * list Found) : list (Category * list (jsstring * Aggregate)) :=
  update_category (fst entry) (λ entries, add_all entries (snd entry)) acc.

(** No two keywords of a category differ by letter case only. *)
Definition well_keyed (dc : list (jsstring * KeywordInfo)) : Prop :=
  NoDup (toLowerCase <$> dc.*1).

(** The entry of a keyword after one more mention. *)
Definition bump (a : option Aggregate) (fd : Found) : Aggregate :=
  match a with
  | Some a =>
      {| a_keyword := a_keyword a; a_count := a_count a + 1;
         totalWeight := totalWeight a + fd_weight fd;
         a_sentiment := a_sentiment a; a_en := a_en a |}
  | None =>
      {| a_keyword := fd_keyword fd; a_count := 0 + 1;
         totalWeight := 0 + fd_weight fd;
         a_sentiment := fd_sentiment fd; a_en := fd_en fd |}
  end.

(** The order of the hashtags: boosted tags first, then larger counts. *)
Definition ranked_before (a b : Hashtag) : Prop :=
  (boosted b = true → boosted a = true)
  ∧ (boosted a = boosted b → h_count b ≤ h_count a).

(** Where a hashtag comes from: a dynamic keyword, or a top keyword of
    one of the categories that [extractAllHashtags] reads. *)
Definition tag_source (aggregated : list (Category * AggregatedCategory))
    (dynamicKeywords : list DynamicKeyword) (h : Hashtag) : Prop :=
  match h_category h with
  | dynamic =>
      ∃ kw, kw ∈ dynamicKeywords
            ∧ tag h = toLowerCase (keyword kw)
            ∧ displayTag h = keyword kw
            ∧ h_count h = count kw
            ∧ h_isBoosted h = Some (isBoosted kw)
  | dictionary c =>
      c ∈ hashtag_categories
      ∧ ∃ data kw, lookup c aggregated = Some data
                   ∧ kw ∈ topKeywords data
                   ∧ tag h = remove_spaces (toLowerCase (english kw))
                   ∧ displayTag h = english kw
                   ∧ h_count h = a_count kw
                   ∧ h_isBoosted h = None
  end.

(** The generator after one draw. *)
Definition after_draw (rng : Rng) : Rng := {| seeds := seeds rng; drawn := S (drawn rng) |}.

(** A table has a non-empty array under a key. *)
Definition filled (key : jsstring) (table : list (jsstring * list jsstring)) : Prop :=
  ∃ x l, entry key table = Some (x :: l).

(** The three paragraphs of the English summary made of the built-in
    templates. *)
Definition first_paragraph (textureData effectsData : AggregatedCategory)
    (line : jsstring) : Prop :=
  ∃ template claims claim,
    template ∈ default_hypeIntros
    ∧ entry (getTopEffect (Some effectsData)) default_effectClaims = Some claims
    ∧ claim ∈ claims
    ∧ let intro :=
        replace_first_sub (js "{product}") (product_type textureData) template in
      line = intro ++ js " " ++ claim
      ∨ (endsWith intro em_dash = true
         ∧ ∃ filler, filler ∈ default_fillers
                     ∧ line = intro ++ js " " ++ filler ++ js " " ++ claim).

Definition second_paragraph (textureData : AggregatedCategory) (line : jsstring) : Prop :=
  ∃ feel textureLine,
    entry (getTextureType (Some textureData)) default_textureFeel = Some feel
    ∧ textureLine ∈ feel
    ∧ (line = textureLine
       ∨ ∃ note, note ∈ default_usageNotes ∧ line = textureLine ++ js " " ++ note).

Definition third_paragraph (sentiment : SentimentScore) (line : jsstring) : Prop :=
  ∃ table,
    entry (verdict_category sentiment) default_verdicts = Some table ∧ line ∈ table.

(** [aggregated[category]], an empty category when it is missing. *)
Definition category_of (c : Category) (aggregated : list (Category * AggregatedCategory))
    : AggregatedCategory :=
  default {| keywords := []; topKeywords := [] |} (lookup c aggregated).

(** A generator that always draws 0. *)
Definition zero_rng : Rng := {| seeds := λ _, 0%N; drawn := 0 |}.

(** *** Reviews added by hand *)

(** What the handler makes of a YouTube URL when the detail request
    fails. *)
Definition basic_youtube_data (videoId now_iso : jsstring) : Server.ReviewData :=
  {| Server.d_platform := Collector.YOUTUBE;
     Server.d_externalId := videoId;
     Server.d_contentUrl := js "https://www.youtube.com/watch?v=" ++ videoId;
     Server.d_thumbnailUrl :=
       js "https://i.ytimg.com/vi/" ++ videoId ++ js "/hqdefault.jpg";
     Server.d_title := js "YouTube Video";
     Server.d_description := [];
     Server.d_authorName := js "Unknown";
     Server.d_authorId := js "unknown";
     Server.d_publishedAt := now_iso;
     Server.d_viewCount := 0;
     Server.d_likeCount := 0;
     Server.d_commentCount := None |}.

End Terms.

(** * Properties *)

(** ** The JavaScript primitives *)

Section Sets.

(** [Set_values] appends a value exactly when it is seen for the first
    time. *)
Lemma Set_values_snoc `{EqDecision A} (l : list A) x :
  Set_values (l ++ [x])
  = if decide (x ∈ Set_values l) then Set_values l else Set_values l ++ [x].
Proof. unfold Set_values. by rewrite fold_left_app. Qed.

Lemma Set_values_elem_of `{EqDecision A} (l : list A) x : x ∈ Set_values l ↔ x ∈ l.
Proof.
  induction l as [|y l IH] using rev_ind.
  { done. }
  rewrite Set_values_snoc, elem_of_app, list_elem_of_singleton.
  destruct (decide (y ∈ Set_values l)) as [Hy|Hy].
  - rewrite IH. split; [auto|]. intros [?| ->]; [done|]. by apply IH.
  - by rewrite elem_of_app, list_elem_of_singleton, IH.
Qed.

Lemma Set_values_NoDup `{EqDecision A} (l : list A) : NoDup (Set_values l).
Proof.
  induction l as [|y l IH] using rev_ind.
  { constructor. }
  rewrite Set_values_snoc. destruct (decide (y ∈ Set_values l)) as [Hy|Hy]; [done|].
  apply NoDup_app. split; [done|]. split; [|apply NoDup_singleton].
  by intros x Hx ->%list_elem_of_singleton.
Qed.

Lemma Set_values_id `{EqDecision A} (l : list A) : NoDup l → Set_values l = l.
Proof.
  induction l as [|y l IH] using rev_ind; intros Hnd.
  { done. }
  apply NoDup_app in Hnd as (Hl & Hy & _).
  rewrite Set_values_snoc, IH by done.
  rewrite decide_False; [done|]. intros Hin. apply (Hy y Hin). by left.
Qed.

End Sets.

Section Sorting.

Context {A : Type} (le : A → A → bool).

Lemma sort_insert_Permutation x l : sort_insert le x l ≡ₚ x :: l.
Proof.
  induction l as [|y l IH]; simpl; [done|].
  destruct (le x y); [done|]. rewrite IH. apply Permutation_swap.
Qed.

Lemma Array_sort_Permutation l : Array_sort le l ≡ₚ l.
Proof.
  induction l as [|x l IH]; simpl; [done|].
  rewrite sort_insert_Permutation. by rewrite IH.
Qed.

Hypothesis le_total : ∀ x y, le x y = true ∨ le y x = true.

Lemma sort_insert_Sorted x l :
  Sorted (λ a b, le a b = true) l → Sorted (λ a b, le a b = true) (sort_insert le x l).
Proof.
  induction 1 as [|y l Hs IH Hhd]; simpl.
  - repeat constructor.
  - destruct (le x y) eqn:Hxy.
    + repeat constructor; done.
    + constructor; [done|].
      destruct Hhd as [|z l Hyz]; simpl.
      * constructor. destruct (le_total x y); congruence.
      * destruct (le x z); constructor; try done.
        destruct (le_total x y); congruence.
Qed.

Lemma Array_sort_Sorted l : Sorted (λ a b, le a b = true) (Array_sort le l).
Proof.
  induction l as [|x l IH]; simpl; [constructor|]. by apply sort_insert_Sorted.
Qed.

End Sorting.

Section StringOrder.

Lemma str_le_total a b : str_le a b = true ∨ str_le b a = true.
Proof.
  revert b. induction a as [|x a IH]; intros [|y b]; simpl; auto.
  destruct (N.lt_trichotomy x y) as [Hlt|[->|Hgt]].
  - left. apply orb_true_iff. left. by apply N.ltb_lt.
  - rewrite N.ltb_irrefl, N.eqb_refl. simpl. apply IH.
  - right. apply orb_true_iff. left. by apply N.ltb_lt.
Qed.

Lemma str_le_cons x a y b :
  str_le (x :: a) (y :: b) = true ↔ (x < y)%N ∨ (x = y ∧ str_le a b = true).
Proof.
  simpl. rewrite orb_true_iff, andb_true_iff, N.ltb_lt, N.eqb_eq. done.
Qed.

Global Instance str_le_trans : Transitive (λ a b : jsstring, str_le a b = true).
Proof.
  intros a. induction a as [|x a IH]; intros [|y b] [|z c]; try done.
  rewrite !str_le_cons. intros [?|[-> ?]] [?|[-> ?]]; eauto with lia.
Qed.

Global Instance str_le_antisym : AntiSymm (=) (λ a b : jsstring, str_le a b = true).
Proof.
  intros a. induction a as [|x a IH]; intros [|y b]; try done.
  rewrite !str_le_cons. intros [?|[-> ?]] [?|[? ?]]; try lia.
  f_equal. by apply IH.
Qed.

End StringOrder.

Section SortedLists.

Lemma Sorted_weaken {A} (R1 R2 : relation A) l :
  (∀ x y, R1 x y → R2 x y) → Sorted R1 l → Sorted R2 l.
Proof.
  intros Himpl. induction 1 as [|x l Hs IH Hhd]; constructor; [done|].
  destruct Hhd; constructor; auto.
Qed.

Lemma Sorted_take {A} (R : relation A) n l :
  Transitive R → Sorted R l → Sorted R (take n l).
Proof.
  intros Htrans Hs%Sorted_StronglySorted; [|done].
  apply StronglySorted_Sorted.
  rewrite <- (take_drop n l) in Hs. by apply StronglySorted_app_1_l in Hs.
Qed.

End SortedLists.

Section Rounding.

Lemma Math_round_Z (n : Z) : Math_round (inject_Z n) = n.
Proof.
  unfold Math_round, Qplus, inject_Z. simpl.
  rewrite Z.mul_1_r. symmetry. apply (Z.div_unique _ _ _ 1); lia.
Qed.

Lemma Math_round_le (x y : Q) : (x <= y)%Q → Math_round x ≤ Math_round y.
Proof. intros H. apply Qfloor_resp_le. by apply Qplus_le_l. Qed.

Lemma Math_round_comp x y : (x == y)%Q → Math_round x = Math_round y.
Proof. intros H. unfold Math_round. by rewrite H. Qed.

(** Rounding a percentage [m / n × 100] of a part of a whole. *)
Lemma Math_round_percentage (m n : Z) :
  0 ≤ m ≤ n → 0 < n →
  0 ≤ Math_round ((inject_Z m / inject_Z n) * 100)%Q ≤ 100.
Proof.
  intros [Hm Hmn] Hn.
  assert (0 < inject_Z n)%Q as HnQ.
  { change (inject_Z 0 < inject_Z n)%Q. rewrite <- Zlt_Qlt. lia. }
  assert (0 <= inject_Z m / inject_Z n)%Q as H0.
  { apply Qle_shift_div_l; [done|]. rewrite Qmult_0_l.
    change (inject_Z 0 <= inject_Z m)%Q. rewrite <- Zle_Qle. lia. }
  assert (inject_Z m / inject_Z n <= 1)%Q as H1.
  { apply Qle_shift_div_r; [done|]. rewrite Qmult_1_l. rewrite <- Zle_Qle. lia. }
  split.
  - rewrite <- (Math_round_Z 0). apply Math_round_le.
    apply Qmult_le_0_compat; [done|discriminate].
  - rewrite <- (Math_round_Z 100). apply Math_round_le.
    change (inject_Z 100) with (1 * 100)%Q.
    apply Qmult_le_compat_r; [done|discriminate].
Qed.

End Rounding.

Section Runs.

Lemma take_while_Forall {A} (p : A → bool) l : Forall (λ x, p x = true) (take_while p l).
Proof.
  induction l as [|x l IH]; simpl; [constructor|].
  destruct (p x) eqn:Hx; by constructor.
Qed.

Lemma drop_while_head {A} (p : A → bool) x l :
  p x = false → drop_while p (x :: l) = x :: l.
Proof. intros H. simpl. by rewrite H. Qed.

End Runs.

(** ** The hashtag extractor *)

Section HashtagExtractor.

Import Youtube Spec.
Local Open Scope nat_scope.

(** Every match is a [#] followed by a hashtag token. *)
Lemma match_hashtagRegex_shape s skip :
  Forall (λ m, ∃ t, m = hash :: t ∧ hashtag_token t) (match_hashtagRegex s skip).
Proof.
  revert skip. induction s as [|c rest IH]; intros skip; simpl; [constructor|].
  destruct skip as [|k]; [|apply IH].
  destruct (N.eqb_spec c hash) as [->|_]; [|apply IH].
  pose proof (take_while_Forall hashtag_char rest) as Hrun.
  destruct (take_while hashtag_char rest) as [|x run] eqn:Htake; [apply IH|].
  constructor; [|apply IH]. by exists (x :: run).
Qed.

Lemma hashtag_char_not_space c : hashtag_char c = true → is_space c = false.
Proof.
  unfold hashtag_char, is_space, is_lower, is_upper, is_digit, is_hangul, between.
  rewrite !orb_true_iff, !andb_true_iff, !N.leb_le, N.eqb_eq. intros H.
  apply not_true_iff_false.
  rewrite !orb_true_iff, !andb_true_iff, !N.leb_le, !N.eqb_eq. lia.
Qed.

Lemma hashtag_token_space_free t : hashtag_token t → space_free t.
Proof.
  intros [_ Hall] Hin. rewrite Forall_forall in Hall.
  by specialize (Hall _ Hin).
Qed.

Lemma trim_hashtag_token t : hashtag_token t → trim t = t.
Proof.
  intros [Hne Hall]. unfold trim.
  destruct t as [|c t]; [done|].
  rewrite drop_while_head
    by (apply hashtag_char_not_space; by inversion Hall).
  destruct (reverse (c :: t)) as [|z r] eqn:Hrev.
  { apply (f_equal length) in Hrev. by rewrite length_reverse in Hrev. }
  rewrite drop_while_head.
  - by rewrite <- Hrev, reverse_involutive.
  - apply hashtag_char_not_space. rewrite Forall_forall in Hall. apply Hall.
    apply elem_of_reverse. rewrite Hrev. by left.
Qed.

(** On a match, removing the first [#] and trimming leaves the token. *)
Lemma strip_match m :
  (∃ t, m = hash :: t ∧ hashtag_token t) →
  trim (replace_first hash m) = drop 1 m ∧ hashtag_token (drop 1 m).
Proof.
  intros (t & -> & Ht).
  change (replace_first hash (hash :: t)) with t.
  change (drop 1 (hash :: t)) with t.
  split; [by apply trim_hashtag_token|done].
Qed.

Lemma extractHashtagsFromProduct_tokens product decodedHtml :
  detailInfo_falsy (detailInfo product) = false →
  decode_detailInfo (detailInfo product) = Some decodedHtml →
  extractHashtagsFromProduct product = Set_values (hashtag_tokens decodedHtml)
  ∧ Forall hashtag_token (hashtag_tokens decodedHtml).
Proof.
  intros Hfalsy Hdecode. unfold extractHashtagsFromProduct, hashtag_tokens.
  rewrite Hfalsy, Hdecode.
  pose proof (match_hashtagRegex_shape decodedHtml 0) as Hshape.
  rewrite Forall_forall in Hshape. split.
  - f_equal. apply list_fmap_ext. intros i m Hm%list_elem_of_lookup_2.
    by destruct (strip_match m (Hshape _ Hm)).
  - apply Forall_fmap, Forall_forall. intros m Hm.
    by destruct (strip_match m (Hshape _ Hm)).
Qed.

(** C9 (as amended). Without a detail blob, or when decoding it throws,
    the extractor returns the empty list. Otherwise it returns the
    matches of the hashtag pattern in the decoded text without their
    leading [#], each distinct token once, in order of first appearance:
    a token is appended exactly when it has not been seen before, and
    tokens are compared as they are written, so two spellings that differ
    in case are two hashtags. Every returned hashtag is a non-empty word
    over the character class of the pattern. *)
Theorem extractHashtagsFromProduct_exact_dedup product :
  (detailInfo_falsy (detailInfo product) = true
   ∨ decode_detailInfo (detailInfo product) = None →
   extractHashtagsFromProduct product = [])
  ∧ (∀ decodedHtml,
       detailInfo_falsy (detailInfo product) = false →
       decode_detailInfo (detailInfo product) = Some decodedHtml →
       extractHashtagsFromProduct product = Set_values (hashtag_tokens decodedHtml))
  ∧ (∀ (tokens : list jsstring) token,
       Set_values (tokens ++ [token])
       = if decide (token ∈ tokens) then Set_values tokens
         else Set_values tokens ++ [token])
  ∧ NoDup (extractHashtagsFromProduct product)
  ∧ Forall hashtag_token (extractHashtagsFromProduct product).
Proof.
  split; [|split; [|split]].
  - unfold extractHashtagsFromProduct. intros [-> | ->]; [done|].
    by destruct (detailInfo_falsy _).
  - intros decodedHtml Hfalsy Hdecode.
    by destruct (extractHashtagsFromProduct_tokens product decodedHtml).
  - intros tokens token. rewrite Set_values_snoc.
    destruct (decide (token ∈ Set_values tokens)) as [Hin|Hout];
      rewrite Set_values_elem_of in *.
    + by rewrite decide_True.
    + by rewrite decide_False.
  - destruct (detailInfo_falsy (detailInfo product)) eqn:Hfalsy.
    { unfold extractHashtagsFromProduct. rewrite Hfalsy. split; constructor. }
    destruct (decode_detailInfo (detailInfo product)) as [decodedHtml|] eqn:Hdecode.
    + destruct (extractHashtagsFromProduct_tokens product decodedHtml) as [-> Htok];
        [done..|].
      split; [apply Set_values_NoDup|].
      rewrite Forall_forall in *. intros t Ht. apply Htok.
      by apply Set_values_elem_of.
    + unfold extractHashtagsFromProduct. rewrite Hfalsy, Hdecode. split; constructor.
Qed.

Lemma extractHashtagsFromProduct_exact_dedup_witness :
  extractHashtagsFromProduct (product_with_detail blob_repeated)
  = Set_values (hashtag_tokens html_repeated)
  ∧ extractHashtagsFromProduct (product_with_detail blob_repeated)
    = [ [0xC218; 0xBD84]%N; js "Cica"; js "cica" ].
Proof.
  destruct (extractHashtagsFromProduct_exact_dedup (product_with_detail blob_repeated))
    as (_ & Htokens & _).
  split.
  - apply (Htokens html_repeated); reflexivity.
  - reflexivity.
Defined.

(** De-duplication is not case-insensitive: a blob with [#Cica] and later
    [#cica] yields two hashtags. *)
Lemma extractHashtagsFromProduct_keeps_both_cases :
  decode_detailInfo (DetailText blob_two_cases) = Some (js "<p>#Cica and #cica</p>")
  ∧ extractHashtagsFromProduct (product_with_detail blob_two_cases)
    = [js "Cica"; js "cica"]
  ∧ length (extractHashtagsFromProduct (product_with_detail blob_two_cases)) ≠ 1.
Proof. vm_compute. repeat split; lia. Qed.

End HashtagExtractor.

(** ** The query planner *)

Section QueryPlanner.

Import Youtube Spec.
Local Open Scope nat_scope.
Local Arguments Nat.eqb : simpl never.
Local Arguments Nat.ltb : simpl never.

Lemma combinations_zero {A} (l : list A) : combinations 0 l = [[]].
Proof. by destruct l. Qed.

Lemma combinations_long {A} k (l : list A) : length l < k → combinations k l = [].
Proof.
  revert k. induction l as [|x l IH]; intros [|k] Hlen; simpl in *; try lia; [done|].
  rewrite !IH by lia. done.
Qed.

Lemma combinations_all {A} (l : list A) : combinations (length l) l = [l].
Proof.
  induction l as [|x l IH]; simpl; [done|].
  rewrite IH, combinations_long by lia. done.
Qed.

Lemma combinations_one {A} (l : list A) : combinations 1 l = (λ item, [item]) <$> l.
Proof.
  induction l as [|x l IH]; simpl; [done|]. by rewrite IH, combinations_zero.
Qed.

(** The members of [combinations k l] are the sub-lists of [l] of length
    [k]. *)
Lemma combinations_sublist {A} k (l c : list A) :
  c ∈ combinations k l ↔ sublist c l ∧ length c = k.
Proof.
  revert k c. induction l as [|x l IH]; intros [|k] c; simpl.
  - rewrite list_elem_of_singleton. split; [intros ->; split; [constructor|done]|].
    intros [_ Hc]. by destruct c.
  - split; [by intros ?%elem_of_nil|]. intros [Hc%sublist_nil_r Hlen]. by subst.
  - rewrite list_elem_of_singleton. split.
    + intros ->. split; [apply sublist_nil_l|done].
    + intros [_ Hc]. by destruct c.
  - rewrite elem_of_app, list_elem_of_fmap. setoid_rewrite IH. split.
    + intros [(c' & -> & Hsub & Hlen)|[Hsub Hlen]].
      * split; [by apply sublist_skip|simpl; lia].
      * split; [by apply sublist_cons|done].
    + intros [Hsub Hlen]. apply sublist_cons_r in Hsub as [Hsub|(c' & -> & Hsub)].
      * by right.
      * left. exists c'. simpl in Hlen. split; [done|]. split; [done|lia].
Qed.

(** The loop of [getCombinations] written with [combinations]. *)
Lemma combinations_loop {A} k (arr : list A) :
  S k ≤ length arr →
  combinations (S k) arr
  = flat_map
      (λ i, match arr !! i with
            | Some head => (λ tail, head :: tail) <$> combinations k (drop (i + 1) arr)
            | None => []
            end)
      (seq 0 (length arr - S k + 1)).
Proof.
  induction arr as [|x l IH]; intros Hlen; simpl in Hlen; [lia|].
  change (combinations (S k) (x :: l))
    with (((λ c, x :: c) <$> combinations k l) ++ combinations (S k) l).
  replace (length (x :: l) - S k + 1) with (S (length l - k)) by (simpl; lia).
  rewrite <- cons_seq. simpl. f_equal.
  destruct (decide (S k ≤ length l)) as [Hle|Hgt].
  - rewrite IH by done.
    replace (length l - S k + 1) with (length l - k) by lia.
    rewrite <- fmap_S_seq, flat_map_concat_map, flat_map_concat_map.
    f_equal. rewrite <- list_fmap_compose.
    apply (list_fmap_ext _ _ (seq 0 (length l - k))). by intros _ i _.
  - rewrite combinations_long by lia.
    replace (length l - k) with 0 by lia. done.
Qed.

(** [getCombinations] computes the combinations, for every size from 1. *)
Lemma getCombinations_combinations {A} (arr : list A) size :
  1 ≤ size → getCombinations arr size = combinations size arr.
Proof.
  revert arr. induction size as [|k IH]; intros arr Hsize; [lia|].
  simpl. destruct (S k =? 1) eqn:Hone.
  { apply Nat.eqb_eq in Hone. injection Hone as ->. by rewrite combinations_one. }
  apply Nat.eqb_neq in Hone.
  destruct (S k =? length arr) eqn:Hall.
  { apply Nat.eqb_eq in Hall. rewrite Hall. by rewrite combinations_all. }
  destruct (length arr <? S k) eqn:Hlong.
  { apply Nat.ltb_lt in Hlong. by rewrite combinations_long. }
  apply Nat.ltb_ge in Hlong. rewrite combinations_loop by done.
  rewrite !flat_map_concat_map. f_equal. apply list_fmap_ext. intros _ i _.
  destruct (arr !! i); [|done]. rewrite IH by lia. done.
Qed.

Lemma words_cons s : ∃ w ws, words s = w :: ws.
Proof.
  induction s as [|c s (w & ws & IH)]; simpl; [eauto|].
  destruct (c =? 32)%N; [eauto|]. rewrite IH. eauto.
Qed.

Lemma words_app w s :
  space_free w →
  words (w ++ s) = (w ++ default [] (head (words s))) :: tail (words s).
Proof.
  unfold space_free. destruct (words_cons s) as (w' & ws & Hs).
  induction w as [|c w IH]; intros Hw; simpl.
  { by rewrite Hs. }
  apply not_elem_of_cons in Hw as [Hc Hw].
  destruct (N.eqb_spec c 32) as [->|_]; [done|].
  rewrite IH by done. done.
Qed.

Lemma words_join l :
  Forall space_free l → l ≠ [] → words (join (js " ") l) = l.
Proof.
  induction 1 as [|x l Hx Hl IH]; intros Hne; [done|].
  destruct l as [|y l].
  - simpl. rewrite <- (app_nil_r x) at 1. rewrite words_app by done.
    simpl. by rewrite app_nil_r.
  - change (join (js " ") (x :: y :: l))
      with (x ++ 32%N :: join (js " ") (y :: l)).
    rewrite words_app by done.
    change (words (32%N :: join (js " ") (y :: l)))
      with ([] :: words (join (js " ") (y :: l))).
    rewrite IH by done. simpl. by rewrite app_nil_r.
Qed.

Lemma join_snoc l w :
  l ≠ [] → join (js " ") (l ++ [w]) = join (js " ") l ++ js " " ++ w.
Proof.
  induction l as [|x l IH]; intros Hne; [done|].
  destruct l as [|y l]; [done|].
  change (join (js " ") ((x :: y :: l) ++ [w]))
    with (x ++ js " " ++ join (js " ") ((y :: l) ++ [w])).
  rewrite IH by done.
  change (join (js " ") (x :: y :: l)) with (x ++ js " " ++ join (js " ") (y :: l)).
  by rewrite <- !app_assoc.
Qed.

Lemma query_of_words combo :
  combo ≠ [] → Forall space_free combo → words (query_of combo) = combo ++ [js "review"].
Proof.
  intros Hne Hsf. unfold query_of.
  change (js " review") with (js " " ++ js "review").
  rewrite <- join_snoc by done. apply words_join.
  - apply Forall_app. split; [done|]. constructor; [|done].
    unfold space_free. compute_done.
  - by destruct combo.
Qed.

(** Two combinations of words without spaces give different queries. *)
Lemma query_of_inj c1 c2 :
  c1 ≠ [] → c2 ≠ [] → Forall space_free c1 → Forall space_free c2 →
  query_of c1 = query_of c2 → c1 = c2.
Proof.
  intros Hne1 Hne2 Hsf1 Hsf2 Heq.
  apply (app_inv_tail [js "review"]).
  by rewrite <- !query_of_words, Heq.
Qed.

Lemma sizes_down_positive n size : size ∈ sizes_down n → 1 ≤ size.
Proof.
  unfold sizes_down. rewrite elem_of_reverse, elem_of_seq. lia.
Qed.

(** The planner on a non-empty list, written with [combinations]. *)
Lemma generateHashtagSearchQueries_general hashtags productName :
  hashtags ≠ [] →
  generateHashtagSearchQueries hashtags productName
  = Set_values
      (flat_map (λ size, query_of <$> combinations size hashtags)
         (reverse (seq 1 (length hashtags)))).
Proof.
  intros Hne. unfold generateHashtagSearchQueries.
  assert ((0 <? length hashtags) = true) as ->.
  { apply Nat.ltb_lt. destruct hashtags; [done|simpl; lia]. }
  assert (flat_map
            (λ size, (λ combo, join (js " ") combo ++ review_suffix)
                       <$> getCombinations hashtags size)
            (sizes_down (length hashtags))
          = flat_map (λ size, query_of <$> combinations size hashtags)
              (reverse (seq 1 (length hashtags)))) as ->.
  { rewrite !flat_map_concat_map. f_equal. apply list_fmap_ext.
    intros i size Hsize%list_elem_of_lookup_2%sizes_down_positive.
    by rewrite getCombinations_combinations. }
  set (queries := flat_map _ _).
  assert (In (query_of hashtags) queries) as Hin.
  { apply in_flat_map. exists (length hashtags). split.
    - apply list_elem_of_In, elem_of_reverse, elem_of_seq.
      destruct hashtags; [done|simpl; lia].
    - rewrite combinations_all. by left. }
  by destruct queries.
Qed.

(** The seven queries of three different words without a space. *)
Lemma three_hashtags_queries a b c productName :
  NoDup [a; b; c] →
  space_free a → space_free b → space_free c →
  generateHashtagSearchQueries [a; b; c] productName
  = [ query_of [a; b; c];
      query_of [a; b]; query_of [a; c]; query_of [b; c];
      query_of [a]; query_of [b]; query_of [c] ]
  ∧ NoDup (generateHashtagSearchQueries [a; b; c] productName).
Proof.
  intros Hnd Ha Hb Hc.
  rewrite generateHashtagSearchQueries_general by done. simpl.
  assert (NoDup [ query_of [a; b; c];
                  query_of [a; b]; query_of [a; c]; query_of [b; c];
                  query_of [a]; query_of [b]; query_of [c] ]) as Hqueries.
  { apply (NoDup_fmap_2_strong query_of
             [ [a; b; c]; [a; b]; [a; c]; [b; c]; [a]; [b]; [c] ]).
    - intros c1 c2 H1 H2.
      assert (∀ combo, combo ∈ [ [a; b; c]; [a; b]; [a; c]; [b; c]; [a]; [b]; [c] ] →
                combo ≠ [] ∧ Forall space_free combo) as Hcombo.
      { intros combo Hin.
        repeat (apply elem_of_cons in Hin as [->|Hin]; [by repeat constructor|]).
        by apply elem_of_nil in Hin. }
      destruct (Hcombo c1 H1), (Hcombo c2 H2). by apply query_of_inj.
    - apply NoDup_cons in Hnd as [Hab Hnd]. apply NoDup_cons in Hnd as [Hbc _].
      apply not_elem_of_cons in Hab as [Hab Hac].
      apply not_elem_of_cons in Hac as [Hac _].
      apply not_elem_of_cons in Hbc as [Hbc _].
      repeat (apply NoDup_cons; split;
              [rewrite ?elem_of_cons, elem_of_nil; intuition congruence|]).
      constructor. }
  by rewrite (Set_values_id _ Hqueries).
Qed.

(** [Set_values] keeps the first occurrence of every value and drops the
    later ones; said with the library's [remove_dups], which keeps the
    last ones. *)
Lemma Set_values_first_occurrences (l : list jsstring) :
  Set_values l = reverse (remove_dups (reverse l)).
Proof.
  induction l as [|x l IH] using rev_ind; [done|].
  rewrite Set_values_snoc, reverse_app. simpl.
  destruct (decide (x ∈ Set_values l)) as [Hin|Hout];
    rewrite Set_values_elem_of in *;
    destruct (decide_rel elem_of x (reverse l)) as [Hrev|Hrev];
    rewrite elem_of_reverse in Hrev; try done.
  by rewrite reverse_cons, IH.
Qed.

Lemma Set_values_head (q : jsstring) rest : head (Set_values (q :: rest)) = Some q.
Proof.
  induction rest as [|r rest IH] using rev_ind; [done|].
  rewrite app_comm_cons, Set_values_snoc.
  destruct (decide _); [done|]. by destruct (Set_values (q :: rest)).
Qed.

Lemma Set_values_sublist (l : list jsstring) : sublist (Set_values l) l.
Proof.
  induction l as [|x l IH] using rev_ind; [constructor|].
  rewrite Set_values_snoc. destruct (decide _).
  - by apply sublist_inserts_r.
  - by apply sublist_app.
Qed.

(** A query names its combination and ends in the qualifier, so the
    query of a longer combination is a longer text. *)
Lemma query_of_twice (x : jsstring) : query_of [x; x] ≠ query_of [x].
Proof.
  intros Heq. apply (f_equal length) in Heq. unfold query_of in Heq.
  simpl in Heq. rewrite !length_app in Heq. simpl in Heq. lia.
Qed.

(** C3. For a non-empty hashtag list the planner returns the queries of
    the combinations of the hashtags -- the sub-lists of a given length --
    for the lengths from that of the list down to 1, each query being the
    terms of the combination joined by a space and followed by " review",
    and it returns them de-duplicated: every query once, at the place of
    its first appearance, so that no two queries of the result are equal,
    the result has the queries of the combinations and no other, and it
    begins with the query of the whole list. A hashtag given twice shows
    it: for [x; x] the single [x] is searched once, not twice. In
    particular, for three different hashtags a, b, c without a space the
    result is the seven queries of {a,b,c}, {a,b}, {a,c}, {b,c}, {a}, {b},
    {c}, in that order and all different. *)
Theorem generateHashtagSearchQueries_combinations :
  (∀ hashtags productName,
     hashtags ≠ [] →
     let raw :=
       flat_map (λ size, query_of <$> combinations size hashtags)
         (reverse (seq 1 (length hashtags))) in
     let queries := generateHashtagSearchQueries hashtags productName in
     queries = Set_values raw
     ∧ queries = reverse (remove_dups (reverse raw))
     ∧ NoDup queries
     ∧ (∀ q, q ∈ queries ↔ q ∈ raw)
     ∧ sublist queries raw
     ∧ head queries = Some (query_of hashtags))
  ∧ (∀ size (hashtags combo : list jsstring),
       combo ∈ combinations size hashtags
       ↔ sublist combo hashtags ∧ length combo = size)
  ∧ (∀ x productName,
       flat_map (λ size, query_of <$> combinations size [x; x]) (reverse (seq 1 2))
       = [query_of [x; x]; query_of [x]; query_of [x]]
       ∧ generateHashtagSearchQueries [x; x] productName
         = [query_of [x; x]; query_of [x]])
  ∧ (∀ a b c productName,
       NoDup [a; b; c] →
       Forall space_free [a; b; c] →
       generateHashtagSearchQueries [a; b; c] productName
       = [ query_of [a; b; c];
           query_of [a; b]; query_of [a; c]; query_of [b; c];
           query_of [a]; query_of [b]; query_of [c] ]
       ∧ NoDup (generateHashtagSearchQueries [a; b; c] productName)
       ∧ length (generateHashtagSearchQueries [a; b; c] productName) = 7).
Proof.
  split; [|split; [intros; apply combinations_sublist|split]].
  - intros hashtags productName Hne raw queries.
    assert (queries = Set_values raw) as Hqueries
      by by apply generateHashtagSearchQueries_general.
    rewrite Hqueries. split_and!.
    + done.
    + apply Set_values_first_occurrences.
    + apply Set_values_NoDup.
    + intros q. apply Set_values_elem_of.
    + apply Set_values_sublist.
    + subst raw. destruct hashtags as [|h hashtags]; [done|].
      replace (length (h :: hashtags)) with (S (length hashtags)) by done.
      rewrite seq_S, reverse_app. cbn [reverse rev_append app flat_map Nat.add].
      change (combinations (S (length hashtags)) (h :: hashtags))
        with (combinations (length (h :: hashtags)) (h :: hashtags)).
      rewrite combinations_all. apply Set_values_head.
  - intros x productName. split; [done|].
    rewrite generateHashtagSearchQueries_general by done.
    change (Set_values [query_of [x; x]; query_of [x]; query_of [x]]
            = [query_of [x; x]; query_of [x]]).
    pose proof (query_of_twice x) as Hne.
    change [query_of [x; x]; query_of [x]; query_of [x]]
      with (([] ++ [query_of [x; x]]) ++ [query_of [x]] ++ [query_of [x]]).
    rewrite app_assoc, !Set_values_snoc. change (Set_values []) with (@nil jsstring).
    rewrite (decide_False (P := query_of [x; x] ∈ [])) by apply not_elem_of_nil.
    cbn [app].
    destruct (decide (query_of [x] ∈ [query_of [x; x]])) as [Hin|Hout].
    { apply list_elem_of_singleton in Hin. congruence. }
    rewrite decide_True; [done|]. rewrite !elem_of_cons. auto.
  - intros a b c productName Hnd Htok.
    assert (space_free a ∧ space_free b ∧ space_free c) as (Ha & Hb & Hc).
    { rewrite !Forall_cons in Htok. by destruct Htok as (? & ? & ? & _). }
    destruct (three_hashtags_queries a b c productName) as [Heq Hdistinct]; try done.
    split; [done|]. split; [done|]. by rewrite Heq.
Qed.

Lemma generateHashtagSearchQueries_combinations_witness :
  generateHashtagSearchQueries [js "meebak"; js "cica"; js "cream"] (js "Meebak Cica Cream")
  = [ js "meebak cica cream review";
      js "meebak cica review"; js "meebak cream review"; js "cica cream review";
      js "meebak review"; js "cica review"; js "cream review" ]
  ∧ generateHashtagSearchQueries [js "cica"; js "cica"] (js "Meebak Cica Cream")
    = [ js "cica cica review"; js "cica review" ]
  ∧ NoDup (generateHashtagSearchQueries [js "cica"; js "serum"; js "cica"]
             (js "Meebak Cica Cream")).
Proof.
  destruct generateHashtagSearchQueries_combinations as (Hgeneral & _ & Htwice & Hthree).
  destruct (Hthree (js "meebak") (js "cica") (js "cream") (js "Meebak Cica Cream"))
    as (Hqueries & _).
  - compute_done.
  - unfold space_free. compute_done.
  - split; [exact Hqueries|]. split.
    + apply (Htwice (js "cica") (js "Meebak Cica Cream")).
    + apply (Hgeneral [js "cica"; js "serum"; js "cica"] (js "Meebak Cica Cream")).
      discriminate.
Defined.

End QueryPlanner.

(** ** Match scores *)

Section MatchScore.

Import Collector.

Lemma youtube_match_range product hashtags video :
  0 ≤ (youtube_match product hashtags video).2 ≤ 100.
Proof.
  unfold youtube_match.
  set (searchText := toLowerCase _).
  set (matched := filter _ hashtags).
  assert (length matched ≤ length hashtags)%nat as Hle by apply length_filter.
  destruct (0 <? length hashtags)%nat eqn:Hh; simpl.
  - destruct (0 <? length matched)%nat eqn:Hm; simpl.
    + apply Nat.ltb_lt in Hh, Hm. apply Math_round_percentage; lia.
    + destruct (includes searchText _); simpl; lia.
  - destruct (includes searchText _); simpl; lia.
Qed.

Lemma instagram_score_range post product hashtags :
  0 ≤ Instagram.calculateMatchScore post product hashtags ≤ 100.
Proof.
  unfold Instagram.calculateMatchScore, Math_min.
  set (matched := filter _ hashtags).
  destruct (includes _ (remove_spaces _)), (existsb _ _); lia.
Qed.

(** C7. Under both scoring policies the score lies in [0, 100]: the
    [matchScore] the YouTube loop computes for a video (the rounded
    percentage of the product's hashtags found in the text, else 80 on a
    product-name match, else the initial 0) and the value of
    [calculateMatchScore] for an Instagram post. *)
Theorem matchScore_in_range :
  (∀ product hashtags video,
     0 ≤ (youtube_match product hashtags video).2 ≤ 100)
  ∧ (∀ post product hashtags,
       0 ≤ Instagram.calculateMatchScore post product hashtags ≤ 100).
Proof. split; [apply youtube_match_range|apply instagram_score_range]. Qed.

End MatchScore.

(** ** Collection never duplicates a review *)

Section Deduplication.

Import Collector Spec.
Local Open Scope nat_scope.
Local Arguments Nat.leb : simpl never.

Lemma already_collected_spec store p ext :
  already_collected store p ext = true ↔ (p, ext) ∈ review_key <$> store.
Proof.
  unfold already_collected. induction store as [|r store IH]; simpl.
  { split; [done|]. by intros ?%elem_of_nil. }
  rewrite orb_true_iff, andb_true_iff, !bool_decide_eq_true, IH, elem_of_cons.
  unfold review_key at 2. split.
  - intros [[<- <-]|?]; auto.
  - intros [[= -> ->]|?]; auto.
Qed.

Lemma already_collected_app store added p ext :
  already_collected store p ext = true →
  already_collected (store ++ added) p ext = true.
Proof.
  rewrite !already_collected_spec, fmap_app, elem_of_app. auto.
Qed.

Lemma fresh_unique reviews added :
  fresh reviews added → unique_keys reviews → unique_keys (reviews ++ added).
Proof.
  intros [Hnodup Hnew] Hu. unfold unique_keys. rewrite fmap_app.
  apply NoDup_app. split; [done|]. split; [|done].
  intros k Hk (r & -> & Hr)%list_elem_of_fmap. by apply (Hnew r).
Qed.

Lemma grows_refl l : grows l l.
Proof.
  exists []. rewrite app_nil_r, Nat.add_0_r. repeat split; try done.
  - constructor.
  - by intros r ?%elem_of_nil.
Qed.

Lemma grows_trans l1 l2 l3 : grows l1 l2 → grows l2 l3 → grows l1 l3.
Proof.
  intros (a1 & Hs1 & Ht1 & Hn1 & Hf1) (a2 & Hs2 & Ht2 & Hn2 & Hf2).
  exists (a1 ++ a2). rewrite Hs2, Hs1, Ht2, Ht1, length_app, app_assoc.
  split; [done|]. split; [lia|]. split.
  - rewrite fmap_app. apply NoDup_app. split; [done|]. split; [|done].
    intros k Hk (r & -> & Hr)%list_elem_of_fmap.
    apply (Hf2 r Hr). rewrite Hs1, fmap_app, elem_of_app. by right.
  - intros r [Hr|Hr]%elem_of_app; [by apply Hf1|].
    intros Hin. apply (Hf2 r Hr). rewrite Hs1, fmap_app, elem_of_app. by left.
Qed.

Lemma grows_push l r :
  already_collected (store l) (platform r) (externalId r) = false →
  grows l {| store := store l ++ [r]; next := (next l + 1)%N; total := S (total l) |}.
Proof.
  intros Hnew. exists [r]. simpl. split; [done|]. split; [lia|]. split.
  - apply NoDup_singleton.
  - intros ? ->%list_elem_of_singleton Hk.
    apply already_collected_spec in Hk. congruence.
Qed.

Lemma youtube_videos_grows w product hashtags videos count l :
  grows l (youtube_videos w product hashtags videos count l).
Proof.
  revert count l. induction videos as [|video rest IH]; intros count l; simpl.
  { apply grows_refl. }
  destruct (MAX_REVIEWS_PER_PRODUCT <=? count); [apply grows_refl|].
  destruct (already_collected _ _ _) eqn:Hseen; [apply IH|].
  destruct (youtube_match product hashtags video) as [[|] score]; [|apply IH].
  eapply grows_trans; [|apply IH]. by apply grows_push.
Qed.

Lemma instagram_posts_grows w product hashtags posts count l :
  grows l (instagram_posts w product hashtags posts count l).
Proof.
  revert count l. induction posts as [|post rest IH]; intros count l; simpl.
  { apply grows_refl. }
  destruct (MAX_REVIEWS_PER_PRODUCT <=? count); [apply grows_refl|].
  destruct (already_collected _ _ _) eqn:Hseen; [apply IH|].
  destruct (20 <=? _)%Z; [|apply IH].
  eapply grows_trans; [|apply IH]. by apply grows_push.
Qed.

Lemma youtube_product_grows w l product : grows l (youtube_product w l product).
Proof.
  unfold youtube_product. destruct (searchProductReviews w product);
    [apply youtube_videos_grows|apply grows_refl].
Qed.

Lemma instagram_product_grows w l product : grows l (instagram_product w l product).
Proof.
  unfold instagram_product. destruct (searchProductPosts w product _);
    [apply instagram_posts_grows|apply grows_refl].
Qed.

Lemma fold_grows (step : Loop → Product → Loop) products l :
  (∀ l p, grows l (step l p)) → grows l (fold_left step products l).
Proof.
  intros Hstep. revert l. induction products as [|p products IH]; intros l; simpl.
  { apply grows_refl. }
  eapply grows_trans; [apply Hstep|apply IH].
Qed.

(** A pass that meets only hits already stored or not matching leaves the
    loop state as it is. *)
Lemma youtube_videos_settled w product hashtags videos count l :
  Forall (λ v, already_collected (store l) YOUTUBE (Youtube.videoId v) = true
               ∨ (youtube_match product hashtags v).1 = false) videos →
  youtube_videos w product hashtags videos count l = l.
Proof.
  intros Hall. revert count. induction Hall as [|video rest Hv _ IH]; intros count; simpl.
  { done. }
  destruct (MAX_REVIEWS_PER_PRODUCT <=? count); [done|].
  destruct Hv as [->|Hno]; [apply IH|].
  destruct (already_collected _ _ _); [apply IH|].
  destruct (youtube_match product hashtags video) as [[|] score];
    [done|apply IH].
Qed.

Lemma instagram_posts_settled w product hashtags posts count l :
  Forall (λ p, already_collected (store l) INSTAGRAM (Instagram.postId p) = true
               ∨ (20 <=? Instagram.calculateMatchScore p product hashtags)%Z = false)
         posts →
  instagram_posts w product hashtags posts count l = l.
Proof.
  intros Hall. revert count. induction Hall as [|post rest Hp _ IH]; intros count; simpl.
  { done. }
  destruct (MAX_REVIEWS_PER_PRODUCT <=? count); [done|].
  destruct Hp as [-> | Hlow]; [apply IH|].
  destruct (already_collected _ _ _); [apply IH|]. rewrite Hlow. apply IH.
Qed.

(** A pass that cannot reach the cap leaves every hit stored or not
    matching. *)
Lemma youtube_videos_covers w product hashtags videos count l :
  count + length videos ≤ MAX_REVIEWS_PER_PRODUCT →
  Forall (λ v, already_collected
                 (store (youtube_videos w product hashtags videos count l))
                 YOUTUBE (Youtube.videoId v) = true
               ∨ (youtube_match product hashtags v).1 = false) videos.
Proof.
  revert count l. induction videos as [|video rest IH]; intros count l Hcap; simpl.
  { constructor. }
  simpl in Hcap.
  destruct (MAX_REVIEWS_PER_PRODUCT <=? count) eqn:Hfull.
  { apply Nat.leb_le in Hfull. lia. }
  assert (∀ count' l',
            grows l' (youtube_videos w product hashtags rest count' l')) as Hgrow.
  { intros. apply youtube_videos_grows. }
  destruct (already_collected (store l) YOUTUBE (Youtube.videoId video)) eqn:Hseen.
  - constructor; [|apply IH; lia]. left.
    destruct (Hgrow count l) as (added & -> & _). by apply already_collected_app.
  - destruct (youtube_match product hashtags video) as [[|] score] eqn:Hm.
    + constructor; [|apply IH; lia]. left.
      destruct (Hgrow (S count)
                  {| store := store l ++ [youtube_review w (next l) product video score];
                     next := (next l + 1)%N; total := S (total l) |})
        as (added & -> & _). simpl.
      apply already_collected_app, already_collected_spec.
      rewrite fmap_app, elem_of_app. right. simpl. apply list_elem_of_singleton. done.
    + constructor; [|apply IH; lia]. right. by rewrite Hm.
Qed.

Lemma instagram_posts_covers w product hashtags posts count l :
  count + length posts ≤ MAX_REVIEWS_PER_PRODUCT →
  Forall (λ p, already_collected
                 (store (instagram_posts w product hashtags posts count l))
                 INSTAGRAM (Instagram.postId p) = true
               ∨ (20 <=? Instagram.calculateMatchScore p product hashtags)%Z = false)
         posts.
Proof.
  revert count l. induction posts as [|post rest IH]; intros count l Hcap; simpl.
  { constructor. }
  simpl in Hcap.
  destruct (MAX_REVIEWS_PER_PRODUCT <=? count) eqn:Hfull.
  { apply Nat.leb_le in Hfull. lia. }
  assert (∀ count' l',
            grows l' (instagram_posts w product hashtags rest count' l')) as Hgrow.
  { intros. apply instagram_posts_grows. }
  destruct (already_collected (store l) INSTAGRAM (Instagram.postId post)) eqn:Hseen.
  - constructor; [|apply IH; lia]. left.
    destruct (Hgrow count l) as (added & -> & _). by apply already_collected_app.
  - destruct (20 <=? Instagram.calculateMatchScore post product hashtags)%Z eqn:Hm.
    + constructor; [|apply IH; lia]. left.
      destruct (Hgrow (S count)
                  {| store := store l ++ [instagram_review w (next l) product post
                                            (Instagram.calculateMatchScore post product hashtags)];
                     next := (next l + 1)%N; total := S (total l) |})
        as (added & -> & _). simpl.
      apply already_collected_app, already_collected_spec.
      rewrite fmap_app, elem_of_app. right. simpl. apply list_elem_of_singleton. done.
    + constructor; [|apply IH; lia]. by right.
Qed.

Lemma fold_settles (step : Loop → Product → Loop) products l :
  (∀ l p, grows l (step l p)) →
  (∀ l p, p ∈ products → settled step (store (step l p)) p) →
  Forall (settled step (store (fold_left step products l))) products.
Proof.
  intros Hgrow Hsettle. revert l. induction products as [|p products IH]; intros l; simpl.
  { constructor. }
  constructor.
  - destruct (fold_grows step products (step l p) Hgrow) as (added & Hs & _).
    intros l' (added' & Hl'). apply (Hsettle l p); [by left|].
    exists (added ++ added'). by rewrite Hl', Hs, app_assoc.
  - apply IH. intros l' q Hq. apply Hsettle. by right.
Qed.

Lemma fold_settled (step : Loop → Product → Loop) products l :
  Forall (settled step (store l)) products → fold_left step products l = l.
Proof.
  revert l. induction products as [|p products IH]; intros l Hall; simpl; [done|].
  inversion Hall as [|?? Hp Hrest]; subst.
  rewrite (Hp l) by (exists []; by rewrite app_nil_r). by apply IH.
Qed.

Lemma youtube_product_settles w l p :
  (∀ videos, searchProductReviews w p = Some videos →
             length videos ≤ MAX_REVIEWS_PER_PRODUCT) →
  settled (youtube_product w) (store (youtube_product w l p)) p.
Proof.
  intros Hcap l' (added & Hl'). unfold youtube_product in *.
  destruct (searchProductReviews w p) as [videos|]; [|done].
  apply youtube_videos_settled.
  eapply Forall_impl;
    [apply (youtube_videos_covers w p (Youtube.extractHashtagsFromProduct p) videos 0 l);
     simpl; by apply Hcap|].
  simpl. intros v [Hseen|?]; [left|by right].
  rewrite Hl'. by apply already_collected_app.
Qed.

Lemma instagram_product_settles w l p :
  (∀ hashtags posts, searchProductPosts w p hashtags = Some posts →
                     length posts ≤ MAX_REVIEWS_PER_PRODUCT) →
  settled (instagram_product w) (store (instagram_product w l p)) p.
Proof.
  intros Hcap l' (added & Hl'). unfold instagram_product in *.
  destruct (searchProductPosts w p _) as [posts|] eqn:Hposts; [|done].
  apply instagram_posts_settled.
  eapply Forall_impl;
    [apply (instagram_posts_covers w p (Youtube.extractHashtagsFromProduct p) posts 0 l);
     simpl; by eapply Hcap|].
  simpl. intros v [Hseen|?]; [left|by right].
  rewrite Hl'. by apply already_collected_app.
Qed.

(** A run appends reviews with new, pairwise different keys and reports
    their number. *)
Lemma collect_appends (step : Loop → Product → Loop) st products reviews :
  (∀ l p, grows l (step l p)) →
  snsReviewsRef st = Some reviews →
  let run :=
    finish st (fold_left step products
                 {| store := reviews; next := nextReviewId st; total := 0 |}) in
  ∃ added, reviews_of run.2 = reviews_of st ++ added
           ∧ collected run.1 = length added
           ∧ fresh (reviews_of st) added.
Proof.
  intros Hstep Href. simpl.
  destruct (fold_grows step products
              {| store := reviews; next := nextReviewId st; total := 0 |} Hstep)
    as (added & Hs & Ht & Hf).
  exists added. unfold reviews_of at 2 3. rewrite Href. simpl in *. by rewrite Hs, Ht.
Qed.

(** After a run in which no product could reach the cap, a second run
    over the same products and the same search results collects nothing. *)
Lemma collect_again (step : Loop → Product → Loop) st products reviews :
  (∀ l p, grows l (step l p)) →
  (∀ l p, p ∈ products → settled step (store (step l p)) p) →
  let first :=
    fold_left step products
      {| store := reviews; next := nextReviewId st; total := 0 |} in
  ∀ n, fold_left step products {| store := store first; next := n; total := 0 |}
       = {| store := store first; next := n; total := 0 |}.
Proof.
  intros Hgrow Hsettle first n. apply fold_settled. simpl.
  by apply fold_settles.
Qed.

(** C2 (as amended). A run of either collector only appends reviews, as
    many as it reports, whose (platform, externalId) keys are new to the
    store and pairwise different; so a store without duplicate keys stays
    without. And when no product has more search results than
    [MAX_REVIEWS_PER_PRODUCT], running the collector again on the same
    results collects 0 reviews and leaves the store as it is. *)
Theorem collection_deduplicates w st :
  (∀ run, run = collectYouTubeReviews w st ∨ run = collectInstagramReviews w st →
     (∃ added, reviews_of run.2 = reviews_of st ++ added
               ∧ collected run.1 = length added
               ∧ fresh (reviews_of st) added)
     ∧ (unique_keys (reviews_of st) → unique_keys (reviews_of run.2)))
  ∧ ((∀ p videos, searchProductReviews w p = Some videos →
                  length videos ≤ MAX_REVIEWS_PER_PRODUCT) →
     let first := collectYouTubeReviews w st in
     let again := collectYouTubeReviews w first.2 in
     collected again.1 = 0 ∧ reviews_of again.2 = reviews_of first.2)
  ∧ ((∀ p hashtags posts, searchProductPosts w p hashtags = Some posts →
                          length posts ≤ MAX_REVIEWS_PER_PRODUCT) →
     let first := collectInstagramReviews w st in
     let again := collectInstagramReviews w first.2 in
     collected again.1 = 0 ∧ reviews_of again.2 = reviews_of first.2).
Proof.
  assert (∀ run, run = collectYouTubeReviews w st ∨ run = collectInstagramReviews w st →
            ∃ added, reviews_of run.2 = reviews_of st ++ added
                     ∧ collected run.1 = length added
                     ∧ fresh (reviews_of st) added) as Happend.
  { assert (∃ added : list SocialReview,
              reviews_of st = reviews_of st ++ added ∧ 0 = length added
              ∧ fresh (reviews_of st) added) as Hnone.
    { exists []. rewrite app_nil_r. repeat split; try done; [constructor|].
      by intros r ?%elem_of_nil. }
    intros run [->| ->].
    - unfold collectYouTubeReviews.
      destruct (productsRef st) as [products|]; [|done].
      destruct (snsReviewsRef st) as [reviews|] eqn:Href; [|done].
      by apply collect_appends; [apply youtube_product_grows|].
    - unfold collectInstagramReviews.
      destruct (productsRef st) as [products|]; [|done].
      destruct (snsReviewsRef st) as [reviews|] eqn:Href; [|done].
      destruct (instagram_connected w); [|done].
      by apply collect_appends; [apply instagram_product_grows|]. }
  split; [|split].
  - intros run Hrun. split; [by apply Happend|].
    destruct (Happend run Hrun) as (added & -> & _ & Hf). by apply fresh_unique.
  - intros Hcap. unfold collectYouTubeReviews.
    destruct (productsRef st) as [products|] eqn:Hprod; simpl; [|by rewrite Hprod].
    destruct (snsReviewsRef st) as [reviews|] eqn:Href; simpl; [|by rewrite Hprod, Href].
    rewrite Hprod. unfold reviews_of. simpl.
    rewrite (collect_again (youtube_product w) st); [done|apply youtube_product_grows|].
    intros l p _. apply youtube_product_settles, Hcap.
  - intros Hcap. unfold collectInstagramReviews.
    destruct (productsRef st) as [products|] eqn:Hprod; simpl; [|by rewrite Hprod].
    destruct (snsReviewsRef st) as [reviews|] eqn:Href; simpl; [|by rewrite Hprod, Href].
    destruct (instagram_connected w); simpl; [|by rewrite Hprod, Href].
    rewrite Hprod. unfold reviews_of. simpl.
    rewrite (collect_again (instagram_product w) st); [done|apply instagram_product_grows|].
    intros l p _. apply instagram_product_settles, Hcap.
Qed.

Lemma collection_deduplicates_witness :
  let first := collectYouTubeReviews (world_with 3) collector_start in
  let again := collectYouTubeReviews (world_with 3) first.2 in
  unique_keys (reviews_of first.2)
  ∧ collected first.1 = 3
  ∧ collected again.1 = 0
  ∧ reviews_of again.2 = reviews_of first.2.
Proof.
  destruct (collection_deduplicates (world_with 3) collector_start)
    as (Hrun & Hyoutube & _).
  split; [|split].
  - apply (Hrun _ (or_introl eq_refl)). constructor.
  - reflexivity.
  - apply Hyoutube. intros p videos [= <-]. vm_compute. lia.
Defined.

(** Re-running is not always idle. A search that returns 51 matching
    videos for a product collects 50 of them, the cap of one run; the same
    search run again skips those 50 and collects the last one. *)
Lemma collection_rerun_after_cap :
  let first := collectYouTubeReviews (world_with 51) collector_start in
  let again := collectYouTubeReviews (world_with 51) first.2 in
  Youtube.extractHashtagsFromProduct serum_product = [js "cica"; js "serum"]
  ∧ collected first.1 = 50
  ∧ collected again.1 = 1
  ∧ collected again.1 ≠ 0
  ∧ length (reviews_of again.2) = S (length (reviews_of first.2)).
Proof. vm_compute. repeat split; lia. Qed.

End Deduplication.

(** ** The dynamic keyword miner *)

Section DynamicKeywords.

Import ReviewSummarizer Spec.
Local Open Scope nat_scope.
Local Arguments Nat.ltb : simpl never.
Local Arguments has : simpl never.

Lemma increment_counted word entries :
  has STOP_WORDS word = false → 3 ≤ length word →
  Forall counted entries → Forall counted (increment word entries).
Proof.
  intros Hstop Hlen. induction 1 as [|[w data] entries Hw Hrest IH]; simpl.
  { repeat constructor; done. }
  destruct (bool_decide (w = word)); constructor; done.
Qed.

Lemma count_word_counted entries word :
  Forall counted entries → Forall counted (count_word entries word).
Proof.
  intros Hall. unfold count_word.
  destruct (has STOP_WORDS word) eqn:Hstop; [done|].
  destruct (length word <? 3) eqn:Hlen; [done|].
  destruct (bool_decide _); [done|].
  apply increment_counted; [done| |done]. by apply Nat.ltb_ge.
Qed.

Lemma wordFrequency_counted reviews entries :
  Forall counted entries → Forall counted (fold_left count_review reviews entries).
Proof.
  revert entries. induction reviews as [|review reviews IH]; intros entries Hall; [done|].
  simpl. apply IH. unfold count_review.
  generalize (match_wordRegex (toLowerCase (review_text review)) 0).
  intros words. revert entries Hall.
  induction words as [|word words IHw]; intros entries Hall; [done|].
  simpl. by apply IHw, count_word_counted.
Qed.

(** C8. What the miner returns: at most 30 keywords, in descending order
    of score, each counted at least twice, none a stop word, with score =
    count × 2 for the words of the boost set and count × 1 for the others
    -- and each at least 3 code units long. The tokenizer does match
    Hangul runs of 2 syllables, but the loop then skips every word shorter
    than 3, so a 2-syllable Korean word never reaches the output: two
    reviews that both say 수분 수분 give an empty list. *)
Theorem extractDynamicKeywords_needs_three_units :
  (∀ reviews,
     length (extractDynamicKeywords reviews) ≤ 30
     ∧ Sorted (λ a b, (score b ≤ score a)%Z) (extractDynamicKeywords reviews)
     ∧ Forall (λ k, (2 ≤ count k)%Z
                    ∧ has STOP_WORDS (keyword k) = false
                    ∧ score k = (count k * if has BEAUTY_BOOST_WORDS (keyword k)
                                           then 2 else 1)%Z
                    ∧ 3 ≤ length (keyword k))
              (extractDynamicKeywords reviews))
  ∧ match_wordRegex (toLowerCase (review_text (approved 1 korean_twice []))) 0
    = [ [0xC218; 0xBD84]%N; [0xC218; 0xBD84]%N ]
  ∧ extractDynamicKeywords [approved 1 korean_twice []; approved 2 korean_twice []] = [].
Proof.
  split; [|split; reflexivity].
  intros reviews. unfold extractDynamicKeywords.
  set (entries := fold_left count_review reviews []).
  assert (Forall counted entries) as Hentries.
  { apply wordFrequency_counted. constructor. }
  set (le := λ a b : DynamicKeyword, (score b <=? score a)%Z).
  set (candidates := filter _ _).
  split; [|split].
  - rewrite length_take. lia.
  - apply Sorted_take.
    { intros a b c ??. lia. }
    apply (Sorted_weaken (λ a b, le a b = true)).
    + intros a b Hle. by apply Z.leb_le in Hle.
    + apply Array_sort_Sorted. intros a b. unfold le. rewrite !Z.leb_le. lia.
  - apply Forall_take.
    rewrite Forall_forall. intros k Hk.
    rewrite (Array_sort_Permutation le) in Hk.
    apply list_elem_of_filter in Hk as [Hcount Hk].
    apply list_elem_of_In, in_map_iff in Hk as ([word data] & <- & Hin).
    apply list_elem_of_In in Hin. rewrite Forall_forall in Hentries.
    destruct (Hentries _ Hin) as (Hstop & Hlen & Hboost). simpl in *.
    rewrite Hboost. done.
Qed.

End DynamicKeywords.

(** ** The sentiment scorer *)

Section SentimentScorer.

Import ReviewSummarizer Spec.

Lemma Qpositive_spec x : Qpositive x = true ↔ (0 < x)%Q.
Proof.
  unfold Qpositive, Qlt. simpl. rewrite Z.ltb_lt, Z.mul_1_r. done.
Qed.

(** The accumulators of the loop hold the totals of the two polarities
    and the number of mentions. *)
Lemma tally_totals entries t :
  let t' := fold_left tally_keyword entries t in
  (positiveScore t' == positiveScore t + weighted_total positive entries)%Q
  ∧ (negativeScore t' == negativeScore t + weighted_total negative entries)%Q.
Proof.
  revert t. induction entries as [|k entries IH]; intros t; simpl.
  { split; ring. }
  destruct (IH (tally_keyword t k)) as [Hp Hn]. rewrite Hp, Hn.
  unfold tally_keyword.
  destruct (a_sentiment k) as [[| |]|]; simpl; split; ring.
Qed.

Lemma calculateSentiment_of_ratios sentimentData :
  let pos := weighted_total positive sentimentData.*2 in
  let neg := weighted_total negative sentimentData.*2 in
  let s := calculateSentiment_of sentimentData in
  ((0 < pos + neg)%Q →
     positiveRatio s = Math_round (pos / (pos + neg) * 100)
     ∧ negativeRatio s = Math_round (100 - pos / (pos + neg) * 100))
  ∧ (¬ (0 < pos + neg)%Q → positiveRatio s = 50 ∧ negativeRatio s = 50).
Proof.
  intros pos neg s. subst s. unfold calculateSentiment_of.
  destruct (tally_totals (List.map snd sentimentData)
              {| positiveScore := 0; negativeScore := 0; totalCount := 0 |})
    as [Hp Hn].
  simpl in Hp, Hn. rewrite Qplus_0_l in Hp, Hn.
  set (t := fold_left tally_keyword _ _) in *.
  assert (positiveScore t + negativeScore t == pos + neg)%Q as Htotal
    by (by rewrite Hp, Hn).
  split.
  - intros Hpos.
    assert (Qpositive (positiveScore t + negativeScore t) = true) as ->.
    { apply Qpositive_spec. by rewrite Htotal. }
    simpl. split; apply Math_round_comp; by rewrite Htotal, Hp.
  - intros Hzero.
    assert (Qpositive (positiveScore t + negativeScore t) = false) as ->.
    { apply not_true_iff_false. rewrite Qpositive_spec. by rewrite Htotal. }
    done.
Qed.

(** Keywords that are neither positive nor negative leave the two totals
    where they are. *)
Lemma tally_no_signal entries t :
  Forall (λ kw, a_sentiment kw ≠ Some positive ∧ a_sentiment kw ≠ Some negative)
    entries →
  positiveScore (fold_left tally_keyword entries t) = positiveScore t
  ∧ negativeScore (fold_left tally_keyword entries t) = negativeScore t.
Proof.
  intros Hall. revert t.
  induction Hall as [|kw entries [Hpos Hneg] _ IH]; intros t; simpl; [done|].
  destruct (IH (tally_keyword t kw)) as [-> ->]. unfold tally_keyword.
  by destruct (a_sentiment kw) as [[| |]|].
Qed.

(** C4. Three positive mentions and one negative mention of one weight do
    not always give 75/25. On three reviews that say "amazing", the last
    of them also "disappointed" (both of weight 1), the aggregate of
    "amazing" has count 3 and totalWeight 3, the weight having been added
    once for every mention; the scorer multiplies the two, so the positive
    total is 9 against 1 and it returns 90/10, with positiveCount 9 among
    totalMentions 4. When the four mentions are of four different keywords
    of weight 1 in one review it returns 75/25, and when no keyword of the
    sentiment category is tagged positive or negative it returns 50/50. *)
Theorem calculateSentiment_repeated_keyword :
  (category_keywords (aggregateKeywords batch_same_keyword) sentiment
   = [ (js "amazing",
        {| a_keyword := js "amazing"; a_count := 3; totalWeight := 3;
           a_sentiment := Some positive; a_en := None |});
       (js "disappointed",
        {| a_keyword := js "disappointed"; a_count := 1; totalWeight := 1;
           a_sentiment := Some negative; a_en := None |}) ]
   ∧ calculateSentiment (aggregateKeywords batch_same_keyword)
     = {| positiveRatio := 90; negativeRatio := 10;
          positiveCount := 9; negativeCount := 1; totalMentions := 4 |})
  ∧ calculateSentiment (aggregateKeywords batch_four_keywords)
    = {| positiveRatio := 75; negativeRatio := 25;
         positiveCount := 3; negativeCount := 1; totalMentions := 4 |}
  ∧ (∀ sentimentData,
       Forall (λ kw, a_sentiment kw ≠ Some positive ∧ a_sentiment kw ≠ Some negative)
         sentimentData.*2 →
       positiveRatio (calculateSentiment_of sentimentData) = 50
       ∧ negativeRatio (calculateSentiment_of sentimentData) = 50).
Proof.
  split; [by vm_compute|]. split; [by vm_compute|].
  intros sentimentData Hall. unfold calculateSentiment_of.
  change (List.map snd sentimentData) with sentimentData.*2.
  destruct (tally_no_signal sentimentData.*2
              {| positiveScore := 0; negativeScore := 0; totalCount := 0 |} Hall)
    as [Hp Hn].
  simpl in Hp, Hn. rewrite Hp, Hn. done.
Qed.

(** A review that only says "unboxing", a neutral keyword. *)
Lemma calculateSentiment_repeated_keyword_witness :
  let s := calculateSentiment
             (aggregateKeywords [approved 1 (js "Arrived today") (js "unboxing")]) in
  positiveRatio s = 50 ∧ negativeRatio s = 50.
Proof.
  destruct calculateSentiment_repeated_keyword as (_ & _ & Hnone).
  apply Hnone. vm_compute. repeat constructor; discriminate.
Defined.

(** The two ratios are rounded separately: on a percentage that ends in
    .5 both round up and they add up to 101. *)
Lemma calculateSentiment_rounds_both_up :
  calculateSentiment (aggregateKeywords batch_three_to_five)
  = {| positiveRatio := 38; negativeRatio := 63;
       positiveCount := 3; negativeCount := 5; totalMentions := 8 |}.
Proof. vm_compute. reflexivity. Qed.

End SentimentScorer.

(** ** The resolution chain *)

Section ResolutionChain.

Import ClaudeSummarizer Spec.




End ResolutionChain.

Section EmptyPayload.

Import ClaudeSummarizer Spec.

(** C5 (as amended). With no override and no stored insight for the
    product and no approved review, [getSummary] returns the empty payload
    -- empty summary, no hashtags, provider "none" -- whose sentiment is
    0/0, and returns it without raising and without touching the state,
    whether or not the model is configured. *)
Theorem getSummary_nothing_known reply keywordFallback productCode st :
  find_override st productCode = None →
  getProductInsights st productCode = None →
  getSummary reply keywordFallback productCode [] st = (empty_payload, st)
  ∧ sentiment empty_payload = Some {| positiveRatio := 0; negativeRatio := 0 |}
  ∧ hashtags empty_payload = Some [].
Proof.
  intros Hov Hins. unfold getSummary. rewrite Hov.
  rewrite andb_false_r. unfold fallback_chain. rewrite Hins.
  by destruct keywordFallback.
Qed.

Lemma getSummary_nothing_known_witness :
  getSummary some_reply None (js "P1") [] (fresh_state (js "keyword") false)
    = (empty_payload, fresh_state (js "keyword") false)
  ∧ sentiment empty_payload = Some {| positiveRatio := 0; negativeRatio := 0 |}
  ∧ hashtags empty_payload = Some [].
Proof.
  apply (getSummary_nothing_known some_reply None (js "P1")
           (fresh_state (js "keyword") false)); reflexivity.
Defined.

(** The payload of that case is not 50/50: on a freshly initialised
    module without a model, a product without override, insight or review
    gets sentiment 0/0. *)
Lemma getSummary_empty_is_not_50_50 :
  let st := fresh_state (js "keyword") false in
  let answer := (getSummary some_reply None (js "P1") [] st).1 in
  find_override st (js "P1") = None
  ∧ isClaudeAvailable st = false
  ∧ getProductInsights st (js "P1") = None
  ∧ sentiment answer = Some {| positiveRatio := 0; negativeRatio := 0 |}
  ∧ sentiment answer ≠ Some {| positiveRatio := 50; negativeRatio := 50 |}.
Proof. repeat split; done. Qed.

End EmptyPayload.

(** ** The analysis cache *)

Section Cache.

Import ClaudeSummarizer Spec.

(** The fingerprint depends only on the collection of ids, not on the
    order in which the reviews are handed over. *)
Lemma fingerprint_Permutation ids1 ids2 :
  ids1 ≡ₚ ids2 → fingerprint ids1 = fingerprint ids2.
Proof.
  intros Hperm. unfold fingerprint. f_equal.
  set (key_le := λ a b, str_le (Number_toString a) (Number_toString b)).
  apply (Sorted_unique (λ a b : jsstring, str_le a b = true)).
  - apply (Sorted_fmap _ (λ a b, key_le a b = true)); [done|].
    apply Array_sort_Sorted. intros x y. apply str_le_total.
  - apply (Sorted_fmap _ (λ a b, key_le a b = true)); [done|].
    apply Array_sort_Sorted. intros x y. apply str_le_total.
  - by rewrite !Array_sort_Permutation, Hperm.
Qed.

Lemma update_insights_frame result reviews productCode st :
  let st' := update_insights result reviews productCode st in
  anthropicClient st' = anthropicClient st
  ∧ AI_PROVIDER st' = AI_PROVIDER st
  ∧ snsReviewOverridesRef st' = snsReviewOverridesRef st
  ∧ aiFeedbackHistoryRef st' = aiFeedbackHistoryRef st
  ∧ analysisCache st' = analysisCache st
  ∧ clock st' = clock st
  ∧ ai_requests st' = ai_requests st.
Proof.
  unfold update_insights.
  destruct (productInsightsRef st), (truthy (r_updatedInsights result)); done.
Qed.

(** What one run of the analysis does to the state, and what it returns. *)
Lemma analyzeWithClaude_run reply reviews productCode st :
  anthropicClient st = true →
  let run := analyzeWithClaude reply reviews productCode st in
  ai_requests run.2 = S (ai_requests st)
  ∧ clock run.2 = clock st + latency reply
  ∧ anthropicClient run.2 = true
  ∧ AI_PROVIDER run.2 = AI_PROVIDER st
  ∧ snsReviewOverridesRef run.2 = snsReviewOverridesRef st
  ∧ aiFeedbackHistoryRef run.2 = aiFeedbackHistoryRef st
  ∧ (∀ q, q ≠ productCode → analysisCache run.2 !! q = analysisCache st !! q)
  ∧ match outcome reply with
    | Throws => run.1 = None ∧ analysisCache run.2 = analysisCache st
    | Parsed v =>
        (∃ result,
           run.1 = Some result
           ∧ aiProvider result = js "claude"
           ∧ summary result = text_or_undefined (r_summary (fields v))
           ∧ hashtags result = Some (strip_hash <$> default [] (r_hashtags (fields v)))
           ∧ sentiment result = r_sentiment (fields v)
           ∧ reviewCount result = length reviews)
        ∧ analysisCache run.2 !! productCode
          = Some {| c_summary := v;
                    analyzedReviewIds := fingerprint (review_ids reviews);
                    timestamp := clock st + latency reply |}
    end.
Proof.
  intros Hclient run. subst run. unfold analyzeWithClaude. rewrite Hclient. simpl.
  destruct (outcome reply) as [|v]; simpl.
  { split_and!; done. }
  destruct (update_insights_frame (fields v) reviews productCode (request reply st))
    as (Hc & Hp & Ho & Hf & Hcache & Hclk & Hreq).
  simpl in *. rewrite Hclk, Hreq, Hc, Hp, Ho, Hf, Hcache.
  split_and!; try done.
  - intros q Hq. by rewrite lookup_insert_ne.
  - eexists. split_and!; done.
  - by rewrite lookup_insert_eq.
Qed.

(** One call sends at most one request to the model. *)
Lemma getSummary_requests reply keywordFallback productCode reviews st :
  (ai_requests (getSummary reply keywordFallback productCode reviews st).2
     ≤ S (ai_requests st))%nat.
Proof.
  unfold getSummary. destruct (find_override st productCode); simpl; [lia|].
  destruct (isClaudeAvailable st && _); simpl; [|lia].
  assert (∀ o st1, getCachedAnalysis productCode (review_ids reviews) st = (o, st1) →
                   ai_requests st1 = ai_requests st) as Hcache.
  { unfold getCachedAnalysis. intros o st1.
    destruct (analysisCache st !! productCode); [|by intros [= <- <-]].
    destruct (CACHE_TTL <? _); [by intros [= <- <-]|].
    destruct (bool_decide _); by intros [= <- <-]. }
  destruct (getCachedAnalysis _ _ st) as [o st1] eqn:Hc.
  specialize (Hcache _ _ eq_refl).
  assert ((ai_requests (match analyzeWithClaude reply reviews productCode st1 with
                        | (Some result, st) => (result, st)
                        | (None, st) =>
                            (fallback_chain keywordFallback productCode reviews st, st)
                        end).2 ≤ S (ai_requests st))%nat) as Han.
  { unfold analyzeWithClaude. destruct (negb _); simpl; [lia|].
    destruct (outcome reply) as [|v]; simpl; [lia|].
    destruct (update_insights_frame (fields v) reviews productCode (request reply st1))
      as (_ & _ & _ & _ & _ & _ & Hreq).
    simpl in *. lia. }
  destruct o as [[|c]|]; simpl; try done. lia.
Qed.

Lemma getCachedAnalysis_frame productCode ids st o st' :
  getCachedAnalysis productCode ids st = (o, st') →
  ai_requests st' = ai_requests st ∧ anthropicClient st' = anthropicClient st
  ∧ AI_PROVIDER st' = AI_PROVIDER st
  ∧ snsReviewOverridesRef st' = snsReviewOverridesRef st.
Proof.
  unfold getCachedAnalysis.
  destruct (analysisCache st !! productCode); [|by intros [= <- <-]].
  destruct (CACHE_TTL <? _); [by intros [= <- <-]|].
  destruct (bool_decide _); by intros [= <- <-].
Qed.

(** A hit returns the stored answer of an entry that is neither expired
    nor taken on other ids, and changes nothing. *)
Lemma getCachedAnalysis_hit productCode ids st v st' :
  getCachedAnalysis productCode ids st = (Some v, st') →
  st' = st
  ∧ ∃ cached, analysisCache st !! productCode = Some cached
              ∧ c_summary cached = v
              ∧ analyzedReviewIds cached = fingerprint ids
              ∧ clock st - timestamp cached ≤ CACHE_TTL.
Proof.
  unfold getCachedAnalysis.
  destruct (analysisCache st !! productCode) as [cached|]; [|done].
  destruct (CACHE_TTL <? _) eqn:Httl; [done|]. apply Z.ltb_ge in Httl.
  destruct (bool_decide _) eqn:Hfp; [done|].
  apply bool_decide_eq_false in Hfp. intros [= <- <-].
  split; [done|]. exists cached. repeat split; try done.
  by destruct (decide (analyzedReviewIds cached = fingerprint ids)).
Qed.

Lemma getCachedAnalysis_fresh productCode ids st cached r :
  analysisCache st !! productCode = Some cached →
  c_summary cached = Object r →
  analyzedReviewIds cached = fingerprint ids →
  clock st - timestamp cached ≤ CACHE_TTL →
  getCachedAnalysis productCode ids st = (Some (Object r), st).
Proof.
  intros Hlookup Hsum Hfp Httl. unfold getCachedAnalysis. rewrite Hlookup.
  assert ((CACHE_TTL <? clock st - timestamp cached) = false) as ->
    by (apply Z.ltb_ge; lia).
  rewrite bool_decide_eq_false_2 by (intros H; by apply H). by rewrite Hsum.
Qed.

(** The fallback steps never tag a payload as served from the cache. *)
Lemma fallback_chain_provider keywordFallback productCode reviews st :
  aiProvider (fallback_chain keywordFallback productCode reviews st)
  ≠ js "claude-cached".
Proof.
  unfold fallback_chain.
  destruct (getProductInsights st productCode) as [i|]; [destruct (i_summary i)|];
    try done; destruct keywordFallback, reviews; done.
Qed.

(** A lookup that gives no truthy answer is followed by a request. *)
Lemma getSummary_miss reply keywordFallback productCode reviews st st1 o :
  find_override st productCode = None →
  isClaudeAvailable st = true →
  reviews ≠ [] →
  getCachedAnalysis productCode (review_ids reviews) st = (o, st1) →
  (∀ hit, o ≠ Some (Object hit)) →
  let run := getSummary reply keywordFallback productCode reviews st in
  ai_requests run.2 = S (ai_requests st)
  ∧ aiProvider run.1 ≠ js "claude-cached"
  ∧ (∀ v, outcome reply = Parsed v →
       aiProvider run.1 = js "claude"
       ∧ analysisCache run.2 !! productCode
         = Some {| c_summary := v;
                   analyzedReviewIds := fingerprint (review_ids reviews);
                   timestamp := clock run.2 |}
       ∧ clock run.2 = clock st + latency reply
       ∧ find_override run.2 productCode = None
       ∧ isClaudeAvailable run.2 = true).
Proof.
  intros Hov Havail Hne Hc Hmiss run. subst run. unfold getSummary.
  assert ((0 <? length reviews)%nat = true) as Hlen by (by destruct reviews).
  rewrite Hov, Havail, Hlen, Hc. cbn [andb].
  destruct (getCachedAnalysis_frame _ _ _ _ _ Hc) as (Hr1 & Hcl1 & Hp1 & Ho1).
  assert (anthropicClient st = true) as Hclient.
  { unfold isClaudeAvailable in Havail. by apply andb_true_iff in Havail as [_ ?]. }
  assert (clock st1 = clock st) as Hclock.
  { revert Hc. unfold getCachedAnalysis.
    destruct (analysisCache st !! productCode); [|by intros [= <- <-]].
    destruct (CACHE_TTL <? _); [by intros [= <- <-]|].
    destruct (bool_decide _); by intros [= <- <-]. }
  rewrite Hclient in Hcl1.
  destruct (analyzeWithClaude_run reply reviews productCode st1 Hcl1)
    as (Hreq & Hclk & Hcl2 & Hp2 & Ho2 & _ & _ & Hrun).
  assert (match o with
          | Some (Object cached) =>
              ({| summary := text_or_undefined (r_summary cached);
                  hashtags := r_hashtags cached;
                  sentiment := r_sentiment cached;
                  reviewCount := length reviews;
                  aiProvider := js "claude-cached";
                  analyzedAt := None;
                  overriddenAt := None;
                  updatedInsights := r_updatedInsights cached |}, st1)
          | _ =>
              match analyzeWithClaude reply reviews productCode st1 with
              | (Some result, st) => (result, st)
              | (None, st) =>
                  (fallback_chain keywordFallback productCode reviews st, st)
              end
          end
          = match analyzeWithClaude reply reviews productCode st1 with
            | (Some result, st) => (result, st)
            | (None, st) =>
                (fallback_chain keywordFallback productCode reviews st, st)
            end) as ->.
  { destruct o as [[|hit]|]; try done. by destruct (Hmiss hit). }
  destruct (analyzeWithClaude reply reviews productCode st1) as [res st2].
  simpl in Hreq, Hclk, Hcl2, Hp2, Ho2, Hrun.
  destruct (outcome reply) as [|v0].
  - destruct Hrun as [-> _]. simpl. split; [lia|]. split; [|done].
    apply fallback_chain_provider.
  - destruct Hrun as [(result & -> & Hprov & _) Hcache]. simpl.
    split; [lia|]. split; [by rewrite Hprov|].
    intros v [= <-]. split; [done|]. split; [by rewrite Hcache, Hclk|].
    split; [lia|]. split.
    + revert Hov. unfold find_override. by rewrite Ho2, Ho1.
    + revert Havail. unfold isClaudeAvailable. by rewrite Hcl2, Hp2, Hp1, Hclient.
Qed.

(** An entry that holds a falsy answer never gives a hit. *)
Lemma getCachedAnalysis_falsy productCode ids st entry hit :
  analysisCache st !! productCode = Some entry →
  c_summary entry = Falsy →
  (getCachedAnalysis productCode ids st).1 ≠ Some (Object hit).
Proof.
  intros Hlookup Hfalsy. unfold getCachedAnalysis. rewrite Hlookup.
  destruct (CACHE_TTL <? _); [done|]. destruct (bool_decide _); [done|].
  simpl. by rewrite Hfalsy.
Qed.

(** What the first call leaves behind when the model answers with an
    object: an entry that holds an object, taken on the ids of the
    reviews, whether it was found or written by this call. *)
Lemma getSummary_object_entry reply keywordFallback productCode reviews st r :
  find_override st productCode = None →
  isClaudeAvailable st = true →
  reviews ≠ [] →
  outcome reply = Parsed (Object r) →
  let first := getSummary reply keywordFallback productCode reviews st in
  ∃ cached c,
    analysisCache first.2 !! productCode = Some cached
    ∧ c_summary cached = Object c
    ∧ analyzedReviewIds cached = fingerprint (review_ids reviews)
    ∧ find_override first.2 productCode = None
    ∧ isClaudeAvailable first.2 = true
    ∧ (ai_requests first.2 ≤ S (ai_requests st))%nat
    ∧ (aiProvider first.1 = js "claude" →
       timestamp cached = clock first.2
       ∧ ai_requests first.2 = S (ai_requests st)).
Proof.
  intros Hov Havail Hne Hout first.
  assert ((0 <? length reviews)%nat = true) as Hlen by (by destruct reviews).
  destruct (getCachedAnalysis productCode (review_ids reviews) st)
    as [o st1] eqn:Hc1.
  assert ((∃ hit, o = Some (Object hit)) ∨ ∀ hit, o ≠ Some (Object hit))
    as [[hit ->]|Hmiss].
  { destruct o as [[|hit]|]; [right|left; by exists hit|right]; done. }
  - (* served from the cache *)
    destruct (getCachedAnalysis_hit _ _ _ _ _ Hc1)
      as (-> & cached & Hlookup & Hsum & Hfp & _).
    subst first. unfold getSummary. rewrite Hov, Havail, Hlen, Hc1. simpl.
    exists cached, hit. rewrite Hov, Havail.
    repeat split; try done. lia.
  - (* analysed *)
    destruct (getSummary_miss reply keywordFallback productCode reviews st st1 o
                Hov Havail Hne Hc1 Hmiss) as (Hreq & _ & Hparsed).
    destruct (Hparsed _ Hout) as (_ & Hcache & _ & Hov1 & Havail1).
    eexists _, r. split; [exact Hcache|]. fold first in Hreq.
    repeat split; try done; lia.
Qed.

(** An entry that holds a truthy answer is used again within the TTL. *)
Lemma getSummary_object_reused
    reply1 reply2 keywordFallback1 keywordFallback2 productCode
    reviews1 reviews2 st r entry now2 :
  find_override st productCode = None →
  isClaudeAvailable st = true →
  reviews1 ≠ [] →
  review_ids reviews1 ≡ₚ review_ids reviews2 →
  outcome reply1 = Parsed (Object r) →
  let first := getSummary reply1 keywordFallback1 productCode reviews1 st in
  analysisCache first.2 !! productCode = Some entry →
  now2 - timestamp entry ≤ CACHE_TTL →
  let second :=
    getSummary reply2 keywordFallback2 productCode reviews2
      (set_clock now2 first.2) in
  aiProvider second.1 = js "claude-cached"
  ∧ ai_requests second.2 = ai_requests first.2
  ∧ (ai_requests second.2 ≤ S (ai_requests st))%nat
  ∧ (aiProvider first.1 = js "claude" →
     timestamp entry = clock first.2
     ∧ ai_requests first.2 = S (ai_requests st)).
Proof.
  intros Hov Havail Hne Hperm Hout first Hentry Hnow second.
  assert ((0 <? length reviews2)%nat = true) as Hlen2.
  { destruct reviews2; [|done]. apply Permutation_nil_r in Hperm. by destruct reviews1. }
  destruct (getSummary_object_entry reply1 keywordFallback1 productCode reviews1 st r
              Hov Havail Hne Hout)
    as (cached & c & Hlookup & Hsum & Hfp & Hov1 & Havail1 & Hreq1 & Hran).
  fold first in Hlookup, Hov1, Havail1, Hreq1, Hran.
  rewrite Hentry in Hlookup. injection Hlookup as <-.
  (* the second call finds that entry *)
  assert (second = ({| summary := text_or_undefined (r_summary c);
                       hashtags := r_hashtags c;
                       sentiment := r_sentiment c;
                       reviewCount := length reviews2;
                       aiProvider := js "claude-cached";
                       analyzedAt := None;
                       overriddenAt := None;
                       updatedInsights := r_updatedInsights c |},
                    set_clock now2 first.2)) as ->.
  { subst second. unfold getSummary.
    assert (find_override (set_clock now2 first.2) productCode = None) as -> by done.
    assert (isClaudeAvailable (set_clock now2 first.2) = true) as -> by done.
    rewrite Hlen2. simpl.
    rewrite (getCachedAnalysis_fresh productCode (review_ids reviews2)
               (set_clock now2 first.2) entry c); try done.
    by rewrite Hfp, (fingerprint_Permutation _ _ Hperm). }
  simpl. repeat split; try done; by apply Hran.
Qed.

(** C6. No override, the model available and a non-empty set of approved
    reviews. When the model answers the first call's request, if one is
    sent, with a JSON object, the first call leaves a cache entry for the
    product, and a second call for the same product with the same review
    ids, made no later than the cache TTL after that analysis, sends no
    request -- at most one is sent over the two calls -- and is tagged
    "claude-cached". When nothing is cached for the product and the model
    answers with a falsy JSON value (0, false or the empty string), the
    first call is an analysis that succeeds as well: it is tagged "claude"
    and writes the cache entry. But that entry is never used: the second
    call, whenever it is made, sends a second request and is not tagged
    "claude-cached". *)
Theorem getSummary_cache_reuse
    reply1 reply2 keywordFallback1 keywordFallback2 productCode
    reviews1 reviews2 st :
  find_override st productCode = None →
  isClaudeAvailable st = true →
  reviews1 ≠ [] →
  review_ids reviews1 ≡ₚ review_ids reviews2 →
  let first := getSummary reply1 keywordFallback1 productCode reviews1 st in
  let second now2 :=
    getSummary reply2 keywordFallback2 productCode reviews2
      (set_clock now2 first.2) in
  (∀ r,
     outcome reply1 = Parsed (Object r) →
     ∃ entry, analysisCache first.2 !! productCode = Some entry)
  ∧ (∀ r entry now2,
       outcome reply1 = Parsed (Object r) →
       analysisCache first.2 !! productCode = Some entry →
       now2 - timestamp entry ≤ CACHE_TTL →
       aiProvider (second now2).1 = js "claude-cached"
       ∧ ai_requests (second now2).2 = ai_requests first.2
       ∧ (ai_requests (second now2).2 ≤ S (ai_requests st))%nat
       ∧ (aiProvider first.1 = js "claude" →
          timestamp entry = clock first.2
          ∧ ai_requests first.2 = S (ai_requests st)))
  ∧ (outcome reply1 = Parsed Falsy →
       analysisCache st !! productCode = None →
       aiProvider first.1 = js "claude"
       ∧ analysisCache first.2 !! productCode
         = Some {| c_summary := Falsy;
                   analyzedReviewIds := fingerprint (review_ids reviews1);
                   timestamp := clock first.2 |}
       ∧ ai_requests first.2 = S (ai_requests st)
       ∧ ∀ now2,
           ai_requests (second now2).2 = S (S (ai_requests st))
           ∧ aiProvider (second now2).1 ≠ js "claude-cached").
Proof.
  intros Hov Havail Hne Hperm first second. split.
  { intros r Hout.
    destruct (getSummary_object_entry reply1 keywordFallback1 productCode reviews1 st r
                Hov Havail Hne Hout) as (cached & _ & Hlookup & _).
    by exists cached. }
  split.
  { intros r entry now2 Hout Hentry Hnow.
    by apply (getSummary_object_reused reply1 reply2 keywordFallback1 keywordFallback2
                productCode reviews1 reviews2 st r entry now2). }
  intros Hout Hnone.
  assert (getCachedAnalysis productCode (review_ids reviews1) st = (None, st)) as Hc1.
  { unfold getCachedAnalysis. by rewrite Hnone. }
  destruct (getSummary_miss reply1 keywordFallback1 productCode reviews1 st st None
              Hov Havail Hne Hc1) as (Hreq & _ & Hparsed); [done|].
  destruct (Hparsed _ Hout) as (Htag & Hcache & _ & Hov1 & Havail1).
  fold first in Hreq, Htag, Hcache, Hov1, Havail1.
  split; [done|]. split; [done|]. split; [done|].
  intros now2.
  assert (reviews2 ≠ []) as Hne2.
  { intros ->. apply Permutation_nil_r in Hperm. by destruct reviews1. }
  destruct (getSummary_miss reply2 keywordFallback2 productCode reviews2
              (set_clock now2 first.2)
              (getCachedAnalysis productCode (review_ids reviews2)
                 (set_clock now2 first.2)).2
              (getCachedAnalysis productCode (review_ids reviews2)
                 (set_clock now2 first.2)).1) as (Hreq2 & Htag2 & _); try done.
  - apply surjective_pairing.
  - intros hit.
    by apply (getCachedAnalysis_falsy productCode _ (set_clock now2 first.2) _ hit Hcache).
  - fold (second now2) in Hreq2, Htag2. split; [|done].
    rewrite Hreq2. simpl. by rewrite Hreq.
Qed.

Lemma getSummary_cache_reuse_witness :
  let st := fresh_state (js "claude") true in
  let reviews1 := [approved 2 (js "Glow serum") []; approved 10 (js "Cica cream") []] in
  let reviews2 := [approved 10 (js "Cica cream") []; approved 2 (js "Glow serum") []] in
  (let first := getSummary some_reply None (js "P1") reviews1 st in
   let second :=
     getSummary some_reply None (js "P1") reviews2
       (set_clock (1200 + CACHE_TTL) first.2) in
   aiProvider second.1 = js "claude-cached"
   ∧ ai_requests second.2 = 1%nat)
  ∧ (let first := getSummary falsy_reply None (js "P1") reviews1 st in
     let second :=
       getSummary some_reply None (js "P1") reviews2 (set_clock 1201 first.2) in
     aiProvider first.1 = js "claude"
     ∧ ai_requests second.2 = 2%nat
     ∧ aiProvider second.1 ≠ js "claude-cached").
Proof.
  intros st reviews1 reviews2. split.
  - destruct (getSummary_cache_reuse some_reply some_reply None None (js "P1")
                reviews1 reviews2 st) as (_ & Hreuse & _).
    + reflexivity.
    + reflexivity.
    + discriminate.
    + apply perm_swap.
    + destruct (Hreuse
                  {| r_summary := Some (js "From the model");
                     r_hashtags := Some [js "#glow"];
                     r_sentiment := Some {| positiveRatio := 60; negativeRatio := 40 |};
                     r_updatedInsights := Some (js "notes") |}
                  {| c_summary := outcome_value some_reply;
                     analyzedReviewIds := js "10,2";
                     timestamp := 1200 |}
                  (1200 + CACHE_TTL)) as (Htag & Hsame & _).
      * reflexivity.
      * vm_compute. reflexivity.
      * vm_compute. discriminate.
      * split; [exact Htag|]. rewrite Hsame. reflexivity.
  - destruct (getSummary_cache_reuse falsy_reply some_reply None None (js "P1")
                reviews1 reviews2 st) as (_ & _ & Hfalsy).
    + reflexivity.
    + reflexivity.
    + discriminate.
    + apply perm_swap.
    + destruct Hfalsy as (Htag & _ & _ & Hsecond).
      * reflexivity.
      * reflexivity.
      * destruct (Hsecond 1201) as [Hreq Hnot].
        split; [exact Htag|]. split; [exact Hreq|exact Hnot].
Defined.

End Cache.

(** ** The feedback history *)

Section Feedback.

Import ClaudeSummarizer Spec.
Local Open Scope nat_scope.

Lemma filter_remove_oldest p q l :
  filter (λ f, f_productCode f = q) (remove_oldest p l)
  = if decide (q = p)
    then drop 1 (filter (λ f, f_productCode f = p) l)
    else filter (λ f, f_productCode f = q) l.
Proof.
  destruct (decide (q = p)) as [->|Hq].
  - induction l as [|f l IH]; simpl; [done|].
    destruct (decide (f_productCode f = p)) as [Hf|Hf].
    + rewrite bool_decide_eq_true_2 by done.
      rewrite filter_cons_True by done. done.
    + rewrite bool_decide_eq_false_2 by done.
      rewrite !filter_cons_False by done. done.
  - induction l as [|f l IH]; simpl; [done|].
    destruct (decide (f_productCode f = p)) as [Hf|Hf].
    + rewrite bool_decide_eq_true_2 by done.
      rewrite filter_cons_False by congruence. done.
    + rewrite bool_decide_eq_false_2 by done.
      rewrite !filter_cons, IH. done.
Qed.

Lemma most_recent_short {A} n (l : list A) : length l ≤ n → most_recent n l = l.
Proof. intros H. unfold most_recent. by replace (length l - n) with 0 by lia. Qed.

Lemma most_recent_length {A} n (l : list A) : length (most_recent n l) ≤ n.
Proof. unfold most_recent. rewrite length_drop. lia. Qed.

Lemma most_recent_app {A} n (l k : list A) :
  most_recent n (most_recent n l ++ k) = most_recent n (l ++ k).
Proof.
  unfold most_recent.
  destruct (decide (length l ≤ n)) as [Hle|Hgt].
  { replace (length l - n) with 0 by lia. done. }
  rewrite !length_app, !length_drop.
  destruct (decide (length k ≤ n)) as [Hk|Hk].
  - rewrite drop_app_le by (rewrite length_drop; lia).
    rewrite (drop_app_le l) by lia. f_equal. rewrite drop_drop. f_equal. lia.
  - rewrite drop_app_ge by (rewrite length_drop; lia).
    rewrite (drop_app_ge l) by lia. rewrite length_drop. f_equal. lia.
Qed.

(** One call: the product of the call keeps its ten most recent records,
    the new one included; every other product keeps what it had. *)
Lemma recordFeedback_step st history c q :
  aiFeedbackHistoryRef st = Some history →
  length (feedback_of (c_productCode c) st) ≤ 10 →
  ∃ history',
    aiFeedbackHistoryRef (run_call st c) = Some history'
    ∧ feedback_of q (run_call st c)
      = if decide (q = c_productCode c)
        then most_recent 10 (feedback_of q st ++ [record_of c])
        else feedback_of q st.
Proof.
  intros Href Hlen. unfold feedback_of in *. rewrite Href in *. simpl in Hlen.
  unfold run_call, recordFeedback. simpl. rewrite Href.
  set (new := {| f_productCode := c_productCode c; originalSummary := c_original c;
                 correctedSummary := c_corrected c; f_createdAt := at_time c |}).
  assert (filter (λ f, f_productCode f = c_productCode c) (history ++ [new])
          = filter (λ f, f_productCode f = c_productCode c) history ++ [new]) as Hown.
  { rewrite filter_app. f_equal. by rewrite filter_cons_True. }
  rewrite Hown, length_app. simpl.
  destruct (10 <? _)%nat eqn:Hfull; simpl; eexists; (split; [reflexivity|]).
  - apply Nat.ltb_lt in Hfull. rewrite filter_remove_oldest.
    destruct (decide (q = c_productCode c)) as [->|Hq]; simpl.
    + rewrite Hown. unfold most_recent. rewrite length_app. simpl.
      f_equal. lia.
    + rewrite filter_app. simpl. rewrite filter_cons_False by (simpl; congruence).
      by rewrite filter_nil, app_nil_r.
  - apply Nat.ltb_ge in Hfull.
    destruct (decide (q = c_productCode c)) as [->|Hq].
    + rewrite Hown. rewrite most_recent_short; [done|]. rewrite length_app. simpl. lia.
    + rewrite filter_app. simpl. rewrite filter_cons_False by (simpl; congruence).
      by rewrite filter_nil, app_nil_r.
Qed.

Lemma recordFeedback_history st history calls :
  aiFeedbackHistoryRef st = Some history →
  (∀ p, length (feedback_of p st) ≤ 10) →
  (∃ history', aiFeedbackHistoryRef (run_calls calls st) = Some history')
  ∧ ∀ p, feedback_of p (run_calls calls st)
         = most_recent 10
             (feedback_of p st
              ++ (record_of <$> filter (λ c, c_productCode c = p) calls)).
Proof.
  revert st history. induction calls as [|c calls IH]; intros st history Href Hbound.
  { simpl. split; [eauto|]. intros p. rewrite app_nil_r.
    by rewrite most_recent_short. }
  simpl.
  destruct (recordFeedback_step st history c (c_productCode c) Href (Hbound _))
    as (history' & Href' & _).
  assert (∀ q, feedback_of q (run_call st c)
               = if decide (q = c_productCode c)
                 then most_recent 10 (feedback_of q st ++ [record_of c])
                 else feedback_of q st) as Hstep.
  { intros q. destruct (recordFeedback_step st history c q Href (Hbound _))
      as (? & _ & ?). done. }
  assert (∀ p, length (feedback_of p (run_call st c)) ≤ 10) as Hbound'.
  { intros q. rewrite Hstep. destruct (decide _); [apply most_recent_length|apply Hbound]. }
  destruct (IH _ _ Href' Hbound') as [Hex Hall]. split; [done|].
  intros p. rewrite Hall, Hstep.
  destruct (decide (p = c_productCode c)) as [->|Hp].
  - rewrite filter_cons_True by done. rewrite fmap_cons.
    rewrite most_recent_app. by rewrite <- app_assoc.
  - rewrite filter_cons_False by congruence. done.
Qed.

(** C10. On an injected history that holds at most ten records per
    product (the empty one, for instance), any sequence of
    [recordFeedback] calls leaves at most ten records for every product,
    and they are the ten most recent of those stored before and those
    recorded since, in order of arrival; eleven calls for a product that
    had no record leave exactly the records of the last ten. *)
Theorem recordFeedback_keeps_ten_most_recent st history calls :
  aiFeedbackHistoryRef st = Some history →
  (∀ p, length (feedback_of p st) ≤ 10) →
  (∀ p, length (feedback_of p (run_calls calls st)) ≤ 10)
  ∧ (∀ p, feedback_of p (run_calls calls st)
          = most_recent 10
              (feedback_of p st
               ++ (record_of <$> filter (λ c, c_productCode c = p) calls)))
  ∧ (∀ p first rest,
       feedback_of p st = [] →
       calls = first :: rest →
       length rest = 10 →
       Forall (λ c, c_productCode c = p) calls →
       feedback_of p (run_calls calls st) = record_of <$> rest).
Proof.
  intros Href Hbound.
  destruct (recordFeedback_history st history calls Href Hbound) as [_ Hall].
  split; [|split].
  - intros p. rewrite Hall. apply most_recent_length.
  - done.
  - intros p first rest Hnone -> Hlen Hp. rewrite Hall, Hnone. simpl.
    assert (filter (λ c, c_productCode c = p) (first :: rest) = first :: rest) as ->.
    { clear -Hp. induction Hp as [|c l Hc Hl IH]; [done|].
      rewrite filter_cons_True by done. by rewrite IH. }
    unfold most_recent. rewrite fmap_cons. simpl. rewrite length_fmap, Hlen. done.
Qed.

Lemma recordFeedback_keeps_ten_most_recent_witness :
  let st := fresh_state (js "keyword") false in
  (∀ p, length (feedback_of p (run_calls eleven_calls st)) ≤ 10)
  ∧ (∀ p, feedback_of p (run_calls eleven_calls st)
          = most_recent 10
              (feedback_of p st
               ++ (record_of <$> filter (λ c, c_productCode c = p) eleven_calls)))
  ∧ (∀ p first rest,
       feedback_of p st = [] →
       eleven_calls = first :: rest →
       length rest = 10 →
       Forall (λ c, c_productCode c = p) eleven_calls →
       feedback_of p (run_calls eleven_calls st) = record_of <$> rest).
Proof.
  apply (recordFeedback_keeps_ten_most_recent
           (fresh_state (js "keyword") false) [] eleven_calls).
  - reflexivity.
  - intros p. simpl. lia.
Defined.

(** The eleven calls evaluated: the record of the first call is gone, the
    other ten are stored in the order of the calls. *)
Lemma recordFeedback_eleven_calls :
  aiFeedbackHistoryRef (run_calls eleven_calls (fresh_state (js "keyword") false))
  = Some (record_of <$> drop 1 eleven_calls).
Proof. vm_compute. reflexivity. Qed.

End Feedback.

(** ** Encoding and decoding *)

Section Encoders.

Import Encoding.
Local Open Scope N_scope.

Ltac div_lia := zify; Z.to_euclidean_division_equations; lia.

Ltac split_tests :=
  repeat match goal with
         | |- context [(?a <? ?b)] => destruct (N.ltb_spec a b); try lia
         | |- context [(?a <=? ?b)] => destruct (N.leb_spec a b); try lia
         | |- context [(?a =? ?b)] => destruct (N.eqb_spec a b); try lia
         end.

Ltac split_div_tests :=
  repeat (match goal with
          | |- context [(?a =? ?b)] => destruct (N.eqb_spec a b); try div_lia
          | |- context [(?a <? ?b)] => destruct (N.ltb_spec a b); try div_lia
          | |- context [(?a <=? ?b)] => destruct (N.leb_spec a b); try div_lia
          end; cbn [andb orb negb]; cbv beta iota zeta).

(** *** base64 *)

Lemma unbase64_base64_char v : v < 64 → unbase64 (base64_char v) = Some v.
Proof.
  intros Hv. unfold base64_char, unbase64, is_upper, is_lower, is_digit, between.
  split_tests; cbn [andb orb]; try (f_equal; lia).
  all: split_tests; cbn [andb orb]; try (f_equal; lia).
Qed.

Lemma base64_char_not_pad v : v < 64 → (base64_char v =? 61) = false.
Proof.
  intros Hv. unfold base64_char. split_tests; try done.
  all: by destruct (v =? 62).
Qed.

Lemma sextets_base64_char v s : v < 64 → sextets (base64_char v :: s) = v :: sextets s.
Proof.
  intros Hv. cbn [sextets]. rewrite base64_char_not_pad, unbase64_base64_char; done.
Qed.

Lemma sextets_pad s : sextets (pad :: s) = [].
Proof. done. Qed.

(** Decoding undoes encoding on every sequence of bytes. *)
Lemma base64_round_trip bs :
  Forall (λ b, b < 256) bs → Buffer_from_base64 (Buffer_toString_base64 bs) = bs.
Proof.
  unfold Buffer_from_base64.
  remember (length bs) as n eqn:Hn. revert bs Hn.
  induction n as [n IH] using lt_wf_ind. intros bs Hn Hbs.
  destruct bs as [|a [|b [|c rest]]].
  - done.
  - apply Forall_cons in Hbs as [Ha _].
    cbn [Buffer_toString_base64].
    rewrite !sextets_base64_char, sextets_pad by div_lia.
    cbn [bytes_of_sextets]. f_equal. div_lia.
  - apply Forall_cons in Hbs as [Ha [Hb _]%Forall_cons].
    cbn [Buffer_toString_base64].
    rewrite !sextets_base64_char, sextets_pad by div_lia.
    cbn [bytes_of_sextets]. f_equal; [|f_equal]; div_lia.
  - apply Forall_cons in Hbs as [Ha [Hb [Hc Hrest]%Forall_cons]%Forall_cons].
    cbn [Buffer_toString_base64].
    rewrite !sextets_base64_char by div_lia.
    cbn [bytes_of_sextets]. rewrite (IH (length rest)); [| simpl in Hn; lia | done | done].
    f_equal; [|f_equal; [|f_equal]]; div_lia.
Qed.

Lemma Buffer_toString_base64_nil bs : Buffer_toString_base64 bs = [] → bs = [].
Proof. by destruct bs as [|a [|b [|c rest]]]. Qed.

(** *** UTF-8 *)

Lemma Buffer_from_utf8_nil s : Buffer_from_utf8 s = [] → s = [].
Proof.
  destruct s as [|c rest]; [done|]. simpl.
  destruct (c <? 128); [done|]. destruct (c <? 2048); [done|].
  destruct (is_high_surrogate c).
  - destruct rest as [|d rest]; [done|]. by destruct (is_low_surrogate d).
  - by destruct (is_low_surrogate c).
Qed.

Lemma surrogate_bounds c :
  (is_high_surrogate c = true ↔ 0xD800 ≤ c ≤ 0xDBFF)
  ∧ (is_low_surrogate c = true ↔ 0xDC00 ≤ c ≤ 0xDFFF).
Proof.
  unfold is_high_surrogate, is_low_surrogate, between.
  rewrite !andb_true_iff, !N.leb_le. done.
Qed.

(** The bytes written for units below 2^16 are bytes. *)
Lemma Buffer_from_utf8_bytes s :
  Forall (λ c, c < 0x10000) s → Forall (λ b, b < 256) (Buffer_from_utf8 s).
Proof.
  remember (length s) as n eqn:Hn. revert s Hn.
  induction n as [n IH] using lt_wf_ind. intros s Hn Hs.
  destruct s as [|c rest]; [constructor|].
  apply Forall_cons in Hs as [Hc Hrest].
  assert (Forall (λ b, b < 256) (Buffer_from_utf8 rest)) as Hbytes.
  { apply (IH (length rest)); [simpl in Hn; lia|done|done]. }
  assert (Forall (λ b, b < 256) replacement) as Hrep.
  { unfold replacement. repeat constructor. }
  cbn [Buffer_from_utf8].
  destruct (N.ltb_spec c 0x80); [constructor; [lia|done]|].
  destruct (N.ltb_spec c 0x800); [repeat (constructor; [div_lia|]); done|].
  destruct (is_high_surrogate c) eqn:Hhi.
  - apply surrogate_bounds in Hhi.
    destruct rest as [|d rest]; [done|].
    destruct (is_low_surrogate d) eqn:Hlo; [|by apply Forall_app].
    apply surrogate_bounds in Hlo.
    apply Forall_cons in Hrest as [Hd Hrest].
    repeat (constructor; [div_lia|]).
    apply (IH (length rest)); [simpl in Hn; lia|done|done].
  - destruct (is_low_surrogate c); [by apply Forall_app|].
    repeat (constructor; [div_lia|]). done.
Qed.

Lemma well_formed_units s : well_formed s = true → Forall (λ c, c < 0x10000) s.
Proof.
  remember (length s) as n eqn:Hn. revert s Hn.
  induction n as [n IH] using lt_wf_ind. intros s Hn Hwf.
  destruct s as [|c rest]; [constructor|].
  cbn [well_formed] in Hwf. apply andb_true_iff in Hwf as [Hc Hwf].
  apply N.ltb_lt in Hc. constructor; [done|].
  destruct (is_high_surrogate c).
  - destruct rest as [|d rest]; [done|].
    apply andb_true_iff in Hwf as [Hd Hwf]. apply surrogate_bounds in Hd.
    constructor; [lia|]. apply (IH (length rest)); [simpl in Hn; lia|done|done].
  - apply andb_true_iff in Hwf as [_ Hwf].
    apply (IH (length rest)); [simpl in Hn; lia|done|done].
Qed.

Lemma well_formed_app s t :
  well_formed s = true → well_formed t = true → well_formed (s ++ t) = true.
Proof.
  remember (length s) as n eqn:Hn. revert s Hn.
  induction n as [n IH] using lt_wf_ind. intros s Hn Hs Ht.
  destruct s as [|c rest]; [done|].
  cbn [well_formed app] in Hs |- *.
  apply andb_true_iff in Hs as [Hc Hs]. rewrite Hc. cbn [andb].
  destruct (is_high_surrogate c).
  - destruct rest as [|d rest]; [done|].
    apply andb_true_iff in Hs as [Hd Hs]. cbn [app]. rewrite Hd. cbn [andb].
    apply (IH (length rest)); [simpl in Hn; lia|done|done|done].
  - apply andb_true_iff in Hs as [Hlo Hs]. rewrite Hlo. cbn [andb].
    apply (IH (length rest)); [simpl in Hn; lia|done|done|done].
Qed.

Lemma utf8_decode_skip l rest : utf8_decode (l ++ rest) (length l) = utf8_decode rest 0.
Proof. induction l as [|x l IH]; [done|]. simpl. apply IH. Qed.

Lemma utf8_step_1 c rest : c < 0x80 → utf8_step c rest = ([c], 1%nat).
Proof. intros Hc. unfold utf8_step; cbv beta zeta. split_div_tests. done. Qed.

Lemma utf8_step_2 c rest :
  0x80 ≤ c < 0x800 →
  utf8_step (0xC0 + c / 64) ((0x80 + c mod 64) :: rest) = ([c], 2%nat).
Proof.
  intros Hc. unfold utf8_step, between, is_cont, between; cbv beta zeta.
  split_div_tests. do 2 f_equal. div_lia.
Qed.

Lemma utf8_step_3 c rest :
  0x800 ≤ c < 0x10000 → is_high_surrogate c = false → is_low_surrogate c = false →
  utf8_step (0xE0 + c / 4096) ((0x80 + (c / 64) mod 64) :: (0x80 + c mod 64) :: rest)
  = ([c], 3%nat).
Proof.
  intros Hc Hhi Hlo. unfold is_high_surrogate, is_low_surrogate, between in Hhi, Hlo.
  apply andb_false_iff in Hhi, Hlo. rewrite !N.leb_gt in Hhi, Hlo.
  unfold utf8_step, between, is_cont, between; cbv beta zeta. split_div_tests.
  all: do 2 f_equal; div_lia.
Qed.

Lemma utf8_step_4 c d rest :
  is_high_surrogate c = true → is_low_surrogate d = true →
  let cp := 0x10000 + (c - 0xD800) * 0x400 + (d - 0xDC00) in
  utf8_step (0xF0 + cp / 262144)
    ((0x80 + (cp / 4096) mod 64) :: (0x80 + (cp / 64) mod 64) :: (0x80 + cp mod 64) :: rest)
  = ([c; d], 4%nat).
Proof.
  intros Hhi%surrogate_bounds Hlo%surrogate_bounds cp.
  assert (0x10000 ≤ cp < 0x110000) as Hcp by (unfold cp; lia).
  assert (c = 0xD800 + (cp - 0x10000) / 0x400) as Hc by (unfold cp; div_lia).
  assert (d = 0xDC00 + (cp - 0x10000) mod 0x400) as Hd by (unfold cp; div_lia).
  clearbody cp. subst c d. clear Hhi Hlo.
  unfold utf8_step, between, is_cont, between; cbv beta zeta. split_div_tests.
  all: unfold utf16_of_code_point.
  all: replace ((0xF0 + cp / 262144 - 0xF0) * 262144
                + (0x80 + (cp / 4096) mod 64 - 0x80) * 4096
                + (0x80 + (cp / 64) mod 64 - 0x80) * 64 + (0x80 + cp mod 64 - 0x80))
         with cp by div_lia.
  all: destruct (N.ltb_spec cp 0x10000); [lia|done].
Qed.

(** Decoding the UTF-8 bytes of a well-formed string gives the string. *)
Lemma utf8_round_trip s :
  well_formed s = true → Buffer_toString_utf8 (Buffer_from_utf8 s) = s.
Proof.
  unfold Buffer_toString_utf8.
  remember (length s) as n eqn:Hn. revert s Hn.
  induction n as [n IH] using lt_wf_ind. intros s Hn Hwf.
  destruct s as [|c rest]; [done|].
  cbn [well_formed] in Hwf. apply andb_true_iff in Hwf as [Hc Hwf].
  apply N.ltb_lt in Hc. cbn [Buffer_from_utf8].
  destruct (N.ltb_spec c 0x80) as [H1|H1].
  { destruct (is_high_surrogate c) eqn:Hhi; [apply surrogate_bounds in Hhi; lia|].
    apply andb_true_iff in Hwf as [_ Hwf].
    cbn [utf8_decode]. rewrite utf8_step_1 by done. simpl.
    f_equal. apply (IH (length rest)); [simpl in Hn; lia|done|done]. }
  destruct (N.ltb_spec c 0x800) as [H2|H2].
  { destruct (is_high_surrogate c) eqn:Hhi; [apply surrogate_bounds in Hhi; lia|].
    apply andb_true_iff in Hwf as [_ Hwf].
    cbn [utf8_decode]. rewrite utf8_step_2 by done. simpl.
    f_equal. apply (IH (length rest)); [simpl in Hn; lia|done|done]. }
  destruct (is_high_surrogate c) eqn:Hhi.
  - destruct rest as [|d rest]; [done|].
    apply andb_true_iff in Hwf as [Hlo Hwf]. rewrite Hlo.
    cbn [utf8_decode]. rewrite utf8_step_4 by done.
    cbn [Nat.pred utf8_decode app]. do 2 f_equal.
    apply (IH (length rest)); [simpl in Hn; lia|done|done].
  - apply andb_true_iff in Hwf as [Hlo Hwf]. apply negb_true_iff in Hlo. rewrite Hlo.
    cbn [utf8_decode]. rewrite utf8_step_3 by done.
    cbn [Nat.pred utf8_decode app]. f_equal.
    apply (IH (length rest)); [simpl in Hn; lia|done|done].
Qed.

(** The text of a string survives the trip through [Buffer.from(s)],
    [toString('base64')], [Buffer.from(_, 'base64')] and
    [toString('utf-8')]. *)
Lemma text_round_trip s :
  well_formed s = true →
  Buffer_toString_utf8 (Buffer_from_base64 (Buffer_toString_base64 (Buffer_from_utf8 s)))
  = s.
Proof.
  intros Hwf. rewrite base64_round_trip; [by apply utf8_round_trip|].
  by apply Buffer_from_utf8_bytes, well_formed_units.
Qed.

(** X1. A detail blob that is the base64 form of the UTF-8 bytes of an
    HTML text is decoded without loss: the extractor returns the hashtag
    tokens of the text itself, in order of first appearance. *)
Theorem extractHashtagsFromProduct_of_encoded_html product html :
  well_formed html = true →
  html ≠ [] →
  detailInfo product = DetailText (Buffer_toString_base64 (Buffer_from_utf8 html)) →
  Youtube.decode_detailInfo (detailInfo product) = Some html
  ∧ Youtube.extractHashtagsFromProduct product = Set_values (Spec.hashtag_tokens html).
Proof.
  intros Hwf Hne Hdetail.
  assert (Youtube.decode_detailInfo (detailInfo product) = Some html) as Hdecode.
  { rewrite Hdetail. simpl. by rewrite text_round_trip. }
  split; [done|].
  assert (Youtube.detailInfo_falsy (detailInfo product) = false) as Hfalsy.
  { rewrite Hdetail. simpl.
    destruct (Buffer_toString_base64 (Buffer_from_utf8 html)) eqn:Hblob; [|done].
    apply Buffer_toString_base64_nil, Buffer_from_utf8_nil in Hblob. done. }
  by destruct (extractHashtagsFromProduct_tokens product html Hfalsy Hdecode).
Qed.

Lemma extractHashtagsFromProduct_of_encoded_html_witness :
  Youtube.decode_detailInfo (detailInfo Spec.serum_product)
  = Some (js "<p>#cica #serum</p>")
  ∧ Youtube.extractHashtagsFromProduct Spec.serum_product
    = Set_values (Spec.hashtag_tokens (js "<p>#cica #serum</p>")).
Proof.
  apply (extractHashtagsFromProduct_of_encoded_html
           Spec.serum_product (js "<p>#cica #serum</p>")).
  - reflexivity.
  - discriminate.
  - reflexivity.
Defined.

(** X2. The gateway credential is "Basic " followed by the base64 form of
    the key and a colon, and decoding it gives the key and the colon back;
    without a key, or with an empty one, no header is made. *)
Theorem getAuthHeader_decodes apiKey :
  well_formed apiKey = true →
  apiKey ≠ [] →
  ∃ auth,
    Eximbay.getAuthHeader (Some apiKey) = Some (js "Basic " ++ auth)
    ∧ Buffer_toString_utf8 (Buffer_from_base64 auth) = apiKey ++ js ":"
    ∧ Eximbay.getAuthHeader None = None
    ∧ Eximbay.getAuthHeader (Some []) = None.
Proof.
  intros Hwf Hne.
  exists (Buffer_toString_base64 (Buffer_from_utf8 (apiKey ++ js ":"))).
  split; [by destruct apiKey|]. split; [|done].
  apply text_round_trip. by apply well_formed_app.
Qed.

Lemma getAuthHeader_decodes_witness :
  ∃ auth,
    Eximbay.getAuthHeader (Some (js "test_key_1234")) = Some (js "Basic " ++ auth)
    ∧ Buffer_toString_utf8 (Buffer_from_base64 auth) = js "test_key_1234" ++ js ":"
    ∧ Eximbay.getAuthHeader None = None
    ∧ Eximbay.getAuthHeader (Some []) = None.
Proof.
  apply (getAuthHeader_decodes (js "test_key_1234")).
  - reflexivity.
  - discriminate.
Defined.

End Encoders.

(** ** The YouTube adapter *)

Section VideoDetails.

Import YoutubeSearch Terms.
Local Open Scope nat_scope.
Local Arguments Nat.ltb : simpl never.
Local Arguments Nat.eqb : simpl never.

Lemma batches_concat ids m :
  concat (batch ids <$> seq 0 m) = take (m * BATCH_SIZE) ids.
Proof.
  induction m as [|m IH]; [done|].
  rewrite seq_S, fmap_app, concat_app, IH. cbn [fmap list_fmap concat Nat.add].
  rewrite app_nil_r. unfold batch. rewrite take_take_drop. f_equal. lia.
Qed.

(** What the loop does from its [k]-th turn on, given fuel for the turns
    that are left. *)
Lemma details_loop_run api valid fuel k acc sent :
  length valid ≤ (k + fuel) * BATCH_SIZE →
  ∃ m,
    (details_loop api fuel (k * BATCH_SIZE) valid acc sent).2
      = sent ++ (request_of valid <$> seq k m)
    ∧ (m = 0 ∨ (k + m) * BATCH_SIZE < length valid + BATCH_SIZE)
    ∧ Forall (answered api valid) (seq k (pred m))
    ∧ match (details_loop api fuel (k * BATCH_SIZE) valid acc sent).1 with
      | Some details =>
          length valid ≤ (k + m) * BATCH_SIZE
          ∧ Forall (answered api valid) (seq k m)
          ∧ details = acc ++ concat (reply_of api valid <$> seq k m)
      | None => 0 < m ∧ ¬ answered api valid (k + pred m)
      end.
Proof.
  revert k acc sent. induction fuel as [|fuel IH]; intros k acc sent Hfuel.
  { exists 0. simpl. rewrite !app_nil_r. repeat split; try (left; done); try constructor.
    lia. }
  cbn [details_loop].
  destruct (Nat.ltb_spec (k * BATCH_SIZE) (length valid)) as [Hlt|Hge].
  2:{ exists 0. simpl. rewrite !app_nil_r.
      repeat split; try (left; done); try constructor. lia. }
  fold (batch valid k). fold (request_of valid k).
  destruct (videos api (request_of valid k)) as [items|] eqn:Hreply.
  - replace (k * BATCH_SIZE + BATCH_SIZE) with (S k * BATCH_SIZE) by lia.
    destruct (IH (S k) (acc ++ (detail_of <$> items)) (sent ++ [request_of valid k]))
      as (m & Hsent & Hbound & Hprev & Hres); [lia|].
    assert (answered api valid k) as Hk by (unfold answered; congruence).
    exists (S m). rewrite Hsent. split; [by rewrite <- app_assoc|].
    split; [right; destruct Hbound as [->|Hb]; lia|].
    split.
    { destruct m as [|m]; [constructor|]. simpl in *. by constructor. }
    destruct (details_loop api fuel (S k * BATCH_SIZE) valid _ _).1 as [details|].
    + destruct Hres as (Hlen & Hall & ->). split; [lia|]. split; [by constructor|].
      cbn [seq fmap list_fmap concat]. unfold reply_of at 2. rewrite Hreply. simpl.
      by rewrite <- app_assoc.
    + destruct Hres as [Hpos Hfail]. split; [lia|].
      replace (k + pred (S m)) with (S k + pred m) by lia. done.
  - exists 1. simpl. split; [done|]. split; [right; lia|]. split; [constructor|].
    split; [lia|]. rewrite Nat.add_0_r. unfold answered. congruence.
Qed.

(** X3. The detail requests carry the valid ids in slices of 50, in
    order and without overlap: request number k asks for the ids at
    positions 50k to 50k+49, no request is empty, every request before the
    last one was answered, and when the last one is answered too every
    valid id has been asked for. *)
Theorem getVideoDetails_batches api videoIds fallbackVideos :
  let valid := omap valid_id videoIds in
  ∃ m,
    (getVideoDetails api videoIds fallbackVideos).2 = request_of valid <$> seq 0 m
    ∧ concat (batch valid <$> seq 0 m) = take (m * BATCH_SIZE) valid
    ∧ (m = 0 ∨ m * BATCH_SIZE < length valid + BATCH_SIZE)
    ∧ Forall (answered api valid) (seq 0 (pred m))
    ∧ (Forall (answered api valid) (seq 0 m) → length valid ≤ m * BATCH_SIZE).
Proof.
  intros valid. unfold getVideoDetails. fold valid.
  destruct (Nat.eqb_spec (length videoIds) 0) as [Hnone|Hsome].
  { exists 0. apply nil_length_inv in Hnone. subst videoIds. simpl.
    split_and!; try done; try (by left); try constructor; try lia. }
  destruct (Nat.eqb_spec (length valid) 0) as [Hinvalid|Hvalid].
  { exists 0. simpl. split_and!; try done; try (by left); try constructor; try lia. }
  destruct (details_loop_run api valid (length valid) 0 [] [])
    as (m & Hsent & Hbound & Hprev & Hres); [unfold BATCH_SIZE; lia|].
  change (0 * BATCH_SIZE) with 0 in Hsent, Hres.
  exists m. rewrite batches_concat.
  destruct (details_loop api (length valid) 0 valid [] []) as [[details|] sent];
    simpl in Hsent, Hres |- *.
  - destruct Hres as (Hlen & Hall & _). repeat split; try done.
  - destruct Hres as [Hpos Hfail]. repeat split; try done.
    intros Hall. exfalso. apply Hfail.
    rewrite Forall_forall in Hall. apply Hall. apply elem_of_seq. lia.
Qed.

(** The four outcomes of a detail lookup. *)
Lemma getVideoDetails_outcomes api videoIds fallbackVideos :
  let valid := omap valid_id videoIds in
  let details := (getVideoDetails api videoIds fallbackVideos).1 in
  (videoIds = [] → details = [])
  ∧ (videoIds ≠ [] → valid = [] → details = without_counts <$> fallbackVideos)
  ∧ (valid ≠ [] →
     (∀ k, k * BATCH_SIZE < length valid → answered api valid k) →
     details = concat (reply_of api valid <$> seq 0 ((length valid + 49) / 50)))
  ∧ (∀ k, k * BATCH_SIZE < length valid → ¬ answered api valid k →
     details = without_counts <$> fallbackVideos).
Proof.
  intros valid details. subst details. unfold getVideoDetails. fold valid.
  split; [by intros ->|]. split.
  { intros Hsome Hinvalid. destruct videoIds; [done|]. by rewrite Hinvalid. }
  assert (valid ≠ [] → videoIds ≠ []) as Hids.
  { intros Hvalid ->. done. }
  destruct (details_loop_run api valid (length valid) 0 [] [])
    as (m & Hsent & Hbound & Hprev & Hres); [unfold BATCH_SIZE; lia|].
  change (0 * BATCH_SIZE) with 0 in Hsent, Hres.
  split.
  - intros Hvalid Hall. specialize (Hids Hvalid).
    destruct videoIds as [|x videoIds]; [done|]. cbn [length Nat.eqb].
    change (S (length videoIds) =? 0) with false. cbv iota.
    destruct (Nat.eqb_spec (length valid) 0) as [Hinvalid|_].
    { by apply nil_length_inv in Hinvalid. }
    destruct (details_loop api (length valid) 0 valid [] []) as [[found|] sent];
      cbn [fst snd] in Hres |- *.
    + destruct Hres as (Hlen & _ & ->). cbn [app]. do 3 f_equal.
      destruct Hbound as [->|Hb].
      { destruct valid; [done|]. simpl in Hlen. lia. }
      unfold BATCH_SIZE in *.
      apply (Nat.div_unique _ _ _ (length valid + 49 - 50 * m)); lia.
    + destruct Hres as [Hpos Hfail]. exfalso. apply Hfail, Hall.
      unfold BATCH_SIZE in *. destruct Hbound as [->|Hb]; lia.
  - intros k Hk Hfail.
    assert (valid ≠ []) as Hvalid by (intros Hnil; rewrite Hnil in Hk; simpl in Hk; lia).
    specialize (Hids Hvalid).
    destruct videoIds as [|x videoIds]; [done|].
    change (length (x :: videoIds) =? 0) with false. cbv iota.
    destruct (Nat.eqb_spec (length valid) 0) as [Hinvalid|_].
    { by apply nil_length_inv in Hinvalid. }
    destruct (details_loop api (length valid) 0 valid [] []) as [[found|] sent];
      cbn [fst snd] in Hres |- *; [|done].
    destruct Hres as (Hlen & Hall & _). exfalso. apply Hfail.
    rewrite Forall_forall in Hall. apply Hall, elem_of_seq. unfold BATCH_SIZE in *. lia.
Qed.

(** X4. Without ids the result is empty; with ids of which none is valid,
    or when a request fails, it is the fallback list with the three
    counters at 0, whatever was fetched before; and when every request is
    answered it is the replies, one after the other. *)
Theorem getVideoDetails_results api videoIds fallbackVideos :
  let valid := omap valid_id videoIds in
  let details := (getVideoDetails api videoIds fallbackVideos).1 in
  (videoIds = [] → details = [])
  ∧ (videoIds ≠ [] → valid = [] → details = without_counts <$> fallbackVideos)
  ∧ (valid ≠ [] →
     (∀ k, k * BATCH_SIZE < length valid → answered api valid k) →
     details = concat (reply_of api valid <$> seq 0 ((length valid + 49) / 50)))
  ∧ (∀ k, k * BATCH_SIZE < length valid → ¬ answered api valid k →
     details = without_counts <$> fallbackVideos).
Proof. apply getVideoDetails_outcomes. Qed.

Lemma getVideoDetails_results_witness :
  (getVideoDetails echo_api mixed_ids [hit_of (Some (js "a"))]).1
  = concat (reply_of echo_api [js "a"; js "b"] <$> seq 0 1)
  ∧ (getVideoDetails silent_api mixed_ids [hit_of (Some (js "a"))]).1
    = [without_counts (hit_of (Some (js "a")))].
Proof.
  split.
  - apply (getVideoDetails_results echo_api mixed_ids [hit_of (Some (js "a"))]).
    + discriminate.
    + intros k Hk. discriminate.
  - apply (getVideoDetails_results silent_api mixed_ids [hit_of (Some (js "a"))]) with 0.
    + simpl. lia.
    + intros H. apply H. reflexivity.
Defined.

End VideoDetails.

Section ReviewSearch.

Import Youtube YoutubeSearch Spec Terms.
Local Open Scope nat_scope.
Local Arguments Nat.ltb : simpl never.

(** The extractor returns pairwise different hashtag tokens. *)
Lemma extractHashtagsFromProduct_wf product :
  NoDup (extractHashtagsFromProduct product)
  ∧ Forall hashtag_token (extractHashtagsFromProduct product).
Proof.
  destruct (detailInfo_falsy (detailInfo product)) eqn:Hfalsy.
  { unfold extractHashtagsFromProduct. rewrite Hfalsy. split; constructor. }
  destruct (decode_detailInfo (detailInfo product)) as [decodedHtml|] eqn:Hdecode.
  2:{ unfold extractHashtagsFromProduct. rewrite Hfalsy, Hdecode. split; constructor. }
  destruct (extractHashtagsFromProduct_tokens product decodedHtml Hfalsy Hdecode)
    as [-> Htokens].
  split; [apply Set_values_NoDup|].
  apply Forall_forall. intros t Ht. apply (proj1 (Set_values_elem_of _ _)) in Ht.
  rewrite Forall_forall in Htokens. by apply Htokens.
Qed.

Lemma add_video_spec l video :
  tidy l →
  let l' := add_video l video in
  tidy l'
  ∧ searched l' = searched l
  ∧ h_videoId video ∈ seenIds l'
  ∧ (∀ v, v ∈ allVideos l' ↔ v ∈ allVideos l ∨ (v = video ∧ h_videoId video ∉ seenIds l)).
Proof.
  intros [Hnd Hseen]. unfold add_video, tidy. case_bool_decide as Hin; simpl.
  - split_and!; try done. intros v. split; [by left|]. by intros [?|[_ ?]].
  - split_and!; try done.
    + apply NoDup_app. split_and!; [done| |apply NoDup_singleton].
      intros x Hx ->%list_elem_of_singleton. done.
    + by rewrite fmap_app, Hseen.
    + apply elem_of_app. right. by left.
    + intros v. rewrite elem_of_app, list_elem_of_singleton.
      split; [intros [? | ->]; [by left|by right]|intros [? | [-> _]]; [by left|by right]].
Qed.

Lemma add_videos_spec videos l :
  tidy l →
  let l' := fold_left add_video videos l in
  tidy l'
  ∧ searched l' = searched l
  ∧ (∀ id, id ∈ seenIds l → id ∈ seenIds l')
  ∧ (∀ v, v ∈ videos → h_videoId v ∈ seenIds l')
  ∧ (∀ v, v ∈ allVideos l' → v ∈ allVideos l ∨ v ∈ videos).
Proof.
  revert l. induction videos as [|video videos IH]; intros l Htidy; simpl.
  { split_and!; try done. - intros v Hv. by apply elem_of_nil in Hv. - by left. }
  destruct (add_video_spec l video Htidy) as (Htidy1 & Hs1 & Hin1 & Hall1).
  destruct (IH _ Htidy1) as (Htidy' & Hs' & Hmono & Hcover & Hfrom).
  split_and!; try done.
  - congruence.
  - intros id Hid. apply Hmono.
    destruct Htidy as [_ Hseen], Htidy1 as [_ Hseen1].
    rewrite Hseen in Hid. rewrite Hseen1.
    apply list_elem_of_fmap in Hid as (v & -> & Hv).
    apply list_elem_of_fmap. exists v. split; [done|]. apply Hall1. by left.
  - intros v [->|Hv]%elem_of_cons; [by apply Hmono|by apply Hcover].
  - intros v Hv. destruct (Hfrom v Hv) as [Hold|Hnew].
    + apply Hall1 in Hold as [?|[-> _]]; [by left|right; by left].
    + right. by right.
Qed.

Lemma run_queries_spec api qs l :
  tidy l →
  let l' := fold_left (run_query api) qs l in
  tidy l'
  ∧ searched l' = searched l ++ qs
  ∧ (∀ id, id ∈ seenIds l → id ∈ seenIds l')
  ∧ (∀ q v, q ∈ qs → v ∈ searchVideos api q 20 → h_videoId v ∈ seenIds l')
  ∧ (∀ v, v ∈ allVideos l' →
          v ∈ allVideos l ∨ ∃ q, q ∈ qs ∧ v ∈ searchVideos api q 20).
Proof.
  revert l. induction qs as [|q qs IH]; intros l Htidy; simpl.
  { rewrite app_nil_r. split_and!; try done.
    - intros q v Hq. by apply elem_of_nil in Hq.
    - by left. }
  unfold run_query at 2 4 6 8 10.
  set (l0 := {| allVideos := allVideos l; seenIds := seenIds l;
                searched := searched l ++ [q] |}).
  assert (tidy l0) as Htidy0 by done.
  destruct (add_videos_spec (searchVideos api q 20) l0 Htidy0)
    as (Htidy1 & Hs1 & Hmono1 & Hcover1 & Hfrom1).
  destruct (IH _ Htidy1) as (Htidy' & Hs' & Hmono & Hcover & Hfrom).
  split_and!; try done.
  - rewrite Hs', Hs1. simpl. by rewrite <- app_assoc.
  - intros id Hid. by apply Hmono, Hmono1.
  - intros q' v [->|Hq]%elem_of_cons Hv; [by apply Hmono, Hcover1|by apply (Hcover q')].
  - intros v Hv. destruct (Hfrom v Hv) as [Hold|(q' & Hq & Hin)].
    + destruct (Hfrom1 v Hold) as [?|?]; [by left|].
      right. exists q. split; [by left|done].
    + right. exists q'. split; [by right|done].
Qed.

Lemma collect_hits_spec api product :
  let qs :=
    take 5 (generateHashtagSearchQueries (extractHashtagsFromProduct product)
              (productName product)) in
  let l := collect_hits api product in
  tidy l
  ∧ searched l = qs
  ∧ (∀ q v, q ∈ qs → v ∈ searchVideos api q 20 → h_videoId v ∈ seenIds l)
  ∧ (∀ v, v ∈ allVideos l → ∃ q, q ∈ qs ∧ v ∈ searchVideos api q 20).
Proof.
  intros qs l.
  destruct (run_queries_spec api qs {| allVideos := []; seenIds := []; searched := [] |})
    as (Htidy & Hs & _ & Hcover & Hfrom).
  { split; [constructor|done]. }
  split_and!; try done.
  intros v Hv. destruct (Hfrom v Hv) as [Hnil|?]; [|done].
  by apply elem_of_nil in Hnil.
Qed.

(** X5. A product search sends the first five of the generated queries,
    in their order, and no other: with three hashtags a, b, c these are
    "a b c", "a b", "a c", "b c" and "a" (each followed by "review"), so
    b and c are never searched on their own; without hashtags they are the
    two queries made of the product name. *)
Theorem searchProductReviews_queries api product :
  let hashtags := extractHashtagsFromProduct product in
  let sent := queries (searchProductReviews api product) in
  sent = take 5 (generateHashtagSearchQueries hashtags (productName product))
  ∧ length sent ≤ 5
  ∧ (hashtags = [] →
     sent = [productName product ++ review_suffix;
             productName product ++ review_suffix_ko])
  ∧ (∀ a b c, hashtags = [a; b; c] →
     sent = [ query_of [a; b; c]; query_of [a; b]; query_of [a; c]; query_of [b; c];
              query_of [a] ]
     ∧ (query_of [b] ∉ sent) ∧ (query_of [c] ∉ sent)).
Proof.
  intros hashtags sent.
  assert (sent = take 5 (generateHashtagSearchQueries hashtags (productName product)))
    as Hsent.
  { subst sent. unfold searchProductReviews.
    destruct (collect_hits_spec api product) as (_ & Hs & _).
    destruct (0 <? length (allVideos (collect_hits api product))); [|done].
    by destruct (getVideoDetails api _ _). }
  split; [done|]. split; [rewrite Hsent, length_take; lia|]. split.
  - intros Hnone. rewrite Hsent, Hnone.
    unfold generateHashtagSearchQueries, Set_values. cbn [length Nat.ltb fold_left].
    change (0 <? 0) with false. cbn [length Nat.eqb fold_left].
    change (0 =? 0) with true. cbn [fold_left].
    destruct (decide (_ ∈ [])) as [Hin|_]; [by apply elem_of_nil in Hin|].
    cbn [app]. destruct (decide (_ ∈ [_])) as [Hin|_]; [|done].
    apply list_elem_of_singleton, app_inv_head in Hin. discriminate.
  - intros a b c Habc.
    destruct (extractHashtagsFromProduct_wf product) as [Hnd Htok].
    fold hashtags in Hnd, Htok. rewrite Habc in Hnd, Htok.
    apply Forall_cons in Htok as [Ha [Hb [Hc _]%Forall_cons]%Forall_cons].
    destruct (three_hashtags_queries a b c (productName product) Hnd)
      as [Hqueries Hdistinct]; try by apply hashtag_token_space_free.
    rewrite Hsent, Habc, Hqueries. rewrite Hqueries in Hdistinct.
    cbn [take]. split; [done|].
    change (NoDup ([ query_of [a; b; c]; query_of [a; b]; query_of [a; c];
                     query_of [b; c]; query_of [a] ]
                   ++ [query_of [b]; query_of [c]])) in Hdistinct.
    apply NoDup_app in Hdistinct as (_ & Hapart & _).
    split; intros Hin; apply (Hapart _ Hin); [left|right; left].
Qed.

Lemma searchProductReviews_queries_witness :
  queries (searchProductReviews silent_api Spec.serum_product)
  = take 5 (generateHashtagSearchQueries [js "cica"; js "serum"] (js "Cica Serum"))
  ∧ queries (searchProductReviews silent_api three_tag_product)
    = [ js "meebak cica cream review"; js "meebak cica review";
        js "meebak cream review"; js "cica cream review"; js "meebak review" ]
  ∧ queries (searchProductReviews silent_api plain_product)
    = [ js "Cica Serum review"; js "Cica Serum" ++ review_suffix_ko ].
Proof.
  split; [|split].
  - apply (searchProductReviews_queries silent_api Spec.serum_product).
  - destruct (searchProductReviews_queries silent_api three_tag_product)
      as (_ & _ & _ & Hthree).
    apply (Hthree (js "meebak") (js "cica") (js "cream")). reflexivity.
  - destruct (searchProductReviews_queries silent_api plain_product)
      as (_ & _ & Hnone & _).
    apply Hnone. reflexivity.
Defined.

(** X6. The hits of the queries are merged without loss and without
    repetition: the videos kept have pairwise different ids, every video
    a query finds is among them by its id, and each of them was found by
    a query. Without hits no detail request is sent; when the detail
    requests get no answer, the hits come back with their counters at 0
    and the code of the product. *)
Theorem searchProductReviews_merges api product :
  let l := collect_hits api product in
  let run := searchProductReviews api product in
  NoDup (h_videoId <$> allVideos l)
  ∧ (∀ q v, q ∈ queries run → v ∈ searchVideos api q 20 →
            h_videoId v ∈ h_videoId <$> allVideos l)
  ∧ (∀ v, v ∈ allVideos l → ∃ q, q ∈ queries run ∧ v ∈ searchVideos api q 20)
  ∧ (allVideos l = [] → found run = [] ∧ requests run = [])
  ∧ ((∀ request, videos api request = None) →
     found run
     = (λ v, {| detail := without_counts v; matchedProductCode := productCode product |})
       <$> allVideos l).
Proof.
  intros l run.
  destruct (collect_hits_spec api product) as ([Hnd Hseen] & Hs & Hcover & Hfrom).
  fold l in Hnd, Hseen, Hs, Hcover, Hfrom.
  assert (queries run = searched l) as Hq.
  { subst run. unfold searchProductReviews. fold l.
    destruct (0 <? length (allVideos l)); [|done].
    by destruct (getVideoDetails api _ _). }
  rewrite Hq, Hs. split; [by rewrite <- Hseen|].
  split; [intros q v Hin Hv; rewrite <- Hseen; by apply (Hcover q)|].
  split; [done|]. split.
  - intros Hnil. subst run. unfold searchProductReviews. fold l. by rewrite Hnil.
  - intros Hdown. subst run. unfold searchProductReviews. fold l.
    destruct (allVideos l) as [|v0 vs] eqn:Hall; [done|].
    change (0 <? length (v0 :: vs)) with true. cbv iota.
    destruct (getVideoDetails api (h_videoId <$> v0 :: vs) (v0 :: vs))
      as [details sent] eqn:Hdetails.
    cbn [found].
    pose proof (getVideoDetails_outcomes api (h_videoId <$> v0 :: vs) (v0 :: vs))
      as (_ & Hinvalid & _ & Hfail).
    rewrite Hdetails in Hinvalid, Hfail. cbn [fst] in Hinvalid, Hfail.
    assert (details = without_counts <$> v0 :: vs) as ->.
    { destruct (omap valid_id (h_videoId <$> v0 :: vs)) as [|id ids] eqn:Hvalid.
      - by apply Hinvalid.
      - apply (Hfail 0); [simpl; lia|]. intros Hanswered. apply Hanswered, Hdown. }
    by rewrite <- list_fmap_compose.
Qed.

Lemma searchProductReviews_merges_witness :
  found (searchProductReviews twin_api Spec.serum_product)
  = (λ v, {| detail := without_counts v; matchedProductCode := js "P1" |})
    <$> allVideos (collect_hits twin_api Spec.serum_product)
  ∧ (h_videoId <$> allVideos (collect_hits twin_api Spec.serum_product))
    = [Some (js "v1"); Some (js "v2")].
Proof.
  split.
  - apply (searchProductReviews_merges twin_api Spec.serum_product). reflexivity.
  - reflexivity.
Defined.

End ReviewSearch.

Section VideoScore.

Import YoutubeSearch.

Lemma keywords_of_None productCategory :
  keywords_of productCategory = None
  ↔ ∃ name, productCategory = Some name ∧ name ∈ Object_prototype_names.
Proof.
  unfold keywords_of. destruct productCategory as [name|].
  2:{ split; [done|]. by intros (name & ? & _). }
  destruct (List.find _ categoryKeywords) as [[key keywords]|] eqn:Hfind.
  - split; [done|]. intros (name' & [= <-] & Hin). exfalso.
    apply find_some in Hfind as [Hown Hkey]. simpl in Hkey.
    apply bool_decide_eq_true in Hkey. subst key.
    apply (bool_decide_eq_true_2 _) in Hin. revert Hin.
    destruct Hown as [[= <- _]|[[= <- _]|[[= <- _]|[]]]]; by vm_compute.
  - case_bool_decide as Hin.
    + split; [|done]. intros _. by exists name.
    + split; [done|]. intros (name' & [= <-] & Hin'). done.
Qed.

(** X7. The score of [calculateMatchScore(video, product)] is a multiple
    of 10 between 0 and 100, and at most 80 for a product whose category
    has no keyword list. The call fails exactly when the category of the
    product is the name of a property inherited from [Object.prototype]. *)
Theorem video_score_range video product productCategory :
  (calculateMatchScore video product productCategory = None
   ↔ ∃ name, productCategory = Some name ∧ name ∈ Object_prototype_names)
  ∧ (∀ score, calculateMatchScore video product productCategory = Some score →
       0 ≤ score ≤ 100
       ∧ score `mod` 10 = 0
       ∧ (keywords_of productCategory = Some [] → score ≤ 80)).
Proof.
  split.
  - rewrite <- keywords_of_None. unfold calculateMatchScore.
    by destruct (keywords_of productCategory).
  - intros score. unfold calculateMatchScore.
    destruct (keywords_of productCategory) as [keywords|]; [|done].
    intros [= <-].
    destruct (includes _ (toLowerCase (productName product))),
      (includes _ (js "datepalmbay") || includes _ brand_ko),
      (existsb _ keywords) eqn:Hcategory,
      (includes _ _ || includes _ _ || includes _ (js "review"));
      (split; [lia|split; [done|]]); intros [= ->]; simpl in Hcategory; try lia;
      discriminate.
Qed.

Lemma video_score_range_witness :
  0 ≤ 50 ≤ 100 ∧ 50 `mod` 10 = 0 ∧ (keywords_of (Some (js "HOME")) = Some [] → 50 ≤ 80).
Proof.
  destruct (video_score_range (Spec.serum_video 1) Spec.serum_product (Some (js "HOME")))
    as [_ Hscore].
  apply Hscore. reflexivity.
Defined.

End VideoScore.

(** ** The Instagram adapter *)

Section PostSearch.

Import InstagramSearch Terms.
Local Open Scope nat_scope.
Local Arguments Nat.ltb : simpl never.

Lemma sent_more_nil l : sent_more l [] = l.
Proof. destruct l. unfold sent_more. simpl. by rewrite app_nil_r. Qed.

Lemma add_posts_spec hashtag media l :
  post_tidy l →
  let l' := fold_left (add_post hashtag) media l in
  post_tidy l'
  ∧ calls l' = calls l
  ∧ ∃ more, allPosts l' = allPosts l ++ more ∧ Forall (λ e, e.2 = hashtag) more.
Proof.
  revert l. induction media as [|post media IH]; intros l Htidy; simpl.
  { split_and!; try done. exists []. by rewrite app_nil_r. }
  assert (post_tidy (add_post hashtag l post)
          ∧ calls (add_post hashtag l post) = calls l
          ∧ ∃ more, allPosts (add_post hashtag l post) = allPosts l ++ more
                    ∧ Forall (λ e, e.2 = hashtag) more) as (Htidy1 & Hcalls1 & Hmore1).
  { destruct Htidy as [Hnd Hseen]. unfold add_post, post_tidy.
    case_bool_decide as Hin; simpl.
    - split_and!; try done. exists []. by rewrite app_nil_r.
    - split_and!; try done.
      + apply NoDup_app. split_and!; [done| |apply NoDup_singleton].
        intros x Hx ->%list_elem_of_singleton. done.
      + by rewrite fmap_app, Hseen.
      + exists [(post, hashtag)]. split; [done|]. by repeat constructor. }
  destruct (IH _ Htidy1) as (Htidy' & Hcalls' & more' & Hposts' & Hall').
  destruct Hmore1 as (more1 & Hposts1 & Hall1).
  split_and!; [done|congruence|].
  exists (more1 ++ more'). split; [|by apply Forall_app].
  by rewrite Hposts', Hposts1, <- app_assoc.
Qed.

(** A turn that reaches the media of the hashtag. *)
Lemma search_media_spec hashtag id media l :
  post_tidy l →
  let l' :=
    fold_left (add_post hashtag) media
      (sent_more (sent_more (sent_more l [HashtagSearch hashtag]) [RecentMedia id 20])
         [TopMedia id 10]) in
  post_tidy l'
  ∧ (∃ more, allPosts l' = allPosts l ++ more ∧ Forall (λ e, e.2 = hashtag) more)
  ∧ ∃ requests, calls l' = calls l ++ HashtagSearch hashtag :: requests
                ∧ Forall post_request requests
                ∧ lookups requests = []
                ∧ length requests ≤ 2.
Proof.
  intros Htidy.
  set (l1 := sent_more (sent_more (sent_more l [HashtagSearch hashtag])
                          [RecentMedia id 20]) [TopMedia id 10]).
  assert (allPosts l1 = allPosts l ∧ post_tidy l1
          ∧ calls l1 = calls l ++ [HashtagSearch hashtag; RecentMedia id 20;
                                   TopMedia id 10]) as (Hposts1 & Htidy1 & Hcalls1).
  { split_and!; try done. simpl. by rewrite <- !app_assoc. }
  destruct (add_posts_spec hashtag media l1 Htidy1)
    as (Htidy' & Hcalls' & more & Hposts' & Hall').
  split_and!; try done.
  - exists more. by rewrite Hposts', Hposts1.
  - exists [RecentMedia id 20; TopMedia id 10].
    rewrite Hcalls', Hcalls1. split_and!; try done. by repeat constructor.
Qed.

(** One turn of the loop over the hashtags. *)
Lemma search_hashtag_spec env graph l hashtag :
  post_tidy l →
  let l' := search_hashtag env graph l hashtag in
  post_tidy l'
  ∧ (∃ more, allPosts l' = allPosts l ++ more ∧ Forall (λ e, e.2 = hashtag) more)
  ∧ (configured env = false → l' = l)
  ∧ (configured env = true →
     ∃ requests, calls l' = calls l ++ HashtagSearch hashtag :: requests
                 ∧ Forall post_request requests
                 ∧ lookups requests = []
                 ∧ length requests ≤ 2).
Proof.
  intros Htidy. unfold search_hashtag, searchHashtagId, getRecentHashtagMedia,
    getTopHashtagMedia, callInstagramAPI, configured.
  assert (∃ more, allPosts l = allPosts l ++ more ∧ Forall (λ e, e.2 = hashtag) more)
    as Hsame by (exists []; by rewrite app_nil_r).
  destruct (is_set (INSTAGRAM_BUSINESS_ACCOUNT_ID env)) eqn:Haccount; simpl.
  2:{ rewrite sent_more_nil, andb_false_r. split_and!; try done. }
  destruct (is_set (INSTAGRAM_ACCESS_TOKEN env)) eqn:Htoken; simpl.
  2:{ rewrite sent_more_nil. split_and!; try done. }
  destruct (ig_hashtag_search graph hashtag) as [| |[|hashtagId ids]]; simpl.
  1-3: split_and!; try done; intros _; exists []; split_and!; try done; simpl; lia.
  destruct hashtagId as [|c hashtagId]; simpl.
  { split_and!; try done. intros _. exists []. split_and!; try done. simpl; lia. }
  destruct (recent_media graph (c :: hashtagId) 20) as [| |recent],
    (top_media graph (c :: hashtagId) 10) as [| |top]; cbn [app].
  all: match goal with
       | |- context [fold_left (add_post _) ?media _] =>
           destruct (search_media_spec hashtag (c :: hashtagId) media l Htidy)
             as (Htidy' & Hmore & Hcalls)
       | _ =>
           destruct (search_media_spec hashtag (c :: hashtagId) [] l Htidy)
             as (Htidy' & Hmore & Hcalls)
       end.
  all: split_and!; done.
Qed.

(** The whole loop. *)
Lemma search_hashtags_spec env graph hs l :
  post_tidy l →
  let l' := fold_left (search_hashtag env graph) hs l in
  post_tidy l'
  ∧ (∃ more, allPosts l' = allPosts l ++ more ∧ Forall (λ e, e.2 ∈ hs) more)
  ∧ (configured env = false → l' = l)
  ∧ (configured env = true →
     ∃ requests, calls l' = calls l ++ requests
                 ∧ Forall post_request requests
                 ∧ lookups requests = hs
                 ∧ length requests ≤ 3 * length hs).
Proof.
  revert l. induction hs as [|h hs IH]; intros l Htidy; simpl.
  { split_and!; try done.
    - exists []. by rewrite app_nil_r.
    - intros _. exists []. rewrite app_nil_r. split_and!; try done. }
  destruct (search_hashtag_spec env graph l h Htidy)
    as (Htidy1 & (more1 & Hposts1 & Hall1) & Hoff1 & Hon1).
  destruct (IH _ Htidy1) as (Htidy' & (more' & Hposts' & Hall') & Hoff' & Hon').
  split_and!; try done.
  - exists (more1 ++ more'). split; [by rewrite Hposts', Hposts1, <- app_assoc|].
    apply Forall_app. split.
    + eapply Forall_impl; [done|]. intros e ->. by left.
    + eapply Forall_impl; [done|]. intros e He. by right.
  - intros Hoff. by rewrite (Hoff' Hoff), (Hoff1 Hoff).
  - intros Hon. destruct (Hon1 Hon) as (r1 & Hcalls1 & Hreq1 & Hlook1 & Hlen1).
    destruct (Hon' Hon) as (r' & Hcalls' & Hreq' & Hlook' & Hlen').
    exists (HashtagSearch h :: r1 ++ r'). split_and!.
    + by rewrite Hcalls', Hcalls1, <- app_assoc.
    + constructor; [done|]. by apply Forall_app.
    + unfold lookups in *. cbn [omap list_omap]. rewrite omap_app. by rewrite Hlook1, Hlook'.
    + cbn [length]. rewrite length_app. lia.
Qed.

Lemma first_url_empty a b : first_url a b = [] ↔ first_url b a = [].
Proof. by destruct a as [[|? ?]|], b as [[|? ?]|]. Qed.

(** X8. The posts of a search have pairwise different ids, carry the
    code of the product and one of the first three hashtags searched
    (the product name without white space, in lower case, when the
    product has no hashtag), and have a thumbnail whenever they have a
    media URL. *)
Theorem searchProductPosts_posts env graph product hashtags :
  let posts := (searchProductPosts env graph product hashtags).1 in
  NoDup ((λ f, Instagram.postId (post f)) <$> posts)
  ∧ Forall (λ f, matchedProductCode f = productCode product
                 ∧ searchedHashtag f ∈ take 3 (searchHashtags product hashtags)
                 ∧ (Instagram.p_thumbnailUrl (post f) = []
                    ↔ Instagram.mediaUrl (post f) = []))
           posts
  ∧ (hashtags = [] →
     Forall (λ f, searchedHashtag f = toLowerCase (remove_spaces (productName product)))
            posts).
Proof.
  intros posts. subst posts. unfold searchProductPosts. cbn [fst].
  fold (searchHashtags product hashtags).
  destruct (search_hashtags_spec env graph (take 3 (searchHashtags product hashtags))
              {| allPosts := []; seenIds := []; calls := [] |})
    as ([Hnd Hseen] & (more & Hposts & Hall) & _).
  { split; [constructor|done]. }
  simpl in Hposts. subst more.
  set (l := fold_left _ _ _) in *.
  assert (Forall (λ f, matchedProductCode f = productCode product
                       ∧ searchedHashtag f ∈ take 3 (searchHashtags product hashtags)
                       ∧ (Instagram.p_thumbnailUrl (post f) = []
                          ↔ Instagram.mediaUrl (post f) = []))
                 (found_of product <$> allPosts l)) as Hfound.
  { apply Forall_fmap. eapply Forall_impl; [done|].
    intros [m h] Hh. simpl in *. split_and!; try done. apply first_url_empty. }
  split_and!; try done.
  - assert ((λ f, Instagram.postId (post f)) <$> (found_of product <$> allPosts l)
            = seenIds l) as ->; [|done].
    rewrite Hseen, <- list_fmap_compose. apply list_fmap_ext. by intros i [m h] _.
  - intros ->. eapply Forall_impl; [done|]. intros f (_ & Hin & _).
    unfold searchHashtags in Hin. simpl in Hin.
    by apply list_elem_of_singleton in Hin.
Qed.

Lemma searchProductPosts_posts_witness :
  Forall (λ f, searchedHashtag f = toLowerCase (remove_spaces (js "Cica Serum")))
         (searchProductPosts full_env small_graph plain_product []).1
  ∧ (λ f, (Instagram.postId (post f), searchedHashtag f))
    <$> (searchProductPosts full_env small_graph plain_product []).1
    = [ (js "m1", js "cicaserum"); (js "m2", js "cicaserum") ].
Proof.
  split.
  - apply (searchProductPosts_posts full_env small_graph plain_product []). reflexivity.
  - reflexivity.
Defined.



End PostSearch.

(** ** Collection runs *)

Section CollectionRuns.

Import Collector CollectorApi Spec Terms.
Local Open Scope nat_scope.
Local Arguments Nat.leb : simpl never.

Lemma appends_refl P l : appends P l l.
Proof.
  exists []. rewrite app_nil_r. simpl. split_and!; try done; lia.
Qed.

Lemma ids_from_app first n m :
  ids_from first (n + m) = ids_from first n ++ ids_from (first + N.of_nat n) m.
Proof.
  unfold ids_from. rewrite seq_app, fmap_app. f_equal. cbn [Nat.add].
  assert (seq n m = (λ k, n + k) <$> seq 0 m) as ->.
  { rewrite fmap_add_seq. f_equal. lia. }
  rewrite <- list_fmap_compose. apply list_fmap_ext. intros i k _. simpl. lia.
Qed.

Lemma appends_trans P l1 l2 l3 : appends P l1 l2 → appends P l2 l3 → appends P l1 l3.
Proof.
  intros (a1 & Hs1 & Hn1 & Ht1 & Hi1 & Hp1) (a2 & Hs2 & Hn2 & Ht2 & Hi2 & Hp2).
  exists (a1 ++ a2). rewrite length_app. split_and!.
  - by rewrite Hs2, Hs1, <- app_assoc.
  - rewrite Hn2, Hn1. lia.
  - lia.
  - rewrite fmap_app, ids_from_app, Hi1, Hi2. by rewrite Hn1.
  - by apply Forall_app.
Qed.

Lemma appends_weaken (P Q : SocialReview → Prop) l l' :
  (∀ r, P r → Q r) → appends P l l' → appends Q l l'.
Proof.
  intros Himpl (a & Hs & Hn & Ht & Hi & Hp). exists a. split_and!; try done.
  by eapply Forall_impl.
Qed.

Lemma appends_push (P : SocialReview → Prop) l r :
  id r = next l → P r →
  appends P l {| store := store l ++ [r]; next := (next l + 1)%N; total := S (total l) |}.
Proof.
  intros Hid Hr. exists [r]. simpl. split_and!; try done.
  - lia.
  - unfold ids_from. simpl. f_equal. lia.
  - by constructor.
Qed.

Lemma youtube_videos_appends w product hashtags videos count l :
  appends (collected_for YOUTUBE 0 product) l
    (youtube_videos w product hashtags videos count l).
Proof.
  revert count l. induction videos as [|video rest IH]; intros count l; simpl.
  { apply appends_refl. }
  destruct (MAX_REVIEWS_PER_PRODUCT <=? count); [apply appends_refl|].
  destruct (already_collected _ _ _); [apply IH|].
  pose proof (youtube_match_range product hashtags video) as Hrange.
  destruct (youtube_match product hashtags video) as [[|] score]; [|apply IH].
  eapply appends_trans; [|apply IH].
  apply appends_push; [done|]. split_and!; try done. by exists score.
Qed.

Lemma instagram_posts_appends w product hashtags posts count l :
  appends (λ r, collected_for INSTAGRAM 20 product r ∧ viewCount r = 0%Z) l
    (instagram_posts w product hashtags posts count l).
Proof.
  revert count l. induction posts as [|post rest IH]; intros count l; simpl.
  { apply appends_refl. }
  destruct (MAX_REVIEWS_PER_PRODUCT <=? count); [apply appends_refl|].
  destruct (already_collected _ _ _); [apply IH|].
  pose proof (instagram_score_range post product hashtags) as Hrange.
  destruct (Z.leb_spec 20 (Instagram.calculateMatchScore post product hashtags));
    [|apply IH].
  eapply appends_trans; [|apply IH].
  apply appends_push; [done|]. split; [|done]. split_and!; try done.
  exists (Instagram.calculateMatchScore post product hashtags). split; [done|lia].
Qed.

Lemma youtube_product_appends w l product :
  appends (collected_for YOUTUBE 0 product) l (youtube_product w l product).
Proof.
  unfold youtube_product. destruct (searchProductReviews w product).
  - apply youtube_videos_appends.
  - apply appends_refl.
Qed.

Lemma instagram_product_appends w l product :
  appends (λ r, collected_for INSTAGRAM 20 product r ∧ viewCount r = 0%Z) l
    (instagram_product w l product).
Proof.
  unfold instagram_product. destruct (searchProductPosts w product _).
  - apply instagram_posts_appends.
  - apply appends_refl.
Qed.

Lemma fold_appends (P : Product → SocialReview → Prop)
    (step : Loop → Product → Loop) products l :
  (∀ l p, appends (P p) l (step l p)) →
  appends (λ r, ∃ p, p ∈ products ∧ P p r) l (fold_left step products l).
Proof.
  intros Hstep. revert l. induction products as [|p products IH]; intros l; simpl.
  { apply appends_refl. }
  eapply appends_trans.
  - eapply appends_weaken; [|apply (Hstep l p)]. intros r Hr. exists p. split; [by left|done].
  - eapply appends_weaken; [|apply IH]. intros r (q & Hq & Hr). exists q.
    split; [by right|done].
Qed.

(** What a run that reaches its loop does to the module state. *)
Lemma finish_appends P st l0 l reviews :
  snsReviewsRef st = Some reviews →
  l0 = {| store := reviews; next := nextReviewId st; total := 0 |} →
  appends P l0 l →
  ∃ added,
    reviews_of (finish st l).2 = reviews_of st ++ added
    ∧ collected (finish st l).1 = length added
    ∧ nextReviewId (finish st l).2 = (nextReviewId st + N.of_nat (length added))%N
    ∧ id <$> added = ids_from (nextReviewId st) (length added)
    ∧ Forall P added.
Proof.
  intros Href -> (added & Hs & Hn & Ht & Hi & Hp). exists added.
  unfold reviews_of. rewrite Href. simpl in *. split_and!; try done.
Qed.

Lemma collected_from_active p lowest products r :
  (∃ product, product ∈ filter (λ q, productSaleStatus q = true) products
              ∧ collected_for p lowest product r) →
  collected_from p lowest products r.
Proof.
  intros (product & [Hsale Hin]%list_elem_of_filter & Hr). by exists product.
Qed.

(** What a run of the YouTube collection does to the module state. *)
Lemma collectYouTubeReviews_run w st :
  let run := collectYouTubeReviews w st in
  ∃ added,
    reviews_of run.2 = reviews_of st ++ added
    ∧ collected run.1 = length added
    ∧ nextReviewId run.2 = (nextReviewId st + N.of_nat (length added))%N
    ∧ id <$> added = ids_from (nextReviewId st) (length added)
    ∧ Forall (collected_from YOUTUBE 0 (default [] (productsRef st))) added.
Proof.
  unfold collectYouTubeReviews.
  destruct (productsRef st) as [products|] eqn:Hproducts;
    [destruct (snsReviewsRef st) as [reviews|] eqn:Href|].
  - edestruct (finish_appends _ st _ _ reviews Href eq_refl
                 (fold_appends (collected_for YOUTUBE 0) (youtube_product w)
                    (filter (λ p, productSaleStatus p = true) products) _
                    (youtube_product_appends w)))
      as (added & Hs & Hc & Hn & Hi & Hp).
    exists added. split_and!; try done.
    eapply Forall_impl; [done|]. intros r. apply collected_from_active.
  - exists []. rewrite app_nil_r. simpl. split_and!; try done; lia.
  - exists []. rewrite app_nil_r. simpl. split_and!; try done; lia.
Qed.

(** What a run of the Instagram collection does to the module state. *)
Lemma collectInstagramReviews_run w st :
  let run := collectInstagramReviews w st in
  ∃ added,
    reviews_of run.2 = reviews_of st ++ added
    ∧ collected run.1 = length added
    ∧ nextReviewId run.2 = (nextReviewId st + N.of_nat (length added))%N
    ∧ id <$> added = ids_from (nextReviewId st) (length added)
    ∧ Forall (λ r, collected_from INSTAGRAM 20 (default [] (productsRef st)) r
                   ∧ viewCount r = 0%Z) added.
Proof.
  unfold collectInstagramReviews.
  destruct (productsRef st) as [products|] eqn:Hproducts;
    [destruct (snsReviewsRef st) as [reviews|] eqn:Href;
     [destruct (instagram_connected w)|]|].
  - edestruct (finish_appends _ st _ _ reviews Href eq_refl
                 (fold_appends
                    (λ p r, collected_for INSTAGRAM 20 p r ∧ viewCount r = 0%Z)
                    (instagram_product w)
                    (filter (λ p, productSaleStatus p = true) products) _
                    (instagram_product_appends w)))
      as (added & Hs & Hc & Hn & Hi & Hp).
    exists added. split_and!; try done.
    eapply Forall_impl; [done|]. intros r (p & Hin & Hr & Hview). split; [|done].
    apply collected_from_active. by exists p.
  - exists []. rewrite app_nil_r. simpl. split_and!; try done; lia.
  - exists []. rewrite app_nil_r. simpl. split_and!; try done; lia.
  - exists []. rewrite app_nil_r. simpl. split_and!; try done; lia.
Qed.

Lemma Math_max_ids_bound ids : Forall (λ i, (i ≤ Math_max_ids ids)%N) ids.
Proof.
  induction ids as [|i ids IH]; [constructor|]. simpl. constructor; [lia|].
  eapply Forall_impl; [done|]. simpl. lia.
Qed.

Lemma ids_from_bounds first n :
  Forall (λ i, (first ≤ i < first + N.of_nat n)%N) (ids_from first n) ∧ NoDup (ids_from first n).
Proof.
  unfold ids_from. split.
  - apply Forall_fmap, Forall_forall. intros k Hk%elem_of_seq. simpl. lia.
  - apply NoDup_fmap_2; [|apply NoDup_seq]. intros j k Hjk. lia.
Qed.

(** Numbering from a counter above every stored id keeps ids unique. *)
Lemma numbered_unique (reviews added : list SocialReview) first :
  Forall (λ r, (id r < first)%N) reviews →
  id <$> added = ids_from first (length added) →
  Forall (λ r, (id r < first + N.of_nat (length added))%N) (reviews ++ added)
  ∧ (unique_ids reviews → unique_ids (reviews ++ added)).
Proof.
  intros Hbelow Hids.
  destruct (ids_from_bounds first (length added)) as [Hrange Hnd].
  rewrite <- Hids in Hrange, Hnd. apply Forall_fmap in Hrange.
  split.
  - apply Forall_app. split.
    + eapply Forall_impl; [done|]. simpl. lia.
    + eapply Forall_impl; [done|]. simpl. lia.
  - intros Hunique. unfold unique_ids. rewrite fmap_app. apply NoDup_app.
    split_and!; try done. intros i Hold Hnew.
    apply list_elem_of_fmap in Hold as (r & -> & Hr), Hnew as (r' & Heq & Hr').
    rewrite Forall_forall in Hbelow, Hrange.
    specialize (Hbelow r Hr). specialize (Hrange r' Hr'). simpl in *. lia.
Qed.

(** X10. Reviews get fresh ids: [setReferences] sets the counter above
    every stored id, and a run numbers the reviews it adds from the
    counter on, one by one, leaving the counter above all of them; so ids
    that are unique in the store stay unique. *)
Theorem collection_numbers_reviews w st :
  (∀ reviews products onSave, ids_below (setReferences reviews products onSave st))
  ∧ ∀ run, run = collectYouTubeReviews w st ∨ run = collectInstagramReviews w st →
      (∃ added,
         reviews_of run.2 = reviews_of st ++ added
         ∧ id <$> added = ids_from (nextReviewId st) (collected run.1)
         ∧ nextReviewId run.2 = (nextReviewId st + N.of_nat (collected run.1))%N)
      ∧ (ids_below st → ids_below run.2)
      ∧ (ids_below st → unique_ids (reviews_of st) → unique_ids (reviews_of run.2)).
Proof.
  split.
  { intros reviews products onSave. unfold ids_below, reviews_of. simpl.
    pose proof (proj1 (Forall_fmap id (λ i, (i ≤ Math_max_ids (id <$> reviews))%N)
                         reviews) (Math_max_ids_bound (id <$> reviews))) as Hmax.
    eapply Forall_impl; [exact Hmax|]. simpl. lia. }
  intros run Hrun.
  assert (∃ added,
            reviews_of run.2 = reviews_of st ++ added
            ∧ collected run.1 = length added
            ∧ nextReviewId run.2 = (nextReviewId st + N.of_nat (length added))%N
            ∧ id <$> added = ids_from (nextReviewId st) (length added))
    as (added & Hs & Hc & Hn & Hi).
  { destruct Hrun as [-> | ->].
    - destruct (collectYouTubeReviews_run w st) as (added & ? & ? & ? & ? & _).
      by exists added.
    - destruct (collectInstagramReviews_run w st) as (added & ? & ? & ? & ? & _).
      by exists added. }
  split; [exists added; by rewrite Hc|].
  split.
  - intros Hbelow. unfold ids_below. rewrite Hs, Hn.
    by apply (numbered_unique (reviews_of st) added).
  - intros Hbelow. rewrite Hs. by apply (numbered_unique (reviews_of st) added _ Hbelow).
Qed.

Lemma collection_numbers_reviews_witness :
  let st := setReferences two_reviews [serum_product] true collector_start in
  let run := collectYouTubeReviews (world_with 3) st in
  ids_below st
  ∧ ids_below run.2
  ∧ unique_ids (reviews_of run.2)
  ∧ id <$> reviews_of run.2 = [7; 3; 8; 9; 10]%N.
Proof.
  intros st run.
  destruct (collection_numbers_reviews (world_with 3) collector_start) as [Hset _].
  pose proof (Hset two_reviews [serum_product] true) as Hbelow. fold st in Hbelow.
  destruct (collection_numbers_reviews (world_with 3) st) as [_ Hrun].
  destruct (Hrun run (or_introl eq_refl)) as (_ & Hkeep & Hunique).
  split; [done|]. split; [by apply Hkeep|]. split.
  - apply Hunique; [done|]. apply (bool_decide_unpack _). by vm_compute.
  - by vm_compute.
Defined.

(** X11. A run only stores pending reviews, each matched to one product
    that is on sale, with a score from 0 to 100 on YouTube and from 20 to
    100 on Instagram, where the view count is 0. *)
Theorem collection_stores_pending_matches w st :
  let products := default [] (productsRef st) in
  (∃ added,
     reviews_of (collectYouTubeReviews w st).2 = reviews_of st ++ added
     ∧ Forall (collected_from YOUTUBE 0 products) added)
  ∧ (∃ added,
       reviews_of (collectInstagramReviews w st).2 = reviews_of st ++ added
       ∧ Forall (λ r, collected_from INSTAGRAM 20 products r ∧ viewCount r = 0%Z) added).
Proof.
  split.
  - destruct (collectYouTubeReviews_run w st) as (added & ? & _ & _ & _ & ?).
    by exists added.
  - destruct (collectInstagramReviews_run w st) as (added & ? & _ & _ & _ & ?).
    by exists added.
Qed.

End CollectionRuns.

Section CollectionEffects.

Import Collector CollectorApi Spec Terms.
Local Open Scope nat_scope.

Lemma filter_all {A} (P : A → Prop) `{∀ x, Decision (P x)} l :
  Forall P l → filter P l = l.
Proof.
  induction 1 as [|x l Hx Hl IH]; [done|]. by rewrite filter_cons_True, IH.
Qed.

Lemma filter_none {A} (P : A → Prop) `{∀ x, Decision (P x)} l :
  Forall (λ x, ¬ P x) l → filter P l = [].
Proof.
  induction 1 as [|x l Hx Hl IH]; [done|]. by rewrite filter_cons_False.
Qed.

Lemma app_same_nil {A} (l k : list A) : l = l ++ k → k = [].
Proof.
  intros Heq. apply (f_equal length) in Heq. rewrite length_app in Heq.
  destruct k; [done|]. simpl in Heq. lia.
Qed.

(** The statistics of a platform after pending reviews of platform [q]
    are appended. *)
Lemma platform_stats_more reviews added p q :
  Forall (λ r, platform r = q ∧ status r = PENDING) added →
  platform_stats (reviews ++ added) p
  = if decide (p = q) then more_pending (length added) (platform_stats reviews p)
    else platform_stats reviews p.
Proof.
  intros Hadded. unfold platform_stats. rewrite (filter_app _ reviews added).
  destruct (decide (p = q)) as [->|Hpq].
  - rewrite (filter_all (λ r, platform r = q) added)
      by (eapply Forall_impl; [done|]; by intros r [? _]).
    rewrite !filter_app, !length_app.
    rewrite (filter_all (λ r, status r = PENDING) added)
      by (eapply Forall_impl; [done|]; by intros r [_ ?]).
    rewrite (filter_none (λ r, status r = APPROVED) added)
      by (eapply Forall_impl; [done|]; intros r [_ ?]; congruence).
    rewrite (filter_none (λ r, status r = REJECTED) added)
      by (eapply Forall_impl; [done|]; intros r [_ ?]; congruence).
    unfold more_pending. simpl. f_equal; lia.
  - rewrite (filter_none (λ r, platform r = p) added)
      by (eapply Forall_impl; [done|]; intros r [? _]; congruence).
    by rewrite !app_nil_r.
Qed.

Lemma collected_from_pending p lowest products added :
  Forall (collected_from p lowest products) added →
  Forall (λ r, platform r = p ∧ status r = PENDING) added.
Proof.
  intros Hadded. eapply Forall_impl; [done|].
  by intros r (product & _ & _ & ? & ? & _).
Qed.

(** X12. The statistics follow a run: the total, and the total and the
    pending count of the platform collected, go up by the number the run
    reports; the counts of the other platforms, and the approved and
    rejected counts, stay. *)
Theorem getCollectionStats_after_run w st stats :
  getCollectionStats st = Some stats →
  let youtube := collectYouTubeReviews w st in
  let instagram := collectInstagramReviews w st in
  getCollectionStats youtube.2
  = Some {| s_total := s_total stats + collected youtube.1;
            s_youtube := more_pending (collected youtube.1) (s_youtube stats);
            s_tiktok := s_tiktok stats;
            s_instagram := s_instagram stats |}
  ∧ getCollectionStats instagram.2
    = Some {| s_total := s_total stats + collected instagram.1;
              s_youtube := s_youtube stats;
              s_tiktok := s_tiktok stats;
              s_instagram := more_pending (collected instagram.1) (s_instagram stats) |}.
Proof.
  unfold getCollectionStats.
  destruct (snsReviewsRef st) as [reviews|] eqn:Href; [|done]. intros [= <-].
  assert (reviews_of st = reviews) as Hold by (unfold reviews_of; by rewrite Href).
  split.
  - destruct (collectYouTubeReviews_run w st) as (added & Hs & Hc & _ & _ & Hp).
    apply collected_from_pending in Hp.
    assert (snsReviewsRef (collectYouTubeReviews w st).2 = Some (reviews ++ added))
      as ->.
    { revert Hs. rewrite Hold. unfold reviews_of, collectYouTubeReviews.
      rewrite Href. destruct (productsRef st); simpl.
      - by intros ->.
      - rewrite Href. simpl. intros Heq. apply app_same_nil in Heq as ->.
        by rewrite app_nil_r. }
    rewrite !(platform_stats_more reviews added _ YOUTUBE) by done.
    rewrite length_app, Hc. simpl. done.
  - destruct (collectInstagramReviews_run w st) as (added & Hs & Hc & _ & _ & Hp).
    assert (Forall (λ r, platform r = INSTAGRAM ∧ status r = PENDING) added) as Hp'.
    { apply (collected_from_pending INSTAGRAM 20 (default [] (productsRef st))).
      eapply Forall_impl; [done|]. by intros r [? _]. }
    assert (snsReviewsRef (collectInstagramReviews w st).2 = Some (reviews ++ added))
      as ->.
    { revert Hs. rewrite Hold. unfold reviews_of, collectInstagramReviews.
      rewrite Href. destruct (productsRef st); [destruct (instagram_connected w)|]; simpl.
      - by intros ->.
      - rewrite Href. simpl. intros Heq. apply app_same_nil in Heq as ->.
        by rewrite app_nil_r.
      - rewrite Href. simpl. intros Heq. apply app_same_nil in Heq as ->.
        by rewrite app_nil_r. }
    rewrite !(platform_stats_more reviews added _ INSTAGRAM) by done.
    rewrite length_app, Hc. simpl. done.
Qed.

Lemma getCollectionStats_after_run_witness :
  let st := setReferences two_reviews [serum_product] true collector_start in
  getCollectionStats (collectYouTubeReviews (world_with 3) st).2
  = Some {| s_total := 2 + 3;
            s_youtube := more_pending 3 (platform_stats two_reviews YOUTUBE);
            s_tiktok := platform_stats two_reviews TIKTOK;
            s_instagram := platform_stats two_reviews INSTAGRAM |}.
Proof.
  intros st.
  apply (getCollectionStats_after_run (world_with 3) st
           {| s_total := 2;
              s_youtube := platform_stats two_reviews YOUTUBE;
              s_tiktok := platform_stats two_reviews TIKTOK;
              s_instagram := platform_stats two_reviews INSTAGRAM |}).
  reflexivity.
Defined.

Lemma approvedReviews_app reviews added productCode :
  Forall (λ r, status r = PENDING) added →
  Server.approvedReviews (reviews ++ added) productCode
  = Server.approvedReviews reviews productCode.
Proof.
  intros Hpending. unfold Server.approvedReviews. rewrite filter_app.
  rewrite (filter_none _ added); [by rewrite app_nil_r|].
  eapply Forall_impl; [done|]. intros r Hr Hfalse.
  apply andb_true_iff in Hfalse as [Hstatus%bool_decide_eq_true _]. congruence.
Qed.

(** X13. A collection run changes no summary: the reviews it adds are
    pending, so the approved reviews of every product, and with them the
    answer of the summary endpoint, are what they were. *)
Theorem collection_leaves_summaries w st run productCode :
  run = collectYouTubeReviews w st ∨ run = collectInstagramReviews w st →
  Server.approvedReviews (reviews_of run.2) productCode
  = Server.approvedReviews (reviews_of st) productCode
  ∧ ∀ beautyExpressions rng,
      ReviewSummary.summary_endpoint beautyExpressions (reviews_of run.2) productCode rng
      = ReviewSummary.summary_endpoint beautyExpressions (reviews_of st) productCode rng.
Proof.
  intros Hrun.
  assert (Server.approvedReviews (reviews_of run.2) productCode
          = Server.approvedReviews (reviews_of st) productCode) as Hsame.
  { destruct Hrun as [-> | ->].
    - destruct (collectYouTubeReviews_run w st) as (added & -> & _ & _ & _ & Hp).
      apply approvedReviews_app. apply collected_from_pending in Hp.
      eapply Forall_impl; [done|]. by intros r [_ ?].
    - destruct (collectInstagramReviews_run w st) as (added & -> & _ & _ & _ & Hp).
      apply approvedReviews_app. eapply Forall_impl; [done|].
      by intros r [(product & _ & _ & _ & ? & _) _]. }
  split; [done|]. intros beautyExpressions rng.
  unfold ReviewSummary.summary_endpoint. by rewrite Hsame.
Qed.

Lemma collection_leaves_summaries_witness :
  let st := setReferences two_reviews [serum_product] true collector_start in
  Server.approvedReviews (reviews_of (collectYouTubeReviews (world_with 3) st).2) (js "P1")
  = Server.approvedReviews (reviews_of st) (js "P1")
  ∧ ∀ beautyExpressions rng,
      ReviewSummary.summary_endpoint beautyExpressions
        (reviews_of (collectYouTubeReviews (world_with 3) st).2) (js "P1") rng
      = ReviewSummary.summary_endpoint beautyExpressions (reviews_of st) (js "P1") rng.
Proof.
  intros st.
  apply (collection_leaves_summaries (world_with 3) st
           (collectYouTubeReviews (world_with 3) st) (js "P1")).
  left. reflexivity.
Defined.

End CollectionEffects.

Section Trigger.

Import Collector CollectorApi Spec Terms.
Local Open Scope nat_scope.







(** X16. With the Instagram adapter wired in and a credential missing,
    the connection check sends no request and the run stops before any
    product is searched: nothing is collected, the state is as before,
    and set-up is asked for when the references are there. With both
    credentials the check asks for the account and the run goes on
    exactly when that request is answered. *)
Theorem collectInstagramReviews_needs_credentials env graph youtube now st :
  let w := instagram_world env graph youtube now in
  let check := InstagramSearch.checkConnection env graph in
  let run := collectInstagramReviews w st in
  (configured env = false →
   check.2 = []
   ∧ instagram_connected w = false
   ∧ run.2 = st
   ∧ success run.1 = false
   ∧ collected run.1 = 0
   ∧ (productsRef st ≠ None → snsReviewsRef st ≠ None → setupRequired run.1 = true))
  ∧ (configured env = true →
     length check.2 = 1
     ∧ (instagram_connected w = true
        ↔ InstagramSearch.account graph
            (default [] (InstagramSearch.INSTAGRAM_BUSINESS_ACCOUNT_ID env)) ≠ None)).
Proof.
  intros w check run. subst w check run.
  unfold configured, collectInstagramReviews, instagram_world,
    InstagramSearch.checkConnection. cbn [instagram_connected].
  destruct (InstagramSearch.is_set (InstagramSearch.INSTAGRAM_ACCESS_TOKEN env)),
    (InstagramSearch.is_set (InstagramSearch.INSTAGRAM_BUSINESS_ACCOUNT_ID env));
    cbn [andb orb negb].
  - split; [done|]. intros _.
    destruct (InstagramSearch.account graph _); simpl; (split; [done|]);
      split; try done.
  - split; [|done]. intros _. simpl.
    destruct (productsRef st), (snsReviewsRef st); simpl; split_and!; done.
  - split; [|done]. intros _. simpl.
    destruct (productsRef st), (snsReviewsRef st); simpl; split_and!; done.
  - split; [|done]. intros _. simpl.
    destruct (productsRef st), (snsReviewsRef st); simpl; split_and!; done.
Qed.

Lemma collectInstagramReviews_needs_credentials_witness :
  let w := instagram_world no_token_env small_graph (λ _, None) (js "2025-02-01") in
  (InstagramSearch.checkConnection no_token_env small_graph).2 = []
  ∧ instagram_connected w = false
  ∧ (collectInstagramReviews w collector_start).2 = collector_start
  ∧ success (collectInstagramReviews w collector_start).1 = false
  ∧ collected (collectInstagramReviews w collector_start).1 = 0
  ∧ (productsRef collector_start ≠ None → snsReviewsRef collector_start ≠ None →
     setupRequired (collectInstagramReviews w collector_start).1 = true).
Proof.
  intros w.
  apply (collectInstagramReviews_needs_credentials no_token_env small_graph
           (λ _, None) (js "2025-02-01") collector_start).
  reflexivity.
Defined.

End Trigger.

Section BulkApproval.

Import Collector Server Spec.
Local Open Scope nat_scope.
Local Arguments Nat.ltb : simpl never.

Lemma set_status_same r : set_status (status r) r = r.
Proof. by destruct r. Qed.

Lemma targeted_set_status productCode r :
  targeted productCode (set_status APPROVED r) = false.
Proof. done. Qed.

(** X14. The bulk approval approves the pending reviews, of the product
    when a code is given, and nothing else: no targeted review is left, a
    second call approves none and does not save, ids and keys are as
    before, the number of approved reviews goes up by the number
    reported, and the approved reviews of the product are afterwards its
    reviews that were pending or approved. *)
Theorem approve_all_settles productCode snsReviews :
  let run := approve_all productCode snsReviews in
  let after := run.1.1 in
  let approvedCount := run.1.2 in
  Forall (λ r, targeted productCode r = false) after
  ∧ approve_all productCode after = (after, 0, false)
  ∧ id <$> after = id <$> snsReviews
  ∧ review_key <$> after = review_key <$> snsReviews
  ∧ length (filter (λ r, status r = APPROVED) after)
    = length (filter (λ r, status r = APPROVED) snsReviews) + approvedCount
  ∧ (run.2 = true ↔ approvedCount ≠ 0)
  ∧ (∀ c code, productCode = Some (c :: code) →
       approvedReviews after (c :: code)
       = set_status APPROVED
         <$> filter (λ r, matches (c :: code) r = true ∧ status r ≠ REJECTED) snsReviews).
Proof.
  intros run after approvedCount. subst run after approvedCount.
  unfold approve_all. cbn [fst snd].
  assert (Forall (λ r, targeted productCode r = false)
            ((λ r, if targeted productCode r then set_status APPROVED r else r)
             <$> snsReviews)) as Hnone.
  { apply Forall_fmap, Forall_forall. intros r _. simpl.
    by destruct (targeted productCode r) eqn:Htarget. }
  split; [done|]. split.
  { rewrite (filter_none _ _); [|eapply Forall_impl; [done|]; simpl; congruence].
    f_equal. f_equal. rewrite <- (list_fmap_id (_ <$> snsReviews)) at 2.
    apply list_fmap_ext. intros i r Hr. simpl.
    rewrite Forall_forall in Hnone.
    rewrite (Hnone r); [done|]. by eapply list_elem_of_lookup_2. }
  split; [|split].
  { rewrite <- list_fmap_compose. apply list_fmap_ext. intros i r _. simpl.
    by destruct (targeted productCode r). }
  { rewrite <- list_fmap_compose. apply list_fmap_ext. intros i r _. simpl.
    by destruct (targeted productCode r). }
  clear Hnone. split; [|split].
  - induction snsReviews as [|r rest IH]; [done|]. cbn [fmap list_fmap].
    rewrite !filter_cons.
    destruct (targeted productCode r) eqn:Htarget.
    + assert (status r = PENDING) as Hpending.
      { unfold targeted in Htarget. apply andb_true_iff in Htarget as [H _].
        by apply bool_decide_eq_true in H. }
      rewrite decide_True by done. rewrite (decide_False (P := status r = APPROVED))
        by congruence.
      rewrite decide_True by done. cbn [length]. rewrite IH. lia.
    + rewrite (decide_False (P := false = true)) by done.
      destruct (decide (status r = APPROVED)); cbn [length]; rewrite IH; lia.
  - destruct (Nat.ltb_spec 0 (length (filter (λ r, targeted productCode r = true)
                                        snsReviews))); split; try done; lia.
  - intros c code ->. unfold approvedReviews.
    induction snsReviews as [|r rest IH]; [done|]. cbn [fmap list_fmap].
    rewrite !filter_cons, IH. clear IH.
    assert (set_status APPROVED r = r ↔ status r = APPROVED) as Hsame.
    { split; [by intros <-|]. intros <-. apply set_status_same. }
    unfold targeted.
    change (matches (c :: code) (set_status APPROVED r)) with (matches (c :: code) r).
    destruct (matches (c :: code) r) eqn:Hmatch, (status r) eqn:Hstatus;
      cbn [andb status set_status fmap list_fmap].
    all: repeat case_decide; try done.
    all: try (exfalso; intuition congruence).
    all: try (rewrite bool_decide_eq_true_2 in * by done).
    all: try (rewrite bool_decide_eq_false_2 in * by done).
    all: cbn [andb fmap list_fmap] in *; try done.
    all: try (exfalso; intuition congruence).
    all: f_equal; symmetry; by apply Hsame.
Qed.

Lemma approve_all_settles_witness :
  let st :=
    (collectYouTubeReviews (world_with 3)
       (CollectorApi.setReferences Terms.two_reviews [serum_product] true
          collector_start)).2 in
  let after := (approve_all (Some (js "P1")) (reviews_of st)).1.1 in
  approvedReviews after (js "P1")
  = set_status APPROVED
    <$> filter (λ r, matches (js "P1") r = true ∧ status r ≠ REJECTED) (reviews_of st)
  ∧ length (approvedReviews (reviews_of st) (js "P1")) = 0
  ∧ length (approvedReviews after (js "P1")) = 3.
Proof.
  intros st after. split; [|split].
  - apply (approve_all_settles (Some (js "P1")) (reviews_of st)) with (c := 80%N).
    reflexivity.
  - by vm_compute.
  - by vm_compute.
Defined.

End BulkApproval.

(** ** The keyword aggregate and the sentiment *)

From Stdlib Require Import Lqa.

Section TopOfSorted.

Lemma StronglySorted_impl {B} (R1 R2 : relation B) l :
  (∀ x y, R1 x y → R2 x y) → StronglySorted R1 l → StronglySorted R2 l.
Proof.
  intros Himpl. induction 1 as [|x l Hs IH Hall]; constructor; [done|].
  eapply Forall_impl; [done|]. intros y. apply Himpl.
Qed.

Context {A : Type} (le : A → A → bool).
Hypothesis le_total : ∀ x y, le x y = true ∨ le y x = true.
Hypothesis le_trans : Transitive (λ x y, le x y = true).

(** The first [n] elements of a sorted array: as many as there are, up
    to [n]; taken from the array; in order; and no element left out goes
    before one of them. *)
Lemma take_Array_sort n l :
  let top := take n (Array_sort le l) in
  length top = Nat.min n (length l)
  ∧ (∀ a, a ∈ top → a ∈ l)
  ∧ StronglySorted (λ a b, le a b = true) top
  ∧ (∀ a b, a ∈ drop n (Array_sort le l) → b ∈ top → le b a = true).
Proof.
  intros top. subst top.
  pose proof (Array_sort_Permutation le l) as Hperm.
  pose proof (Array_sort_Sorted le le_total l) as Hsorted.
  apply Sorted_StronglySorted in Hsorted; [|done].
  rewrite <- (take_drop n (Array_sort le l)) in Hsorted.
  split_and!.
  - by rewrite length_take, Hperm.
  - intros a Ha. rewrite <- Hperm, <- (take_drop n (Array_sort le l)).
    apply elem_of_app. by left.
  - by eapply StronglySorted_app_1_l.
  - intros a b Ha Hb.
    apply (StronglySorted_app_1_elem_of (λ a b, le a b = true) _ _ b a Hsorted Hb Ha).
Qed.

End TopOfSorted.

Section KeywordAggregation.

Import ReviewSummarizer Terms.

Lemma entry_of_elem entries key a :
  NoDup entries.*1 → (key, a) ∈ entries ↔ entry_of key entries = Some a.
Proof.
  unfold entry_of. induction entries as [|[k b] entries IH]; simpl; intros Hnd.
  { split; [by intros ?%elem_of_nil|done]. }
  apply NoDup_cons in Hnd as [Hk Hnd].
  rewrite elem_of_cons. case_bool_decide as Heq; simpl in *.
  - subst k. split.
    + intros [[= ->]|Hin]; [done|].
      exfalso. apply Hk. apply list_elem_of_fmap. by exists (key, a).
    + intros [= ->]. by left.
  - rewrite <- IH by done. split; [|auto]. intros [[= -> ->]|?]; done.
Qed.

Lemma entry_of_None entries key : entry_of key entries = None ↔ key ∉ entries.*1.
Proof.
  unfold entry_of. induction entries as [|[k b] entries IH]; simpl.
  { split; [intros _ ?%elem_of_nil; done|done]. }
  rewrite not_elem_of_cons. case_bool_decide as Heq; simpl in *.
  - subst. split; [done|]. by intros [? _].
  - rewrite IH. split; [|by intros [_ ?]]. intros ?. split; [congruence|done].
Qed.

Lemma add_found_entry key fd entries key' :
  entry_of key' (add_found key fd entries)
  = if decide (key' = key) then Some (bump (entry_of key entries) fd)
    else entry_of key' entries.
Proof.
  unfold entry_of. induction entries as [|[k a] entries IH]; simpl.
  - case_bool_decide; destruct (decide (key' = key)); simpl in *; congruence.
  - case_bool_decide as Hk; simpl.
    + subst k. case_bool_decide; destruct (decide (key' = key)); simpl in *; congruence.
    + case_bool_decide as Hk'; simpl.
      * subst k. by rewrite decide_False by congruence.
      * apply IH.
Qed.

Lemma add_found_keys key fd entries :
  (add_found key fd entries).*1
  = if decide (key ∈ entries.*1) then entries.*1 else entries.*1 ++ [key].
Proof.
  induction entries as [|[k a] entries IH]; cbn [add_found fmap list_fmap fst].
  { destruct (decide _) as [Hin|Hin]; [by apply elem_of_nil in Hin|done]. }
  case_bool_decide as Hk; cbn [fmap list_fmap fst].
  - subst. rewrite decide_True; [done|by left].
  - rewrite IH. destruct (decide (key ∈ entries.*1)) as [Hin|Hin].
    + rewrite decide_True; [done|by right].
    + rewrite decide_False; [done|]. apply not_elem_of_cons. split; [congruence|done].
Qed.

Lemma add_found_NoDup key fd entries :
  NoDup entries.*1 → NoDup (add_found key fd entries).*1.
Proof.
  intros Hnd. rewrite add_found_keys. destruct (decide _) as [|Hout]; [done|].
  apply NoDup_app. split_and!; [done| |apply NoDup_singleton].
  by intros x Hx ->%list_elem_of_singleton.
Qed.

Lemma add_all_NoDup found entries :
  NoDup entries.*1 → NoDup (add_all entries found).*1.
Proof.
  unfold add_all. revert entries.
  induction found as [|fd found IH]; intros entries Hnd; simpl; [done|].
  apply IH. by apply add_found_NoDup.
Qed.

(** After the keywords found in one text are added, the entry of a key is
    bumped when one of them has that key and is as before otherwise. *)
Lemma add_all_entry found entries key :
  NoDup (key_of <$> found) →
  entry_of key (add_all entries found)
  = match List.find (λ fd, bool_decide (key_of fd = key)) found with
    | Some fd => Some (bump (entry_of key entries) fd)
    | None => entry_of key entries
    end.
Proof.
  unfold add_all. revert entries.
  induction found as [|fd found IH]; intros entries Hnd; simpl; [done|].
  apply NoDup_cons in Hnd as [Hfd Hnd]. rewrite IH by done.
  rewrite add_found_entry. fold (key_of fd).
  case_bool_decide as Hk.
  - rewrite decide_True by done.
    destruct (List.find _ found) as [fd'|] eqn:Hfind; [|by rewrite Hk].
    apply find_some in Hfind as [Hin Heq]. apply bool_decide_eq_true in Heq.
    exfalso. apply Hfd. rewrite Hk, <- Heq.
    apply list_elem_of_fmap. exists fd'. split; [done|]. by apply list_elem_of_In.
  - by rewrite decide_False by done.
Qed.

Lemma found_keys t dc :
  key_of <$> omap (find_keyword t) dc
  = filter (λ key, includes t key = true) (toLowerCase <$> dc.*1).
Proof.
  induction dc as [|[k info] dc IH]; [done|].
  cbn [omap list_omap find_keyword fmap list_fmap fst]. rewrite filter_cons.
  destruct (decide _) as [Hin|Hin].
  - rewrite Hin. cbn [fmap list_fmap]. f_equal. apply IH.
  - apply not_true_is_false in Hin. rewrite Hin. apply IH.
Qed.

Lemma found_NoDup t dc : well_keyed dc → NoDup (key_of <$> omap (find_keyword t) dc).
Proof. intros Hdc. rewrite found_keys. by apply NoDup_filter. Qed.

Lemma well_keyed_inj dc k info k' info' :
  well_keyed dc → (k, info) ∈ dc → (k', info') ∈ dc →
  toLowerCase k = toLowerCase k' → k = k' ∧ info = info'.
Proof.
  unfold well_keyed. induction dc as [|[k0 i0] dc IH]; simpl; intros Hnd H1 H2 Heq.
  { by apply elem_of_nil in H1. }
  apply NoDup_cons in Hnd as [Hk0 Hnd].
  assert (∀ k1 i1, (k1, i1) ∈ dc → toLowerCase k1 ∈ toLowerCase <$> dc.*1) as Hin.
  { intros k1 i1 Hin1. apply list_elem_of_fmap. exists k1. split; [done|].
    apply list_elem_of_fmap. by exists (k1, i1). }
  apply elem_of_cons in H1 as [[= -> ->]|H1]; apply elem_of_cons in H2 as [[= -> ->]|H2].
  - done.
  - exfalso. apply Hk0. rewrite Heq. by eapply Hin.
  - exfalso. apply Hk0. rewrite <- Heq. by eapply Hin.
  - by apply IH.
Qed.

(** What the search for a key among the keywords found in a text gives. *)
Lemma found_find t dc key :
  match List.find (λ fd, bool_decide (key_of fd = key)) (omap (find_keyword t) dc) with
  | Some fd =>
      ∃ info, (fd_keyword fd, info) ∈ dc ∧ key = toLowerCase (fd_keyword fd)
              ∧ includes t key = true
              ∧ fd_weight fd = weight info ∧ fd_sentiment fd = k_sentiment info
              ∧ fd_en fd = k_en info
  | None => ∀ k info, (k, info) ∈ dc → key = toLowerCase k → includes t key = false
  end.
Proof.
  induction dc as [|[k info] dc IH]; simpl.
  { by intros ?? ?%elem_of_nil. }
  destruct (includes t (toLowerCase k)) eqn:Hin; simpl.
  - unfold key_of at 1. simpl. case_bool_decide as Hk.
    + exists info. subst key. split_and!; try done. by left.
    + destruct (List.find _ _) as [fd|].
      * destruct IH as (info' & ? & ?). exists info'. split; [by right|done].
      * intros k' info' [[= -> ->]|Hin']%elem_of_cons Hkey; [done|]. by eapply IH.
  - destruct (List.find _ _) as [fd|].
    + destruct IH as (info' & ? & ?). exists info'. split; [by right|done].
    + intros k' info' [[= -> ->]|Hin']%elem_of_cons Hkey; [by subst|]. by eapply IH.
Qed.

Lemma mentions_snoc k reviews r :
  mentions k (reviews ++ [r])
  = (mentions k reviews
     + if includes (toLowerCase (review_text r)) (toLowerCase k) then 1 else 0)%nat.
Proof.
  unfold mentions. rewrite filter_app, length_app. f_equal.
  rewrite filter_cons, filter_nil. by destruct (includes _ _).
Qed.

(** One more review keeps the entries of a category in step with the
    reviews read. *)
Lemma add_all_aggregate dc reviews r entries :
  well_keyed dc →
  aggregate_of dc reviews entries →
  aggregate_of dc (reviews ++ [r])
    (add_all entries (omap (find_keyword (toLowerCase (review_text r))) dc)).
Proof.
  intros Hdc [Hnd Hent]. split; [by apply add_all_NoDup|].
  intros key. rewrite add_all_entry by by apply found_NoDup.
  pose proof (found_find (toLowerCase (review_text r)) dc key) as Hfind.
  specialize (Hent key).
  destruct (List.find _ _) as [fd|].
  - destruct Hfind as (info & Hin & Hkey & Hinc & Hw & Hs & He).
    exists (fd_keyword fd), info. rewrite mentions_snoc, <- Hkey, Hinc.
    split_and!; [done|done|lia|].
    destruct (entry_of key entries) as [a|]; simpl.
    + destruct Hent as (k' & info' & Hin' & Hkey' & Hpos & Ha).
      destruct (well_keyed_inj dc _ _ _ _ Hdc Hin Hin') as [<- <-]; [congruence|].
      destruct Ha as (? & Hc & Ht & ? & ?). split_and!; simpl; try done.
      * lia.
      * rewrite Ht, Hw, Nat2Z.inj_add, !inject_Z_plus. simpl. ring.
    + rewrite (Hent _ _ Hin Hkey). split_and!; simpl; try done.
      rewrite Hw. ring.
  - destruct (entry_of key entries) as [a|].
    + destruct Hent as (k & info & Hin & Hkey & Hpos & Ha).
      exists k, info. rewrite mentions_snoc, <- Hkey, (Hfind _ _ Hin Hkey), Nat.add_0_r.
      done.
    + intros k info Hin Hkey.
      rewrite mentions_snoc, <- Hkey, (Hfind _ _ Hin Hkey), Nat.add_0_r. by eapply Hent.
Qed.


Lemma extractKeywords_text r :
  extractKeywords (review_text r)
  = List.map
      (λ entry : Category * list (jsstring * KeywordInfo),
         (fst entry, omap (find_keyword (toLowerCase (review_text r))) (snd entry)))
      KEYWORD_DICTIONARY.
Proof.
  unfold extractKeywords.
  destruct (review_text r) eqn:Htext; [|done].
  unfold review_text in Htext. by destruct (Collector.title r).
Qed.

Section Categories.

Context {X : Type} (g : X → list Found).

Lemma fold_update_skip ext h acc :
  h.1 ∉ ext.*1 → fold_left add_extracted ext (h :: acc) = h :: fold_left add_extracted ext acc.
Proof.
  revert acc h. induction ext as [|e ext IH]; intros acc [c entries] Hout; [done|].
  rewrite fmap_cons in Hout.
  apply not_elem_of_cons in Hout as [Hne Hout]. cbn [fold_left].
  unfold add_extracted at 2 4. cbn [update_category]. simpl in Hne.
  rewrite bool_decide_eq_false_2 by done. by apply IH.
Qed.

Lemma found_categories (D : list (Category * X)) :
  (List.map (λ d, (fst d, g (snd d))) D).*1 = D.*1.
Proof. induction D as [|d D IHD]; [done|]. simpl. f_equal. apply IHD. Qed.

(** The keywords found in a text reach every category once, each one its
    own. *)
Lemma fold_update (D : list (Category * X)) agg :
  NoDup D.*1 → agg.*1 = D.*1 →
  fold_left add_extracted (List.map (λ d, (fst d, g (snd d))) D) agg
  = zip_with (λ d e, (fst e, add_all (snd e) (g (snd d)))) D agg.
Proof.
  revert agg. induction D as [|[c x] D IH]; intros [|[c' entries] agg] Hnd Hkeys;
    try done.
  rewrite !fmap_cons in Hkeys. rewrite fmap_cons in Hnd.
  apply NoDup_cons in Hnd as [Hc Hnd]. injection Hkeys as -> Hkeys.
  cbn [List.map fold_left zip_with fst snd]. unfold add_extracted at 2.
  cbn [update_category fst snd]. rewrite bool_decide_eq_true_2 by done.
  rewrite fold_update_skip.
  - f_equal. by apply IH.
  - by rewrite found_categories.
Qed.

End Categories.

Lemma dictionary_categories : NoDup KEYWORD_DICTIONARY.*1.
Proof. apply (bool_decide_unpack _). by vm_compute. Qed.

Lemma dictionary_well_keyed : Forall (λ d, well_keyed d.2) KEYWORD_DICTIONARY.
Proof. apply (bool_decide_unpack _). by vm_compute. Qed.

Lemma add_review_zip agg r :
  agg.*1 = KEYWORD_DICTIONARY.*1 →
  add_review agg r
  = zip_with
      (λ d e, (fst e,
               add_all (snd e) (omap (find_keyword (toLowerCase (review_text r))) (snd d))))
      KEYWORD_DICTIONARY agg.
Proof.
  intros Hkeys. unfold add_review. rewrite extractKeywords_text.
  apply (fold_update (omap (find_keyword (toLowerCase (review_text r))))).
  - apply dictionary_categories.
  - done.
Qed.

(** After any number of reviews every category holds the aggregate of its
    own part of the dictionary. *)
Lemma aggregated_in_step reviews :
  Forall2 (λ d e, fst d = fst e ∧ aggregate_of (snd d) reviews (snd e))
    KEYWORD_DICTIONARY
    (fold_left add_review reviews
       (List.map (λ entry : Category * list (jsstring * KeywordInfo), (fst entry, []))
          KEYWORD_DICTIONARY)).
Proof.
  induction reviews as [|r reviews IH] using rev_ind.
  - cbn [fold_left]. generalize KEYWORD_DICTIONARY. intros D.
    induction D as [|d D IHD]; constructor; [|done].
    split; [done|]. split; [constructor|]. by intros key k info _ _.
  - rewrite fold_left_app. cbn [fold_left].
    set (agg := fold_left add_review reviews _) in *.
    rewrite add_review_zip.
    2:{ clear -IH. induction IH as [|d e D agg' [Hde _] _ IH']; [done|].
        rewrite !fmap_cons. by f_equal. }
    pose proof dictionary_well_keyed as Hdict. clearbody agg.
    induction IH as [|d e D agg' [Hde Hagg] _ IH']; [constructor|].
    apply Forall_cons in Hdict as [Hd Hdict]. constructor; [|by apply IH'].
    split; [done|]. by apply add_all_aggregate.
Qed.

Lemma category_keywords_aggregate
    (P : list (jsstring * KeywordInfo) → list (jsstring * Aggregate) → Prop)
    (top : list (jsstring * Aggregate) → list Aggregate)
    (D : list (Category * list (jsstring * KeywordInfo))) agg c :
  Forall2 (λ d e, fst d = fst e ∧ P (snd d) (snd e)) D agg →
  P [] [] →
  P (match List.find (λ e, bool_decide (fst e = c)) D with
     | Some (_, entries) => entries
     | None => []
     end)
    (category_keywords
       (List.map (λ entry : Category * list (jsstring * Aggregate),
                    (fst entry, {| keywords := snd entry; topKeywords := top (snd entry) |}))
          agg) c).
Proof.
  intros Hall Hnil. unfold category_keywords.
  induction Hall as [|[c1 x] [c2 entries] D agg [Hc HP] _ IH]; [done|].
  simpl in *. subst c2. case_bool_decide; [done|apply IH].
Qed.

Lemma aggregateKeywords_aggregate reviews c :
  aggregate_of (dictionary_of c) reviews
    (category_keywords (aggregateKeywords reviews) c).
Proof.
  unfold dictionary_of, aggregateKeywords.
  apply (category_keywords_aggregate
           (λ dc entries, aggregate_of dc reviews entries)
           (λ entries,
              take 5 (Array_sort (λ a b, Qle_bool (totalWeight b) (totalWeight a))
                        (List.map snd entries)))).
  - apply aggregated_in_step.
  - split; [constructor|]. by intros key k info ?%elem_of_nil.
Qed.

Lemma mentions_le k reviews : (mentions k reviews ≤ length reviews)%nat.
Proof. apply length_filter. Qed.

Lemma dictionary_weights :
  Forall (λ d, Forall (λ e, (0 < weight e.2)%Q) d.2) KEYWORD_DICTIONARY.
Proof.
  assert (forallb (λ d : Category * list (jsstring * KeywordInfo),
                     forallb (λ e, Qpositive (weight e.2)) d.2) KEYWORD_DICTIONARY
          = true) as Hall by (by vm_compute).
  apply Forall_forall. intros d Hd. apply Forall_forall. intros e He.
  apply Qpositive_spec.
  rewrite forallb_forall in Hall. specialize (Hall d). rewrite forallb_forall in Hall.
  apply Hall; by apply list_elem_of_In.
Qed.

Lemma dictionary_of_weights c k info : (k, info) ∈ dictionary_of c → (0 < weight info)%Q.
Proof.
  unfold dictionary_of. pose proof dictionary_weights as Hall.
  destruct (List.find _ _) as [[c' entries]|] eqn:Hfind; [|by intros ?%elem_of_nil].
  apply find_some in Hfind as [Hin _]. apply list_elem_of_In in Hin.
  rewrite Forall_forall in Hall. specialize (Hall _ Hin). simpl in Hall.
  rewrite Forall_forall in Hall. intros Hk. apply (Hall _ Hk).
Qed.

(** The keywords of an aggregate have counts of 1 or more and positive
    total weights. *)
Lemma aggregateKeywords_positive reviews c :
  Forall (λ a, 1 ≤ a_count a ∧ (0 < totalWeight a)%Q)
    (category_keywords (aggregateKeywords reviews) c).*2.
Proof.
  apply Forall_forall. intros a [[key a'] [-> Hin]]%list_elem_of_fmap. simpl.
  destruct (aggregateKeywords_aggregate reviews c) as [Hnd Hent].
  apply entry_of_elem in Hin; [|done]. specialize (Hent key). rewrite Hin in Hent.
  destruct Hent as (k & info & Hk & _ & Hpos & _ & Hcount & Hweight & _).
  split; [lia|]. rewrite Hweight.
  apply Qmult_lt_0_compat; [|by eapply dictionary_of_weights].
  change 0%Q with (inject_Z 0). rewrite <- Zlt_Qlt. lia.
Qed.

(** X17. In the aggregate of a batch of reviews every entry of a
    category is a keyword of that category of the dictionary, kept under
    its lower-cased spelling; its count is the number of reviews whose
    title and description mention the keyword, between 1 and the number of
    reviews, its total weight is positive, and polarity and translation
    are those of the dictionary. *)
Theorem aggregateKeywords_counts reviews c key a :
  (key, a) ∈ category_keywords (aggregateKeywords reviews) c →
  ∃ k info,
    (k, info) ∈ dictionary_of c
    ∧ key = toLowerCase k
    ∧ a_keyword a = k
    ∧ a_count a = Z.of_nat (mentions k reviews)
    ∧ 1 ≤ a_count a ≤ Z.of_nat (length reviews)
    ∧ (0 < totalWeight a)%Q
    ∧ a_sentiment a = k_sentiment info
    ∧ a_en a = k_en info.
Proof.
  intros Hin. destruct (aggregateKeywords_aggregate reviews c) as [Hnd Hent].
  apply entry_of_elem in Hin; [|done]. specialize (Hent key). rewrite Hin in Hent.
  destruct Hent as (k & info & Hk & Hkey & Hpos & Hname & Hcount & Hweight & Hs & He).
  exists k, info. pose proof (mentions_le k reviews).
  assert (0 < totalWeight a)%Q as Htotal.
  { rewrite Hweight. apply Qmult_lt_0_compat; [|by eapply dictionary_of_weights].
    change 0%Q with (inject_Z 0). rewrite <- Zlt_Qlt. lia. }
  split_and!; try done; lia.
Qed.

Lemma aggregateKeywords_counts_witness :
  let a := {| a_keyword := js "amazing"; a_count := 3; totalWeight := 3;
              a_sentiment := Some positive; a_en := None |} in
  ∃ k info,
    (k, info) ∈ dictionary_of sentiment
    ∧ js "amazing" = toLowerCase k
    ∧ a_keyword a = k
    ∧ a_count a = Z.of_nat (mentions k Spec.batch_same_keyword)
    ∧ 1 ≤ a_count a ≤ Z.of_nat (length Spec.batch_same_keyword)
    ∧ (0 < totalWeight a)%Q
    ∧ a_sentiment a = k_sentiment info
    ∧ a_en a = k_en info.
Proof.
  intros a. apply (aggregateKeywords_counts Spec.batch_same_keyword sentiment).
  vm_compute. left.
Defined.

(** X18. Every keyword of the dictionary that some review of the batch
    mentions has an entry in the aggregate of its category, and no two
    entries of a category share a key. *)
Theorem aggregateKeywords_complete reviews c k info :
  (k, info) ∈ dictionary_of c →
  (0 < mentions k reviews)%nat →
  NoDup (category_keywords (aggregateKeywords reviews) c).*1
  ∧ ∃ a, (toLowerCase k, a) ∈ category_keywords (aggregateKeywords reviews) c.
Proof.
  intros Hin Hpos. destruct (aggregateKeywords_aggregate reviews c) as [Hnd Hent].
  split; [done|]. specialize (Hent (toLowerCase k)).
  destruct (entry_of _ _) as [a|] eqn:Ha.
  - exists a. by apply entry_of_elem.
  - specialize (Hent k info Hin eq_refl). lia.
Qed.


Lemma weighted_total_nonneg p entries :
  Forall (λ a, 1 ≤ a_count a ∧ (0 < totalWeight a)%Q) entries →
  (0 <= Spec.weighted_total p entries)%Q.
Proof.
  unfold Spec.weighted_total. induction 1 as [|a entries [Hc Hw] _ IH]; simpl.
  { apply Qle_refl. }
  case_bool_decide; [|done].
  assert (0 <= inject_Z (a_count a) * totalWeight a)%Q.
  { apply Qmult_le_0_compat; [|by apply Qlt_le_weak].
    change 0%Q with (inject_Z 0). rewrite <- Zle_Qle. lia. }
  lra.
Qed.

Lemma tally_count_nonneg entries t :
  Forall (λ a, 1 ≤ a_count a ∧ (0 < totalWeight a)%Q) entries →
  0 ≤ totalCount t → 0 ≤ totalCount (fold_left tally_keyword entries t).
Proof.
  intros Hall. revert t. induction Hall as [|a entries [Hc Hw] _ IH]; intros t Ht; [done|].
  simpl. apply IH. unfold tally_keyword. destruct (a_sentiment a) as [[| |]|]; simpl; lia.
Qed.

Lemma Q_between (z lo hi : Z) :
  (inject_Z lo - 1 < inject_Z z)%Q → (inject_Z z < inject_Z hi + 1)%Q → lo ≤ z ≤ hi.
Proof.
  intros Hlo Hhi.
  change 1%Q with (inject_Z 1) in Hlo, Hhi.
  rewrite <- inject_Z_plus in Hhi. rewrite <- Zlt_Qlt in Hhi.
  unfold Qminus in Hlo. change (- inject_Z 1)%Q with (inject_Z (-1)) in Hlo.
  rewrite <- inject_Z_plus in Hlo. rewrite <- Zlt_Qlt in Hlo. lia.
Qed.

(** A percentage and its complement, each rounded on its own, add up to
    100 or to 101. *)
Lemma Math_round_complement (p : Q) :
  (0 <= p)%Q → (p <= 100)%Q →
  0 ≤ Math_round p ≤ 100 ∧ 0 ≤ Math_round (100 - p) ≤ 100
  ∧ 100 ≤ Math_round p + Math_round (100 - p) ≤ 101.
Proof.
  intros H0 H100. unfold Math_round.
  pose proof (Qfloor_le (p + (1 # 2))) as Ha1.
  pose proof (Qlt_floor (p + (1 # 2))) as Ha2.
  pose proof (Qfloor_le (100 - p + (1 # 2))) as Hb1.
  pose proof (Qlt_floor (100 - p + (1 # 2))) as Hb2.
  set (a := Qfloor (p + (1 # 2))) in *. set (b := Qfloor (100 - p + (1 # 2))) in *.
  clearbody a b. rewrite inject_Z_plus in Ha2, Hb2.
  change (inject_Z 1) with 1%Q in Ha2, Hb2.
  split; [|split]; [apply (Q_between a 0 100) | apply (Q_between b 0 100)
              | apply (Q_between (a + b) 100 101)];
    rewrite ?inject_Z_plus;
    change (inject_Z 0) with 0%Q; change (inject_Z 100) with 100%Q;
    change (inject_Z 101) with 101%Q; lra.
Qed.

Lemma Math_round_nonneg x : (0 <= x)%Q → 0 ≤ Math_round x.
Proof. intros Hx. rewrite <- (Math_round_Z 0). by apply Math_round_le. Qed.

(** The score of sentiment keywords with positive counts and weights. *)
Lemma calculateSentiment_of_range data :
  Forall (λ a, 1 ≤ a_count a ∧ (0 < totalWeight a)%Q) data.*2 →
  let s := calculateSentiment_of data in
  0 ≤ positiveRatio s ≤ 100
  ∧ 0 ≤ negativeRatio s ≤ 100
  ∧ 100 ≤ positiveRatio s + negativeRatio s ≤ 101
  ∧ 0 ≤ positiveCount s
  ∧ 0 ≤ negativeCount s
  ∧ 0 ≤ totalMentions s.
Proof.
  intros Hall s. subst s.
  pose proof (weighted_total_nonneg positive _ Hall) as Hpos.
  pose proof (weighted_total_nonneg negative _ Hall) as Hneg.
  destruct (calculateSentiment_of_ratios data) as [Hsome Hnone].
  assert (0 ≤ positiveRatio (calculateSentiment_of data) ≤ 100
          ∧ 0 ≤ negativeRatio (calculateSentiment_of data) ≤ 100
          ∧ 100 ≤ positiveRatio (calculateSentiment_of data)
                  + negativeRatio (calculateSentiment_of data) ≤ 101) as Hratios.
  { destruct (Qlt_le_dec 0 (Spec.weighted_total positive data.*2
                            + Spec.weighted_total negative data.*2)) as [Hlt|Hle].
    - destruct (Hsome Hlt) as [-> ->]. apply Math_round_complement.
      + apply Qmult_le_0_compat; [|discriminate].
        apply Qle_shift_div_l; [done|]. lra.
      + change 100%Q with (1 * 100)%Q at 2. apply Qmult_le_compat_r; [|discriminate].
        apply Qle_shift_div_r; [done|]. lra.
    - destruct Hnone as [-> ->]; [|lia]. by apply Qle_not_lt. }
  destruct Hratios as (? & ? & ?). split_and!; try lia.
  - change (0 ≤ Math_round (positiveScore (fold_left tally_keyword (List.map snd data)
               {| positiveScore := 0; negativeScore := 0; totalCount := 0 |}))).
    destruct (tally_totals (List.map snd data)
                {| positiveScore := 0; negativeScore := 0; totalCount := 0 |}) as [Hp _].
    apply Math_round_nonneg. cbn [positiveScore] in Hp.
    change (List.map snd data) with data.*2 in *. lra.
  - change (0 ≤ Math_round (negativeScore (fold_left tally_keyword (List.map snd data)
               {| positiveScore := 0; negativeScore := 0; totalCount := 0 |}))).
    destruct (tally_totals (List.map snd data)
                {| positiveScore := 0; negativeScore := 0; totalCount := 0 |}) as [_ Hn].
    apply Math_round_nonneg. cbn [negativeScore] in Hn.
    change (List.map snd data) with data.*2 in *. lra.
  - change (0 ≤ totalCount (fold_left tally_keyword (List.map snd data)
               {| positiveScore := 0; negativeScore := 0; totalCount := 0 |})).
    by apply tally_count_nonneg.
Qed.

(** X19. The sentiment of a batch of reviews: both ratios are
    percentages between 0 and 100, they add up to 100 or, when both round
    up, to 101, and the two rounded totals and the number of mentions are
    not negative. *)
Theorem calculateSentiment_percentages reviews :
  let s := calculateSentiment (aggregateKeywords reviews) in
  0 ≤ positiveRatio s ≤ 100
  ∧ 0 ≤ negativeRatio s ≤ 100
  ∧ 100 ≤ positiveRatio s + negativeRatio s ≤ 101
  ∧ 0 ≤ positiveCount s
  ∧ 0 ≤ negativeCount s
  ∧ 0 ≤ totalMentions s.
Proof.
  intros s. subst s. unfold calculateSentiment.
  apply calculateSentiment_of_range, aggregateKeywords_positive.
Qed.

Lemma aggregateKeywords_complete_witness :
  ∃ a, (js "amazing", a)
       ∈ category_keywords (aggregateKeywords Spec.batch_same_keyword) sentiment.
Proof.
  destruct (aggregateKeywords_complete Spec.batch_same_keyword sentiment (js "amazing")
              {| weight := 1; k_sentiment := Some positive; k_en := None |})
    as [_ Hentry].
  - apply (list_elem_of_lookup_2 _ 14). vm_compute. reflexivity.
  - vm_compute. lia.
  - exact Hentry.
Defined.


Lemma weight_le_total (a b : Aggregate) :
  Qle_bool (totalWeight b) (totalWeight a) = true
  ∨ Qle_bool (totalWeight a) (totalWeight b) = true.
Proof.
  rewrite !Qle_bool_iff.
  destruct (Qlt_le_dec (totalWeight a) (totalWeight b)) as [?%Qlt_le_weak|?]; auto.
Qed.

Lemma weight_le_trans :
  Transitive (λ a b : Aggregate, Qle_bool (totalWeight b) (totalWeight a) = true).
Proof. intros a b c. rewrite !Qle_bool_iff. intros ??. by eapply Qle_trans. Qed.

Lemma lookup_aggregateKeywords reviews c data :
  ReviewSummary.lookup c (aggregateKeywords reviews) = Some data →
  keywords data = category_keywords (aggregateKeywords reviews) c
  ∧ topKeywords data
    = take 5 (Array_sort (λ a b, Qle_bool (totalWeight b) (totalWeight a))
                (keywords data).*2).
Proof.
  unfold ReviewSummary.lookup, category_keywords, aggregateKeywords.
  generalize (fold_left add_review reviews
                (List.map (λ entry : Category * list (jsstring * KeywordInfo),
                             (fst entry, [])) KEYWORD_DICTIONARY)).
  intros agg. induction agg as [|[c' entries] agg IH]; [done|].
  simpl. case_bool_decide; [|apply IH]. simpl. by intros [= <-].
Qed.



(** X20. The top keywords of a category of an aggregate are the five
    entries of the category with the largest total weights, or all of them
    when there are fewer, in descending order of total weight. *)
Theorem topKeywords_ranked reviews c data :
  ReviewSummary.lookup c (aggregateKeywords reviews) = Some data →
  length (topKeywords data) = Nat.min 5 (length (keywords data))
  ∧ (∀ a, a ∈ topKeywords data → a ∈ (keywords data).*2)
  ∧ StronglySorted (λ a b, (totalWeight b <= totalWeight a)%Q) (topKeywords data)
  ∧ (∀ a b, a ∈ (keywords data).*2 → a ∉ topKeywords data → b ∈ topKeywords data →
            (totalWeight a <= totalWeight b)%Q).
Proof.
  intros [_ Htop]%lookup_aggregateKeywords. rewrite Htop.
  set (le := λ a b, Qle_bool (totalWeight b) (totalWeight a)).
  destruct (take_Array_sort le weight_le_total weight_le_trans 5 (keywords data).*2)
    as (Hlen & Hsub & Hsorted & Hrest).
  split_and!.
  - by rewrite Hlen, length_fmap.
  - done.
  - eapply StronglySorted_impl; [|done]. intros a b Hab. by apply Qle_bool_iff.
  - intros a b Ha Hout Hb. apply Qle_bool_iff. apply (Hrest a b); [|done].
    rewrite <- (Array_sort_Permutation le), <- (take_drop 5 (Array_sort le _)) in Ha.
    apply elem_of_app in Ha as [?|?]; done.
Qed.

Lemma topKeywords_ranked_witness :
  let amazing := {| a_keyword := js "amazing"; a_count := 3; totalWeight := 3;
                    a_sentiment := Some positive; a_en := None |} in
  let disappointed := {| a_keyword := js "disappointed"; a_count := 1; totalWeight := 1;
                         a_sentiment := Some negative; a_en := None |} in
  StronglySorted (λ a b, (totalWeight b <= totalWeight a)%Q) [amazing; disappointed].
Proof.
  intros amazing disappointed.
  destruct (topKeywords_ranked Spec.batch_same_keyword sentiment
              {| keywords := [(js "amazing", amazing); (js "disappointed", disappointed)];
                 topKeywords := [amazing; disappointed] |})
    as (_ & _ & Hsorted & _).
  - vm_compute. reflexivity.
  - exact Hsorted.
Defined.

End KeywordAggregation.

(** ** The hashtags of a summary *)

Section Hashtags.

Import ReviewSummarizer ReviewSummary Terms.

Lemma fold_left_invariant {A B} (Inv : A → Prop) (f : A → B → A) l a :
  (∀ a x, x ∈ l → Inv a → Inv (f a x)) → Inv a → Inv (fold_left f l a).
Proof.
  revert a. induction l as [|x l IH]; intros a Hstep Ha; [done|].
  simpl. apply IH.
  - intros a' y Hy. apply Hstep. by right.
  - apply Hstep; [by left|done].
Qed.

Lemma hashtag_le_ranked a b : hashtag_le a b = true ↔ ranked_before a b.
Proof.
  unfold hashtag_le, ranked_before.
  destruct (boosted a), (boosted b); simpl; rewrite ?Z.leb_le; intuition (try done; lia).
Qed.

Lemma hashtag_le_total a b : hashtag_le a b = true ∨ hashtag_le b a = true.
Proof.
  unfold hashtag_le. destruct (boosted a), (boosted b); simpl; rewrite ?Z.leb_le; auto; lia.
Qed.

Lemma hashtag_le_trans : Transitive (λ a b, hashtag_le a b = true).
Proof.
  intros a b c. rewrite !hashtag_le_ranked. unfold ranked_before.
  destruct (boosted a), (boosted b), (boosted c); intuition (try done; lia).
Qed.

Lemma add_dynamic_source aggregated dynamicKeywords t kw :
  kw ∈ dynamicKeywords →
  Forall (tag_source aggregated dynamicKeywords) (hashtags_of t) →
  Forall (tag_source aggregated dynamicKeywords) (hashtags_of (add_dynamic t kw)).
Proof.
  intros Hkw Hall. unfold add_dynamic. case_bool_decide; [done|]. simpl.
  apply Forall_app. split; [done|]. constructor; [|constructor].
  by exists kw.
Qed.

Lemma add_category_source aggregated dynamicKeywords t c :
  c ∈ hashtag_categories →
  Forall (tag_source aggregated dynamicKeywords) (hashtags_of t) →
  Forall (tag_source aggregated dynamicKeywords) (hashtags_of (add_category aggregated t c)).
Proof.
  intros Hc Hall. unfold add_category.
  destruct (lookup c aggregated) as [data|] eqn:Hdata; [|done].
  apply (fold_left_invariant
           (λ t, Forall (tag_source aggregated dynamicKeywords) (hashtags_of t)));
    [|done].
  intros t' kw Hkw Ht'. unfold add_dictionary. case_bool_decide; [done|]. simpl.
  apply Forall_app. split; [done|]. constructor; [|constructor].
  split; [done|]. by exists data, kw.
Qed.


(** X21. The hashtags of a summary: at most 20; boosted tags before the
    others and, within each group, larger counts first; every tag comes
    either from a dynamic keyword, whose count and boost it carries, or
    from a top keyword of one of the six categories effects, texture,
    ingredients, usageFeel, scent and target, never from the sentiment
    category. *)
Theorem extractAllHashtags_ranked aggregated dynamicKeywords :
  let tags := extractAllHashtags aggregated dynamicKeywords in
  (length tags ≤ 20)%nat
  ∧ StronglySorted ranked_before tags
  ∧ Forall (tag_source aggregated dynamicKeywords) tags
  ∧ Forall (λ h, h_category h ≠ dictionary sentiment) tags.
Proof.
  intros tags. subst tags. unfold extractAllHashtags.
  set (t := fold_left (add_category aggregated) hashtag_categories _).
  destruct (take_Array_sort hashtag_le hashtag_le_total hashtag_le_trans 20
              (hashtags_of t)) as (Hlen & Hsub & Hsorted & _).
  assert (Forall (tag_source aggregated dynamicKeywords) (hashtags_of t)) as Hsource.
  { subst t.
    apply (fold_left_invariant
             (λ t, Forall (tag_source aggregated dynamicKeywords) (hashtags_of t))).
    { intros ???. by apply add_category_source. }
    apply (fold_left_invariant
             (λ t, Forall (tag_source aggregated dynamicKeywords) (hashtags_of t))).
    { intros ???. by apply add_dynamic_source. }
    constructor. }
  assert (Forall (tag_source aggregated dynamicKeywords)
            (take 20 (Array_sort hashtag_le (hashtags_of t)))) as Htags.
  { apply Forall_forall. intros h Hh. rewrite Forall_forall in Hsource.
    apply Hsource. by apply Hsub. }
  split_and!.
  - rewrite Hlen. lia.
  - eapply StronglySorted_impl; [|done]. intros a b. apply hashtag_le_ranked.
  - done.
  - eapply Forall_impl; [done|]. intros h Hh Hcat. unfold tag_source in Hh.
    rewrite Hcat in Hh. destruct Hh as [Hin _].
    assert (sentiment ∉ hashtag_categories) as Hout; [|done].
    apply (bool_decide_unpack _). by vm_compute.
Qed.

End Hashtags.

(** ** The summary text and the summary *)

Section SummaryText.

Import ReviewSummarizer ReviewSummary Terms.

Lemma Math_random_range rng :
  (0 <= (Math_random rng).1)%Q ∧ ((Math_random rng).1 < 1)%Q
  ∧ (Math_random rng).2 = after_draw rng.
Proof.
  unfold Math_random. cbn [fst snd]. split_and!; [| |done].
  - unfold Qle. cbn [Qnum Qden].
    generalize (seeds rng (drawn rng) mod 2 ^ 53)%N. lia.
  - unfold Qlt. cbn [Qnum Qden].
    assert (seeds rng (drawn rng) mod 2 ^ 53 < 9007199254740992)%N as Hlt
      by (by apply (N.mod_upper_bound _ (2 ^ 53))).
    revert Hlt. generalize (seeds rng (drawn rng) mod 2 ^ 53)%N. lia.
Qed.

(** A pick from a non-empty array is one of its elements and costs one
    draw. *)
Lemma pickRandom_filled x l rng :
  ∃ y, y ∈ x :: l ∧ pickRandom (Some (x :: l)) rng = (y, after_draw rng).
Proof.
  unfold pickRandom.
  destruct (Math_random_range rng) as (H0 & H1 & Hnext).
  destruct (Math_random rng) as [r rng'] eqn:Hr. simpl in H0, H1, Hnext. subst rng'.
  set (arr := x :: l). set (n := Z.of_nat (length arr)).
  assert (0 < n) as Hn by (subst n arr; simpl; lia).
  assert (0 ≤ Qfloor (r * inject_Z n) < n) as [Hlo Hhi].
  { split.
    - change 0 with (Qfloor 0). apply Qfloor_resp_le.
      apply Qmult_le_0_compat; [done|]. change 0%Q with (inject_Z 0).
      rewrite <- Zle_Qle. lia.
    - rewrite Zlt_Qlt. eapply Qle_lt_trans; [apply Qfloor_le|].
      rewrite <- (Qmult_1_l (inject_Z n)) at 2. apply Qmult_lt_compat_r; [|done].
      change 0%Q with (inject_Z 0). rewrite <- Zlt_Qlt. lia. }
  destruct (lookup_lt_is_Some_2 arr (Z.to_nat (Qfloor (r * inject_Z n)))) as [y Hy].
  { subst n. lia. }
  exists y. rewrite Hy. split; [|done]. by eapply list_elem_of_lookup_2.
Qed.

Lemma pickRandom_empty rng : pickRandom (Some []) rng = ([], rng).
Proof. done. Qed.

Lemma getTopEffect_filled effectsData : filled (getTopEffect effectsData) default_effectClaims.
Proof.
  unfold getTopEffect. destruct (effectsData ≫= top_keyword) as [topKeyword|].
  - repeat match goal with
           | |- context [if ?b then _ else _] => destruct b
           end; by vm_compute; eexists _, _.
  - by vm_compute; eexists _, _.
Qed.

Lemma getTextureType_filled textureData :
  filled (getTextureType textureData) default_textureFeel.
Proof.
  unfold getTextureType. destruct (textureData ≫= top_keyword) as [topKeyword|].
  - repeat match goal with
           | |- context [if ?b then _ else _] => destruct b
           end; by vm_compute; eexists _, _.
  - by vm_compute; eexists _, _.
Qed.

Lemma verdict_category_filled s : filled (verdict_category s) default_verdicts.
Proof.
  unfold verdict_category.
  repeat match goal with
         | |- context [if ?b then _ else _] => destruct b
         end; by vm_compute; eexists _, _.
Qed.

Lemma entry_or_filled key fallback table :
  filled key table → entry_or key fallback table table = entry key table.
Proof. intros (x & l & Hentry). unfold entry_or. by rewrite Hentry. Qed.

(** X22. The summary text cannot be made exactly when the aggregate
    lacks the texture or the effects category, or the templates lack the
    table of effect claims, of texture descriptions or of verdicts. *)
Theorem generateSummaryText_throws beautyExpressions aggregated reviewCount sentiment rng :
  let expressions := default DEFAULT_EXPRESSIONS beautyExpressions in
  (generateSummaryText beautyExpressions aggregated reviewCount sentiment rng).1 = None
  ↔ lookup texture aggregated = None
    ∨ lookup effects aggregated = None
    ∨ effectClaims expressions = None
    ∨ textureFeel expressions = None
    ∨ verdicts expressions = None.
Proof.
  intros expressions. unfold generateSummaryText. fold expressions.
  destruct (lookup texture aggregated) as [textureData|]; [|by split; [left|]].
  destruct (pickRandom (hypeIntros expressions) rng) as [template rng1].
  destruct (effectClaims expressions) as [claims|]; [|by split; [right; right; left|]].
  destruct (pickRandom (entry_or _ _ claims _) rng1) as [effectClaim rng2].
  cbn [Math_random].
  set (line1 := if _ && _ then _ else _). destruct line1 as [line1 rng3].
  destruct (textureFeel expressions) as [feels|];
    [|by split; [right; right; right; left|]].
  destruct (pickRandom (entry_or _ _ feels _) rng3) as [textureLine rng4].
  set (line2 := if negb _ then _ else _). destruct line2 as [line2 rng5].
  destruct (verdicts expressions) as [table|];
    [|by split; [right; right; right; right|]].
  destruct (pickRandom (entry_or _ _ table _) rng5) as [line3 rng6].
  destruct (lookup effects aggregated) as [effectsData|]; [|by split; [right; left|]].
  simpl. split; [done|]. by intros [?|[?|[?|[?|?]]]].
Qed.


Lemma pickRandom_in arr rng :
  arr ≠ [] → ∃ y, y ∈ arr ∧ pickRandom (Some arr) rng = (y, after_draw rng).
Proof. destruct arr as [|x l]; [done|]. intros _. apply pickRandom_filled. Qed.

(** With the built-in templates and an aggregate that has the
    texture and the effects category, the summary text is made and its
    English part has three paragraphs: a hype intro with the product type
    filled in, followed by an effect claim of the top effect, with a
    filler between them only after an intro that ends in a dash; a
    texture description of the texture type, with or without a usage note;
    and a verdict of the band of the positive ratio. Every template comes
    from the table of its kind, and between six and eight random numbers
    are drawn. *)
Lemma generateSummaryText_built_in aggregated reviewCount sentiment rng
    textureData effectsData :
  lookup texture aggregated = Some textureData →
  lookup effects aggregated = Some effectsData →
  ∃ line1 line2 line3 rng',
    generateSummaryText None aggregated reviewCount sentiment rng
    = (Some {| ko := summary_ko effectsData textureData reviewCount sentiment;
               en := join [10; 10]%N [line1; line2; line3] |},
       rng')
    ∧ first_paragraph textureData effectsData line1
    ∧ second_paragraph textureData line2
    ∧ third_paragraph sentiment line3
    ∧ seeds rng' = seeds rng
    ∧ (drawn rng + 6 ≤ drawn rng' ≤ drawn rng + 8)%nat.
Proof.
  intros Htexture Heffects. unfold generateSummaryText.
  rewrite Htexture, Heffects.
  cbn [default DEFAULT_EXPRESSIONS hypeIntros effectClaims casualFillers textureFeel
         verdicts usageNotes].
  destruct (pickRandom_in default_hypeIntros rng) as (template & Htemplate & ->); [done|].
  destruct (getTopEffect_filled (Some effectsData)) as (c0 & claims & Hclaims).
  rewrite entry_or_filled by by eexists _, _. rewrite Hclaims.
  destruct (pickRandom_in (c0 :: claims) (after_draw rng)) as (claim & Hclaim & ->); [done|].
  cbn [Math_random].
  set (intro := replace_first_sub (js "{product}") (product_type textureData) template).
  set (rng2 := after_draw (after_draw rng)).
  set (r1 := (_ # _)).
  destruct (getTextureType_filled (Some textureData)) as (f0 & feel & Hfeel).
  rewrite entry_or_filled by by eexists _, _. rewrite Hfeel.
  destruct (verdict_category_filled sentiment) as (v0 & table & Htable).
  rewrite entry_or_filled by by eexists _, _. rewrite Htable.
  assert (∃ line1 rng3,
            (if negb (Qle_bool r1 (6 # 10)) && endsWith intro em_dash
             then let '(filler, rng) :=
                    pickRandom (Some default_fillers)
                      {| seeds := seeds rng2; drawn := S (drawn rng2) |} in
                  (intro ++ js " " ++ filler ++ js " " ++ claim, rng)
             else (intro ++ js " " ++ claim,
                   {| seeds := seeds rng2; drawn := S (drawn rng2) |}))
            = (line1, rng3)
            ∧ first_paragraph textureData effectsData line1
            ∧ seeds rng3 = seeds rng
            ∧ (drawn rng + 3 ≤ drawn rng3 ≤ drawn rng + 4)%nat)
    as (line1 & rng3 & -> & Hline1 & Hseeds3 & Hdrawn3).
  { destruct (negb _ && endsWith intro em_dash) eqn:Hfiller.
    - apply andb_true_iff in Hfiller as [_ Hdash].
      destruct (pickRandom_in default_fillers (after_draw rng2)) as (filler & Hin & Hpick);
        [done|].
      unfold after_draw in Hpick at 1. rewrite Hpick. eexists _, _. split; [done|].
      split_and!; [|done|simpl; lia|simpl; lia].
      exists template, (c0 :: claims), claim. split_and!; try done.
      right. split; [done|]. by exists filler.
    - eexists _, _. split; [done|]. split_and!; [|done|simpl; lia|simpl; lia].
      exists template, (c0 :: claims), claim. split_and!; try done. by left. }
  destruct (pickRandom_in (f0 :: feel) rng3) as (textureLine & Hline & ->); [done|].
  set (rng4 := after_draw rng3).
  set (r2 := (_ # _)).
  assert (∃ line2 rng5,
            (if negb (Qle_bool r2 (5 # 10))
             then let '(usageNote, rng) :=
                    pickRandom (Some default_usageNotes)
                      {| seeds := seeds rng4; drawn := S (drawn rng4) |} in
                  (textureLine ++ js " " ++ usageNote, rng)
             else (textureLine, {| seeds := seeds rng4; drawn := S (drawn rng4) |}))
            = (line2, rng5)
            ∧ second_paragraph textureData line2
            ∧ seeds rng5 = seeds rng
            ∧ (drawn rng + 5 ≤ drawn rng5 ≤ drawn rng + 7)%nat)
    as (line2 & rng5 & -> & Hline2 & Hseeds5 & Hdrawn5).
  { destruct (negb _).
    - destruct (pickRandom_in default_usageNotes (after_draw rng4)) as (note & Hin & Hpick);
        [done|].
      unfold after_draw in Hpick at 1. rewrite Hpick. eexists _, _. split; [done|].
      split_and!; [|done|simpl; lia|simpl; lia].
      exists (f0 :: feel), textureLine. split_and!; try done. right. by exists note.
    - eexists _, _. split; [done|]. split_and!; [|done|simpl; lia|simpl; lia].
      exists (f0 :: feel), textureLine. split_and!; try done. by left. }
  destruct (pickRandom_in (v0 :: table) rng5) as (line3 & Hline3 & ->); [done|].
  exists line1, line2, line3, (after_draw rng5). split; [done|].
  split_and!; try done.
  - by exists (v0 :: table).
  - simpl. lia.
  - simpl. lia.
Qed.


(** X23. With the built-in templates and an aggregate that has the
    texture and the effects category, the summary text is made and its
    English part has three paragraphs: a hype intro with the product type
    filled in, followed by an effect claim of the top effect, with a
    filler between them only after an intro that ends in a dash; a
    texture description of the texture type, with or without a usage note;
    and a verdict of the band of the positive ratio. Every template comes
    from the table of its kind, and between six and eight random numbers
    are drawn. *)
Theorem generateSummaryText_default aggregated reviewCount sentiment rng
    textureData effectsData :
  lookup texture aggregated = Some textureData →
  lookup effects aggregated = Some effectsData →
  ∃ line1 line2 line3 rng',
    generateSummaryText None aggregated reviewCount sentiment rng
    = (Some {| ko := summary_ko effectsData textureData reviewCount sentiment;
               en := join [10; 10]%N [line1; line2; line3] |},
       rng')
    ∧ first_paragraph textureData effectsData line1
    ∧ second_paragraph textureData line2
    ∧ third_paragraph sentiment line3
    ∧ seeds rng' = seeds rng
    ∧ (drawn rng + 6 ≤ drawn rng' ≤ drawn rng + 8)%nat.
Proof. apply generateSummaryText_built_in. Qed.

Lemma generateSummaryText_default_witness :
  let aggregated := aggregateKeywords Spec.batch_same_keyword in
  let verdict := calculateSentiment aggregated in
  ∃ line1 line2 line3 rng',
    generateSummaryText None aggregated 3 verdict zero_rng
    = (Some {| ko := summary_ko (category_of effects aggregated)
                       (category_of texture aggregated) 3 verdict;
               en := join [10; 10]%N [line1; line2; line3] |},
       rng')
    ∧ first_paragraph (category_of texture aggregated) (category_of effects aggregated)
        line1
    ∧ second_paragraph (category_of texture aggregated) line2
    ∧ third_paragraph verdict line3
    ∧ seeds rng' = seeds zero_rng
    ∧ (drawn zero_rng + 6 ≤ drawn rng' ≤ drawn zero_rng + 8)%nat.
Proof.
  intros aggregated verdict. apply generateSummaryText_default.
  - vm_compute. reflexivity.
  - vm_compute. reflexivity.
Defined.






End SummaryText.

(** ** Reanalysis on demand and the set-up of the model *)

Section Reanalysis.

Import ClaudeSummarizer ClaudeAdmin Terms.

(** X25. A manual reanalysis does nothing when the model is not
    available or there are no approved reviews. Otherwise it always sends
    one request, whatever the cache holds, and the entries of the other
    products stay. When the request fails or the answer does not parse,
    the reanalysis fails and the product is left without an entry. When
    the answer parses, it becomes the cache entry of the product, taken on
    the ids of the reviews and stamped with the time after the call; on a
    falsy answer the reanalysis reports success all the same. A
    reanalysis that reports success returns a payload tagged "claude"
    that counts the reviews. *)
Theorem triggerReanalysis_asks reply productCode approvedReviews st :
  let run := triggerReanalysis reply productCode approvedReviews st in
  if negb (isClaudeAvailable st) then run = (NotAvailable, st)
  else if bool_decide (approvedReviews = []) then run = (NoReviews, st)
  else
    ai_requests run.2 = S (ai_requests st)
    ∧ (∀ q, q ≠ productCode → analysisCache run.2 !! q = analysisCache st !! q)
    ∧ (∀ data, run.1 = Analysed data →
         aiProvider data = js "claude"
         ∧ reviewCount data = length approvedReviews)
    ∧ match outcome reply with
      | Throws => run.1 = Failed ∧ analysisCache run.2 !! productCode = None
      | Parsed v =>
          analysisCache run.2 !! productCode
          = Some {| c_summary := v;
                    analyzedReviewIds := fingerprint (review_ids approvedReviews);
                    timestamp := clock st + latency reply |}
          ∧ (v = Falsy → succeeded run.1 = true)
      end.
Proof.
  intros run. subst run. unfold triggerReanalysis.
  destruct (isClaudeAvailable st) eqn:Havailable; simpl; [|done].
  destruct approvedReviews as [|r reviews]; [done|].
  rewrite bool_decide_eq_false_2 by done. cbn [length Nat.eqb].
  set (batch := r :: reviews).
  set (st0 := set_cache (delete productCode (analysisCache st)) st).
  assert (anthropicClient st0 = true) as Hclient.
  { unfold isClaudeAvailable in Havailable. by apply andb_true_iff in Havailable as [_ ?]. }
  destruct (analyzeWithClaude_run reply batch productCode st0 Hclient)
    as (Hreq & _ & _ & _ & _ & _ & Hother & Hout).
  destruct (analyzeWithClaude reply batch productCode st0) as [result st1].
  simpl in Hreq, Hother, Hout.
  assert (∀ q, q ≠ productCode → analysisCache st1 !! q = analysisCache st !! q) as Hrest.
  { intros q Hq. rewrite (Hother q Hq). by apply lookup_delete_ne. }
  destruct (outcome reply) as [|v].
  - destruct Hout as [-> Hcache]. simpl. split_and!; try done.
    rewrite Hcache. simpl. apply lookup_delete_eq.
  - destruct Hout as [(res & -> & Hprovider & _ & _ & _ & Hcount) Hcache]. simpl.
    split_and!; try done. by intros data [= <-].
Qed.

Lemma triggerReanalysis_asks_witness :
  let st := Spec.fresh_state (js "claude") true in
  let run :=
    triggerReanalysis Spec.falsy_reply (js "P1")
      [Spec.approved 2 (js "Glow serum") []; Spec.approved 10 (js "Cica cream") []] st in
  succeeded run.1 = true
  ∧ ai_requests run.2 = 1%nat
  ∧ analysisCache run.2 !! js "P1"
    = Some {| c_summary := Falsy; analyzedReviewIds := js "10,2"; timestamp := 1200 |}.
Proof.
  intros st run.
  pose proof (triggerReanalysis_asks Spec.falsy_reply (js "P1")
                [Spec.approved 2 (js "Glow serum") []; Spec.approved 10 (js "Cica cream") []]
                st) as Hrun.
  change (negb (isClaudeAvailable st)) with false in Hrun.
  rewrite bool_decide_eq_false_2 in Hrun by discriminate.
  destruct Hrun as (Hrequests & _ & _ & Hentry & Hsuccess).
  split; [by apply Hsuccess|]. split; [exact Hrequests|exact Hentry].
Defined.



(** X29. Set up without a usable key, that is one that after trimming
    does not start with "sk-ant-", a service that had no client has none
    afterwards: the model counts as unavailable, a manual reanalysis is
    refused and a summary is made without a request. *)
Theorem initialize_without_key
    refs ANTHROPIC_API_KEY constructed st reply keywordFallback productCode reviews :
  anthropicClient st = false →
  startsWith (trim (default [] ANTHROPIC_API_KEY)) (js "sk-ant-") = false →
  let st' := initialize refs ANTHROPIC_API_KEY constructed st in
  isClaudeAvailable st' = false
  ∧ triggerReanalysis reply productCode reviews st' = (NotAvailable, st')
  ∧ (getSummary reply keywordFallback productCode reviews st').2 = st'
  ∧ aiProvider (getSummary reply keywordFallback productCode reviews st').1 ≠ js "claude".
Proof.
  intros Hclient Hkey st'.
  assert (isClaudeAvailable st' = false) as Hoff.
  { subst st'. unfold isClaudeAvailable, initialize. cbn [anthropicClient AI_PROVIDER].
    rewrite Hkey, andb_false_r, Hclient. apply andb_false_r. }
  split; [done|]. split.
  { unfold triggerReanalysis. by rewrite Hoff. }
  unfold getSummary. destruct (find_override st' productCode); [done|].
  rewrite Hoff. cbn [andb fst snd]. split; [done|].
  unfold fallback_chain.
  destruct (getProductInsights st' productCode) as [i|]; [destruct (i_summary i)|];
    try done; destruct keywordFallback, reviews; done.
Qed.

Lemma initialize_without_key_witness :
  let st' :=
    initialize {| r_productInsights := Some []; r_aiFeedbackHistory := Some [];
                  r_snsReviewOverrides := Some []; r_onSave := true |}
      (Some (js " sk-test-123 ")) true (Spec.fresh_state (js "claude") false) in
  isClaudeAvailable st' = false
  ∧ triggerReanalysis Spec.some_reply (js "P1") [Spec.approved 2 (js "Glow serum") []] st'
    = (NotAvailable, st').
Proof.
  destruct (initialize_without_key
              {| r_productInsights := Some []; r_aiFeedbackHistory := Some [];
                 r_snsReviewOverrides := Some []; r_onSave := true |}
              (Some (js " sk-test-123 ")) true (Spec.fresh_state (js "claude") false)
              Spec.some_reply None (js "P1") [Spec.approved 2 (js "Glow serum") []])
    as (Hoff & Hrefused & _).
  - reflexivity.
  - reflexivity.
  - split; [exact Hoff|exact Hrefused].
Defined.

End Reanalysis.

(** ** The recent feedback *)

Section RecentFeedback.

Import ClaudeSummarizer ClaudeAdmin Terms.

Lemma newest_first_total (a b : FeedbackRecord) :
  (f_createdAt b - f_createdAt a <=? 0) = true
  ∨ (f_createdAt a - f_createdAt b <=? 0) = true.
Proof. rewrite !Z.leb_le. lia. Qed.

Lemma newest_first_trans :
  Transitive (λ a b : FeedbackRecord, (f_createdAt b - f_createdAt a <=? 0) = true).
Proof. intros a b c. rewrite !Z.leb_le. lia. Qed.

(** X27. The recent feedback of a product: the five newest records of
    the product in the history, or all of them when there are fewer,
    newest first; none without a history. *)
Theorem getRecentFeedback_newest st productCode :
  let recent := getRecentFeedback st productCode in
  let history := default [] (aiFeedbackHistoryRef st) in
  length recent
  = Nat.min 5 (length (filter (λ f, f_productCode f = productCode) history))
  ∧ Forall (λ f, f ∈ history ∧ f_productCode f = productCode) recent
  ∧ StronglySorted (λ a b, f_createdAt b ≤ f_createdAt a) recent
  ∧ Forall (λ f, f_productCode f = productCode → f ∉ recent →
                 Forall (λ g, f_createdAt f ≤ f_createdAt g) recent) history.
Proof.
  intros recent history. subst recent history. unfold getRecentFeedback.
  destruct (aiFeedbackHistoryRef st) as [history|]; cbn [default];
    [|split_and!; constructor].
  set (le := λ a b : FeedbackRecord, f_createdAt b - f_createdAt a <=? 0).
  set (own := filter (λ f, f_productCode f = productCode) history).
  destruct (take_Array_sort le newest_first_total newest_first_trans 5 own)
    as (Hlen & Hsub & Hsorted & Hrest).
  split_and!.
  - done.
  - apply Forall_forall. intros f Hf%Hsub. by apply list_elem_of_filter in Hf as [? ?].
  - eapply StronglySorted_impl; [|done]. intros a b. unfold le. rewrite Z.leb_le. lia.
  - apply Forall_forall. intros f Hf Hcode Hout. apply Forall_forall. intros g Hg.
    assert (f ∈ drop 5 (Array_sort le own)) as Hdrop.
    { assert (f ∈ Array_sort le own) as Hin.
      { rewrite Array_sort_Permutation. by apply list_elem_of_filter. }
      rewrite <- (take_drop 5 (Array_sort le own)) in Hin.
      apply elem_of_app in Hin as [?|?]; done. }
    specialize (Hrest f g Hdrop Hg). unfold le in Hrest. apply Z.leb_le in Hrest. lia.
Qed.

Lemma Array_sort_head {A} (le : A → A → bool) (l : list A) x :
  (∀ a b, le a b = true ∨ le b a = true) →
  Transitive (λ a b, le a b = true) →
  x ∈ l → (∀ y, y ∈ l → y = x ∨ le y x = false) →
  head (Array_sort le l) = Some x.
Proof.
  intros Htotal Htrans Hx Hmax.
  pose proof (Array_sort_Permutation le l) as Hperm.
  pose proof (Array_sort_Sorted le Htotal l) as Hsorted.
  apply Sorted_StronglySorted in Hsorted; [|done].
  destruct (Array_sort le l) as [|h sorted]; simpl.
  { rewrite <- Hperm in Hx. by apply elem_of_nil in Hx. }
  f_equal. apply StronglySorted_inv in Hsorted as [_ Hall].
  rewrite <- Hperm in Hx. apply elem_of_cons in Hx as [->|Hx]; [done|].
  rewrite Forall_forall in Hall. specialize (Hall x Hx).
  destruct (Hmax h) as [?|Hle]; [rewrite <- Hperm; by left|done|congruence].
Qed.

(** X28. A correction recorded at a time later than every earlier record
    of the product comes first in the recent feedback of the product. *)
Theorem recordFeedback_then_recent productCode originalSummary correctedSummary st history :
  aiFeedbackHistoryRef st = Some history →
  Forall (λ f, f_productCode f = productCode → f_createdAt f < clock st) history →
  head (getRecentFeedback
          (recordFeedback productCode originalSummary correctedSummary st) productCode)
  = Some {| f_productCode := productCode;
            originalSummary := originalSummary;
            correctedSummary := correctedSummary;
            f_createdAt := clock st |}.
Proof.
  intros Hhistory Hearlier. unfold recordFeedback, getRecentFeedback. rewrite Hhistory.
  set (new := {| f_productCode := productCode; originalSummary := originalSummary;
                 correctedSummary := correctedSummary; f_createdAt := clock st |}).
  set (own := filter (λ f, f_productCode f = productCode) history).
  assert (filter (λ f, f_productCode f = productCode) (history ++ [new]) = own ++ [new])
    as Hown.
  { rewrite filter_app. f_equal. by rewrite filter_cons_True. }
  rewrite Hown. cbn [aiFeedbackHistoryRef save set_feedback].
  set (kept := filter (λ f, f_productCode f = productCode)
                 (if (10 <? length (own ++ [new]))%nat
                  then remove_oldest productCode (history ++ [new])
                  else history ++ [new])).
  assert (∃ older, kept = older ++ [new] ∧ ∀ f, f ∈ older → f ∈ own)
    as (older & Hkept & Holder).
  { subst kept. destruct (10 <? length (own ++ [new]))%nat eqn:Hfull.
    - rewrite filter_remove_oldest, decide_True by done. rewrite Hown.
      apply Nat.ltb_lt in Hfull. rewrite length_app in Hfull. simpl in Hfull.
      destruct own as [|f own']; [simpl in Hfull; lia|].
      exists own'. split; [done|]. intros g Hg. by right.
    - exists own. by rewrite Hown. }
  rewrite Hkept.
  assert (∀ l : list FeedbackRecord, head (take 5 l) = head l) as ->
    by (by intros [|??]).
  apply Array_sort_head.
  - apply newest_first_total.
  - apply newest_first_trans.
  - apply elem_of_app. right. by left.
  - intros y [Hy|Hy%list_elem_of_singleton]%elem_of_app; [|by left].
    right. apply Holder in Hy. apply list_elem_of_filter in Hy as [Hcode Hy].
    rewrite Forall_forall in Hearlier. specialize (Hearlier y Hy Hcode).
    apply Z.leb_gt. simpl. lia.
Qed.

Lemma recordFeedback_then_recent_witness :
  let st :=
    set_clock 20000
      (Spec.run_calls Spec.eleven_calls (Spec.fresh_state (js "claude") false)) in
  head (getRecentFeedback (recordFeedback (js "P1") (js "draft") (js "final") st) (js "P1"))
  = Some {| f_productCode := js "P1";
            originalSummary := js "draft";
            correctedSummary := js "final";
            f_createdAt := clock st |}.
Proof.
  intros st.
  apply (recordFeedback_then_recent (js "P1") (js "draft") (js "final") st
           (default [] (aiFeedbackHistoryRef st))).
  - vm_compute. reflexivity.
  - apply (bool_decide_unpack _). vm_compute. reflexivity.
Defined.

End RecentFeedback.

(** ** Reviews added by hand and the collector's counter *)

Section ManualReviews.

Import Collector CollectorApi Server Spec Terms.
Local Open Scope nat_scope.

Lemma add_manual_new reviewData productCode now reviews :
  already_collected reviews (d_platform reviewData) (d_externalId reviewData) = false →
  ∃ newReview,
    add_manual reviewData productCode now reviews = (Some newReview, reviews ++ [newReview])
    ∧ id newReview = (Math_max_ids (id <$> reviews) + 1)%N
    ∧ platform newReview = d_platform reviewData
    ∧ externalId newReview = d_externalId reviewData
    ∧ status newReview = APPROVED
    ∧ matchedProducts newReview
      = [ {| mp_productCode := productCode; matchScore := 100 |} ].
Proof.
  intros Hnew. unfold add_manual. unfold already_collected in Hnew. rewrite Hnew.
  eexists. split_and!; done.
Qed.

(** X30. A review added by hand gets the id above the largest stored
    one, which is new, and gets it without moving the collector's counter.
    When the counter stands just above the largest id, as it does after
    [setReferences] and after every run from there, the next collection
    run that stores anything gives its first review that same id: two
    reviews then share an id. A URL already stored is refused and changes
    nothing. *)
Theorem manual_review_id_reused w st reviews reviewData productCode now :
  snsReviewsRef st = Some reviews →
  nextReviewId st = (Math_max_ids (id <$> reviews) + 1)%N →
  let added := add_manual reviewData productCode now reviews in
  if already_collected reviews (d_platform reviewData) (d_externalId reviewData)
  then added = (None, reviews)
  else
    ∃ newReview,
      added = (Some newReview, reviews ++ [newReview])
      ∧ (id newReview ∉ id <$> reviews)
      ∧ id newReview = nextReviewId (shared_store added.2 st)
      ∧ ∀ run,
          run = collectYouTubeReviews w (shared_store added.2 st)
          ∨ run = collectInstagramReviews w (shared_store added.2 st) →
          0 < collected run.1 →
          ∃ i j r,
            i < j
            ∧ reviews_of run.2 !! i = Some newReview
            ∧ reviews_of run.2 !! j = Some r
            ∧ id r = id newReview
            ∧ status r = PENDING
            ∧ ¬ unique_ids (reviews_of run.2).
Proof.
  intros Href Hnext added. subst added.
  destruct (already_collected reviews _ _) eqn:Hseen.
  { unfold add_manual. unfold already_collected in Hseen. by rewrite Hseen. }
  destruct (add_manual_new reviewData productCode now reviews Hseen)
    as (newReview & -> & Hid & _).
  exists newReview. cbn [snd]. split_and!; try done.
  { rewrite Hid. intros Hin.
    pose proof (Math_max_ids_bound (id <$> reviews)) as Hall.
    rewrite Forall_forall in Hall. specialize (Hall _ Hin). lia. }
  { simpl. congruence. }
  intros run Hrun Hsome.
  set (st' := shared_store (reviews ++ [newReview]) st) in *.
  assert (∃ added,
            reviews_of run.2 = (reviews ++ [newReview]) ++ added
            ∧ collected run.1 = length added
            ∧ id <$> added = ids_from (nextReviewId st) (length added)
            ∧ Forall (λ r, status r = PENDING) added)
    as (more & Hstore & Hcount & Hids & Hpending).
  { destruct Hrun as [-> | ->].
    - destruct (collectYouTubeReviews_run w st') as (more & ? & ? & _ & ? & Hall).
      exists more. split_and!; try done.
      eapply Forall_impl; [done|]. by intros r (p & _ & _ & _ & ? & _).
    - destruct (collectInstagramReviews_run w st') as (more & ? & ? & _ & ? & Hall).
      exists more. split_and!; try done.
      eapply Forall_impl; [done|]. by intros r [(p & _ & _ & _ & ? & _) _]. }
  destruct more as [|r more]; [simpl in Hcount; lia|].
  apply Forall_cons in Hpending as [Hr _].
  assert (id r = id newReview) as Hsame.
  { unfold ids_from in Hids. simpl in Hids. injection Hids as Hr0 _.
    rewrite Hr0, Hid, Hnext. lia. }
  assert (reviews_of run.2 !! length reviews = Some newReview) as Hi.
  { rewrite Hstore, <- app_assoc. by apply list_lookup_middle. }
  assert (reviews_of run.2 !! S (length reviews) = Some r) as Hj.
  { rewrite Hstore. rewrite lookup_app_r by (rewrite length_app; simpl; lia).
    rewrite length_app. simpl.
    replace (S (length reviews) - (length reviews + 1)) with 0 by lia. done. }
  exists (length reviews), (S (length reviews)), r. split_and!; try done; [lia|].
  unfold unique_ids. intros Hnd.
  apply (NoDup_lookup _ (length reviews) (S (length reviews)) (id newReview)) in Hnd.
  - lia.
  - by rewrite list_lookup_fmap, Hi.
  - by rewrite list_lookup_fmap, Hj, <- Hsame.
Qed.

Lemma manual_review_id_reused_witness :
  let reviews := [approved 7 (js "Great serum") []] in
  let st := setReferences reviews [serum_product] true collector_start in
  let now := js "2025-01-02T00:00:00.000Z" in
  let added := add_manual (basic_youtube_data (js "abc123") now) (js "P1") now reviews in
  let run := collectYouTubeReviews (world_with 3) (shared_store added.2 st) in
  ¬ unique_ids (reviews_of run.2).
Proof.
  intros reviews st now added run.
  pose proof (manual_review_id_reused (world_with 3) st reviews
                (basic_youtube_data (js "abc123") now) (js "P1") now eq_refl eq_refl)
    as Hreused.
  change (already_collected reviews _ _) with false in Hreused. cbv iota in Hreused.
  destruct Hreused as (newReview & _ & _ & _ & Hrun).
  destruct (Hrun run) as (i & j & r & _ & _ & _ & _ & _ & Hdup).
  - by left.
  - vm_compute. lia.
  - exact Hdup.
Defined.

End ManualReviews.
